(* ===== verification/_CoqProject ===== *)
-Q . S2P
Prelude.v
CLib.v
Codec.v
Utf8.v
Numbers.v
DateTime.v
IsoTime.v
Strings.v
StringObj.v
StringLaws.v
StringHeap.v
Linked.v
LinkedLaws.v
Named.v
NamedLaws.v
TreeLaws.v
Condition.v
ConditionLaws.v
Memory.v
MemoryLaws.v
Pager.v
PagerLaws.v
Xml.v
XmlLaws.v
Keydata.v
KeydataLaws.v
KeyfileLaws.v
Cidr.v
CidrLaws.v
Typeref.v
TyperefLaws.v
TyperefValues.v
TyperefRuns.v
ArrayRef.v
ArrayRefLaws.v
ArrayRefRuns.v
Persist.v
PersistLaws.v
PersistReads.v
Shell.v
ShellLaws.v
ShellText.v
ShellWords.v
Mapref.v
MaprefLaws.v
MaprefRuns.v
MaprefSteps.v
Timers.v
TimerLaws.v
