(* ===== verification/Prelude.v ===== *)
(** * A verification library for GNU uCommon C++

    GNU uCommon C++ is a C++ class library for threads, memory, containers, texts
    and sockets.  Its own logic lies in [src/corelib] with the headers of
    [src/inc/ucommon]; [src/commoncpp] keeps the older Common C++ classes on top.
    This library models the parts of it that compute.  Every definition follows the
    source line by line, its faults included, and is executable.

    ** The files

    A file named like a component holds its definitions; [...Laws] has what holds of
    the operations one by one, [...Runs] what holds of programs or of threads.

    - [Prelude]: machine integers with their wrap-around, blocks of memory ([rd],
      [wr], [blit]; outside of a block is [None]), lemmas and tactics for all.
    - [CLib]: the functions of the C library the sources call.

    Texts and numbers:
    - [Codec] (corelib/string.cpp): [Base64], [Hex] and [Crc], the static coders of
      String.  Round trips, bounds of what is stored, error detection.
    - [Utf8] (corelib/unicode.cpp): [utf8] and [utf8_pointer].  Round trip of a code,
      and the functions on an encoded text as functions of its list of codes.
    - [Numbers] (corelib/numbers.cpp): [Number] and [ZNumber], digits in place.
    - [DateTime], [IsoTime] (corelib/datetime.cpp, corelib/stream.cpp): [Date],
      [Time], [DateTime], [DateTimeString] and the input filter [isotime].  The
      calendar is a bijection up to the last day whose conversion fits in an int,
      texts round trip, typed texts are read.
    - [Strings] (corelib/string.cpp): [Str], the static functions on C texts.
    - [StringObj] (corelib/string.cpp, corelib/object.cpp): the reference counted
      String on a heap of cells; [StringLaws] has the calls one by one, and
      [StringHeap] shows that no program of String calls breaks a reference count or
      leaks, what each call leaves, and that a change is seen by no other String
      except where the source writes in place.  A [paste] into a String without a cell
      makes one that it does not retain; programs with that call are left out, and
      [StringHeap.paste_not_retained] runs one.
    - [Xml] (commoncpp/xml.cpp): [XMLParser]; [XmlLaws] shows that a printed document
      is reported as it was, whatever the buffer holds, and that a document may come
      in pieces.
    - [Keydata] (corelib/keydata.cpp): [keydata] and [keyfile]; [KeydataLaws] shows the
      dictionary of a section, [KeyfileLaws] the round trip through a file.
    - [Shell] (corelib/shell.cpp): options and the command line, [ShellLaws] that
      printed options are parsed to their values and which errors are reported;
      [ShellText]: command texts, help, typed lines, symbols, and [ShellWords] what
      they come to.

    Memory and objects:
    - [Memory] (corelib/memory.cpp): [memalloc], pieces of pages; [MemoryLaws] shows
      that they are aligned and do not overlap, and when a request fails.
    - [Pager] (corelib/memory.cpp): [StringPager] and [ObjectPager]; [PagerLaws] shows
      the list of texts behind a StringPager, its sort, and the round trip of [join]
      and [token].
    - [Linked] (corelib/linked.cpp): [LinkedObject], [OrderedObject],
      [OrderedIndex], [DLinkedObject] on one heap of nodes; [LinkedLaws] shows the
      lists behind the links.
    - [Named] (corelib/linked.cpp): [NamedObject], [NamedTree]; [NamedLaws] shows that
      the hash index refines a finite map, [TreeLaws] that the searches are those of
      a forest and end.
    - [Typeref] (corelib/typeref.cpp): references to counted objects, of texts and of
      bytes; [TyperefLaws], [TyperefValues] and [TyperefRuns] show exact counts, the
      values, and that the end of a program leaves nothing behind.  A reference set
      to itself or to its own text, and [concat] on a null one, are left out and run
      on inputs where they fail.
    - [ArrayRef] (corelib/arrayref.cpp): shared arrays, stacks and queues;
      [ArrayRefLaws] and [ArrayRefRuns] show that threads refine an abstract machine
      and lose no wake up.
    - [Mapref] (corelib/mapref.cpp): shared maps and lists; [MaprefLaws],
      [MaprefRuns] show that they are finite maps, [MaprefSteps] goes through one.
    - [Persist] (commoncpp/persist.cpp): [PersistEngine] and [TypeManager];
      [PersistLaws] shows the round trip of object graphs with sharing and cycles,
      [PersistReads] that reading any stream ends, and the exceptions.

    Threads and time:
    - [Condition] (corelib/condition.cpp): [ConditionalAccess], [Semaphore],
      [Barrier], [ConditionalLock] as monitors, and systems of threads as step
      functions; [ConditionLaws] shows exclusion, progress and bounds over all
      interleavings.
    - [Timers] (corelib/timer.cpp): [Timer], [TimerQueue] and its events; [TimerLaws]
      shows deadlines, and that a call of [expire] visits every event once, whatever
      the clock shows and the events do to the queue short of deleting one.

    Network:
    - [Cidr] (corelib/socket.cpp): network policies; [CidrLaws] shows that a policy is
      an interval of addresses, and which policy of a list is found.

    ** How the parts meet

    [Str] serves the String objects, the pager's [token] and the key files.  The
    pager and the key files take their memory from [memalloc] through [alloc] and the
    result monad of [Memory]; [MemoryLaws.alloc_spec], its weaker form [alloc_cases]
    and [alloc_served] are what they know of it.  The tree, the hash index, the shared
    maps and the timer queues share the nodes of [Linked].  Arrays and maps hold the
    counted objects of [Typeref], with its invariant on the counts.  What lies outside
    of the sources is a class with its documented laws: [Malloc] (bytes of a new
    block), [PageSource] (places of pages), [Collate] (strcoll), [TextSort] (qsort),
    [Clock] (time and time zone), [Inet] (texts of addresses); each has a concrete
    instance that the witnesses use.  The methods of a program that the sources call
    back ([update], [modify] and [expired] of timers, the members of a persistent
    class) are arguments of the definitions.

    ** Conventions

    A result of [None] is undefined behaviour or fuel that ran out, in [Date.civil] a
    double that no int holds; the theorems show that none of these happens under their
    hypotheses.  The persistence engine tells both apart, [Undefined] from [OutOfFuel],
    since it reads what anybody may have written.  Loops over a text recurse on it.
    Fuels: the number of nodes plus one for chains ([Linked.chain_fuel]); the length
    plus one for a text in a buffer, the characters of a split text and the arguments
    of a command line; the length of the file plus two for [load]; seven steps for the
    rounding loop of [memalloc]; one step for each object plus one to write a graph,
    and one more than the bytes left to read one.  Words lie in memory with the low
    byte first.  Exceptions are values, such as those of [Memory.error].  A step of a
    system of threads runs one thread from one point where a mutex is given up to the
    next.  Where a function of the source fails on some input, a lemma next to its
    theorems runs it on one.

    ** Not modelled

    System calls and thin classes around them: sockets, files and directories (fsys,
    commoncpp/file.cpp, dir.cpp), serial lines, processes and pipes, shared memory,
    loading of modules, logs, regular expressions, threads themselves with their
    mutexes, the atomic operations of the compiler.  The templates of the headers that
    only convert types.  The network classes of Common C++ over sockets (tcp, udp,
    dccp, address), its threads, tables and MIME documents.  Socket addresses, stream
    buffers, pools of objects and shared pointers.  Ciphers, digests and random numbers,
    which a TLS library or the code of src/nossl provides, the programs of utils, the
    tests, ports to Windows. *)

From stdpp Require Export base numbers list option.
From Stdlib Require Export ZArith Lia.

#[global] Open Scope Z_scope.

(** ** Machine integers

    Integers are [Z]; each arithmetic step the source does at a fixed width is
    followed by the wrap-around of its type. *)

Definition u8 (z : Z) : Z := z mod 2 ^ 8.
Definition u16 (z : Z) : Z := z mod 2 ^ 16.
Definition u32 (z : Z) : Z := z mod 2 ^ 32.
Definition u64 (z : Z) : Z := z mod 2 ^ 64.
Definition s32 (z : Z) : Z := (z + 2 ^ 31) mod 2 ^ 32 - 2 ^ 31.

Definition is_byte (b : Z) : Prop := 0 <= b < 256.

#[export] Instance is_byte_dec b : Decision (is_byte b).
Proof. unfold is_byte. apply _. Defined.

Create HintDb uc.
Create Rewrite HintDb zlen.

Lemma u8_id z : is_byte z -> u8 z = z.
Proof. unfold is_byte, u8. intros. apply Z.mod_small. lia. Qed.

Lemma u8_byte z : is_byte (u8 z).
Proof. unfold is_byte, u8. pose proof (Z.mod_pos_bound z (2 ^ 8) eq_refl). lia. Qed.

Lemma u32_id z : 0 <= z < 2 ^ 32 -> u32 z = z.
Proof. intros. apply Z.mod_small. lia. Qed.

Lemma u64_id z : 0 <= z < 2 ^ 64 -> u64 z = z.
Proof. intros. apply Z.mod_small. lia. Qed.

Lemma s32_id z : - 2 ^ 31 <= z < 2 ^ 31 -> s32 z = z.
Proof. intros. unfold s32. rewrite Z.mod_small; lia. Qed.

#[export] Hint Resolve u8_byte : uc.

(** ** Bit arithmetic *)

Lemma shiftr_div z n : 0 <= n -> Z.shiftr z n = z / 2 ^ n.
Proof. intros. by apply Z.shiftr_div_pow2. Qed.

Lemma shiftl_mul z n : 0 <= n -> Z.shiftl z n = z * 2 ^ n.
Proof. intros. by apply Z.shiftl_mul_pow2. Qed.

(** A test of the topmost bit of a value that fits in [k + 1] bits. *)
Lemma land_top_bit z k :
  0 <= k -> 0 <= z < 2 ^ (k + 1) -> (Z.land z (2 ^ k) = 0 <-> z < 2 ^ k).
Proof.
  intros Hk Hz.
  assert (Hb : Z.testbit z k = negb (z <? 2 ^ k)).
  { rewrite Z.testbit_eqb by lia.
    assert (2 ^ (k + 1) = 2 * 2 ^ k) as E by (rewrite Z.pow_add_r by lia; lia).
    destruct (Z.ltb_spec z (2 ^ k)) as [Hl|Hl]; cbn.
    - rewrite Z.div_small by lia. done.
    - assert (z / 2 ^ k = 1) as ->; [|done].
      symmetry. apply Z.div_unique with (z - 2 ^ k); lia. }
  split; intros H.
  - destruct (Z.ltb_spec z (2 ^ k)) as [Hl|Hl]; [lia|].
    assert (Z.testbit (Z.land z (2 ^ k)) k = false) as Hc
      by (rewrite H; apply Z.testbit_0_l).
    rewrite Z.land_spec, Hb, Z.pow2_bits_true in Hc by lia. done.
  - apply Z.bits_inj_iff'. intros i Hi. rewrite Z.testbit_0_l, Z.land_spec.
    destruct (Z.eq_dec i k) as [->|Hne].
    + rewrite Hb. destruct (Z.ltb_spec z (2 ^ k)); [done|lia].
    + rewrite (Z.pow2_bits_false k i) by lia. by rewrite andb_false_r.
Qed.

(** Splitting a sum at a power of two: the low part is below the power. *)
Lemma split_low h l k :
  0 <= k -> 0 <= l < 2 ^ k ->
  (h * 2 ^ k + l) / 2 ^ k = h /\ (h * 2 ^ k + l) mod 2 ^ k = l.
Proof.
  intros Hk Hl. split.
  - rewrite Z.div_add_l by lia. rewrite Z.div_small; lia.
  - rewrite Z.add_comm, Z.mod_add by lia. by apply Z.mod_small.
Qed.

(** ** Blocks of memory

    A block is the list of the bytes of one C object.  An access outside of it
    is undefined behaviour, which the definitions report as [None]. *)

Definition rd {A} (b : list A) (i : Z) : option A :=
  if i <? 0 then None else b !! Z.to_nat i.

Definition wr {A} (b : list A) (i : Z) (v : A) : option (list A) :=
  if (0 <=? i) && (i <? Z.of_nat (length b))
  then Some (<[Z.to_nat i := v]> b) else None.

(** [memcpy (b + dst, s, |s|)] *)
Definition blit {A} (b : list A) (dst : Z) (s : list A) : option (list A) :=
  if (0 <=? dst) && (dst + Z.of_nat (length s) <=? Z.of_nat (length b))
  then Some (take (Z.to_nat dst) b ++ s ++ drop (Z.to_nat dst + length s) b)
  else None.

(** The [n] bytes of the block from [i] on. *)
Definition slice {A} (b : list A) (i n : Z) : option (list A) :=
  if (0 <=? i) && (0 <=? n) && (i + n <=? Z.of_nat (length b))
  then Some (take (Z.to_nat n) (drop (Z.to_nat i) b)) else None.

(** [memmove (b + dst, b + src, n)]: the source is read before the target is
    written. *)
Definition memmove {A} (b : list A) (dst src n : Z) : option (list A) :=
  s ← slice b src n; blit b dst s.

Definition zlen {A} (l : list A) : Z := Z.of_nat (length l).

Arguments rd : simpl never.
Arguments wr : simpl never.
Arguments blit : simpl never.
Arguments slice : simpl never.
Arguments memmove : simpl never.
Arguments zlen : simpl never.

Lemma zlen_nonneg {A} (l : list A) : 0 <= zlen l.
Proof. unfold zlen. lia. Qed.

Lemma zlen_nil {A} : zlen (@nil A) = 0.
Proof. done. Qed.

Lemma zlen_cons {A} (x : A) l : zlen (x :: l) = zlen l + 1.
Proof. unfold zlen. cbn. lia. Qed.

Lemma zlen_app {A} (l k : list A) : zlen (l ++ k) = zlen l + zlen k.
Proof. unfold zlen. rewrite length_app. lia. Qed.

Lemma zlen_to_nat {A} (l : list A) : Z.to_nat (zlen l) = length l.
Proof. apply Nat2Z.id. Qed.

Lemma zlen_take {A} n (l : list A) :
  0 <= n <= zlen l -> zlen (take (Z.to_nat n) l) = n.
Proof. unfold zlen. intros. rewrite length_take. lia. Qed.

Lemma zlen_drop {A} n (l : list A) :
  0 <= n <= zlen l -> zlen (drop (Z.to_nat n) l) = zlen l - n.
Proof. unfold zlen. intros. rewrite length_drop. lia. Qed.

#[export] Hint Rewrite @zlen_nil @zlen_cons @zlen_app : zlen.
#[export] Hint Resolve zlen_nonneg : uc.

Section blocks.
Context {A : Type}.
Implicit Types (b p s r : list A) (i n : Z).

Lemma rd_app_r p r i : i = zlen p -> rd (p ++ r) i = r !! 0%nat.
Proof.
  intros ->. unfold rd, zlen. destruct (Z.ltb_spec (Z.of_nat (length p)) 0); [lia|].
  rewrite Nat2Z.id, lookup_app_r by lia. by rewrite Nat.sub_diag.
Qed.

Lemma wr_app_r p r i x y : i = zlen p -> wr (p ++ x :: r) i y = Some (p ++ y :: r).
Proof.
  intros ->. unfold wr, zlen. rewrite length_app. cbn.
  destruct (Z.leb_spec 0 (Z.of_nat (length p))); [|lia].
  destruct (Z.ltb_spec (Z.of_nat (length p)) (Z.of_nat (length p + S (length r)))); [|lia].
  cbn. rewrite Nat2Z.id, insert_app_r_alt by lia. by rewrite Nat.sub_diag.
Qed.

Lemma slice_mid p s r i n :
  i = zlen p -> n = zlen s -> slice (p ++ s ++ r) i n = Some s.
Proof.
  intros -> ->. unfold slice, zlen. rewrite !length_app.
  repeat match goal with |- context [?a <=? ?b] =>
    destruct (Z.leb_spec a b); [|lia] end.
  cbn. by rewrite !Nat2Z.id, drop_app_length, take_app_length.
Qed.

Lemma blit_mid p s s' r i :
  i = zlen p -> length s' = length s -> blit (p ++ s ++ r) i s' = Some (p ++ s' ++ r).
Proof.
  intros -> Hs. unfold blit, zlen. rewrite !length_app.
  repeat match goal with |- context [?a <=? ?b] =>
    destruct (Z.leb_spec a b); [|lia] end.
  cbn. rewrite !Nat2Z.id, take_app_length, (app_assoc p s r).
  by rewrite drop_app_length' by (rewrite length_app; lia).
Qed.

Lemma wr_length b i v b' : wr b i v = Some b' -> length b' = length b.
Proof.
  unfold wr. destruct (_ && _); [|done]. intros [= <-]. apply length_insert.
Qed.

Lemma blit_length b i s b' : blit b i s = Some b' -> length b' = length b.
Proof.
  unfold blit. destruct (Z.leb_spec 0 i); [|done]. cbn.
  destruct (Z.leb_spec (i + Z.of_nat (length s)) (Z.of_nat (length b))); [|done].
  intros [= <-]. rewrite !length_app, length_take, length_drop. lia.
Qed.
End blocks.

(** A block cut at an in-range position. *)
Lemma block_split {A} (b : list A) n :
  0 <= n <= zlen b -> exists p r, b = p ++ r /\ zlen p = n.
Proof.
  intros Hn. exists (take (Z.to_nat n) b), (drop (Z.to_nat n) b).
  split; [by rewrite take_drop|]. by apply zlen_take.
Qed.

(** ** Automation

    [uc_cases] splits on the integer tests of the goal and drops the branches
    [lia] refutes. *)
Ltac uc_cases :=
  repeat (match goal with
  | |- context [?a <? ?b] => destruct (Z.ltb_spec a b); try lia
  | |- context [?a <=? ?b] => destruct (Z.leb_spec a b); try lia
  | |- context [?a =? ?b] => destruct (Z.eqb_spec a b); try lia
  end; cbn [andb orb negb]).

Ltac uc_len := autorewrite with zlen in *; unfold zlen in *; cbn [length] in *;
  rewrite ?length_app, ?length_take, ?length_drop, ?length_replicate in *;
  cbn [length] in *; lia.

(** A shifted value and a value below the shift do not overlap. *)
Lemma lor_shiftl_add a b k :
  0 <= k -> 0 <= b < 2 ^ k -> Z.lor (Z.shiftl a k) b = a * 2 ^ k + b.
Proof.
  intros Hk Hb. rewrite <- (shiftl_mul a k Hk). symmetry. apply Z.add_nocarry_lor.
  apply Z.bits_inj_iff'. intros i Hi. rewrite Z.testbit_0_l, Z.land_spec.
  destruct (Z.lt_ge_cases i k) as [Hl|Hl].
  - by rewrite Z.shiftl_spec_low.
  - rewrite <- (Z.mod_small b (2 ^ k)) by lia.
    rewrite Z.mod_pow2_bits_high by lia. by rewrite andb_false_r.
Qed.

(** Values of [w] bits are closed under xor. *)
Lemma lxor_range w s t :
  0 <= w -> 0 <= s < 2 ^ w -> 0 <= t < 2 ^ w -> 0 <= Z.lxor s t < 2 ^ w.
Proof.
  intros Hw Hs Ht. assert (0 <= Z.lxor s t) by (apply Z.lxor_nonneg; lia).
  split; [done|]. rewrite <- (Z.mod_small s (2 ^ w)), <- (Z.mod_small t (2 ^ w)) by done.
  replace (Z.lxor (s mod 2 ^ w) (t mod 2 ^ w)) with (Z.lxor s t mod 2 ^ w).
  - apply Z.mod_pos_bound. lia.
  - apply Z.bits_inj_iff'. intros i Hi.
    rewrite Z.lxor_spec, !Z.testbit_mod_pow2, Z.lxor_spec by done. by destruct (i <? w).
Qed.

(** Undo a known xor mask. *)
Lemma lxor_cancel x y m : Z.lxor x m = Z.lxor y m -> x = y.
Proof.
  intros E%(f_equal (fun v => Z.lxor v m)).
  by rewrite !Z.lxor_assoc, Z.lxor_nilpotent, !Z.lxor_0_r in E.
Qed.

(** A property of every byte (or of every value below a small bound) that
    evaluation decides. *)
Definition below (n : nat) (p : Z -> bool) : bool :=
  forallb (fun i => p (Z.of_nat i)) (seq 0 n).

Lemma below_spec n p z : below n p = true -> 0 <= z < Z.of_nat n -> p z = true.
Proof.
  intros H Hz. unfold below in H. rewrite forallb_forall in H.
  rewrite <- (Z2Nat.id z) by lia. apply (H (Z.to_nat z)).
  apply List.in_seq. lia.
Qed.

(** Linear arithmetic with constant divisors. *)
Ltac dlia := Z.div_mod_to_equations; lia.

Lemma rd_cons_0 {A} (x : A) l : rd (x :: l) 0 = Some x.
Proof. done. Qed.

Lemma rd_cons_pos {A} (x : A) l i : 0 < i -> rd (x :: l) i = rd l (i - 1).
Proof.
  intros. unfold rd. uc_cases.
  by replace (Z.to_nat i) with (S (Z.to_nat (i - 1))) by lia.
Qed.

(** Split the [Forall] hypotheses over the cells of a list. *)
Ltac inv_forall :=
  repeat match goal with
  | H : Forall _ (_ :: _) |- _ => apply List.Forall_cons_iff in H; destruct H
  | H : Forall _ [] |- _ => clear H
  | H : Forall _ (_ ++ _) |- _ => apply Forall_app in H; destruct H
  end.

(** A small range, as the naturals that fill it. *)
Lemma z_below k z : 0 <= z < Z.of_nat k -> exists i, (i < k)%nat /\ z = Z.of_nat i.
Proof. exists (Z.to_nat z). lia. Qed.

(** Run the next step of a computation in the option monad.  The bind stays
    folded, so that nothing behind the step is evaluated. *)
Lemma bind_Some {A B} (x : A) (f : A -> option B) : (Some x ≫= f) = f x.
Proof. done. Qed.

Lemma bind_None {A B} (f : A -> option B) : (None ≫= f) = None.
Proof. done. Qed.

Ltac run := rewrite ?bind_Some, ?bind_None; cbv beta iota.

(** Equality of results built from options, pairs and lists: the leaves. *)
Ltac leaves :=
  repeat match goal with
  | |- Some _ = Some _ => f_equal
  | |- (_, _) = (_, _) => f_equal
  | |- _ :: _ = _ :: _ => f_equal
  end; try done.

(** Right-nested appends. *)
Ltac apps := cbn [app]; repeat (rewrite <- app_assoc; cbn [app]).
