(* ===== verification/CLib.v ===== *)
(** * The C library functions the sources call

    Characters are bytes 0..255; the classification functions are those of the
    "C" locale.  A [const char *] argument is the list of the characters before
    its terminator; a [char *] that is written is a block ([Prelude]). *)

From stdpp Require Import strings.
From S2P Require Import Prelude.

(** Source literals. *)
Definition bytes (s : string) : list Z :=
  map (fun c => Z.of_nat (Ascii.nat_of_ascii c)) (String.list_ascii_of_string s).

Definition nonul (s : list Z) : Prop := Forall (fun c => c <> 0) s.

#[export] Instance nonul_dec s : Decision (nonul s).
Proof. unfold nonul. apply _. Defined.

(** ** <ctype.h> *)

Definition isdigit (c : Z) : bool := (48 <=? c) && (c <=? 57).
Definition isupper (c : Z) : bool := (65 <=? c) && (c <=? 90).
Definition islower (c : Z) : bool := (97 <=? c) && (c <=? 122).
Definition isalnum (c : Z) : bool := isdigit c || isupper c || islower c.
Definition isspace (c : Z) : bool := ((9 <=? c) && (c <=? 13)) || (c =? 32).
Definition toupper (c : Z) : Z := if islower c then c - 32 else c.
Definition tolower (c : Z) : Z := if isupper c then c + 32 else c.

(** ** <string.h> *)

(** The characters of the string a block starts with; [None] when the scan for
    the terminator leaves the block. *)
Fixpoint cstr (b : list Z) : option (list Z) :=
  match b with
  | [] => None
  | c :: b' => if c =? 0 then Some [] else cons c <$> cstr b'
  end.

Definition strlen (b : list Z) : option Z := zlen <$> cstr b.

(** [strchr (s, c)] as an offset: the terminator itself is found by [c = 0]. *)
Fixpoint strchr (s : list Z) (c : Z) : option Z :=
  match s with
  | [] => if c =? 0 then Some 0 else None
  | x :: s' => if x =? c then Some 0 else Z.succ <$> strchr s' c
  end.

Fixpoint strrchr (s : list Z) (c : Z) : option Z :=
  match s with
  | [] => if c =? 0 then Some 0 else None
  | x :: s' =>
      match strrchr s' c with
      | Some i => Some (i + 1)
      | None => if x =? c then Some 0 else None
      end
  end.

(** [strchr (s, c) != NULL] *)
Definition in_set (s : list Z) (c : Z) : bool :=
  match strchr s c with Some _ => true | None => false end.

(** [strncmp (a, b, n) == 0] for terminated strings. *)
Fixpoint eqn (a b : list Z) (n : nat) {struct n} : bool :=
  match n with
  | O => true
  | S n' =>
      match a, b with
      | [], [] => true
      | x :: a', y :: b' => (x =? y) && eqn a' b' n'
      | _, _ => false
      end
  end.

(** [strcmp]: the difference of the first characters that differ, read as
    unsigned. *)
Fixpoint strcmp (a b : list Z) : Z :=
  match a, b with
  | [], [] => 0
  | x :: _, [] => x
  | [], y :: _ => - y
  | x :: a', y :: b' => if x =? y then strcmp a' b' else x - y
  end.

(** [strstr]: the offset of the first occurrence. *)
Fixpoint strstr (s t : list Z) : option Z :=
  if eqn s t (length t) then Some 0
  else match s with [] => None | _ :: s' => Z.succ <$> strstr s' t end.

(** [strncpy (_, b, n)]: the bytes stored. *)
Fixpoint strncpy (b : list Z) (n : nat) {struct n} : option (list Z) :=
  match n with
  | O => Some []
  | S m =>
      match b with
      | [] => None
      | c :: b' => if c =? 0 then Some (replicate n 0) else cons c <$> strncpy b' m
      end
  end.

(** [strtol (s, &end, 10)] restricted to an unsigned digit sequence: the value
    and the rest (the callers test [isdigit] first). *)
Fixpoint digits (s : list Z) (acc : Z) : Z * list Z :=
  match s with
  | c :: s' => if isdigit c then digits s' (acc * 10 + (c - 48)) else (acc, s)
  | [] => (acc, [])
  end.

(** [atol]: white space, a sign, digits. *)
Fixpoint skip_space (s : list Z) : list Z :=
  match s with c :: s' => if isspace c then skip_space s' else s | [] => [] end.

Definition atol (s : list Z) : Z :=
  match skip_space s with
  | 45 :: s' => - (digits s' 0).1
  | 43 :: s' => (digits s' 0).1
  | s' => (digits s' 0).1
  end.

(** ** Lemmas *)

Lemma cstr_app s r : nonul s -> cstr (s ++ 0 :: r) = Some s.
Proof.
  induction 1 as [|c s Hc Hs IH]; [done|]. cbn.
  destruct (Z.eqb_spec c 0); [done|]. by rewrite IH.
Qed.

Lemma cstr_inv b s : cstr b = Some s -> nonul s /\ exists r, b = s ++ 0 :: r.
Proof.
  revert s. induction b as [|c b IH]; [done|]. cbn. intros s.
  destruct (Z.eqb_spec c 0) as [->|Hc].
  - intros [= <-]. split; [constructor|]. by exists b.
  - destruct (cstr b) as [s'|]; [|done]. cbn. intros [= <-].
    destruct (IH s' eq_refl) as [Hs [r ->]]. split; [by constructor|]. by exists r.
Qed.

Lemma strlen_app s r : nonul s -> strlen (s ++ 0 :: r) = Some (zlen s).
Proof. intros. unfold strlen. by rewrite cstr_app. Qed.

Lemma in_set_spec s c : in_set s c = true <-> c = 0 \/ c ∈ s.
Proof.
  unfold in_set. induction s as [|x s IH]; cbn.
  - destruct (Z.eqb_spec c 0); [tauto|]. rewrite list_elem_of_In. cbn. split; [done|tauto].
  - rewrite elem_of_cons. destruct (Z.eqb_spec x c) as [->|Hx]; [tauto|].
    assert (c <> x) by congruence.
    destruct (strchr s c); cbn in *; tauto.
Qed.

Lemma in_set_nonul s c : c <> 0 -> in_set s c = true <-> c ∈ s.
Proof. intros. rewrite in_set_spec. tauto. Qed.

Lemma nonul_app s t : nonul (s ++ t) <-> nonul s /\ nonul t.
Proof. apply Forall_app. Qed.

Lemma eqn_prefix s t : eqn s t (length t) = true <-> exists r, s = t ++ r.
Proof.
  revert s. induction t as [|y t IH]; intros s; cbn.
  - split; [by exists s|done].
  - destruct s as [|x s].
    + split; [done|]. intros [r Hr]. discriminate.
    + rewrite andb_true_iff, Z.eqb_eq, IH. split.
      * intros [-> [r ->]]. by exists r.
      * intros [r [= -> ->]]. split; [done|by exists r].
Qed.

Lemma strcmp_eq a b : nonul a -> nonul b -> strcmp a b = 0 <-> a = b.
Proof.
  intros Ha. revert b. induction Ha as [|x a Hx Ha IH]; intros b Hb;
    destruct Hb as [|y b Hy Hb]; cbn; try (split; [intros; exfalso; lia|done]).
  - done.
  - destruct (Z.eqb_spec x y) as [->|Hne].
    + rewrite IH by done. split; congruence.
    + split; [intros; exfalso; lia|congruence].
Qed.

#[export] Hint Resolve cstr_app strlen_app : uc.

Lemma strchr_mid x c r : c ∉ x -> strchr (x ++ c :: r) c = Some (zlen x).
Proof.
  induction x as [|d x IH]; intros Hc; cbn; [by rewrite Z.eqb_refl|].
  rewrite not_elem_of_cons in Hc. destruct (Z.eqb_spec d c); [by destruct Hc|].
  rewrite IH by tauto. cbn. f_equal. unfold zlen. cbn [length]. lia.
Qed.

Lemma strchr_none x c : c <> 0 -> c ∉ x -> strchr x c = None.
Proof.
  induction x as [|d x IH]; intros Hz Hc; cbn.
  - by destruct (Z.eqb_spec c 0).
  - rewrite not_elem_of_cons in Hc. destruct (Z.eqb_spec d c); [by destruct Hc|]. by rewrite IH by tauto.
Qed.

Lemma avoid_notin (w : list Z) c : Forall (fun x => x <> c) w -> c ∉ w.
Proof. rewrite list.Forall_forall. intros H Hc. by apply (H c). Qed.

Lemma atol_digit c s : isdigit c = true -> atol (c :: s) = (digits (c :: s) 0).1.
Proof.
  unfold isdigit. intros H. assert (Hc : c = 48 \/ c = 49 \/ c = 50 \/ c = 51 \/ c = 52 \/
    c = 53 \/ c = 54 \/ c = 55 \/ c = 56 \/ c = 57) by lia.
  clear H. repeat destruct Hc as [->|Hc]; subst; reflexivity.
Qed.
