(* ===== verification/Codec.v ===== *)
(** * Base64, hexadecimal and CRC coding (corelib/string.cpp)

    [Base64], [Hex] and [Crc] model the static coders of [String].  A routine
    that stores through an advancing pointer returns the list of the bytes it
    stores, in order; a routine that reads a binary block is given the bytes
    of that block and answers [None] when it reads past them. *)

From stdpp Require Import strings.
From S2P Require Import Prelude CLib.

Module Base64.

Definition alphabet : list Z :=
  bytes "ABCDEFGHIJKLMNOPQRSTUVWXYZabcdefghijklmnopqrstuvwxyz0123456789+/".

(** [alphabet[i]] *)
Definition letter (i : Z) : Z := nth (Z.to_nat i) alphabet 0.

(** The 256-entry table the decoders build on their stack. *)
Definition decoder_table : list Z :=
  foldl (fun d i => <[Z.to_nat (letter (Z.of_nat i)) := Z.of_nat i]> d)
    (replicate 256 64) (seq 0 64).

Definition decoder (c : Z) : Z := nth (Z.to_nat c) decoder_table 0.

Arguments letter : simpl never.
Arguments decoder : simpl never.

(** [(size * 4 / 3) + 4] in [size_t] *)
Definition b64size (size : Z) : Z := u64 (u64 (size * 4) / 3 + 4).

(** After the whole groups: the one or two bytes left and their padding. *)
Definition encode_tail (bin : list Z) (size dsize count : Z) : option (list Z * Z) :=
  if negb (size =? 0) && (4 <? dsize) then
    b0 ← rd bin 0;
    let bits := Z.shiftl b0 16 in
    if size =? 1 then
      Some ([letter (Z.shiftr bits 18); letter (Z.land (Z.shiftr bits 12) 63); 61; 61],
            count + 1)
    else
      b1 ← rd bin 1;
      let bits' := Z.lor bits (Z.shiftl b1 8) in
      Some ([letter (Z.shiftr bits 18); letter (Z.land (Z.shiftr bits' 12) 63);
             letter (Z.land (Z.shiftr bits' 6) 63); 61], count + 1 + 1)
  else Some ([], count).

(** The loop over groups of three bytes. *)
Fixpoint encode_loop (bin : list Z) (size dsize count : Z) : option (list Z * Z) :=
  if (3 <=? size) && (4 <? dsize) then
    match bin with
    | b0 :: b1 :: b2 :: bin' =>
        let bits := Z.lor (Z.lor (Z.shiftl b0 16) (Z.shiftl b1 8)) b2 in
        '(out, n) ← encode_loop bin' (size - 3) (dsize - 4) (count + 3);
        Some (letter (Z.shiftr bits 18) :: letter (Z.land (Z.shiftr bits 12) 63)
              :: letter (Z.land (Z.shiftr bits 6) 63) :: letter (Z.land bits 63)
              :: out, n)
    | _ => None
    end
  else encode_tail bin size dsize count.

Definition b64encode (bin : list Z) (size dsize : Z) : option (list Z * Z) :=
  let dsize := if dsize =? 0 then b64size size else dsize in
  if (dsize =? 0) || (size =? 0) then Some ([0], 0)
  else '(out, n) ← encode_loop bin size dsize 0; Some (out ++ [0], n).

(** [String::b64]: the capacity of the string that receives the text. *)
Definition b64_capacity (size : Z) : Z := u64 (u64 (size * 4) / 3 + 1).

(** The scanning loop of [b64decode]: the bytes stored, the bit register, the
    characters consumed and the room left. *)
Fixpoint decode_loop (src : list Z) (ws : bool) (bits count size : Z)
    : list Z * (Z * Z * Z) :=
  match src with
  | [] => ([], (bits, count, size))
  | c :: src' =>
      if isspace c then
        if ws then decode_loop src' ws bits (count + 1) size
        else ([], (bits, count, size))
      else if c =? 61 then
        let count := count + 1 in
        match src' with
        | 61 :: _ => ([], (bits, count + 1, size))
        | _ => ([], (bits, count, size))
        end
      else if decoder c =? 64 then ([], (bits, count, size))
      else
        let count := count + 1 in
        let bits := u64 (u64 (Z.shiftl bits 6) + decoder c) in
        if negb (Z.land bits 16777216 =? 0) then
          if size <? 3 then ([], (1, count, size))
          else
            let '(out, r) := decode_loop src' ws 1 count (size - 3) in
            (Z.land (Z.shiftr bits 16) 255 :: Z.land (Z.shiftr bits 8) 255
             :: Z.land bits 255 :: out, r)
        else decode_loop src' ws bits count size
  end.

(** The bytes still in the register when the scan ends. *)
Definition decode_tail (bits size : Z) : list Z :=
  if negb (Z.land bits 262144 =? 0) then
    if 2 <=? size then [Z.land (Z.shiftr bits 10) 255; Z.land (Z.shiftr bits 2) 255]
    else []
  else if negb (Z.land bits 4096 =? 0) && negb (size =? 0)
       then [Z.land (Z.shiftr bits 4) 255]
  else [].

Definition b64decode (src : list Z) (size : Z) (ws : bool) : list Z * Z :=
  let '(out, (bits, count, room)) := decode_loop src ws 1 0 size in
  (out ++ decode_tail bits room, count).

Fixpoint count_loop (src : list Z) (ws : bool) (bits count : Z) : Z * Z :=
  match src with
  | [] => (bits, count)
  | c :: src' =>
      if isspace c then
        if ws then count_loop src' ws bits count else (bits, count)
      else if c =? 61 then (bits, count)
      else if decoder c =? 64 then (bits, count)
      else
        let bits := u64 (u64 (Z.shiftl bits 6) + decoder c) in
        if negb (Z.land bits 16777216 =? 0) then count_loop src' ws 1 (count + 3)
        else count_loop src' ws bits count
  end.

Definition b64count (src : list Z) (ws : bool) : Z :=
  let '(bits, count) := count_loop src ws 1 0 in
  if negb (Z.land bits 262144 =? 0) then count + 2
  else if negb (Z.land bits 4096 =? 0) then count + 1
  else count.

Example encode_man : b64encode (bytes "Man!") 4 0 = Some (bytes "TWFuIQ==" ++ [0], 4).
Proof. vm_compute. reflexivity. Qed.
Example decode_man : b64decode (bytes "TWFuIQ==") 64 true = (bytes "Man!", 8).
Proof. vm_compute. reflexivity. Qed.
Example count_man : b64count (bytes "TWFuIQ==") true = 4.
Proof. vm_compute. reflexivity. Qed.

(** ** Base64: the text the encoder is meant to produce *)

(** The RFC 4648 text of a byte string, in arithmetic. *)
Fixpoint enc (bin : list Z) : list Z :=
  match bin with
  | b0 :: b1 :: b2 :: r =>
      letter (b0 / 4) :: letter (b0 mod 4 * 16 + b1 / 16)
      :: letter (b1 mod 16 * 4 + b2 / 64) :: letter (b2 mod 64) :: enc r
  | [b0; b1] => [letter (b0 / 4); letter (b0 mod 4 * 16 + b1 / 16); letter (b1 mod 16 * 4); 61]
  | [b0] => [letter (b0 / 4); letter (b0 mod 4 * 16); 61; 61]
  | [] => []
  end.

(** Induction by groups of three bytes. *)
Lemma group_ind (P : list Z -> Prop) :
  P [] -> (forall a, P [a]) -> (forall a b, P [a; b]) ->
  (forall a b c l, P l -> P (a :: b :: c :: l)) -> forall l, P l.
Proof.
  intros H0 H1 H2 H3. fix go 1. intros [|a [|b [|c l]]].
  - exact H0.
  - apply H1.
  - apply H2.
  - apply H3, go.
Qed.

Lemma letter_spec a : 0 <= a < 64 ->
  decoder (letter a) = a /\ isspace (letter a) = false /\ letter a <> 61 /\
  letter a <> 0 /\ is_byte (letter a).
Proof.
  intros Ha.
  pose proof (below_spec 64 (fun a => (decoder (letter a) =? a) && negb (isspace (letter a))
    && negb (letter a =? 61) && negb (letter a =? 0) && (0 <=? letter a) && (letter a <? 256))
    a eq_refl Ha) as H; cbn beta in H.
  rewrite !andb_true_iff, !negb_true_iff, !Z.eqb_neq, Z.eqb_eq, Z.leb_le, Z.ltb_lt in H.
  unfold is_byte. tauto.
Qed.

Lemma zlen_enc bin : zlen (enc bin) = 4 * ((zlen bin + 2) / 3).
Proof.
  induction bin as [| | |a b c l IH] using group_ind; try done.
  cbn [enc]. autorewrite with zlen. rewrite IH. dlia.
Qed.

Lemma three_bits b0 b1 b2 : is_byte b0 -> is_byte b1 -> is_byte b2 ->
  Z.lor (Z.lor (Z.shiftl b0 16) (Z.shiftl b1 8)) b2 = b0 * 65536 + b1 * 256 + b2.
Proof.
  unfold is_byte. intros. rewrite (shiftl_mul b1) by lia.
  rewrite lor_shiftl_add by lia.
  replace (b0 * 2 ^ 16 + b1 * 2 ^ 8) with (Z.shiftl (b0 * 256 + b1) 8)
    by (rewrite shiftl_mul; lia).
  rewrite lor_shiftl_add; lia.
Qed.

Lemma land_63 z : Z.land z 63 = z mod 64.
Proof. apply (Z.land_ones z 6). lia. Qed.

Lemma land_255 z : Z.land z 255 = z mod 256.
Proof. apply (Z.land_ones z 8). lia. Qed.

(** The leaves of an equality of letters. *)
Ltac list_eq := leaves; repeat match goal with |- letter _ = letter _ => f_equal end; try done.

Ltac b64_arith :=
  rewrite ?land_63, ?land_255, ?shiftr_div by lia; list_eq; dlia.

Lemma encode_loop_spec bin : Forall is_byte bin ->
  forall dsize count, 4 * ((zlen bin + 2) / 3) < dsize ->
  encode_loop bin (zlen bin) dsize count = Some (enc bin, count + zlen bin).
Proof.
  induction bin as [|b0|b0 b1|b0 b1 b2 l IH] using group_ind; intros Hb dsize count Hd;
    inv_forall; unfold is_byte in *.
  - cbn. unfold encode_tail. cbn. by rewrite Z.add_0_r.
  - unfold encode_loop, encode_tail. change (zlen [b0]) with 1 in *.
    assert (4 < dsize) by dlia. uc_cases.
    rewrite rd_cons_0. cbn. rewrite shiftl_mul by lia. b64_arith.
  - unfold encode_loop, encode_tail. change (zlen [b0; b1]) with 2 in *.
    assert (4 < dsize) by dlia. uc_cases.
    rewrite rd_cons_0, rd_cons_pos, rd_cons_0 by lia. cbn.
    rewrite (shiftl_mul b1), lor_shiftl_add by lia. rewrite shiftl_mul by lia. b64_arith.
  - autorewrite with zlen in *. pose proof (zlen_nonneg l). cbn [encode_loop enc].
    assert (4 < dsize) by dlia. uc_cases.
    replace (zlen l + 1 + 1 + 1 - 3) with (zlen l) by lia.
    rewrite IH; [|done|dlia]. cbn. rewrite three_bits by (unfold is_byte; lia).
    b64_arith.
Qed.

(** ** Base64: decoding the encoder's text *)

Lemma register_fill bits a : 1 <= bits < 2 ^ 18 -> 0 <= a < 64 ->
  u64 (u64 (Z.shiftl bits 6) + a) = bits * 64 + a /\
  Z.land (bits * 64 + a) 16777216 = 0.
Proof.
  intros Hb Ha. rewrite shiftl_mul by lia. rewrite (u64_id (bits * 2 ^ 6)), u64_id by lia.
  split; [lia|]. apply (land_top_bit _ 24); lia.
Qed.

Lemma decode_step a src ws bits count size :
  0 <= a < 64 -> 1 <= bits < 2 ^ 18 ->
  decode_loop (letter a :: src) ws bits count size =
  decode_loop src ws (bits * 64 + a) (count + 1) size.
Proof.
  intros Ha Hb. destruct (letter_spec a Ha) as (Hd & Hs & H61 & _). cbn [decode_loop].
  rewrite Hs, Hd. destruct (Z.eqb_spec (letter a) 61); [done|].
  destruct (Z.eqb_spec a 64); [lia|].
  destruct (register_fill bits a Hb Ha) as [-> ->]. done.
Qed.

Lemma decode_full a src ws bits count size :
  0 <= a < 64 -> 2 ^ 18 <= bits < 2 ^ 19 -> 3 <= size ->
  decode_loop (letter a :: src) ws bits count size =
  let '(out, r) := decode_loop src ws 1 (count + 1) (size - 3) in
  (((bits * 64 + a) / 65536) mod 256 :: ((bits * 64 + a) / 256) mod 256
   :: (bits * 64 + a) mod 256 :: out, r).
Proof.
  intros Ha Hb Hsz. destruct (letter_spec a Ha) as (Hd & Hs & H61 & _). cbn [decode_loop].
  rewrite Hs, Hd. destruct (Z.eqb_spec (letter a) 61); [done|].
  destruct (Z.eqb_spec a 64); [lia|].
  rewrite shiftl_mul by lia. rewrite (u64_id (bits * 2 ^ 6)), u64_id by lia.
  destruct (Z.eqb_spec (Z.land (bits * 2 ^ 6 + a) 16777216) 0) as [E|E]; cbn [negb].
  - apply (land_top_bit _ 24) in E; lia.
  - destruct (Z.ltb_spec size 3); [lia|].
    destruct (decode_loop src ws 1 (count + 1) (size - 3)). rewrite !land_255, !shiftr_div by lia.
    done.
Qed.

(** One whole group. *)
Lemma decode_group b0 b1 b2 src ws count size :
  is_byte b0 -> is_byte b1 -> is_byte b2 -> 3 <= size ->
  decode_loop (letter (b0 / 4) :: letter (b0 mod 4 * 16 + b1 / 16)
               :: letter (b1 mod 16 * 4 + b2 / 64) :: letter (b2 mod 64) :: src)
    ws 1 count size =
  let '(out, r) := decode_loop src ws 1 (count + 4) (size - 3) in (b0 :: b1 :: b2 :: out, r).
Proof.
  unfold is_byte. intros H0 H1 H2 Hs.
  rewrite !decode_step by dlia. rewrite decode_full by dlia.
  replace (count + 1 + 1 + 1 + 1) with (count + 4) by lia.
  destruct (decode_loop src ws 1 (count + 4) (size - 3)).
  list_eq; dlia.
Qed.

Lemma decode_enc bin : Forall is_byte bin -> forall ws count size, zlen bin <= size ->
  let '(out, (bits, n, room)) := decode_loop (enc bin) ws 1 count size in
  out ++ decode_tail bits room = bin /\ n = count + zlen (enc bin).
Proof.
  induction bin as [|b0|b0 b1|b0 b1 b2 l IH] using group_ind; intros Hb ws count size Hsz;
    inv_forall; unfold is_byte in *; autorewrite with zlen in Hsz;
    cbn [enc].
  - cbn. split; [done|uc_len].
  - rewrite !decode_step by dlia. cbn. unfold decode_tail.
    assert (Z.land ((1 * 64 + b0 / 4) * 64 + b0 mod 4 * 16) 262144 = 0) as ->
      by (apply (land_top_bit _ 18); dlia).
    cbn [Z.eqb negb].
    destruct (Z.eqb_spec (Z.land ((1 * 64 + b0 / 4) * 64 + b0 mod 4 * 16) 4096) 0) as [E|E].
    + apply (land_top_bit _ 12) in E; dlia.
    + destruct (Z.eqb_spec size 0); [lia|]. cbn. split; [|uc_len]. b64_arith.
  - rewrite !decode_step by dlia. cbn. unfold decode_tail.
    destruct (Z.eqb_spec (Z.land (((1 * 64 + b0 / 4) * 64 + (b0 mod 4 * 16 + b1 / 16)) * 64
      + b1 mod 16 * 4) 262144) 0) as [E|E].
    + apply (land_top_bit _ 18) in E; dlia.
    + cbn [negb]. destruct (Z.leb_spec 2 size); [|lia]. split; [|uc_len]. b64_arith.
  - pose proof (zlen_nonneg l). rewrite decode_group by (unfold is_byte; lia).
    specialize (IH ltac:(done) ws (count + 4) (size - 3) ltac:(lia)).
    destruct (decode_loop (enc l) ws 1 (count + 4) (size - 3)) as [out [[bits n] room]].
    destruct IH as [IH ->]. cbn [app]. rewrite IH. split; [done|]. autorewrite with zlen. lia.
Qed.

(** ** Base64: lengths *)

Lemma b64size_value size : 0 <= size < 2 ^ 61 -> b64size size = size * 4 / 3 + 4.
Proof. intros. unfold b64size. rewrite (u64_id (size * 4)), u64_id; dlia. Qed.

Lemma encode_tail_length bin size dsize count out n :
  1 <= dsize -> encode_tail bin size dsize count = Some (out, n) -> zlen out + 1 <= dsize.
Proof.
  intros Hd. unfold encode_tail.
  destruct (negb (size =? 0) && (4 <? dsize)) eqn:E; [|intros [= <- <-]; uc_len].
  apply andb_true_iff in E as [_ E%Z.ltb_lt].
  destruct (rd bin 0); [|done]. cbn. destruct (size =? 1); [intros [= <- <-]; uc_len|].
  destruct (rd bin 1); [|done]. cbn. intros [= <- <-]. uc_len.
Qed.

Lemma encode_loop_length bin : forall size dsize count out n,
  1 <= dsize -> encode_loop bin size dsize count = Some (out, n) -> zlen out + 1 <= dsize.
Proof.
  induction bin as [| | |b0 b1 b2 l IH] using group_ind; intros size dsize count out n Hd;
    cbn [encode_loop]; (destruct ((3 <=? size) && (4 <? dsize)) eqn:E;
      [|by apply encode_tail_length]); try done.
  apply andb_true_iff in E as [_ E%Z.ltb_lt].
  destruct (encode_loop l (size - 3) (dsize - 4) (count + 3)) as [[o m]|] eqn:El; [|done].
  cbn. intros [= <- <-]. apply IH in El; [|lia]. autorewrite with zlen. lia.
Qed.

Lemma decode_loop_length src ws : forall bits count size out b n room,
  0 <= size -> decode_loop src ws bits count size = (out, (b, n, room)) ->
  0 <= room /\ zlen out + room <= size.
Proof.
  induction src as [|c src IH]; intros bits count size out b n room Hs; cbn [decode_loop].
  - intros [= <- <- <- <-]. uc_len.
  - destruct (isspace c).
    { destruct ws; [by apply IH|]. intros [= <- <- <- <-]. uc_len. }
    destruct (c =? 61).
    { destruct src as [|d src]; [intros [= <- <- <- <-]; uc_len|].
      repeat case_match; intros [= <- <- <- <-]; uc_len. }
    destruct (decoder c =? 64); [intros [= <- <- <- <-]; uc_len|].
    destruct (negb _); [|by apply IH].
    destruct (Z.ltb_spec size 3); [intros [= <- <- <- <-]; uc_len|].
    destruct (decode_loop src ws 1 (count + 1) (size - 3)) as [o [[b' n'] r']] eqn:El.
    intros [= <- <- <- <-]. apply IH in El; [|lia]. autorewrite with zlen. lia.
Qed.

Lemma decode_tail_length bits size : 0 <= size -> zlen (decode_tail bits size) <= size.
Proof.
  intros. unfold decode_tail.
  destruct (negb _); [uc_cases; uc_len|]. destruct (negb (Z.land bits 4096 =? 0)); uc_cases; uc_len.
Qed.

Lemma count_loop_mono src ws : forall bits count, count <= (count_loop src ws bits count).2.
Proof.
  induction src as [|x src IH]; intros bits count; cbn [count_loop]; [cbn; lia|].
  repeat case_match; try (cbn; lia); [apply IH| |apply IH].
  specialize (IH 1 (count + 3)). lia.
Qed.

(** The counter and the decoder scan alike: the counter's register is the
    decoder's, and it has added three for each group stored. *)
Lemma count_decode_loop src ws : forall bits count n size,
  let '(b, c) := count_loop src ws bits count in
  c - count <= size ->
  let '(out, (b', _, room)) := decode_loop src ws bits n size in
  b' = b /\ zlen out = c - count /\ room = size - zlen out.
Proof.
  induction src as [|x src IH]; intros bits count n size; cbn [count_loop decode_loop].
  - intros _. rewrite zlen_nil. split; lia.
  - destruct (isspace x).
    { destruct ws; [apply IH|]. intros _. rewrite zlen_nil. split; lia. }
    destruct (x =? 61).
    { intros _. assert (0 = count - count) by lia.
      destruct src as [|d src]; repeat case_match; simplify_eq; rewrite zlen_nil; split; lia. }
    destruct (decoder x =? 64); [intros _; rewrite zlen_nil; split; lia|].
    destruct (negb _); [|apply IH].
    specialize (IH 1 (count + 3) (n + 1) (size - 3)). pose proof (count_loop_mono src ws 1 (count + 3)) as Hmono.
    destruct (count_loop src ws 1 (count + 3)) as [b c]. cbn in Hmono. intros Hc.
    specialize (IH ltac:(lia)).
    destruct (Z.ltb_spec size 3); [lia|].
    destruct (decode_loop src ws 1 (n + 1) (size - 3)) as [o [[b' n'] r']].
    destruct IH as (-> & Ho & Hr). autorewrite with zlen. split; [done|]. lia.
Qed.

(** ** Base64: properties *)

(** C1.  Base64 round trip: for every byte string of a length [size_t] can
    hold, [b64encode] with the default destination size consumes it whole and
    stores its RFC 4648 text and a terminator, and [b64decode] into a buffer of
    at least the original size gives the bytes back and consumes the text,
    whether or not it skips white space. *)
Theorem b64_roundtrip (bin : list Z) (size : Z) (ws : bool) :
  Forall is_byte bin -> zlen bin < 2 ^ 61 -> zlen bin <= size ->
  b64encode bin (zlen bin) 0 = Some (enc bin ++ [0], zlen bin) /\
  b64decode (enc bin) size ws = (bin, zlen (enc bin)).
Proof.
  intros Hb Hl Hs. pose proof (zlen_nonneg bin). split.
  - unfold b64encode. cbn [Z.eqb]. rewrite b64size_value by lia.
    destruct (Z.eqb_spec (zlen bin * 4 / 3 + 4) 0); [dlia|].
    destruct (Z.eqb_spec (zlen bin) 0) as [E|E]; cbn [orb].
    + destruct bin; [done|]. autorewrite with zlen in E. pose proof (zlen_nonneg bin). lia.
    + rewrite encode_loop_spec; [done|done|dlia].
  - unfold b64decode. pose proof (decode_enc bin Hb ws 0 size Hs) as H'.
    destruct (decode_loop (enc bin) ws 1 0 size) as [out [[bits n] room]].
    destruct H' as [-> ->]. done.
Qed.

Lemma b64_roundtrip_witness :
  b64encode [0; 255; 16; 7] 4 0 = Some (enc [0; 255; 16; 7] ++ [0], 4) /\
  b64decode (enc [0; 255; 16; 7]) 9 true = ([0; 255; 16; 7], zlen (enc [0; 255; 16; 7])).
Proof.
  apply (b64_roundtrip [0; 255; 16; 7] 9 true).
  - repeat constructor; discriminate.
  - reflexivity.
  - discriminate.
Defined.

(** Base64 coding stays inside the destination: with any explicit
    destination size of at least one byte the encoder stores at most that many
    bytes, its terminator included, and the decoder never stores more than the
    room it was given, whatever the text. *)
Theorem b64_bounds (bin src : list Z) (size dsize room : Z) (ws : bool) :
  1 <= dsize -> 0 <= room ->
  (forall out n, b64encode bin size dsize = Some (out, n) -> zlen out <= dsize) /\
  zlen (b64decode src room ws).1 <= room.
Proof.
  intros Hd Hr. split.
  - intros out n. unfold b64encode. destruct (Z.eqb_spec dsize 0); [lia|].
    destruct (_ || _); [intros [= <- <-]; uc_len|].
    destruct (encode_loop bin size dsize 0) as [[o m]|] eqn:E; [|done]. cbn.
    intros [= <- <-]. apply encode_loop_length in E; [|done]. autorewrite with zlen. lia.
  - unfold b64decode. destruct (decode_loop src ws 1 0 room) as [o [[b n] r]] eqn:E.
    apply decode_loop_length in E as [E1 E2]; [|done].
    pose proof (decode_tail_length b r E1). cbn. autorewrite with zlen. lia.
Qed.

Lemma b64_bounds_witness :
  (forall out n, b64encode [1; 2] 2 5 = Some (out, n) -> zlen out <= 5) /\
  zlen (b64decode [81; 81; 61; 61] 1 false).1 <= 1.
Proof.
  apply (b64_bounds [1; 2] [81; 81; 61; 61] 2 5 1 false); [discriminate | discriminate].
Defined.

(** [b64count] predicts [b64decode]: for every text, well formed or not,
    a buffer of [b64count] bytes or more receives exactly [b64count] bytes. *)
Theorem b64count_decode (src : list Z) (ws : bool) (size : Z) :
  b64count src ws <= size -> zlen (b64decode src size ws).1 = b64count src ws.
Proof.
  unfold b64count, b64decode. pose proof (count_decode_loop src ws 1 0 0 size) as H.
  destruct (count_loop src ws 1 0) as [b c].
  destruct (decode_loop src ws 1 0 size) as [o [[b' n] r]]. intros Hs.
  destruct H as (-> & Ho & Hr).
  { repeat case_match; lia. }
  cbn [fst]. autorewrite with zlen. unfold decode_tail.
  destruct (negb (Z.land b 262144 =? 0)); [uc_cases; uc_len|].
  destruct (negb (Z.land b 4096 =? 0)); uc_cases; uc_len.
Qed.

Lemma b64count_decode_witness :
  zlen (b64decode (bytes "TWF uIQ==") 4 true).1 = b64count (bytes "TWF uIQ==") true.
Proof. apply (b64count_decode (bytes "TWF uIQ==") true 4). vm_compute. discriminate. Defined.

(** [String::b64] asks for [size * 4 / 3 + 1] characters and lets the
    encoder use its default destination size: unless the size is a multiple of
    three, the text and its terminator do not fit the [capacity + 1] bytes of
    the string. *)
Theorem b64_overflows (bin : list Z) :
  Forall is_byte bin -> zlen bin < 2 ^ 61 -> zlen bin mod 3 <> 0 ->
  exists out, b64encode bin (zlen bin) 0 = Some (out, zlen bin) /\
    b64_capacity (zlen bin) + 1 < zlen out.
Proof.
  intros Hb Hl Hm. pose proof (zlen_nonneg bin).
  exists (enc bin ++ [0]). split.
  - unfold b64encode. cbn [Z.eqb]. rewrite b64size_value by lia.
    destruct (Z.eqb_spec (zlen bin * 4 / 3 + 4) 0); [dlia|].
    destruct (Z.eqb_spec (zlen bin) 0) as [E|E]; [by rewrite E in Hm|]. cbn [orb].
    rewrite encode_loop_spec; [done|done|dlia].
  - autorewrite with zlen. rewrite zlen_enc. unfold b64_capacity.
    rewrite (u64_id (zlen bin * 4)), u64_id; dlia.
Qed.

Lemma b64_overflows_witness :
  exists out, b64encode [77] 1 0 = Some (out, 1) /\ b64_capacity 1 + 1 < zlen out.
Proof.
  apply (b64_overflows [77]); [repeat constructor; discriminate | reflexivity | discriminate].
Defined.

End Base64.

Module Hex.

(** The value of a hexadecimal digit, [-1] for any other character. *)
Definition hexcode (ch : Z) : Z :=
  let ch := toupper ch in
  if (48 <=? ch) && (ch <=? 57) then ch - 48
  else if (65 <=? ch) && (ch <=? 70) then ch - 65 + 10
  else -1.

(** One digit of [snprintf ("%02x")] *)
Definition hexdigit (v : Z) : Z := if v <? 10 then 48 + v else 87 + v.
Definition hex2 (b : Z) : list Z := [hexdigit (b / 16); hexdigit (b mod 16)].

Arguments hexcode : simpl never.
Arguments hexdigit : simpl never.

(** [strtol (format, &ep, 10)] stored in an [unsigned] *)
Definition skip_of (f : list Z) : Z * list Z :=
  let '(v, ep) := digits f 0 in (u32 (Z.min v (2 ^ 63 - 1)), ep).

Fixpoint hexcount_loop (str : list Z) (ws : bool) (count : Z) : Z :=
  match str with
  | [] => count
  | c :: s =>
      if ws && isspace c then hexcount_loop s ws count
      else match s with
           | [] => count
           | d :: s' => if (hexcode c <? 0) || (hexcode d <? 0) then count
                        else hexcount_loop s' ws (count + 1)
           end
  end.

Definition hexcount (str : list Z) (ws : bool) : Z := hexcount_loop str ws 0.

(** [String::hex]: two characters a byte. *)
Definition hex (binary : list Z) : list Z := concat (map hex2 binary).

(** The bytes stored and the characters consumed.  [max] is tested only after
    the store. *)
Fixpoint hex2bin_loop (str : list Z) (max : Z) (ws : bool) (count out : Z) : list Z * Z :=
  match str with
  | [] => ([], count)
  | c :: s =>
      if ws && isspace c then hex2bin_loop s max ws (count + 1) out
      else match s with
           | [] => ([], count)
           | d :: s' =>
               let hi := hexcode c in
               let lo := hexcode d in
               if (hi <? 0) || (lo <? 0) then ([], count)
               else
                 let b := u8 (Z.lor (Z.shiftl hi 4) lo) in
                 if max <? out + 1 then ([b], count + 2)
                 else let '(o, n) := hex2bin_loop s' max ws (count + 2) (out + 1) in
                      (b :: o, n)
           end
  end.

Definition hex2bin (str : list Z) (max : Z) (ws : bool) : list Z * Z :=
  hex2bin_loop str max ws 0 0.

(** The format routines: digit runs of the format stand for that many bytes,
    its other characters for themselves.  [fuel] bounds the format's length. *)
Fixpoint hexsize_loop (fuel : nat) (format : list Z) (count : Z) : Z :=
  match fuel, format with
  | S n, c :: f =>
      if isdigit c then
        let '(skip, ep) := skip_of format in
        hexsize_loop n ep (u64 (count + u32 (skip * 2)))
      else hexsize_loop n f (u64 (count + 1))
  | _, _ => count
  end.

Definition hexsize (format : list Z) : Z := hexsize_loop (length format) format 0.

Definition dump_bytes (binary : list Z) (skip : Z) : option (list Z * list Z) :=
  bs ← slice binary 0 skip; Some (hex bs, drop (Z.to_nat skip) binary).

Fixpoint hexdump_loop (fuel : nat) (binary format : list Z) (count : Z)
    : option (list Z * Z) :=
  match fuel, format with
  | S n, c :: f =>
      if isdigit c then
        let '(skip, ep) := skip_of format in
        '(txt, rest) ← dump_bytes binary skip;
        '(out, k) ← hexdump_loop n rest ep (u64 (count + u32 (skip * 2)));
        Some (txt ++ out, k)
      else
        '(out, k) ← hexdump_loop n binary f (u64 (count + 1));
        Some (c :: out, k)
  | _, _ => Some ([0], count)
  end.

(** The characters stored, the terminator last, and the count. *)
Definition hexdump (binary format : list Z) : option (list Z * Z) :=
  hexdump_loop (length format) binary format 0.

(** [skip] bytes packed from the block [string] points into. *)
Fixpoint pack_bytes (n : nat) (string : list Z) : option (list Z * list Z) :=
  match n with
  | O => Some ([], string)
  | S n' =>
      match string with
      | c :: d :: s =>
          '(out, rest) ← pack_bytes n' s;
          Some (u8 (hexcode c * 16 + hexcode d) :: out, rest)
      | _ => None
      end
  end.

Fixpoint hexpack_loop (fuel : nat) (string format : list Z) (count : Z)
    : option (list Z * Z) :=
  match fuel, format with
  | S n, c :: f =>
      if isdigit c then
        let '(skip, ep) := skip_of format in
        '(out, rest) ← pack_bytes (Z.to_nat skip) string;
        '(out', k) ← hexpack_loop n rest ep (u64 (count + u32 (skip * 2)));
        Some (out ++ out', k)
      else
        match string with
        | [] => None
        | x :: s => if x =? c then hexpack_loop n s f (u64 (count + 1)) else Some ([], count)
        end
  | _, _ => Some ([], count)
  end.

(** [string] is the block the text starts, terminator included. *)
Definition hexpack (string format : list Z) : option (list Z * Z) :=
  hexpack_loop (length format) string format 0.

Example dump_mac : hexdump [10; 255; 0; 18] (bytes "1-2:1") =
  Some (bytes "0a-ff00:12" ++ [0], 10).
Proof. vm_compute. reflexivity. Qed.
Example pack_mac : hexpack (bytes "0a-ff00:12" ++ [0]) (bytes "1-2:1") =
  Some ([10; 255; 0; 18], 10).
Proof. vm_compute. reflexivity. Qed.

(** ** Hexadecimal: lemmas *)

Lemma hexdigit_code v : 0 <= v < 16 ->
  hexcode (hexdigit v) = v /\ isspace (hexdigit v) = false /\ hexdigit v <> 0.
Proof.
  intros Hv.
  pose proof (below_spec 16 (fun v => (hexcode (hexdigit v) =? v) &&
    negb (isspace (hexdigit v)) && negb (hexdigit v =? 0)) v eq_refl Hv) as H; cbn beta in H.
  rewrite !andb_true_iff, !negb_true_iff, Z.eqb_neq, Z.eqb_eq in H. tauto.
Qed.

Lemma hex_byte b : is_byte b -> exists c d, hex2 b = [c; d] /\
  hexcode c = b / 16 /\ hexcode d = b mod 16 /\ isspace c = false /\ c <> 0 /\ d <> 0.
Proof.
  unfold is_byte. intros Hb. exists (hexdigit (b / 16)), (hexdigit (b mod 16)).
  destruct (hexdigit_code (b / 16)) as (H1 & H2 & H3); [dlia|].
  destruct (hexdigit_code (b mod 16)) as (H4 & H5 & H6); [dlia|]. done.
Qed.

Lemma nibbles b : is_byte b -> Z.lor (Z.shiftl (b / 16) 4) (b mod 16) = b.
Proof. unfold is_byte. intros. rewrite lor_shiftl_add; dlia. Qed.

Lemma hex2bin_step b s max ws count out : is_byte b ->
  hex2bin_loop (hex2 b ++ s) max ws count out =
  if max <? out + 1 then ([b], count + 2)
  else let '(o, n) := hex2bin_loop s max ws (count + 2) (out + 1) in (b :: o, n).
Proof.
  intros Hb. destruct (hex_byte b Hb) as (c & d & -> & Hc & Hd & Hs & _). cbn.
  rewrite Hs, andb_false_r, Hc, Hd. unfold is_byte in Hb.
  destruct (Z.ltb_spec (b / 16) 0); [dlia|]. destruct (Z.ltb_spec (b mod 16) 0); [dlia|].
  cbn [orb]. rewrite nibbles, u8_id by done. done.
Qed.

Lemma hex2bin_hex bin s max ws : Forall is_byte bin -> forall count out,
  out + zlen bin <= max ->
  hex2bin_loop (hex bin ++ s) max ws count out =
  let '(o, n) := hex2bin_loop s max ws (count + 2 * zlen bin) (out + zlen bin) in (bin ++ o, n).
Proof.
  induction 1 as [|b bin Hb Hbin IH]; intros count out Hm.
  - cbn. rewrite (@zlen_nil Z), Z.mul_0_r, !Z.add_0_r. by destruct (hex2bin_loop _ _ _ _ _).
  - autorewrite with zlen in *. pose proof (zlen_nonneg bin).
    change (hex (b :: bin)) with (hex2 b ++ hex bin). rewrite <- app_assoc, hex2bin_step by done.
    destruct (Z.ltb_spec max (out + 1)); [lia|]. rewrite IH by lia.
    replace (count + 2 + 2 * zlen bin) with (count + 2 * (zlen bin + 1)) by lia.
    replace (out + 1 + zlen bin) with (out + (zlen bin + 1)) by lia.
    by destruct (hex2bin_loop _ _ _ _ _).
Qed.

Lemma pack_hex bs s : Forall is_byte bs -> pack_bytes (length bs) (hex bs ++ s) = Some (bs, s).
Proof.
  induction 1 as [|b bs Hb Hbs IH]; [done|].
  destruct (hex_byte b Hb) as (c & d & Hh & Hc & Hd & _).
  change (hex (b :: bs)) with (hex2 b ++ hex bs). rewrite <- app_assoc, Hh.
  cbn. rewrite IH. cbn. rewrite Hc, Hd.
  replace (b / 16 * 16 + b mod 16) with b by dlia. by rewrite u8_id.
Qed.

Lemma dump_bytes_inv binary skip txt rest : dump_bytes binary skip = Some (txt, rest) ->
  exists bs, binary = bs ++ rest /\ txt = hex bs /\ skip = zlen bs.
Proof.
  unfold dump_bytes, slice. destruct (Z.leb_spec 0 skip); [|done].
  destruct (Z.leb_spec (0 + skip) (Z.of_nat (length binary))); [|done]. cbn.
  rewrite drop_0. intros [= <- <-]. exists (take (Z.to_nat skip) binary).
  rewrite take_drop, zlen_take by (unfold zlen; lia). done.
Qed.

(** ** Hexadecimal: properties *)

(** What [hexdump] writes under a format, [hexpack] reads back under the
    same format: it stores exactly the bytes [hexdump] consumed, and the two
    return the same count. *)
Theorem hexpack_hexdump (binary format text : list Z) (k : Z) :
  Forall is_byte binary -> hexdump binary format = Some (text, k) ->
  exists used rest, binary = used ++ rest /\ hexpack text format = Some (used, k).
Proof.
  unfold hexdump, hexpack. generalize 0 as count, (length format) as fuel.
  intros count fuel. revert binary format text count.
  induction fuel as [|fuel IH]; intros binary format text count Hb; cbn.
  - intros [= <- <-]. by exists [], binary.
  - destruct format as [|c f]; [intros [= <- <-]; by exists [], binary|].
    destruct (isdigit c).
    + destruct (skip_of (c :: f)) as [skip ep].
      destruct (dump_bytes binary skip) as [[txt rest]|] eqn:Ed; [|done]. cbn.
      apply dump_bytes_inv in Ed as (bs & -> & -> & ->).
      destruct (hexdump_loop fuel rest ep _) as [[out k']|] eqn:El; [|done]. cbn.
      intros [= <- <-]. inv_forall.
      destruct (IH _ _ _ _ ltac:(eassumption) El) as (used & rest' & -> & Hp).
      exists (bs ++ used), rest'. split; [by rewrite app_assoc|].
      rewrite zlen_to_nat, pack_hex by done. cbn. by rewrite Hp.
    + destruct (hexdump_loop fuel binary f _) as [[out k']|] eqn:El; [|done]. cbn.
      intros [= <- <-]. destruct (IH _ _ _ _ Hb El) as (used & rest & -> & Hp).
      exists used, rest. split; [done|]. by rewrite Z.eqb_refl.
Qed.

Lemma hexpack_hexdump_witness : exists used rest,
  [10; 255; 0; 18; 9] = used ++ rest /\
  hexpack (bytes "0a-ff00:12" ++ [0]) (bytes "1-2:1") = Some (used, 10).
Proof.
  apply (hexpack_hexdump [10; 255; 0; 18; 9] (bytes "1-2:1") (bytes "0a-ff00:12" ++ [0]) 10).
  - repeat constructor; discriminate.
  - vm_compute. reflexivity.
Defined.

(** [hex2bin] against [hex]: it gives the bytes back when the limit is at
    least their number, but because the limit is tested after the store, a
    longer text makes it store [max + 1] bytes. *)
Theorem hex2bin_limit (bin : list Z) (max : Z) (ws : bool) :
  Forall is_byte bin -> 0 <= max ->
  if zlen bin <=? max then hex2bin (hex bin) max ws = (bin, 2 * zlen bin)
  else hex2bin (hex bin) max ws = (take (Z.to_nat (max + 1)) bin, 2 * (max + 1)).
Proof.
  intros Hb Hm. unfold hex2bin. destruct (Z.leb_spec (zlen bin) max).
  - rewrite <- (app_nil_r (hex bin)), hex2bin_hex by (done || lia). cbn.
    by rewrite app_nil_r.
  - assert (exists b x r, bin = b ++ x :: r /\ zlen b = max) as (b & x & r & -> & <-).
    { destruct (block_split bin max) as (b & [|x r] & -> & Hl); [lia|uc_len|].
      by exists b, x, r. }
    inv_forall. unfold hex. rewrite map_app, concat_app.
    change (concat (map hex2 b)) with (hex b). cbn [map concat].
    rewrite hex2bin_hex, hex2bin_step by (done || lia).
    destruct (Z.ltb_spec (zlen b) (0 + zlen b + 1)); [|lia].
    replace (Z.to_nat (zlen b + 1)) with (length (b ++ [x])) by uc_len.
    rewrite (app_assoc b [x] r : b ++ x :: r = (b ++ [x]) ++ r), take_app_length.
    f_equal. lia.
Qed.

Lemma hex2bin_limit_witness :
  hex2bin (hex [1; 2; 3]) 1 false = (take (Z.to_nat 2) [1; 2; 3], 4).
Proof.
  apply (hex2bin_limit [1; 2; 3] 1 false); [repeat constructor; discriminate | discriminate].
Defined.

End Hex.

Module Crc.

Definition CRC24_INIT : Z := 0xb704ce.
Definition CRC24_POLY : Z := 0x1864cfb.

(** One bit of [crc24]; the register is a [uint32_t]. *)
Definition crc24_bit (crc : Z) : Z :=
  let crc := u32 (Z.shiftl crc 1) in
  if negb (Z.land crc 0x1000000 =? 0) then u32 (Z.lxor crc CRC24_POLY) else crc.

Definition crc24_byte (crc b : Z) : Z :=
  Nat.iter 8 crc24_bit (u32 (Z.lxor crc (Z.shiftl b 16))).

Definition crc24 (binary : list Z) : Z :=
  Z.land (foldl crc24_byte CRC24_INIT binary) 0xffffff.

(** One bit of [crc16]; the register is a [uint16_t]. *)
Definition crc16_bit (crc : Z) : Z :=
  if negb (Z.land crc 1 =? 0) then u16 (Z.lxor (Z.shiftr crc 1) 0xa001)
  else Z.shiftr crc 1.

Definition crc16_byte (crc b : Z) : Z := Nat.iter 8 crc16_bit (u16 (Z.lxor crc b)).

Definition crc16 (binary : list Z) : Z := foldl crc16_byte 0xffff binary.

(** The published check values of CRC-24/OPENPGP and CRC-16/MODBUS. *)
Example crc24_check : crc24 (bytes "123456789") = 0x21cf02.
Proof. vm_compute. reflexivity. Qed.
Example crc16_check : crc16 (bytes "123456789") = 0x4b37.
Proof. vm_compute. reflexivity. Qed.

(** ** A register of [w] bits whose bit step is injective *)

Section register.
Context (w k : Z) (bit : Z -> Z).
Context (Hw : 0 <= w) (Hk : 0 <= k).
Context (bit_range : forall s, 0 <= s < 2 ^ w -> 0 <= bit s < 2 ^ w).
Context (bit_inj : forall s t, 0 <= s < 2 ^ w -> 0 <= t < 2 ^ w -> bit s = bit t -> s = t).

Let step (s b : Z) : Z := Nat.iter 8 bit (Z.lxor s (Z.shiftl b k)).

Lemma iter_bit_range n s : 0 <= s < 2 ^ w -> 0 <= Nat.iter n bit s < 2 ^ w.
Proof. induction n; cbn; auto. Qed.

Lemma iter_bit_inj n s t : 0 <= s < 2 ^ w -> 0 <= t < 2 ^ w ->
  Nat.iter n bit s = Nat.iter n bit t -> s = t.
Proof.
  intros Hs Ht. induction n as [|n IH]; [done|]. rewrite !Nat.iter_succ.
  intros E%bit_inj; auto using iter_bit_range.
Qed.

Hypothesis (Hb : forall b, is_byte b -> 0 <= Z.shiftl b k < 2 ^ w).

Lemma step_range s b : 0 <= s < 2 ^ w -> is_byte b -> 0 <= step s b < 2 ^ w.
Proof. intros. apply iter_bit_range, lxor_range; auto. Qed.

Lemma step_inj_byte s a b : 0 <= s < 2 ^ w -> is_byte a -> is_byte b ->
  step s a = step s b -> a = b.
Proof.
  intros Hs Ha Hb' E%iter_bit_inj; [|apply lxor_range; auto..].
  apply (f_equal (Z.lxor s)) in E.
  rewrite <- !Z.lxor_assoc, Z.lxor_nilpotent, !Z.lxor_0_l in E.
  rewrite !shiftl_mul in E by done. pose proof (Z.pow_pos_nonneg 2 k). nia.
Qed.

Lemma step_inj_state s t b : 0 <= s < 2 ^ w -> 0 <= t < 2 ^ w -> is_byte b ->
  step s b = step t b -> s = t.
Proof.
  intros Hs Ht Hb' E%iter_bit_inj; [|apply lxor_range; auto..].
  apply (f_equal (fun x => Z.lxor x (Z.shiftl b k))) in E.
  by rewrite !Z.lxor_assoc, Z.lxor_nilpotent, !Z.lxor_0_r in E.
Qed.

Lemma fold_range m : Forall is_byte m -> forall s, 0 <= s < 2 ^ w ->
  0 <= foldl step s m < 2 ^ w.
Proof.
  induction 1 as [|b m Hb' Hm IH]; intros s Hs; [done|].
  apply (IH (step s b)). by apply step_range.
Qed.

Lemma fold_inj m : Forall is_byte m -> forall s t, 0 <= s < 2 ^ w -> 0 <= t < 2 ^ w ->
  foldl step s m = foldl step t m -> s = t.
Proof.
  induction 1 as [|b m Hb' Hm IH]; intros s t Hs Ht; [done|].
  intros E%(IH (step s b) (step t b)); [|by apply step_range..].
  by apply step_inj_state in E.
Qed.

Lemma fold_one_byte p a b r s : Forall is_byte p -> Forall is_byte r ->
  is_byte a -> is_byte b -> 0 <= s < 2 ^ w ->
  foldl step s (p ++ a :: r) = foldl step s (p ++ b :: r) -> a = b.
Proof.
  intros Hp Hr Ha Hb' Hs. rewrite !foldl_app. intros E.
  pose proof (fold_range p Hp s Hs).
  apply (fold_inj r Hr (step _ a) (step _ b)) in E; [|by apply step_range..].
  by apply step_inj_byte in E.
Qed.
End register.

Lemma crc16_bit_value s : 0 <= s < 2 ^ 16 ->
  crc16_bit s = if Z.odd s then Z.lxor (s / 2) 0xa001 else s / 2.
Proof.
  intros Hs. unfold crc16_bit. rewrite shiftr_div by lia. change (2 ^ 1) with 2.
  replace (Z.land s 1) with (s mod 2) by (symmetry; apply (Z.land_ones s 1); lia).
  rewrite Zmod_odd. destruct (Z.odd s); cbn; [|done].
  apply Z.mod_small. apply (lxor_range 16); dlia.
Qed.

Lemma crc24_bit_value s : 0 <= s < 2 ^ 24 ->
  crc24_bit s = if s <? 2 ^ 23 then 2 * s else Z.lxor (2 * s - 2 ^ 24) 0x864cfb.
Proof.
  intros Hs. unfold crc24_bit. rewrite shiftl_mul, (u32_id (s * 2 ^ 1)) by lia.
  replace (s * 2 ^ 1) with (2 * s) by lia.
  destruct (Z.eqb_spec (Z.land (2 * s) 16777216) 0) as [E|E]; cbn [negb].
  - apply (land_top_bit _ 24) in E; [|lia..]. uc_cases; lia.
  - destruct (Z.ltb_spec s (2 ^ 23)); [exfalso; apply E, (land_top_bit _ 24); lia|].
    replace CRC24_POLY with (Z.lxor (Z.shiftl 1 24) 0x864cfb) by done.
    replace (2 * s) with (Z.lxor (Z.shiftl 1 24) (2 * s - 2 ^ 24)) at 1.
    2:{ rewrite <- Z.add_nocarry_lxor, shiftl_mul; [lia|lia|].
        rewrite Z.land_comm. change (Z.shiftl 1 24) with (2 ^ 24).
        apply (land_top_bit _ 24); lia. }
    rewrite (Z.lxor_comm (Z.shiftl 1 24) 0x864cfb), <- Z.lxor_assoc.
    rewrite (Z.lxor_assoc (Z.shiftl 1 24)), (Z.lxor_comm (Z.shiftl 1 24)), Z.lxor_assoc.
    rewrite Z.lxor_nilpotent, Z.lxor_0_r. apply u32_id.
    pose proof (lxor_range 24 (2 * s - 2 ^ 24) 0x864cfb). lia.
Qed.

Lemma crc16_bit_range s : 0 <= s < 2 ^ 16 -> 0 <= crc16_bit s < 2 ^ 16.
Proof.
  intros. rewrite crc16_bit_value by done. destruct (Z.odd s); [|dlia].
  apply lxor_range; dlia.
Qed.

Lemma crc16_bit_inj s t : 0 <= s < 2 ^ 16 -> 0 <= t < 2 ^ 16 ->
  crc16_bit s = crc16_bit t -> s = t.
Proof.
  intros Hs Ht. rewrite !crc16_bit_value by done.
  assert (Hbit : forall u, 0 <= u < 2 ^ 16 -> Z.testbit (u / 2) 15 = false).
  { intros u Hu. rewrite Z.testbit_false, Z.div_small by dlia. done. }
  pose proof (Z.div_mod s 2 ltac:(done)) as Es. pose proof (Z.div_mod t 2 ltac:(done)) as Et.
  rewrite Zmod_odd in Es, Et. intros E.
  pose proof (f_equal (fun v => Z.testbit v 15) E) as Eb. cbn beta in Eb.
  destruct (Z.odd s), (Z.odd t); rewrite ?Z.lxor_spec, ?Hbit in Eb by done; try discriminate Eb.
  - apply lxor_cancel in E. lia.
  - lia.
Qed.

Lemma crc24_bit_range s : 0 <= s < 2 ^ 24 -> 0 <= crc24_bit s < 2 ^ 24.
Proof.
  intros. rewrite crc24_bit_value by done. uc_cases. apply lxor_range; lia.
Qed.

Lemma crc24_bit_inj s t : 0 <= s < 2 ^ 24 -> 0 <= t < 2 ^ 24 ->
  crc24_bit s = crc24_bit t -> s = t.
Proof.
  intros Hs Ht. rewrite !crc24_bit_value by done.
  assert (Hbit : forall u, Z.odd (Z.lxor (2 * u - 2 ^ 24) 0x864cfb) = true).
  { intros u. rewrite <- Z.bit0_odd, Z.lxor_spec, Z.bit0_odd.
    replace (2 * u - 2 ^ 24) with (2 * (u - 2 ^ 23)) by lia. by rewrite Z.odd_mul. }
  uc_cases; intros E; try lia.
  - specialize (Hbit t). rewrite <- E, Z.odd_mul in Hbit. done.
  - specialize (Hbit s). rewrite E, Z.odd_mul in Hbit. done.
  - apply lxor_cancel in E. lia.
Qed.

Lemma crc16_byte_step s b : 0 <= s < 2 ^ 16 -> is_byte b ->
  crc16_byte s b = Nat.iter 8 crc16_bit (Z.lxor s (Z.shiftl b 0)).
Proof.
  unfold is_byte, crc16_byte. intros. rewrite Z.shiftl_0_r. f_equal.
  apply Z.mod_small, (lxor_range 16); lia.
Qed.

Lemma crc24_byte_step s b : 0 <= s < 2 ^ 24 -> is_byte b ->
  crc24_byte s b = Nat.iter 8 crc24_bit (Z.lxor s (Z.shiftl b 16)).
Proof.
  unfold is_byte, crc24_byte. intros. f_equal. apply u32_id. rewrite shiftl_mul by lia.
  pose proof (lxor_range 24 s (b * 2 ^ 16)). lia.
Qed.

(** A fold over bytes whose step agrees with another one on reachable states. *)
Lemma foldl_agree (f g : Z -> Z -> Z) (I : Z -> Prop) m :
  (forall s b, I s -> is_byte b -> f s b = g s b /\ I (f s b)) ->
  Forall is_byte m -> forall s, I s -> foldl f s m = foldl g s m /\ I (foldl f s m).
Proof.
  intros Hfg. induction 1 as [|b m Hb Hm IH]; intros s Hs; [done|]. cbn.
  destruct (Hfg s b Hs Hb) as [<- Hi]. by apply IH.
Qed.

Lemma crc16_fold m : Forall is_byte m ->
  crc16 m = foldl (fun s b => Nat.iter 8 crc16_bit (Z.lxor s (Z.shiftl b 0))) 0xffff m /\
  0 <= crc16 m < 2 ^ 16.
Proof.
  intros Hm. apply (foldl_agree crc16_byte _ (fun s => 0 <= s < 2 ^ 16)); [|done|lia].
  intros s b Hs Hb.
  rewrite crc16_byte_step by done. split; [done|].
  apply (step_range 16 0); try lia; auto using crc16_bit_range.
  unfold is_byte. intros. rewrite Z.shiftl_0_r. lia.
Qed.

Lemma crc24_fold m : Forall is_byte m ->
  crc24 m = foldl (fun s b => Nat.iter 8 crc24_bit (Z.lxor s (Z.shiftl b 16))) CRC24_INIT m /\
  0 <= crc24 m < 2 ^ 24.
Proof.
  intros Hm. unfold crc24.
  destruct (fun H => foldl_agree crc24_byte
    (fun s b => Nat.iter 8 crc24_bit (Z.lxor s (Z.shiftl b 16))) (fun s => 0 <= s < 2 ^ 24) m
    H Hm CRC24_INIT) as [<- Hr]; [|unfold CRC24_INIT; lia|].
  - intros s b Hs Hb. rewrite crc24_byte_step by done. split; [done|].
    apply (step_range 24 16); try lia; auto using crc24_bit_range.
    unfold is_byte. intros. rewrite shiftl_mul; lia.
  - change 0xffffff with (Z.ones 24). rewrite Z.land_ones by lia.
    by rewrite Z.mod_small.
Qed.

(** C2.  The checksums stay within 16 and 24 bits, and both tell apart any two
    messages that differ in exactly one byte. *)
Theorem crc_detects_byte (p r : list Z) (a b : Z) :
  Forall is_byte p -> Forall is_byte r -> is_byte a -> is_byte b ->
  (0 <= crc16 (p ++ a :: r) < 2 ^ 16 /\ 0 <= crc24 (p ++ a :: r) < 2 ^ 24) /\
  (a <> b -> crc16 (p ++ a :: r) <> crc16 (p ++ b :: r) /\
             crc24 (p ++ a :: r) <> crc24 (p ++ b :: r)).
Proof.
  intros Hp Hr Ha Hb.
  assert (forall x, is_byte x -> Forall is_byte (p ++ x :: r)) as Hm
    by (intros; apply Forall_app; auto).
  destruct (crc16_fold _ (Hm a Ha)) as [E16a R16], (crc16_fold _ (Hm b Hb)) as [E16b _].
  destruct (crc24_fold _ (Hm a Ha)) as [E24a R24], (crc24_fold _ (Hm b Hb)) as [E24b _].
  split; [done|]. intros Hne. rewrite E16a, E16b, E24a, E24b. split; intros E; apply Hne.
  - apply (fold_one_byte 16 0 crc16_bit) in E;
      auto using crc16_bit_range, crc16_bit_inj; try lia.
    unfold is_byte. intros. rewrite Z.shiftl_0_r. lia.
  - apply (fold_one_byte 24 16 crc24_bit) in E;
      auto using crc24_bit_range, crc24_bit_inj; try lia.
    + unfold is_byte. intros. rewrite shiftl_mul; lia.
    + unfold CRC24_INIT. lia.
Qed.

Lemma crc_detects_byte_witness :
  crc16 [1; 2; 3] <> crc16 [1; 7; 3] /\ crc24 [1; 2; 3] <> crc24 [1; 7; 3].
Proof.
  apply (crc_detects_byte [1] [3] 2 7); try (repeat constructor; discriminate); discriminate.
Defined.

End Crc.
