(* ===== verification/Utf8.v ===== *)
(** * UTF-8 (corelib/unicode.cpp)

    The static functions of [utf8] and the [utf8_pointer] class.  A string is
    the block its pointer points into, terminator included; advancing a pointer
    drops bytes from the block, so that reading behind the block is [None].  A
    pointer that may be NULL is an [option] inside the result. *)

From S2P Require Import Prelude CLib.

Module utf8.

Definition EOF : Z := -1.

(** The continuation loop of [get]; [code] is a [ucs4_t] ([int32_t]). *)
Fixpoint get_rest (count : nat) (cp : list Z) (code : Z) : option Z :=
  match count with
  | O => Some code
  | S n =>
      match cp with
      | [] => None
      | ch :: cp' =>
          if ch =? 0 then Some EOF
          else if negb (Z.land ch 0xc0 =? 0x80) then Some EOF
          else get_rest n cp' (s32 (Z.lor (Z.shiftl code 6) (Z.land ch 0x3f)))
      end
  end.

Definition get (cp : list Z) : option Z :=
  match cp with
  | [] => None
  | ch :: cp' =>
      if ch =? 0 then Some EOF
      else if ch <? 0x80 then Some ch
      else if Z.land ch 0xe0 =? 0xc0 then get_rest 1 cp' (Z.land ch 0x1f)
      else if Z.land ch 0xf0 =? 0xe0 then get_rest 2 cp' (Z.land ch 0x0f)
      else if Z.land ch 0xf8 =? 0xf0 then get_rest 3 cp' (Z.land ch 0x07)
      else if Z.land ch 0xfc =? 0xf8 then get_rest 4 cp' (Z.land ch 0x03)
      else if Z.land ch 0xfe =? 0xfc then get_rest 5 cp' (Z.land ch 0x01)
      else Some EOF
  end.

(** [utf8::size] of the character at the pointer. *)
Definition size (v : Z) : Z :=
  if v <? 0x80 then 1
  else if Z.land v 0xe0 =? 0xc0 then 2
  else if Z.land v 0xf0 =? 0xe0 then 3
  else if Z.land v 0xf8 =? 0xf0 then 4
  else if Z.land v 0xfc =? 0xf8 then 5
  else if Z.land v 0xfe =? 0xfc then 6
  else 0.

(** The continuation loop of [codepoint]. *)
Fixpoint codepoint_rest (codesize : nat) (string : list Z) (code : Z) : option Z :=
  match codesize with
  | O => Some code
  | S n =>
      match string with
      | [] => None
      | encoded :: s =>
          if negb (Z.land encoded 0xc0 =? 0x80) then Some 0
          else codepoint_rest n s (s32 (Z.lor (Z.shiftl code 6) (Z.land encoded 0x3f)))
      end
  end.

Definition codepoint (string : list Z) : option Z :=
  match string with
  | [] => None
  | encoded :: s =>
      let codesize := size encoded in
      if encoded =? 0 then Some 0
      else if codesize =? 0 then Some (-1)
      else if codesize =? 1 then Some encoded
      else
        let code :=
          if codesize =? 2 then Z.land encoded 0x1f
          else if codesize =? 3 then Z.land encoded 0x0f
          else if codesize =? 4 then Z.land encoded 0x07
          else if codesize =? 5 then Z.land encoded 0x03
          else Z.land encoded 0x01 in
        codepoint_rest (Z.to_nat (codesize - 1)) s code
  end.

(** The loop of [count]; every round drops a byte at least, so the length of
    the block is fuel enough. *)
Fixpoint count_loop (fuel : nat) (string : list Z) (pos : Z) : option Z :=
  match fuel, string with
  | S n, c :: _ =>
      if c =? 0 then Some pos
      else if size c =? 0 then Some pos
      else count_loop n (drop (Z.to_nat (size c)) string) (pos + 1)
  | _, _ => None
  end.

Definition count (string : option (list Z)) : option Z :=
  match string with
  | None => Some 0
  | Some s => count_loop (length s) s 0
  end.

(** [while (pos--) string += size (string)], as a distance from [off]. *)
Fixpoint offset_loop (pos : nat) (string : list Z) (off : Z) : option (option Z) :=
  match pos with
  | O => Some (Some off)
  | S n =>
      match string with
      | [] => None
      | c :: _ =>
          if size c =? 0 then Some None
          else offset_loop n (drop (Z.to_nat (size c)) string) (off + size c)
      end
  end.

Definition offset (string : option (list Z)) (pos : Z) : option (option Z) :=
  match string with
  | None => Some None
  | Some s =>
      codepoints ← count string;
      if codepoints <? pos then Some None
      else if pos =? 0 then Some (Some 0)
      else if pos <? 0 then
        if codepoints <? - pos then Some None
        else offset_loop (Z.to_nat (codepoints + pos)) s 0
      else offset_loop (Z.to_nat pos) s 0
  end.

(** [utf8::chars (ucs4_t)] *)
Definition chars (code : Z) : Z :=
  if code <=? 0x80 then 1
  else if code <=? 0x7ff then 2
  else if code <=? 0xffff then 3
  else if code <=? 0x1fffff then 4
  else if code <=? 0x3ffffff then 5
  else 6.

(** [utf8::chars (unicode_t)]: the codes before the terminating zero. *)
Definition chars_of (str : option (list Z)) : Z :=
  match str with
  | None => 0
  | Some s => foldl (fun n c => n + chars c) 0 s
  end.

(** [(code >> k & 0x3f) | 0x80] *)
Definition cont (code k : Z) : Z := u8 (Z.lor (Z.land (Z.shiftr code k) 0x3f) 0x80).

(** The bytes [put] stores, in order. *)
Definition put (code : Z) : list Z :=
  if code =? EOF then []
  else if code <? 0x80 then [u8 code]
  else if code <? 0x7ff then [u8 (Z.lor (Z.shiftr code 6) 0xc0); cont code 0]
  else if code <=? 0xffff then
    [u8 (Z.lor (Z.shiftr code 12) 0xe0); cont code 6; cont code 0]
  else if code <=? 0x1fffff then
    [u8 (Z.lor (Z.shiftr code 18) 0xf0); cont code 12; cont code 6; cont code 0]
  else if code <=? 0x3ffffff then
    [u8 (Z.lor (Z.shiftr code 24) 0xf8); cont code 18; cont code 12; cont code 6; cont code 0]
  else
    [u8 (Z.lor (Z.shiftr code 30) 0xfc); cont code 24; cont code 18; cont code 12;
     cont code 6; cont code 0].

(** [pack]: the code points stored and their number.  The characters are
    skipped by [chars] of the decoded code; [len] is a [size_t]. *)
Fixpoint pack_loop (fuel : nat) (str : list Z) (len used : Z) : option (list Z * Z) :=
  match fuel with
  | O => None
  | S n =>
      let len := u64 (len - 1) in
      if len =? 0 then Some ([0], used)
      else
        code ← get str;
        if (code =? 0) || (code =? EOF) then Some ([0], used)
        else
          '(out, u) ← pack_loop n (drop (Z.to_nat (chars code)) str) len (used + 1);
          Some (code :: out, u)
  end.

Definition pack (str : list Z) (len : Z) : option (list Z * Z) :=
  pack_loop (S (length str)) str len 0.

(** [udup]: the [len + 1] cells of the result, filled at [pos]; a store outside
    of them is undefined. *)
Fixpoint udup_loop (fuel : nat) (string out : list Z) (pos : Z) : option (list Z) :=
  match fuel, string with
  | S n, c :: _ =>
      if c =? 0 then wr out pos 0
      else
        code ← codepoint string;
        out' ← wr out pos code;
        udup_loop n (drop (Z.to_nat (size c)) string) out' (pos + 1)
  | _, _ => None
  end.

Definition udup (string : option (list Z)) : option (option (list Z)) :=
  match string with
  | None => Some None
  | Some s =>
      len ← count string;
      out ← udup_loop (S (length s)) s (replicate (Z.to_nat (len + 1)) 0) 0;
      Some (Some out)
  end.

(** [wdup]: as [udup], but a code outside of the 16-bit plane frees the result;
    a cell holds the 16 bits of the code. *)
Fixpoint wdup_loop (fuel : nat) (string out : list Z) (pos : Z) : option (option (list Z)) :=
  match fuel, string with
  | S n, c :: _ =>
      if c =? 0 then out' ← wr out pos 0; Some (Some out')
      else
        ch ← codepoint string;
        if (0x10000 <=? ch) || (ch <? 0) then Some None
        else
          out' ← wr out pos ch;
          wdup_loop n (drop (Z.to_nat (size c)) string) out' (pos + 1)
  | _, _ => None
  end.

Definition wdup (string : option (list Z)) : option (option (list Z)) :=
  match string with
  | None => Some None
  | Some s =>
      len ← count string;
      wdup_loop (S (length s)) s (replicate (Z.to_nat (len + 1)) 0) 0
  end.

(** [unpack] into the block [buf]: [bufsize] is never counted down and [points]
    never up. *)
Fixpoint unpack_loop (str buf : list Z) (bufsize at_ : Z) : option (list Z) :=
  match str with
  | [] => wr buf at_ 0
  | code :: s =>
      let ps := chars code in
      if u64 (bufsize - 1) <? ps then wr buf at_ 0
      else
        buf' ← blit buf at_ (put code);
        unpack_loop s buf' bufsize (at_ + ps)
  end.

Definition unpack (str buf : list Z) (bufsize : Z) : option (list Z * Z) :=
  buf' ← unpack_loop str buf bufsize 0; Some (buf', 0).

Fixpoint ccount_loop (fuel : nat) (cp : list Z) (code total : Z) : option Z :=
  match fuel, cp with
  | S n, c :: _ =>
      if c =? 0 then Some total
      else
        ch ← codepoint cp;
        let cs := size c in
        if (cs =? 0) || (ch =? -1) then Some total
        else ccount_loop n (drop (Z.to_nat cs) cp) code
               (if ch =? code then total + 1 else total)
  | _, _ => None
  end.

Definition ccount (cp : option (list Z)) (code : Z) : option Z :=
  match cp with
  | None => Some 0
  | Some b => ccount_loop (length b) b code 0
  end.

(** [find]: the distance of the match; [pos], when not zero, is the number of
    characters examined. *)
Fixpoint find_loop (fuel : nat) (cp : list Z) (code pos cpos off : Z) : option (option Z) :=
  match fuel, cp with
  | S n, c :: _ =>
      if c =? 0 then Some None
      else
        ch ← codepoint cp;
        let cs := size c in
        let cpos := if pos =? 0 then cpos else cpos + 1 in
        if negb (pos =? 0) && (pos <? cpos) then Some None
        else if (cs =? 0) || (ch =? -1) then Some None
        else if ch =? code then Some (Some off)
        else find_loop n (drop (Z.to_nat cs) cp) code pos cpos (off + cs)
  | _, _ => None
  end.

Definition find (cp : option (list Z)) (code pos : Z) : option (option Z) :=
  match cp with
  | None => Some None
  | Some b => find_loop (length b) b code pos 0 0
  end.

Fixpoint rfind_loop (fuel : nat) (cp : list Z) (code pos cpos off : Z) (result : option Z)
    : option (option Z) :=
  match fuel, cp with
  | S n, c :: _ =>
      if c =? 0 then Some result
      else
        ch ← codepoint cp;
        let cs := size c in
        if (cs =? 0) || (ch =? -1) then Some result
        else
          let result := if ch =? code then Some off else result in
          if pos <? cpos + 1 then Some result
          else rfind_loop n (drop (Z.to_nat cs) cp) code pos (cpos + 1) (off + cs) result
  | _, _ => None
  end.

Definition rfind (cp : option (list Z)) (code pos : Z) : option (option Z) :=
  match cp with
  | None => Some None
  | Some b => rfind_loop (length b) b code pos 0 0 None
  end.

End utf8.

(** ** [utf8_pointer]: a position in a block, or NULL *)

Module utf8_pointer.

Definition is_cont (c : Z) : bool := Z.land c 0xc0 =? 0x80.

(** Advance over continuation bytes. *)
Fixpoint skip_cont (fuel : nat) (b : list Z) (p : Z) : option Z :=
  match fuel with
  | O => None
  | S n => c ← rd b p; if is_cont c then skip_cont n b (p + 1) else Some p
  end.

Definition inc (b : list Z) (text : option Z) : option (option Z) :=
  match text with
  | None => Some None
  | Some p =>
      c ← rd b p;
      if c <? 0x80 then Some (Some (p + 1))
      else
        let p := if Z.land c 0xc0 =? 0xc0 then p + 1 else p in
        q ← skip_cont (S (length b)) b p; Some (Some q)
  end.

(** Step back once, and on while that is a continuation byte. *)
Fixpoint back_cont (fuel : nat) (b : list Z) (p : Z) : option Z :=
  match fuel with
  | O => None
  | S n => c ← rd b (p - 1); if is_cont c then back_cont n b (p - 1) else Some (p - 1)
  end.

Definition dec (b : list Z) (text : option Z) : option (option Z) :=
  match text with
  | None => Some None
  | Some p => q ← back_cont (S (length b)) b p; Some (Some q)
  end.

(** [n] steps of [inc] or [dec]. *)
Fixpoint steps (f : option Z -> option (option Z)) (n : nat) (text : option Z)
    : option (option Z) :=
  match n with
  | O => Some text
  | S m => t ← f text; steps f m t
  end.

(** [operator+=] and [operator-=] *)
Definition add (b : list Z) (text : option Z) (offset : Z) : option (option Z) :=
  if 0 <? offset then steps (inc b) (Z.to_nat offset) text
  else steps (dec b) (Z.to_nat (- offset)) text.

Definition sub (b : list Z) (text : option Z) (offset : Z) : option (option Z) :=
  if 0 <? offset then steps (dec b) (Z.to_nat offset) text
  else steps (inc b) (Z.to_nat (- offset)) text.

(** [operator[]] *)
Definition at_ (b : list Z) (text : option Z) (offset : Z) : option Z :=
  match text with
  | None => Some 0
  | Some p =>
      q ← add b text offset;
      match q with
      | None => None
      | Some q => utf8.codepoint (drop (Z.to_nat q) b)
      end
  end.

End utf8_pointer.

Example get_euro : utf8.get [0xe2; 0x82; 0xac; 0] = Some 0x20ac.
Proof. reflexivity. Qed.
Example put_euro : utf8.put 0x20ac = [0xe2; 0x82; 0xac].
Proof. reflexivity. Qed.
Example count_two : utf8.count (Some [0xe2; 0x82; 0xac; 65; 0]) = Some 2.
Proof. reflexivity. Qed.
Example offset_tail : utf8.offset (Some [0xe2; 0x82; 0xac; 65; 0]) (-1) = Some (Some 3).
Proof. reflexivity. Qed.

(** ** The shape of an encoded character *)

Import utf8.

(** The [n] continuation bytes of [v], most significant first. *)
Fixpoint conts (n : nat) (v : Z) : list Z :=
  match n with
  | O => []
  | S m => 128 + (v / 64 ^ Z.of_nat m) mod 64 :: conts m v
  end.

(** Lead bytes [base .. base + lim - 1] announce [n] continuation bytes. *)
Inductive lead_shape : nat -> Z -> Z -> Prop :=
| lead2 : lead_shape 1 192 32
| lead3 : lead_shape 2 224 16
| lead4 : lead_shape 3 240 8
| lead5 : lead_shape 4 248 4
| lead6 : lead_shape 5 252 2.

Definition valid_code (code : Z) : Prop := 0 < code < 2 ^ 31.

#[export] Instance valid_code_dec c : Decision (valid_code c).
Proof. unfold valid_code. apply _. Defined.

Lemma cont_value code k : 0 <= k -> cont code k = 128 + (code / 2 ^ k) mod 64.
Proof.
  intros Hk. unfold cont. rewrite shiftr_div by done.
  change 0x3f with (Z.ones 6). rewrite Z.land_ones, Z.lor_comm by lia.
  change 0x80 with (Z.shiftl 1 7). pose proof (Z.mod_pos_bound (code / 2 ^ k) (2 ^ 6) eq_refl).
  rewrite lor_shiftl_add by lia. change (2 ^ 6) with 64 in *. apply u8_id. unfold is_byte. change (Z.shiftl 1 7) with 128. lia.
Qed.

Lemma lead_value a m k : 0 <= k -> 0 <= a < 2 ^ k -> m * 2 ^ k + a < 256 -> 0 <= m ->
  u8 (Z.lor a (Z.shiftl m k)) = m * 2 ^ k + a.
Proof.
  intros. rewrite Z.lor_comm, lor_shiftl_add by done. apply u8_id. unfold is_byte. nia.
Qed.

Lemma put_shape code : valid_code code ->
  (code < 0x80 /\ put code = [code]) \/
  exists n base lim, lead_shape n base lim /\ 0 <= code / 64 ^ Z.of_nat n < lim /\
    put code = base + code / 64 ^ Z.of_nat n :: conts n code.
Proof.
  unfold valid_code. intros Hc. unfold put, EOF.
  destruct (Z.eqb_spec code (-1)); [lia|].
  destruct (Z.ltb_spec code 0x80); [left; split; [done|]; by rewrite u8_id by (unfold is_byte; lia)|].
  right. rewrite !cont_value, !shiftr_div by lia.
  destruct (Z.ltb_spec code 0x7ff).
  { exists 1%nat, 192, 32. split; [constructor|]. split; [dlia|].
    change 0xc0 with (Z.shiftl 3 6). rewrite lead_value by dlia. done. }
  destruct (Z.leb_spec code 0xffff).
  { exists 2%nat, 224, 16. split; [constructor|]. split; [dlia|].
    change 0xe0 with (Z.shiftl 7 5). rewrite lead_value by dlia. done. }
  destruct (Z.leb_spec code 0x1fffff).
  { exists 3%nat, 240, 8. split; [constructor|]. split; [dlia|].
    change 0xf0 with (Z.shiftl 15 4). rewrite lead_value by dlia. done. }
  destruct (Z.leb_spec code 0x3ffffff).
  { exists 4%nat, 248, 4. split; [constructor|]. split; [dlia|].
    change 0xf8 with (Z.shiftl 31 3). rewrite lead_value by dlia. done. }
  exists 5%nat, 252, 2. split; [constructor|]. split; [dlia|].
  change 0xfc with (Z.shiftl 63 2). rewrite lead_value by dlia. done.
Qed.

Lemma cont_byte a : 0 <= a < 64 ->
  Z.land (128 + a) 0xc0 = 0x80 /\ Z.land (128 + a) 0x3f = a.
Proof.
  intros Ha.
  pose proof (below_spec 64 (fun a => (Z.land (128 + a) 0xc0 =? 0x80) &&
    (Z.land (128 + a) 0x3f =? a)) a eq_refl Ha) as H; cbn beta in H.
  rewrite andb_true_iff, !Z.eqb_eq in H. done.
Qed.

(** One continuation byte extends the code by six bits. *)
Lemma fold_six c v n : 0 <= c -> c * 64 ^ (Z.of_nat (S n)) + 64 ^ Z.of_nat (S n) <= 2 ^ 31 ->
  let a := (v / 64 ^ Z.of_nat n) mod 64 in
  s32 (Z.lor (Z.shiftl c 6) a) = c * 64 + a /\
  (c * 64 + a) * 64 ^ Z.of_nat n + v mod 64 ^ Z.of_nat n =
    c * 64 ^ Z.of_nat (S n) + v mod 64 ^ Z.of_nat (S n) /\
  (c * 64 + a) * 64 ^ Z.of_nat n + 64 ^ Z.of_nat n <= 2 ^ 31.
Proof.
  intros Hc Hle a.
  assert (0 <= a < 64) as Ha by (apply Z.mod_pos_bound; lia).
  assert (0 < 64 ^ Z.of_nat n) as Hp by (apply Z.pow_pos_nonneg; lia).
  rewrite Nat2Z.inj_succ, Z.pow_succ_r in Hle |- * by lia.
  rewrite lor_shiftl_add, s32_id by (change (2 ^ 6) with 64; nia).
  split; [done|]. split; [|nia].
  rewrite (Z.mul_comm 64 (64 ^ Z.of_nat n)), Z.rem_mul_r by lia. unfold a. ring.
Qed.

Lemma get_rest_conts n v r : forall c, 0 <= c ->
  c * 64 ^ Z.of_nat n + 64 ^ Z.of_nat n <= 2 ^ 31 ->
  get_rest n (conts n v ++ r) c = Some (c * 64 ^ Z.of_nat n + v mod 64 ^ Z.of_nat n).
Proof.
  induction n as [|n IH]; intros c Hc Hle; [cbn; f_equal; rewrite Z.mod_1_r; lia|].
  destruct (fold_six c v n Hc Hle) as (E1 & E2 & E3).
  cbn [conts get_rest app].
  assert (0 <= (v / 64 ^ Z.of_nat n) mod 64 < 64) as Ha by (apply Z.mod_pos_bound; lia).
  destruct (cont_byte _ Ha) as [-> ->].
  destruct (Z.eqb_spec (128 + (v / 64 ^ Z.of_nat n) mod 64) 0); [lia|].
  cbn [Z.eqb negb]. rewrite E1, IH, E2 by lia. done.
Qed.

Lemma codepoint_rest_conts n v r : forall c, 0 <= c ->
  c * 64 ^ Z.of_nat n + 64 ^ Z.of_nat n <= 2 ^ 31 ->
  codepoint_rest n (conts n v ++ r) c = Some (c * 64 ^ Z.of_nat n + v mod 64 ^ Z.of_nat n).
Proof.
  induction n as [|n IH]; intros c Hc Hle; [cbn; f_equal; rewrite Z.mod_1_r; lia|].
  destruct (fold_six c v n Hc Hle) as (E1 & E2 & E3).
  cbn [conts codepoint_rest app].
  assert (0 <= (v / 64 ^ Z.of_nat n) mod 64 < 64) as Ha by (apply Z.mod_pos_bound; lia).
  destruct (cont_byte _ Ha) as [-> ->].
  cbn [Z.eqb negb]. rewrite E1, IH, E2 by lia. done.
Qed.

(** What the lead byte makes [get], [size] and [codepoint] do. *)
Lemma lead_facts n base lim a r : lead_shape n base lim -> 0 <= a < lim ->
  size (base + a) = Z.of_nat n + 1 /\
  get (base + a :: r) = get_rest n r a /\
  codepoint (base + a :: r) = codepoint_rest n r a.
Proof.
  intros Hs Ha.
  destruct Hs;
    match type of Ha with _ <= _ < ?lim => destruct (z_below (Z.to_nat lim) a Ha) as (i & Hi & ->) end;
    cbn in Hi; clear Ha; do 32 (destruct i as [|i]; [first [exfalso; lia | split_and!; reflexivity]|]); lia.
Qed.

Lemma zlen_conts n v : zlen (conts n v) = Z.of_nat n.
Proof. induction n; [done|]. cbn [conts]. autorewrite with zlen. lia. Qed.

Lemma conts_cont n v : Forall (fun c => utf8_pointer.is_cont c = true) (conts n v).
Proof.
  induction n as [|n IH]; [constructor|]. constructor; [|done].
  unfold utf8_pointer.is_cont. apply Z.eqb_eq, cont_byte, Z.mod_pos_bound. lia.
Qed.

(** Bytes that start a character. *)
Definition starts (v : Z) : Prop :=
  utf8_pointer.is_cont v = false /\ (v < 0x80 \/ Z.land v 0xc0 = 0xc0).

Lemma starts_ascii v : 0 <= v < 0x80 -> starts v.
Proof.
  intros Hv. split; [|lia]. apply negb_true_iff.
  apply (below_spec 128 (fun v => negb (utf8_pointer.is_cont v))); [done|lia].
Qed.

Lemma starts_lead n base lim a : lead_shape n base lim -> 0 <= a < lim -> starts (base + a).
Proof.
  intros Hs Ha.
  assert (192 <= base + a < 256) as Hr by (destruct Hs; lia).
  pose proof (below_spec 64 (fun i => negb (utf8_pointer.is_cont (192 + i)) &&
    (Z.land (192 + i) 0xc0 =? 0xc0)) (base + a - 192) eq_refl ltac:(lia)) as H; cbn beta in H.
  replace (192 + (base + a - 192)) with (base + a) in H by lia.
  rewrite andb_true_iff, negb_true_iff, Z.eqb_eq in H. unfold starts. tauto.
Qed.

(** Everything the scanners use of one encoded character. *)
Lemma put_spec c : valid_code c -> exists v p,
  put c = v :: p /\ 0 < v /\ size v = zlen (put c) /\ starts v /\
  Forall (fun x => utf8_pointer.is_cont x = true) p /\ (v < 0x80 -> p = []) /\
  forall r, get (put c ++ r) = Some c /\ codepoint (put c ++ r) = Some c.
Proof.
  intros Hc. destruct (put_shape c Hc) as [[Hs ->]|(n & base & lim & Hs & Ha & ->)];
    unfold valid_code in Hc.
  - exists c, []. assert (size c = 1) as Hz by (unfold size; uc_cases; done).
    split_and!; auto; try lia.
    + apply starts_ascii. lia.
    + intros r. cbn [app get codepoint]. rewrite Hz. uc_cases; done.
  - destruct (lead_facts n base lim _ [] Hs Ha) as (Hz & _ & _).
    assert (lim * 64 ^ Z.of_nat n <= 2 ^ 31) as Hl by (destruct Hs; cbn; lia).
    assert (0 < 64 ^ Z.of_nat n) as Hp by (apply Z.pow_pos_nonneg; lia).
    assert (192 <= base) as Hbase by (destruct Hs; lia).
    eexists _, _. split; [done|]. autorewrite with zlen. rewrite zlen_conts.
    split_and!; [lia|lia|by eapply starts_lead|apply conts_cont|lia|].
    intros r. cbn [app]. destruct (lead_facts n base lim _ (conts n c ++ r) Hs Ha) as (_ & -> & ->).
    rewrite get_rest_conts, codepoint_rest_conts by nia.
    split; f_equal; rewrite Z.mul_comm; symmetry; apply Z.div_mod; lia.
Qed.

Definition encode (cs : list Z) : list Z := concat (map put cs).

Lemma encode_app cs ds : encode (cs ++ ds) = encode cs ++ encode ds.
Proof. unfold encode. by rewrite map_app, concat_app. Qed.

Lemma encode_cons c cs : encode (c :: cs) = put c ++ encode cs.
Proof. done. Qed.

Lemma encode_length cs : Forall valid_code cs -> (length cs <= length (encode cs))%nat.
Proof.
  induction 1 as [|c cs Hc _ IH]; [done|]. rewrite encode_cons, length_app.
  destruct (put_spec c Hc) as (v & p & -> & _). cbn. lia.
Qed.

(** A scanner's view of a string that is not empty: the tests it makes on the
    first character, and what dropping it leaves. *)
Lemma scan_char c cs r : valid_code c -> exists v p,
  encode (c :: cs) ++ 0 :: r = v :: p /\ (v =? 0) = false /\ (size v =? 0) = false /\
  size v = zlen (put c) /\ codepoint (v :: p) = Some c /\ get (v :: p) = Some c /\
  drop (Z.to_nat (size v)) (v :: p) = encode cs ++ 0 :: r.
Proof.
  intros Hc. destruct (put_spec c Hc) as (v & p & E & Hv & Hz & _ & _ & _ & Hg).
  exists v, (p ++ encode cs ++ 0 :: r).
  destruct (Hg (encode cs ++ 0 :: r)) as [Hget Hcp].
  rewrite encode_cons, <- app_assoc. rewrite Hz, zlen_to_nat.
  assert (put c ++ encode cs ++ 0 :: r = v :: p ++ encode cs ++ 0 :: r) as Eq by (by rewrite E).
  rewrite <- Eq, drop_app_length. pose proof (zlen_nonneg p).
  split_and!; try done; [lia|]. rewrite E. autorewrite with zlen. lia.
Qed.

(** Use [scan_char] on the scanner at the head of the goal. *)
Ltac scan c cs r Hc :=
  let v := fresh "v" in let p := fresh "p" in let E := fresh "E" in
  destruct (scan_char c cs r Hc) as (v & p & E & Hv0 & Hz0 & Hz & Hcp & Hget & Hdrop);
  rewrite E.

Lemma count_loop_encode cs r : Forall valid_code cs -> forall fuel pos,
  (length cs < fuel)%nat -> count_loop fuel (encode cs ++ 0 :: r) pos = Some (pos + zlen cs).
Proof.
  induction 1 as [|c cs Hc Hcs IH]; intros [|fuel] pos Hf; cbn [length] in Hf; try lia.
  - cbn. f_equal. uc_len.
  - scan c cs r Hc. cbn [count_loop]. rewrite Hv0, Hz0, Hdrop, IH by lia.
    autorewrite with zlen. f_equal. lia.
Qed.

Lemma offset_loop_encode n : forall cs r off, Forall valid_code cs -> (n <= length cs)%nat ->
  offset_loop n (encode cs ++ 0 :: r) off = Some (Some (off + zlen (encode (take n cs)))).
Proof.
  induction n as [|n IH]; intros cs r off Hcs Hn; [cbn; do 2 f_equal; uc_len|].
  destruct cs as [|c cs]; cbn [length] in Hn; [lia|].
  apply List.Forall_cons_iff in Hcs as [Hc Hcs].
  scan c cs r Hc. cbn [offset_loop take]. rewrite Hz0, Hdrop, IH by (done || lia).
  rewrite encode_cons. autorewrite with zlen. do 2 f_equal. lia.
Qed.

Lemma udup_loop_encode cs r : Forall valid_code cs -> forall fuel pre rest,
  (length cs < fuel)%nat -> length rest = S (length cs) ->
  udup_loop fuel (encode cs ++ 0 :: r) (pre ++ rest) (zlen pre) = Some (pre ++ cs ++ [0]).
Proof.
  induction 1 as [|c cs Hc Hcs IH]; intros [|fuel] pre rest Hf Hr; cbn [length] in Hf; try lia;
    destruct rest as [|x rest]; try discriminate Hr; cbn [length] in Hr.
  - destruct rest; [|discriminate Hr]. cbn. by apply wr_app_r.
  - scan c cs r Hc. cbn [udup_loop]. rewrite Hv0, Hcp, Hdrop. cbn.
    rewrite wr_app_r by done. cbn.
    rewrite (app_assoc pre [c] rest : pre ++ c :: rest = (pre ++ [c]) ++ rest).
    replace (zlen pre + 1) with (zlen (pre ++ [c])) by uc_len.
    rewrite IH by lia. by rewrite <- app_assoc.
Qed.

(** The distance of the first occurrence of a code, and of the last one. *)
Fixpoint find_spec (cs : list Z) (code : Z) : option Z :=
  match cs with
  | [] => None
  | c :: cs' => if c =? code then Some 0 else (fun o => zlen (put c) + o) <$> find_spec cs' code
  end.

Fixpoint rfind_spec (cs : list Z) (code : Z) : option Z :=
  match cs with
  | [] => None
  | c :: cs' =>
      match rfind_spec cs' code with
      | Some o => Some (zlen (put c) + o)
      | None => if c =? code then Some 0 else None
      end
  end.

Lemma find_loop_encode cs r code pos : Forall valid_code cs -> forall fuel cpos off,
  (length cs < fuel)%nat -> 0 <= cpos -> (pos = 0 \/ cpos <= pos) ->
  find_loop fuel (encode cs ++ 0 :: r) code pos cpos off =
  Some ((fun o => off + o) <$>
    find_spec (if pos =? 0 then cs else take (Z.to_nat (pos - cpos)) cs) code).
Proof.
  induction 1 as [|c cs Hc Hcs IH]; intros [|fuel] cpos off Hf Hp Hpos;
    cbn [length] in Hf; try lia.
  - cbn. destruct (pos =? 0); [done|]. by rewrite take_nil.
  - scan c cs r Hc. cbn [find_loop]. rewrite Hv0, Hcp, Hz0, Hdrop. cbn [mbind option_bind].
    assert ((c =? -1) = false) as -> by (unfold valid_code in Hc; lia). cbn [orb].
    destruct (Z.eqb_spec pos 0) as [->|Hp0]; cbn [negb andb].
    + cbn [find_spec]. destruct (c =? code); [cbn; by rewrite Z.add_0_r|].
      rewrite IH by lia. cbn [Z.eqb]. rewrite Hz. destruct (find_spec cs code); cbn; [|done].
      do 2 f_equal. lia.
    + destruct (Z.ltb_spec pos (cpos + 1)).
      { replace (pos - cpos) with 0 by lia. done. }
      replace (Z.to_nat (pos - cpos)) with (S (Z.to_nat (pos - (cpos + 1)))) by lia.
      cbn [take find_spec]. destruct (c =? code); [cbn; by rewrite Z.add_0_r|].
      rewrite IH by lia. destruct (Z.eqb_spec pos 0); [lia|]. rewrite Hz.
      destruct (find_spec _ code); cbn; [|done]. do 2 f_equal. lia.
Qed.

Lemma ccount_loop_encode cs r code : Forall valid_code cs -> forall fuel total,
  (length cs < fuel)%nat ->
  ccount_loop fuel (encode cs ++ 0 :: r) code total =
  Some (total + Z.of_nat (count_occ Z.eq_dec cs code)).
Proof.
  induction 1 as [|c cs Hc Hcs IH]; intros [|fuel] total Hf; cbn [length] in Hf; try lia.
  - cbn. by rewrite Z.add_0_r.
  - scan c cs r Hc. cbn [ccount_loop]. rewrite Hv0, Hcp, Hz0, Hdrop. cbn [mbind option_bind].
    assert ((c =? -1) = false) as -> by (unfold valid_code in Hc; lia). cbn [orb].
    rewrite IH by lia. cbn [count_occ].
    destruct (Z.eqb_spec c code), (Z.eq_dec c code); try done; f_equal; lia.
Qed.

Lemma rfind_loop_encode cs r code pos : Forall valid_code cs -> forall fuel cpos off result,
  (length cs < fuel)%nat -> 0 <= cpos <= pos ->
  rfind_loop fuel (encode cs ++ 0 :: r) code pos cpos off result =
  Some (match rfind_spec (take (Z.to_nat (pos - cpos + 1)) cs) code with
        | Some o => Some (off + o)
        | None => result
        end).
Proof.
  induction 1 as [|c cs Hc Hcs IH]; intros [|fuel] cpos off result Hf Hp;
    cbn [length] in Hf; try lia.
  - cbn. by rewrite take_nil.
  - scan c cs r Hc. cbn [rfind_loop]. rewrite Hv0, Hcp, Hz0, Hdrop. cbn [mbind option_bind].
    assert ((c =? -1) = false) as -> by (unfold valid_code in Hc; lia). cbn [orb].
    replace (Z.to_nat (pos - cpos + 1)) with (S (Z.to_nat (pos - cpos))) by lia.
    cbn [take rfind_spec].
    destruct (Z.ltb_spec pos (cpos + 1)).
    + replace (Z.to_nat (pos - cpos)) with 0%nat by lia.
      destruct (c =? code); cbn; [do 2 f_equal; lia|done].
    + rewrite IH by lia. replace (pos - (cpos + 1) + 1) with (pos - cpos) by lia. rewrite Hz.
      destruct (rfind_spec _ code) as [o|]; [do 2 f_equal; lia|].
      destruct (c =? code); cbn; [do 2 f_equal; lia|done].
Qed.

(** ** Walking with a [utf8_pointer] *)

Section walk.
Import utf8_pointer.

Lemma skip_cont_run p : forall fuel q x s, Forall (fun c => is_cont c = true) p ->
  is_cont x = false -> (length p < fuel)%nat ->
  skip_cont fuel (q ++ p ++ x :: s) (zlen q) = Some (zlen q + zlen p).
Proof.
  induction p as [|c p IH]; intros [|fuel] q x s Hp Hx Hf; cbn [length] in Hf; try lia;
    cbn [app skip_cont].
  - rewrite rd_app_r by done. cbn. rewrite Hx. f_equal. uc_len.
  - apply List.Forall_cons_iff in Hp as [Hc Hp]. rewrite rd_app_r by done. cbn. rewrite Hc.
    rewrite (app_assoc q [c] (p ++ x :: s) : q ++ c :: p ++ x :: s = (q ++ [c]) ++ p ++ x :: s).
    replace (zlen q + 1) with (zlen (q ++ [c])) by uc_len.
    rewrite IH by (done || lia). f_equal. uc_len.
Qed.

Lemma back_cont_run p : forall fuel q v s, Forall (fun c => is_cont c = true) p ->
  is_cont v = false -> (length p < fuel)%nat ->
  back_cont fuel (q ++ v :: p ++ s) (zlen q + 1 + zlen p) = Some (zlen q).
Proof.
  induction p as [|c p IH] using rev_ind; intros [|fuel] q v s Hp Hv Hf;
    rewrite ?length_app in Hf; cbn [length] in Hf; try lia; cbn [back_cont].
  - replace (zlen q + 1 + zlen [] - 1) with (zlen q) by uc_len.
    rewrite rd_app_r by done. cbn. by rewrite Hv.
  - apply Forall_app in Hp as [Hp Hc]. apply List.Forall_cons_iff in Hc as [Hc _].
    replace (zlen q + 1 + zlen (p ++ [c]) - 1) with (zlen q + 1 + zlen p) by uc_len.
    rewrite <- app_assoc. cbn [app].
    replace (rd (q ++ v :: p ++ c :: s) (zlen q + 1 + zlen p)) with (Some c).
    2:{ rewrite (app_assoc q (v :: p) (c :: s) : q ++ v :: p ++ c :: s = (q ++ v :: p) ++ c :: s).
        rewrite rd_app_r by uc_len. done. }
    cbn. rewrite Hc. apply IH; done || lia.
Qed.

(** What follows a whole character does not continue it. *)
Lemma next_start cs r : Forall valid_code cs ->
  exists x s, encode cs ++ 0 :: r = x :: s /\ is_cont x = false.
Proof.
  intros [|c cs' Hc _]; [by exists 0, r|].
  destruct (put_spec c Hc) as (v & p & E & _ & _ & [Hv _] & _).
  exists v, (p ++ encode cs' ++ 0 :: r). rewrite encode_cons, E, <- app_assoc. done.
Qed.

Lemma inc_char q c cs r : valid_code c -> Forall valid_code cs ->
  inc (q ++ put c ++ encode cs ++ 0 :: r) (Some (zlen q)) =
  Some (Some (zlen q + zlen (put c))).
Proof.
  intros Hc Hcs. destruct (put_spec c Hc) as (v & p & E & Hv & _ & [_ Hs] & Hp & Hascii & _).
  destruct (next_start cs r Hcs) as (x & s & -> & Hx).
  unfold inc. rewrite E. cbn [app]. rewrite rd_app_r by done. cbn [lookup list_lookup mbind option_bind].
  destruct (Z.ltb_spec v 0x80).
  - rewrite Hascii by done. done.
  - destruct Hs as [Hs|Hs]; [lia|]. rewrite Hs. cbn [Z.eqb].
    rewrite (app_assoc q [v] (p ++ x :: s) : q ++ v :: p ++ x :: s = (q ++ [v]) ++ p ++ x :: s).
    replace (zlen q + 1) with (zlen (q ++ [v])) by uc_len.
    rewrite skip_cont_run; [|done|done|rewrite !length_app; cbn; lia].
    cbn. do 2 f_equal. uc_len.
Qed.

Lemma dec_char q c s : valid_code c ->
  dec (q ++ put c ++ s) (Some (zlen q + zlen (put c))) = Some (Some (zlen q)).
Proof.
  intros Hc. destruct (put_spec c Hc) as (v & p & -> & _ & _ & [Hv _] & Hp & _).
  unfold dec. replace (zlen q + zlen (v :: p)) with (zlen q + 1 + zlen p) by uc_len.
  cbn [app]. rewrite back_cont_run; [done|done|done|].
  rewrite length_app. cbn. rewrite length_app. lia.
Qed.

(** The position of the [i]-th character. *)
Definition boundary (cs : list Z) (i : nat) : Z := zlen (encode (take i cs)).

Lemma boundary_split cs i : (i < length cs)%nat -> exists pre c post,
  cs = pre ++ c :: post /\ boundary cs i = zlen (encode pre) /\
  boundary cs (S i) = zlen (encode pre) + zlen (put c).
Proof.
  intros Hi. destruct (lookup_lt_is_Some_2 cs i Hi) as [c Hc].
  exists (take i cs), c, (drop (S i) cs). split_and!; [by rewrite take_drop_middle|done|].
  unfold boundary. rewrite (take_S_r _ _ c Hc), encode_app, zlen_app. do 2 f_equal.
  unfold encode. cbn. by rewrite app_nil_r.
Qed.

Lemma inc_boundary cs r i : Forall valid_code cs -> (i < length cs)%nat ->
  inc (encode cs ++ 0 :: r) (Some (boundary cs i)) = Some (Some (boundary cs (S i))).
Proof.
  intros Hcs Hi. destruct (boundary_split cs i Hi) as (pre & c & post & -> & -> & ->).
  inv_forall. rewrite encode_app, encode_cons, <- !app_assoc. by apply inc_char.
Qed.

Lemma dec_boundary cs r i : Forall valid_code cs -> (i < length cs)%nat ->
  dec (encode cs ++ 0 :: r) (Some (boundary cs (S i))) = Some (Some (boundary cs i)).
Proof.
  intros Hcs Hi. destruct (boundary_split cs i Hi) as (pre & c & post & -> & -> & ->).
  inv_forall. rewrite encode_app, encode_cons, <- !app_assoc. by apply dec_char.
Qed.

Lemma steps_inc cs r n : forall i, Forall valid_code cs -> (i + n <= length cs)%nat ->
  steps (inc (encode cs ++ 0 :: r)) n (Some (boundary cs i)) = Some (Some (boundary cs (i + n))).
Proof.
  induction n as [|n IH]; intros i Hcs Hn; cbn [steps]; [by rewrite Nat.add_0_r|].
  rewrite inc_boundary by (done || lia). cbn. rewrite IH by (done || lia). do 3 f_equal. lia.
Qed.

Lemma steps_dec cs r n : forall i, Forall valid_code cs -> (i + n <= length cs)%nat ->
  steps (dec (encode cs ++ 0 :: r)) n (Some (boundary cs (i + n))) = Some (Some (boundary cs i)).
Proof.
  induction n as [|n IH]; intros i Hcs Hn; cbn [steps]; [by rewrite Nat.add_0_r|].
  replace (i + S n)%nat with (S (i + n)) by lia.
  rewrite dec_boundary by (done || lia). cbn. apply IH; done || lia.
Qed.

End walk.

(** ** Properties *)

(** C3.  UTF-8 round trip: for every code point of up to 31 bits, [get] and
    [codepoint] read back what [put] stores whatever follows it, [size] of its
    first byte is the number of bytes stored, and that number is what [chars]
    announces except for U+0080 and U+07FF. *)
Theorem put_get_roundtrip (code : Z) (r : list Z) :
  valid_code code ->
  get (put code ++ r) = Some code /\ codepoint (put code ++ r) = Some code /\
  (exists v p, put code = v :: p /\ size v = zlen (put code)) /\
  (zlen (put code) = chars code <-> code <> 0x80 /\ code <> 0x7ff).
Proof.
  intros Hc. destruct (put_spec code Hc) as (v & p & E & _ & Hz & _ & _ & _ & Hg).
  destruct (Hg r) as [-> ->]. split_and!; [done|done|by exists v, p|].
  unfold valid_code in Hc. unfold put, chars, EOF. uc_cases; uc_len.
Qed.

Lemma put_get_roundtrip_witness :
  get (put 0x20ac ++ [65]) = Some 0x20ac /\ codepoint (put 0x20ac ++ [65]) = Some 0x20ac /\
  (exists v p, put 0x20ac = v :: p /\ size v = zlen (put 0x20ac)) /\
  (zlen (put 0x20ac) = chars 0x20ac <-> 0x20ac <> 0x80 /\ 0x20ac <> 0x7ff).
Proof. apply (put_get_roundtrip 0x20ac [65]). split; reflexivity. Defined.

(** Counting and indexing agree with the code points a text encodes:
    [count] is their number, and [offset] maps a position, negative ones from
    the tail, to the bytes in front of that code point, or to NULL exactly when
    there is no such position. *)
Theorem count_offset_encode (cs r : list Z) (pos : Z) :
  Forall valid_code cs ->
  count (Some (encode cs ++ 0 :: r)) = Some (zlen cs) /\
  offset (Some (encode cs ++ 0 :: r)) pos =
    Some (if (pos <? - zlen cs) || (zlen cs <? pos) then None
          else Some (boundary cs (Z.to_nat (if pos <? 0 then zlen cs + pos else pos)))).
Proof.
  intros Hcs. pose proof (encode_length cs Hcs) as Hl.
  assert (Hcount : count (Some (encode cs ++ 0 :: r)) = Some (zlen cs)).
  { cbn. rewrite count_loop_encode; [done|done|rewrite length_app; cbn; lia]. }
  split; [done|]. unfold offset. rewrite Hcount. cbn [mbind option_bind].
  assert (Hz : zlen cs = Z.of_nat (length cs)) by done.
  destruct (Z.ltb_spec (zlen cs) pos); [by rewrite orb_true_r|]. rewrite orb_false_r.
  destruct (Z.eqb_spec pos 0) as [->|Hp].
  { unfold boundary. rewrite take_0. uc_cases. done. }
  destruct (Z.ltb_spec pos 0).
  - uc_cases; [done|]. rewrite offset_loop_encode by (done || lia). done.
  - uc_cases. rewrite offset_loop_encode by (done || lia). done.
Qed.

Lemma count_offset_encode_witness :
  count (Some (encode [0x20ac; 65] ++ [0])) = Some 2 /\
  offset (Some (encode [0x20ac; 65] ++ [0])) (-1) = Some (Some 3).
Proof.
  apply (count_offset_encode [0x20ac; 65] [] (-1)).
  repeat constructor.
Defined.

(** Searching: on a text that encodes code points, [find] gives the first
    occurrence among the first [pos] code points (all of them for [pos = 0]),
    [rfind] the last one among the first [pos + 1], and [ccount] their number. *)
Theorem find_encode (cs r : list Z) (code pos : Z) :
  Forall valid_code cs -> 0 <= pos ->
  find (Some (encode cs ++ 0 :: r)) code pos =
    Some (find_spec (if pos =? 0 then cs else take (Z.to_nat pos) cs) code) /\
  rfind (Some (encode cs ++ 0 :: r)) code pos =
    Some (rfind_spec (take (Z.to_nat (pos + 1)) cs) code) /\
  ccount (Some (encode cs ++ 0 :: r)) code = Some (Z.of_nat (count_occ Z.eq_dec cs code)).
Proof.
  intros Hcs Hp. pose proof (encode_length cs Hcs) as Hl.
  assert (length cs < length (encode cs ++ 0%Z :: r))%nat by (rewrite length_app; cbn; lia).
  unfold find, rfind, ccount.
  rewrite find_loop_encode, rfind_loop_encode, ccount_loop_encode by (done || lia).
  rewrite !Z.sub_0_r, Z.add_0_l. split_and!; [| |done].
  - by destruct (find_spec _ code).
  - by destruct (rfind_spec _ code).
Qed.

Lemma find_encode_witness :
  find (Some (encode [65; 0x20ac; 65] ++ [0])) 65 2 = Some (Some 0) /\
  rfind (Some (encode [65; 0x20ac; 65] ++ [0])) 65 2 = Some (Some 4) /\
  ccount (Some (encode [65; 0x20ac; 65] ++ [0])) 65 = Some 2.
Proof.
  apply (find_encode [65; 0x20ac; 65] [] 65 2); [repeat constructor | discriminate].
Defined.

(** [udup] decodes: the array it allocates for a text that encodes code
    points holds exactly these, closed by a zero. *)
Theorem udup_encode (cs r : list Z) :
  Forall valid_code cs -> udup (Some (encode cs ++ 0 :: r)) = Some (Some (cs ++ [0])).
Proof.
  intros Hcs. pose proof (encode_length cs Hcs) as Hl. unfold udup.
  destruct (count_offset_encode cs r 0 Hcs) as [-> _]. cbn [mbind option_bind].
  pose proof (udup_loop_encode cs r Hcs (S (length (encode cs ++ 0 :: r))) []
    (replicate (Z.to_nat (zlen cs + 1)) 0)) as H.
  change (zlen (@nil Z)) with 0 in H. cbn [app] in H.
  rewrite H; [done|rewrite length_app; cbn; lia|rewrite length_replicate; unfold zlen; lia].
Qed.

Lemma udup_encode_witness : udup (Some (encode [0x20ac; 65] ++ [0])) = Some (Some [0x20ac; 65; 0]).
Proof. apply (udup_encode [0x20ac; 65] []). repeat constructor. Defined.

(** A [utf8_pointer] walks code points: from the [i]-th one, [+=] and [-=]
    by any signed distance that stays in the text land on the boundary that
    many code points away, and [[]] reads the code point there (zero at the
    end). *)
Theorem pointer_walk (cs r : list Z) (i : nat) (k : Z) :
  Forall valid_code cs -> (i <= length cs)%nat -> 0 <= Z.of_nat i + k <= zlen cs ->
  let b := encode cs ++ 0 :: r in
  let j := Z.to_nat (Z.of_nat i + k) in
  utf8_pointer.add b (Some (boundary cs i)) k = Some (Some (boundary cs j)) /\
  utf8_pointer.sub b (Some (boundary cs i)) (- k) = Some (Some (boundary cs j)) /\
  utf8_pointer.at_ b (Some (boundary cs i)) k = Some (nth j cs 0).
Proof.
  intros Hcs Hi Hk b j. unfold zlen in Hk.
  assert (Hadd : utf8_pointer.add b (Some (boundary cs i)) k = Some (Some (boundary cs j))).
  { unfold utf8_pointer.add. destruct (Z.ltb_spec 0 k).
    - unfold b. rewrite steps_inc by (done || lia). do 3 f_equal. lia.
    - replace i with (j + Z.to_nat (- k))%nat by lia. apply steps_dec; done || lia. }
  split_and!; [done| |].
  - unfold utf8_pointer.sub. destruct (Z.ltb_spec 0 (- k)).
    + replace i with (j + Z.to_nat (- k))%nat by lia. apply steps_dec; done || lia.
    + rewrite Z.opp_involutive. unfold b. rewrite steps_inc by (done || lia). do 3 f_equal. lia.
  - unfold utf8_pointer.at_. rewrite Hadd. cbn [mbind option_bind]. unfold boundary, b.
    rewrite zlen_to_nat. rewrite <- (take_drop j cs) at 2.
    rewrite encode_app, <- app_assoc, drop_app_length.
    destruct (decide (j < length cs)%nat) as [Hj|Hj].
    + destruct (lookup_lt_is_Some_2 cs j Hj) as [c Hc].
      rewrite (drop_S _ _ _ Hc). apply (Forall_lookup_1 _ _ _ _ Hcs) in Hc as Hv.
      destruct (scan_char c (drop (S j) cs) r Hv) as (v & p & -> & _ & _ & _ & -> & _).
      by rewrite (nth_lookup_Some _ _ _ _ Hc).
    + rewrite drop_ge, nth_overflow by lia. done.
Qed.

Lemma pointer_walk_witness :
  utf8_pointer.add (encode [65; 0x20ac; 66] ++ [0]) (Some 4) (-1) = Some (Some 1) /\
  utf8_pointer.sub (encode [65; 0x20ac; 66] ++ [0]) (Some 4) 1 = Some (Some 1) /\
  utf8_pointer.at_ (encode [65; 0x20ac; 66] ++ [0]) (Some 4) (-1) = Some 0x20ac.
Proof.
  apply (pointer_walk [65; 0x20ac; 66] [] 2 (-1)).
  - repeat constructor.
  - cbn. lia.
  - split; discriminate.
Defined.

(** [unpack] does not count its buffer down: given a buffer of [bufsize]
    bytes and at least that many ASCII codes, it writes behind the buffer,
    although every code passes its size test; and the number of code points it
    reports is always zero. *)
Theorem unpack_overflows (str buf : list Z) :
  Forall (fun c => 0 < c < 0x80) str -> 2 <= zlen buf < 2 ^ 64 -> zlen buf <= zlen str ->
  unpack str buf (zlen buf) = None /\
  forall s b n out used, unpack s b n = Some (out, used) -> used = 0.
Proof.
  intros Hs Hb Hl. split.
  - unfold unpack. assert (Hloop : forall s b a, Forall (fun c => 0 < c < 0x80) s ->
      zlen b = zlen buf -> 0 <= a -> zlen buf <= a + zlen s ->
      unpack_loop s b (zlen buf) a = None).
    { induction s as [|c s IH]; intros b a Hc Hlb Ha Hle; cbn [unpack_loop].
      - unfold wr. rewrite <- Hlb in Hle. unfold zlen in Hle. cbn [length] in Hle. uc_cases. done.
      - apply List.Forall_cons_iff in Hc as [Hc Hcs]. autorewrite with zlen in Hle.
        assert (put c = [c] /\ chars c = 1) as [-> ->].
        { unfold put, chars, EOF. uc_cases. by rewrite u8_id by (unfold is_byte; lia). }
        rewrite u64_id by lia. uc_cases.
        destruct (blit b a [c]) as [b'|] eqn:E; [|done]. cbn [mbind option_bind].
        apply IH; [done| |lia|lia]. apply blit_length in E. unfold zlen in *. lia. }
    rewrite Hloop; [done|done|done|lia|lia].
  - intros s b n out used. unfold unpack. destruct (unpack_loop s b n 0); [|done]. cbn.
    by intros [= _ <-].
Qed.

Lemma unpack_overflows_witness : unpack [65; 66; 67] [0; 0; 0] 3 = None.
Proof.
  apply (unpack_overflows [65; 66; 67] [0; 0; 0]).
  - repeat constructor; discriminate.
  - split; [discriminate | reflexivity].
  - discriminate.
Defined.
