(* ===== verification/Numbers.v ===== *)
(** * Numbers kept as text (corelib/numbers.cpp)

    A [Number] is a pointer and a width: its operations are given the block the
    pointer starts and the width.  [ZNumber] only replaces [set]. *)

From stdpp Require Import strings.
From S2P Require Import Prelude CLib.

(** ** Modules of the source's classes *)

Module Number.

(** The constructor's width. *)
Definition width (w : Z) : Z :=
  let w := if 10 <? w then 10 else w in
  if w <? 1 then 1 else w.

Fixpoint get_loop (bp : list Z) (count : nat) (ret : Z) {struct count} : option Z :=
  match count with
  | O => Some ret
  | S n =>
      match bp with
      | [] => None
      | c :: bp' => if isdigit c then get_loop bp' n (ret * 10 + (c - 48)) else Some ret
      end
  end.

Definition get (buffer : list Z) (size : Z) : option Z :=
  match buffer with
  | [] => None
  | c :: bp =>
      if c =? 45 then Z.opp <$> get_loop bp (Z.to_nat (size - 1)) 0
      else if c =? 43 then get_loop bp (Z.to_nat (size - 1)) 0
      else get_loop buffer (Z.to_nat size) 0
  end.

(** [exp = count; while (--exp) max *= 10;]: from a count below one the loop
    counts through the negative integers, which is undefined. *)
Definition max_of (count : Z) : option Z :=
  if count <? 1 then None else Some (10 ^ (count - 1)).

(** The digit loop: [max] runs through the powers of ten. *)
Fixpoint set_loop (fuel : nat) (buffer : list Z) (bp count value max : Z) (z : bool)
    : option (list Z * Z * Z) :=
  match fuel with
  | O => None
  | S n =>
      if max =? 0 then Some (buffer, bp, count)
      else
        '(buffer, bp, count) ←
          (if (max <=? value) || z
           then b ← wr buffer bp (u8 (48 + value / max)); Some (b, bp + 1, count - 1)
           else Some (buffer, bp, count));
        if max <=? value
        then set_loop n buffer bp count (value - value / max * max) (max / 10) true
        else set_loop n buffer bp count value (max / 10) z
  end.

(** Blank the digits left behind the new ones. *)
Fixpoint blank_loop (count : nat) (buffer : list Z) (bp : Z) : option (list Z) :=
  match count with
  | O => Some buffer
  | S n =>
      c ← rd buffer bp;
      if isdigit c then b ← wr buffer bp 32; blank_loop n b (bp + 1) else Some buffer
  end.

(** From the computation of [max] on. *)
Definition set_digits (buffer : list Z) (bp count value : Z) : option (list Z) :=
  max ← max_of count;
  '(buffer, bp, count) ← set_loop 12 buffer bp count value max false;
  blank_loop (Z.to_nat count) buffer bp.

Definition set (buffer : list Z) (size value : Z) : option (list Z) :=
  if value <? 0
  then b ← wr buffer 0 45; set_digits b 1 (size - 1) (- value)
  else set_digits buffer 0 size value.

(** The operators: the new block and the value returned. *)
Definition assign (buffer : list Z) (size value : Z) : option (list Z * Z) :=
  b ← set buffer size value; Some (b, value).

Definition assign_number (buffer : list Z) (size : Z) (other : list Z) (osize : Z)
    : option (list Z * Z) :=
  v ← get other osize; b ← set buffer size v; r ← get b size; Some (b, r).

Definition add (buffer : list Z) (size value : Z) : option (list Z * Z) :=
  v ← get buffer size; b ← set buffer size (v + value); Some (b, v + value).

Definition sub (buffer : list Z) (size value : Z) : option (list Z * Z) :=
  v ← get buffer size; b ← set buffer size (v - value); Some (b, v - value).

Definition decr (buffer : list Z) (size : Z) : option (list Z * Z) :=
  v ← get buffer size; b ← set buffer size (v - 1); Some (b, v - 1).

Definition incr (buffer : list Z) (size : Z) : option (list Z * Z) :=
  v ← get buffer size; b ← set buffer size (v + 1); Some (b, v + 1).

End Number.

Module ZNumber.

Fixpoint set_loop (fuel : nat) (buffer : list Z) (bp value max : Z) : option (list Z) :=
  match fuel with
  | O => None
  | S n =>
      if max =? 0 then Some buffer
      else
        b ← wr buffer bp (u8 (48 + value / max));
        set_loop n b (bp + 1) (value - value / max * max) (max / 10)
  end.

Definition set_digits (buffer : list Z) (bp count value : Z) : option (list Z) :=
  max ← Number.max_of count; set_loop 12 buffer bp value max.

Definition set (buffer : list Z) (size value : Z) : option (list Z) :=
  if value <? 0
  then b ← wr buffer 0 45; set_digits b 1 (size - 1) (- value)
  else set_digits buffer 0 size value.

(** [ZNumber::operator=] *)
Definition assign (buffer : list Z) (size value : Z) : option (list Z * Z) :=
  b ← set buffer size value; Some (b, value).

End ZNumber.

Example set_num : Number.set (bytes "98765") 5 (-42) = Some (bytes "-42  ").
Proof. vm_compute. reflexivity. Qed.
Example set_znum : ZNumber.set (bytes "98765") 5 42 = Some (bytes "00042").
Proof. vm_compute. reflexivity. Qed.
Example get_num : Number.get (bytes "-42  ") 5 = Some (-42).
Proof. vm_compute. reflexivity. Qed.

(** ** Decimal digits *)

(** The [n] low decimal digits of [v], most significant first. *)
Fixpoint decimal (n : nat) (v : Z) : list Z :=
  match n with
  | O => []
  | S m => 48 + v / 10 ^ Z.of_nat m mod 10 :: decimal m v
  end.

Lemma length_decimal n v : length (decimal n v) = n.
Proof. induction n; cbn; lia. Qed.

Lemma pow10_pos n : 0 < 10 ^ Z.of_nat n.
Proof. apply Z.pow_pos_nonneg; lia. Qed.

Lemma pow10_S n : 10 ^ Z.of_nat (S n) = 10 * 10 ^ Z.of_nat n.
Proof. rewrite Nat2Z.inj_succ, Z.pow_succ_r; lia. Qed.

Lemma isdigit_digit v : 0 <= v < 10 -> isdigit (48 + v) = true.
Proof. unfold isdigit. intros. by uc_cases. Qed.

(** The reading loop over the digits of [v]. *)
Lemma get_loop_decimal n v r m : forall ret,
  Number.get_loop (decimal n v ++ r) (n + m) ret =
  Number.get_loop r m (ret * 10 ^ Z.of_nat n + v mod 10 ^ Z.of_nat n).
Proof.
  induction n as [|n IH]; intros ret.
  - cbn. rewrite Z.mod_1_r. f_equal. lia.
  - pose proof (pow10_pos n). cbn [decimal app Nat.add Number.get_loop].
    pose proof (Z.mod_pos_bound (v / 10 ^ Z.of_nat n) 10 eq_refl).
    rewrite isdigit_digit, IH by lia. f_equal.
    rewrite pow10_S, (Z.mul_comm 10 (10 ^ Z.of_nat n)), Z.rem_mul_r by lia. ring.
Qed.

(** The leading part of a longer digit string. *)
Lemma decimal_S_head n v : 0 <= v < 10 ^ Z.of_nat (S n) ->
  v / 10 ^ Z.of_nat n mod 10 = v / 10 ^ Z.of_nat n.
Proof.
  intros Hv. rewrite pow10_S in Hv. pose proof (pow10_pos n). apply Z.mod_small.
  split; [apply Z.div_pos; lia|]. apply Z.div_lt_upper_bound; lia.
Qed.

Lemma decimal_mod n : forall m v, (n <= m)%nat -> decimal n (v mod 10 ^ Z.of_nat m) = decimal n v.
Proof.
  induction n as [|n IH]; intros m v Hm; [done|]. cbn [decimal]. f_equal; [|apply IH; lia].
  f_equal. pose proof (pow10_pos n).
  replace (Z.of_nat m) with (Z.of_nat n + Z.of_nat (S (m - S n))) by lia.
  rewrite Z.pow_add_r by lia. rewrite Z.rem_mul_r by lia.
  rewrite (Z.mul_comm (10 ^ Z.of_nat n)), Z.div_add by lia.
  rewrite Z.div_small by (apply Z.mod_pos_bound; lia). rewrite Z.add_0_l, pow10_S.
  pose proof (pow10_pos (m - S n)). rewrite Z.rem_mul_r by lia.
  rewrite Z.mul_comm, Z.mod_add by lia. by rewrite Z.mod_mod.
Qed.

Lemma rest_of_div v p : 0 < p -> v - v / p * p = v mod p.
Proof. intros. rewrite Z.mod_eq by lia. lia. Qed.

Lemma div_pow10 n : 10 ^ Z.of_nat (S n) / 10 = 10 ^ Z.of_nat n.
Proof. rewrite pow10_S, Z.mul_comm. apply Z.div_mul. lia. Qed.

(** [ZNumber]'s loop writes the digits over the cells in front of it. *)
Lemma zset_loop_spec n : forall fuel p old r v,
  (S n < fuel)%nat -> length old = S n -> 0 <= v < 10 ^ Z.of_nat (S n) ->
  ZNumber.set_loop fuel (p ++ old ++ r) (zlen p) v (10 ^ Z.of_nat n) =
  Some (p ++ decimal (S n) v ++ r).
Proof.
  induction n as [|n IH]; intros [|fuel] p old r v Hf Ho Hv; try lia;
    destruct old as [|x old]; try discriminate Ho; cbn [length] in Ho;
    cbn [ZNumber.set_loop app].
  - destruct old; [|discriminate Ho]. destruct fuel; [lia|].
    change (10 ^ Z.of_nat 1) with 10 in Hv. change (10 ^ Z.of_nat 0) with 1.
    change (1 =? 0) with false. cbv iota. rewrite wr_app_r by done.
    cbn [mbind option_bind ZNumber.set_loop]. change (1 / 10 =? 0) with true. cbv iota.
    cbn [decimal app]. change (10 ^ Z.of_nat 0) with 1.
    rewrite Z.div_1_r, Z.mod_small, u8_id by (unfold is_byte; lia). done.
  - pose proof (pow10_pos (S n)) as Hp. destruct (Z.eqb_spec (10 ^ Z.of_nat (S n)) 0); [lia|].
    pose proof (decimal_S_head _ _ Hv) as Hd.
    pose proof (Z.mod_pos_bound (v / 10 ^ Z.of_nat (S n)) 10 eq_refl).
    rewrite wr_app_r by done. cbn [mbind option_bind].
    rewrite rest_of_div, div_pow10, u8_id by (unfold is_byte; lia).
    rewrite (app_assoc p [_] (old ++ r) :
      p ++ _ :: old ++ r = (p ++ [48 + v / 10 ^ Z.of_nat (S n)]) ++ old ++ r).
    replace (zlen p + 1) with (zlen (p ++ [48 + v / 10 ^ Z.of_nat (S n)])) by uc_len.
    rewrite IH; [|lia|lia|by apply Z.mod_pos_bound].
    rewrite decimal_mod by lia.
    change (decimal (S (S n)) v) with
      (48 + v / 10 ^ Z.of_nat (S n) mod 10 :: decimal (S n) v).
    rewrite Hd, <- app_assoc. done.
Qed.

Lemma max_of_S n : Number.max_of (Z.of_nat (S n)) = Some (10 ^ Z.of_nat n).
Proof.
  unfold Number.max_of. destruct (Z.ltb_spec (Z.of_nat (S n)) 1); [lia|].
  by replace (Z.of_nat (S n) - 1) with (Z.of_nat n) by lia.
Qed.

Lemma zset_digits_spec p old r v : (0 < length old <= 10)%nat ->
  0 <= v < 10 ^ Z.of_nat (length old) ->
  ZNumber.set_digits (p ++ old ++ r) (zlen p) (Z.of_nat (length old)) v =
  Some (p ++ decimal (length old) v ++ r).
Proof.
  intros Ho Hv. destruct (length old) as [|n] eqn:E; [lia|].
  unfold ZNumber.set_digits. rewrite max_of_S. run. apply zset_loop_spec; lia.
Qed.

Lemma zset_nonneg size b v : 1 <= size <= 10 -> size <= zlen b -> 0 <= v < 10 ^ size ->
  ZNumber.set b size v = Some (decimal (Z.to_nat size) v ++ drop (Z.to_nat size) b).
Proof.
  intros Hs Hb Hv. destruct (block_split b size ltac:(lia)) as (old & r & -> & <-).
  unfold ZNumber.set. destruct (Z.ltb_spec v 0); [lia|].
  rewrite zlen_to_nat, drop_app_length.
  apply (zset_digits_spec [] old r v); [unfold zlen in *; lia|done].
Qed.

Lemma zset_negative size b v : 2 <= size <= 10 -> size <= zlen b -> - 10 ^ (size - 1) < v < 0 ->
  ZNumber.set b size v =
  Some (45 :: decimal (Z.to_nat (size - 1)) (- v) ++ drop (Z.to_nat size) b).
Proof.
  intros Hs Hb Hv. destruct (block_split b size ltac:(lia)) as (old & r & -> & <-).
  unfold ZNumber.set. destruct (Z.ltb_spec v 0); [|lia].
  rewrite zlen_to_nat, drop_app_length. destruct old as [|x old]; [uc_len|].
  rewrite zlen_cons in Hv |- *. cbn [app].
  replace (zlen old + 1 - 1) with (Z.of_nat (length old)) in Hv |- * by (unfold zlen; lia).
  rewrite (wr_app_r [] (old ++ r) 0 x 45 eq_refl : wr (x :: old ++ r) 0 45 = _). run.
  rewrite Nat2Z.id. apply (zset_digits_spec [45] old r (- v)); [uc_len|lia].
Qed.

Lemma get_decimal n v r : (0 < n)%nat -> 0 <= v < 10 ^ Z.of_nat n ->
  Number.get (decimal n v ++ r) (Z.of_nat n) = Some v.
Proof.
  intros Hn Hv. destruct n as [|n]; [lia|].
  assert (Number.get_loop (decimal (S n) v ++ r) (S n) 0 = Some v) as H.
  { rewrite <- (Nat.add_0_r (S n)) at 2. rewrite get_loop_decimal. cbn [Number.get_loop].
    rewrite Z.mod_small by done. done. }
  unfold Number.get. cbn [decimal app] in *.
  pose proof (Z.mod_pos_bound (v / 10 ^ Z.of_nat n) 10 eq_refl).
  uc_cases. by rewrite Nat2Z.id.
Qed.

(** A [ZNumber] holds what it is given: a value whose decimal digits (and
    sign) fit the width is written, zero padded, over exactly the width's cells,
    and [get] reads it back; no cell outside is touched. *)
Theorem znumber_roundtrip (size v : Z) (b : list Z) :
  1 <= size <= 10 -> size <= zlen b -> - 10 ^ (size - 1) < v < 10 ^ size ->
  exists d, ZNumber.set b size v = Some (d ++ drop (Z.to_nat size) b) /\
    zlen d = size /\ Number.get (d ++ drop (Z.to_nat size) b) size = Some v.
Proof.
  intros Hs Hb Hv. destruct (Z.ltb_spec v 0).
  - assert (2 <= size).
    { destruct (Z.eq_dec size 1) as [->|]; [cbn in Hv; lia|lia]. }
    exists (45 :: decimal (Z.to_nat (size - 1)) (- v)).
    rewrite zset_negative by lia. split; [done|]. split.
    { unfold zlen. cbn [length]. rewrite length_decimal. lia. }
    cbn [app Number.get Z.eqb]. rewrite <- (Nat.add_0_r (Z.to_nat (size - 1))) at 2.
    rewrite get_loop_decimal. cbn [Number.get_loop fmap option_fmap option_map].
    rewrite Z2Nat.id, Z.mod_small by lia. cbn. f_equal. lia.
  - exists (decimal (Z.to_nat size) v). rewrite zset_nonneg by lia. split; [done|]. split.
    { unfold zlen. rewrite length_decimal. lia. }
    rewrite <- (Z2Nat.id size) at 3 by lia. apply get_decimal; [lia|]. rewrite Z2Nat.id; lia.
Qed.

Lemma znumber_roundtrip_witness : exists d,
  ZNumber.set (bytes "xxxxyy") 4 (-42) = Some (d ++ drop 4 (bytes "xxxxyy")) /\
  zlen d = 4 /\ Number.get (d ++ drop 4 (bytes "xxxxyy")) 4 = Some (-42).
Proof.
  apply (znumber_roundtrip 4 (-42) (bytes "xxxxyy")); [lia | discriminate | lia].
Defined.

(** ** [Number::set]: no leading zeros, then blanks *)

(** Behind the first digit the loop is [ZNumber]'s. *)
Lemma set_loop_z n : forall fuel p old r count v,
  (S n < fuel)%nat -> length old = S n -> 0 <= v < 10 ^ Z.of_nat (S n) ->
  Number.set_loop fuel (p ++ old ++ r) (zlen p) count v (10 ^ Z.of_nat n) true =
  Some (p ++ decimal (S n) v ++ r, zlen p + Z.of_nat (S n), count - Z.of_nat (S n)).
Proof.
  induction n as [|n IH]; intros [|fuel] p old r count v Hf Ho Hv; try lia;
    destruct old as [|x old]; try discriminate Ho; cbn [length] in Ho;
    cbn [Number.set_loop app].
  - destruct old; [|discriminate Ho]. destruct fuel; [lia|].
    change (10 ^ Z.of_nat 1) with 10 in Hv. change (10 ^ Z.of_nat 0) with 1.
    change (1 =? 0) with false. rewrite orb_true_r. cbv iota. rewrite wr_app_r by done.
    cbn [mbind option_bind Number.set_loop]. change (1 / 10 =? 0) with true. cbv iota.
    cbn [decimal app]. change (10 ^ Z.of_nat 0) with 1.
    rewrite Z.div_1_r, Z.mod_small, u8_id by (unfold is_byte; lia).
    by destruct (1 <=? v).
  - pose proof (pow10_pos (S n)) as Hp. destruct (Z.eqb_spec (10 ^ Z.of_nat (S n)) 0); [lia|].
    pose proof (decimal_S_head _ _ Hv) as Hd.
    pose proof (Z.mod_pos_bound (v / 10 ^ Z.of_nat (S n)) 10 eq_refl).
    rewrite orb_true_r. cbv iota. rewrite wr_app_r by done. cbn [mbind option_bind].
    rewrite rest_of_div, div_pow10, u8_id by (unfold is_byte; lia).
    rewrite (app_assoc p [_] (old ++ r) :
      p ++ _ :: old ++ r = (p ++ [48 + v / 10 ^ Z.of_nat (S n)]) ++ old ++ r).
    replace (zlen p + 1) with (zlen (p ++ [48 + v / 10 ^ Z.of_nat (S n)])) by uc_len.
    assert (Hv' : v mod 10 ^ Z.of_nat (S n) = v \/ 10 ^ Z.of_nat (S n) <= v).
    { destruct (Z.le_gt_cases (10 ^ Z.of_nat (S n)) v); [by right|left]. apply Z.mod_small. lia. }
    assert (Hgoal : Number.set_loop fuel
      ((p ++ [48 + v / 10 ^ Z.of_nat (S n)]) ++ old ++ r)
      (zlen (p ++ [48 + v / 10 ^ Z.of_nat (S n)])) (count - 1)
      (v mod 10 ^ Z.of_nat (S n)) (10 ^ Z.of_nat n) true =
      Some (p ++ decimal (S (S n)) v ++ r, zlen p + Z.of_nat (S (S n)),
        count - Z.of_nat (S (S n)))).
    { rewrite IH; [|lia|lia|by apply Z.mod_pos_bound]. rewrite decimal_mod by lia.
      change (decimal (S (S n)) v) with
        (48 + v / 10 ^ Z.of_nat (S n) mod 10 :: decimal (S n) v).
      rewrite Hd, <- app_assoc. cbn [app]. do 2 f_equal; [f_equal|]; uc_len. }
    destruct (Z.leb_spec (10 ^ Z.of_nat (S n)) v); [exact Hgoal|].
    destruct Hv' as [E|]; [|lia]. rewrite E in Hgoal. exact Hgoal.
Qed.

(** In front of it nothing is written. *)
Lemma set_loop_skip n : forall fuel p old r count v,
  (S n < fuel)%nat -> length old = S n -> 0 < v < 10 ^ Z.of_nat (S n) ->
  exists k, (0 < k <= S n)%nat /\ v < 10 ^ Z.of_nat k /\
  Number.set_loop fuel (p ++ old ++ r) (zlen p) count v (10 ^ Z.of_nat n) false =
  Some (p ++ decimal k v ++ drop k old ++ r, zlen p + Z.of_nat k, count - Z.of_nat k).
Proof.
  induction n as [|n IH]; intros fuel p old r count v Hf Ho Hv.
  - exists 1%nat. split; [lia|]. split; [lia|].
    rewrite (drop_ge old) by lia. rewrite <- (set_loop_z 0 fuel p old r) by (done || lia).
    destruct fuel; [lia|]. cbn [Number.set_loop]. change (10 ^ Z.of_nat 0) with 1.
    destruct (Z.leb_spec 1 v); [|lia]. done.
  - destruct (Z.leb_spec (10 ^ Z.of_nat (S n)) v) as [Hl|Hl].
    + exists (S (S n)). split; [lia|]. split; [lia|].
      rewrite (drop_ge old) by lia. rewrite <- (set_loop_z (S n) fuel p old r) by (done || lia).
      destruct fuel; [lia|]. cbn [Number.set_loop].
      destruct (Z.leb_spec (10 ^ Z.of_nat (S n)) v); [|lia]. done.
    + destruct fuel as [|fuel]; [lia|]. cbn [Number.set_loop].
      pose proof (pow10_pos (S n)). destruct (Z.eqb_spec (10 ^ Z.of_nat (S n)) 0); [lia|].
      destruct (Z.leb_spec (10 ^ Z.of_nat (S n)) v); [lia|]. cbn [orb mbind option_bind].
      rewrite div_pow10. rewrite <- (take_drop (S n) old). rewrite <- app_assoc.
      destruct (IH fuel p (take (S n) old) (drop (S n) old ++ r) count v)
        as (k & Hk & Hvk & ->); [lia|rewrite length_take; lia|lia|].
      exists k. split; [lia|]. split; [done|]. rewrite drop_app_le by (rewrite length_take; lia).
      by rewrite <- app_assoc.
Qed.

Definition no_digit (l : list Z) : Prop :=
  match l with [] => True | c :: _ => isdigit c = false end.

Lemma blank_loop_spec x : forall q r, exists t,
  Number.blank_loop (length x) (q ++ x ++ r) (zlen q) = Some (q ++ t ++ r) /\
  length t = length x /\ no_digit t.
Proof.
  induction x as [|c x IH]; intros q r; cbn [length Number.blank_loop]; [by exists []|].
  cbn [app]. rewrite rd_app_r by done. cbn [lookup list_lookup mbind option_bind].
  destruct (isdigit c) eqn:E; [|by exists (c :: x)].
  rewrite wr_app_r by done. cbn [mbind option_bind].
  rewrite (app_assoc q [32] (x ++ r) : q ++ 32 :: x ++ r = (q ++ [32]) ++ x ++ r).
  replace (zlen q + 1) with (zlen (q ++ [32])) by uc_len.
  destruct (IH (q ++ [32]) r) as (t & -> & Ht & _).
  exists (32 :: t). rewrite <- app_assoc. split_and!; [done|cbn; lia|done].
Qed.

Lemma get_loop_stop t r : no_digit t -> forall ret,
  Number.get_loop (t ++ r) (length t) ret = Some ret.
Proof. destruct t as [|c t]; [done|]. cbn. by intros -> ret. Qed.

(** What [set] leaves when the digits of [v > 0] go behind a prefix. *)
Lemma set_digits_spec p old r v : (0 < length old <= 10)%nat ->
  0 < v < 10 ^ Z.of_nat (length old) ->
  exists k t, (0 < k)%nat /\ v < 10 ^ Z.of_nat k /\ no_digit t /\
  (k + length t)%nat = length old /\
  Number.set_digits (p ++ old ++ r) (zlen p) (Z.of_nat (length old)) v =
  Some (p ++ decimal k v ++ t ++ r).
Proof.
  intros Ho Hv. destruct (length old) as [|n] eqn:En; [lia|].
  unfold Number.set_digits. rewrite max_of_S. run.
  destruct (set_loop_skip n 12 p old r (Z.of_nat (S n)) v) as (k & Hk & Hvk & ->); [lia..|].
  run.
  assert (Hlen : length (drop k old) = (S n - k)%nat) by (rewrite length_drop; lia).
  replace (Z.to_nat (Z.of_nat (S n) - Z.of_nat k)) with (length (drop k old)) by lia.
  rewrite (app_assoc p). replace (zlen p + Z.of_nat k) with (zlen (p ++ decimal k v))
    by (autorewrite with zlen; unfold zlen at 2; by rewrite length_decimal).
  destruct (blank_loop_spec (drop k old) (p ++ decimal k v) r) as (t & -> & Ht & Hnd).
  exists k, t. rewrite <- app_assoc. split_and!; done || lia.
Qed.

Lemma get_loop_number k v t r m : v < 10 ^ Z.of_nat k -> 0 <= v -> no_digit t ->
  m = (k + length t)%nat -> Number.get_loop (decimal k v ++ t ++ r) m 0 = Some v.
Proof.
  intros Hv Hv0 Hnd ->. rewrite get_loop_decimal, get_loop_stop, Z.mod_small by (done || lia).
  f_equal.
Qed.

(** C4.  A [Number] reads back what it was set to, for every value but zero
    whose digits and sign fit the width: [set] succeeds, changes no cell outside
    the width, and [get] returns the value. *)
Theorem number_roundtrip (size v : Z) (b : list Z) :
  1 <= size <= 10 -> size <= zlen b -> - 10 ^ (size - 1) < v < 10 ^ size -> v <> 0 ->
  exists d, Number.set b size v = Some (d ++ drop (Z.to_nat size) b) /\
    zlen d = size /\ Number.get (d ++ drop (Z.to_nat size) b) size = Some v.
Proof.
  intros Hs Hb Hv Hz. destruct (block_split b size ltac:(lia)) as (old & r & -> & <-).
  rewrite zlen_to_nat, drop_app_length. unfold Number.set.
  destruct (Z.ltb_spec v 0).
  - destruct old as [|x old]; [uc_len|]. rewrite zlen_cons in Hv |- *. cbn [app].
    replace (zlen old + 1 - 1) with (Z.of_nat (length old)) in Hv |- * by (unfold zlen; lia).
    rewrite (wr_app_r [] (old ++ r) 0 x 45 eq_refl : wr (x :: old ++ r) 0 45 = _). run.
    assert (0 < length old)%nat.
    { destruct old; [cbn in Hv; lia|cbn; lia]. }
    destruct (set_digits_spec [45] old r (- v)) as (k & t & Hk & Hvk & Hnd & Hlen & Hset);
      [uc_len|lia|].
    exists (45 :: decimal k (- v) ++ t). cbn [app]. rewrite <- app_assoc. split; [exact Hset|].
    split; [autorewrite with zlen; unfold zlen; rewrite length_decimal; lia|].
    cbn [Number.get Z.eqb Pos.eqb]. replace (Z.to_nat (zlen old + 1 - 1)) with (length old) by uc_len.
    rewrite get_loop_number by (done || lia). cbn. f_equal. lia.
  - destruct (set_digits_spec [] old r v) as (k & t & Hk & Hvk & Hnd & Hlen & Hset);
      [unfold zlen in *; lia|unfold zlen in *; lia|].
    exists (decimal k v ++ t). rewrite <- app_assoc. split; [exact Hset|].
    split; [autorewrite with zlen; unfold zlen; rewrite length_decimal; lia|].
    assert (Hget : Number.get_loop (decimal k v ++ t ++ r) (length old) 0 = Some v)
      by (apply get_loop_number; done || lia).
    destruct k as [|k]; [lia|]. cbn [decimal app] in Hget |- *.
    unfold Number.get. pose proof (Z.mod_pos_bound (v / 10 ^ Z.of_nat k) 10 eq_refl).
    uc_cases. by rewrite zlen_to_nat.
Qed.

Lemma number_roundtrip_witness : exists d,
  Number.set (bytes "98765y") 5 (-42) = Some (d ++ drop 5 (bytes "98765y")) /\
  zlen d = 5 /\ Number.get (d ++ drop 5 (bytes "98765y")) 5 = Some (-42).
Proof.
  apply (number_roundtrip 5 (-42) (bytes "98765y")); [lia | discriminate | lia | discriminate].
Defined.

(** Zero is the exception: a [Number] that holds a negative value keeps it
    when it is set to zero, because no digit is written and the blanking stops
    at the sign. *)
Theorem number_set_zero_stale (size : Z) (b : list Z) :
  1 <= size <= 10 -> size <= zlen b + 1 ->
  Number.set (45 :: b) size 0 = Some (45 :: b).
Proof.
  intros Hs Hb. unfold Number.set. change (0 <? 0) with false. cbv iota.
  unfold Number.set_digits.
  assert (Hloop : forall n fuel, (S n < fuel)%nat ->
    Number.set_loop fuel (45 :: b) 0 size 0 (10 ^ Z.of_nat n) false = Some (45 :: b, 0, size)).
  { induction n as [|n IH]; intros [|fuel] Hf; try lia; cbn [Number.set_loop].
    - destruct fuel; [lia|]. done.
    - pose proof (pow10_pos (S n)). uc_cases. cbn [mbind option_bind].
      rewrite div_pow10. apply IH. lia. }
  destruct (Z.to_nat size) as [|n] eqn:E; [lia|].
  replace size with (Z.of_nat (S n)) in * by lia.
  rewrite max_of_S. run. rewrite Hloop by lia. run. by rewrite Nat2Z.id.
Qed.

Lemma number_set_zero_stale_witness : Number.set (bytes "-5") 2 0 = Some (bytes "-5").
Proof. apply (number_set_zero_stale 2 [53]); [lia | discriminate]. Defined.
