(* ===== verification/DateTime.v ===== *)
(** * Dates and times (corelib/datetime.cpp)

    A [Date] is its [julian] field, a [Time] its [seconds] field, a [DateTime]
    both.  The clock, the time zone and [mktime] are parameters of the
    operations that use them.  The conversions of [Date::put] are done in
    [double] over integers and truncated to [int]: as long as the truncated
    quotients are [int]s the operands are of magnitude far below 2^53, and they
    are the truncated integer quotients [Z.quot] written here
    ([trunc_of_rounded] below); a quotient that is no [int] is [None]. *)

From stdpp Require Import strings.
From S2P Require Import Prelude CLib Numbers.

(** ** The C library's broken-down time *)

Record tm_t := Tm {
  tm_year : Z; tm_mon : Z; tm_mday : Z;
  tm_hour : Z; tm_min : Z; tm_sec : Z; tm_isdst : Z }.

(** [localtime_r], [gmtime_r], [time] and [mktime] of the C library. *)
Class Clock := {
  localtime : Z -> option tm_t;
  gmtime : Z -> option tm_t;
  now : Z;
  mktime : tm_t -> Z }.

(** [DateTime::local] and [DateTime::gmt]: NULL stands for the present. *)
Definition local `{Clock} (t : option Z) : option tm_t :=
  localtime (match t with Some t => t | None => now end).

Definition gmt `{Clock} (t : option Z) : option tm_t :=
  gmtime (match t with Some t => t | None => now end).

Module Date.

Definition invalid : Z := 0x7fffffff.

(** [Date::set (long, long, long)] *)
Definition set (nyear nmonth nday : Z) : Z :=
  if (nmonth <? 1) || (12 <? nmonth) || (nday <? 1) || (31 <? nday) || (nyear =? 0)
  then invalid
  else
    let nyear := if nyear <? 0 then nyear - 1 else nyear in
    nday - 32075
    + Z.quot (1461 * (nyear + 4800 + Z.quot (nmonth - 14) 12)) 4
    + Z.quot (367 * (nmonth - 2 - Z.quot (nmonth - 14) 12 * 12)) 12
    - Z.quot (3 * Z.quot (nyear + 4900 + Z.quot (nmonth - 14) 12) 100) 4.

Definition is_valid (julian : Z) : bool := negb (julian =? invalid).

(** [int(a / b)] of doubles: the behaviour is undefined, [None] here, when the
    truncated quotient is not an [int]. *)
Definition to_int (a b : Z) : option Z :=
  let q := Z.quot a b in
  if (- 2 ^ 31 <=? q) && (q <? 2 ^ 31) then Some q else None.

(** Year, month and day as [Date::put] computes them. *)
Definition civil (julian : Z) : option (Z * Z * Z) :=
  let l := julian + 68569 in
  n ← to_int (4 * l) 146097;
  x ← to_int (146097 * n + 3) 4;
  let l := l - x in
  i ← to_int (4000 * (l + 1)) 1461001;
  x ← to_int (1461 * i) 4;
  let l := l - x + 31 in
  j ← to_int (80 * l) 2447;
  x ← to_int (2447 * j) 80;
  let k := l - x in
  l ← to_int j 11;
  let j := j + 2 - 12 * l in
  let i := 100 * (n - 49) + i + l in
  i ← to_int i 1; j ← to_int j 1; k ← to_int k 1;
  Some (i, j, k).

(** A [ZNumber] inside a buffer. *)
Definition zput (buffer : list Z) (at_ width value : Z) : option (list Z) :=
  b ← ZNumber.set (drop (Z.to_nat at_) buffer) width value;
  Some (take (Z.to_nat at_) buffer ++ b).

Definition put (julian : Z) (buffer : list Z) : option (list Z) :=
  '(i, j, k) ← civil julian;
  b ← wr buffer 4 45;
  b ← wr b 7 45;
  b ← zput b 0 4 i;
  b ← zput b 5 2 j;
  b ← zput b 8 2 k;
  wr b 10 0.

(** A field read back from [char buf[11]]; [put] fills all of it. *)
Definition field (julian off width : Z) : option Z :=
  b ← put julian (replicate 11 0); Number.get (drop (Z.to_nat off) b) width.

Definition year (julian : Z) : option Z := field julian 0 4.
Definition month (julian : Z) : option Z := field julian 5 2.
Definition day (julian : Z) : option Z := field julian 8 2.

Definition dow (julian : Z) : Z := u32 (Z.rem (julian + 1) 7).

(** [Date::get]: the digits of the text as one number. *)
Definition get (julian : Z) : option Z :=
  b ← put julian (replicate 11 0);
  s ← cstr b; m ← cstr (drop 5 b); d ← cstr (drop 8 b);
  Some (atol s * 10000 + atol m * 100 + atol d).

(** [Date::operator()] *)
Definition string (julian : Z) : option (list Z) :=
  b ← put julian (replicate 11 0); cstr b.

Definition timeref `{Clock} (julian : Z) : option Z :=
  y ← field julian 0 4; m ← field julian 5 2; d ← field julian 8 2;
  Some (mktime (Tm (y - 1900) (m - 1) d 0 0 0 0)).

(** The arithmetic and the order. *)
Definition incr (julian : Z) : Z := julian + 1.
Definition decr (julian : Z) : Z := julian - 1.
Definition add (julian val : Z) : Z := julian + val.
Definition sub (julian val : Z) : Z := julian - val.
Definition diff (julian other : Z) : Z := julian - other.
Definition eqb (a b : Z) : bool := a =? b.
Definition neb (a b : Z) : bool := negb (a =? b).
Definition ltb (a b : Z) : bool := a <? b.
Definition leb (a b : Z) : bool := a <=? b.
Definition gtb (a b : Z) : bool := b <? a.
Definition geb (a b : Z) : bool := b <=? a.

(** Construction from a broken-down time; NULL is not tested. *)
Definition of_tm (dt : tm_t) : Z := set (tm_year dt + 1900) (tm_mon dt + 1) (tm_mday dt).
Definition of_time `{Clock} (t : Z) : option Z := dt ← local (Some t); Some (of_tm dt).
Definition today `{Clock} : option Z := dt ← local None; Some (of_tm dt).

(** A two or four digit field of a text. *)
Definition num (str : list Z) (off width : Z) : option Z :=
  Number.get (drop (Z.to_nat off) str) width.

(** [Date::set (const char *, size_t)]: the layout is chosen by the size. *)
Definition set_text `{Clock} (str : list Z) (size : Z) : option Z :=
  dt ← local None;
  size ← (if size =? 0 then strlen str else Some size);
  let this := tm_year dt + 1900 in
  let century := Z.quot this 100 * 100 in
  let date nyear m d := mo ← num str m 2; da ← num str d 2; Some (set nyear mo da) in
  if size =? 4 then date this 0 2
  else if size =? 5 then date this 0 3
  else if size =? 6 then y ← num str 0 2; date (century + y) 2 4
  else
    c2 ← (if size =? 8 then rd str 2 else Some 0);
    c5 ← (if (size =? 8) && isdigit c2 then rd str 5 else Some 0);
    if (size =? 8) && isdigit c2 && isdigit c5 then y ← num str 0 4; date y 4 6
    else if size =? 8 then y ← num str 0 2; date (century + y) 3 6
    else if size =? 10 then y ← num str 0 4; date y 5 8
    else Some invalid.

End Date.

Module Time.

Definition c_day : Z := 86400.
Definition c_hour : Z := 3600.
Definition c_week : Z := 604800.

Definition set (nhour nminute nsecond : Z) : Z :=
  if (59 <? nminute) || (59 <? nsecond) || (23 <? nhour) then -1
  else s32 (s32 (s32 (3600 * nhour) + s32 (60 * nminute)) + nsecond).

Definition is_valid (seconds : Z) : bool := negb (seconds =? -1).

Definition hour (seconds : Z) : Z := if seconds =? -1 then -1 else s32 (Z.quot seconds 3600).
Definition minute (seconds : Z) : Z :=
  if seconds =? -1 then -1 else s32 (Z.rem (Z.quot seconds 60) 60).
Definition second (seconds : Z) : Z := if seconds =? -1 then -1 else s32 (Z.rem seconds 60).

Definition update (seconds : Z) : Z := Z.abs (Z.rem seconds c_day).

Definition incr (seconds : Z) : Z := update (seconds + 1).
Definition decr (seconds : Z) : Z := update (seconds - 1).
Definition add (seconds val : Z) : Z := update (seconds + val).
Definition sub (seconds val : Z) : Z := update (seconds - val).

(** [Time::operator- (const Time&)]: across midnight when negative. *)
Definition diff (seconds other : Z) : Z :=
  if seconds <? other then seconds + c_day - other else seconds - other.

Definition eqb (a b : Z) : bool := a =? b.
Definition neb (a b : Z) : bool := negb (a =? b).
Definition ltb (a b : Z) : bool := a <? b.
Definition leb (a b : Z) : bool := a <=? b.
Definition gtb (a b : Z) : bool := b <? a.
Definition geb (a b : Z) : bool := b <=? a.

(** [Time::put]: the minute and the second are computed from the fields already
    written. *)
Definition put (seconds : Z) (buffer : list Z) : option (list Z) :=
  b ← wr buffer 2 58;
  b ← wr b 5 58;
  b ← Date.zput b 0 2 (Z.rem (Z.quot seconds 3600) 24);
  h ← Number.get b 2;
  b ← Date.zput b 3 2 (Z.quot (seconds - 3600 * h) 60);
  m ← Number.get (drop 3 b) 2;
  b ← Date.zput b 6 2 (seconds - 3600 * h - 60 * m);
  wr b 8 0.

Definition string (seconds : Z) : option (list Z) :=
  b ← put seconds (replicate 9 0); cstr b.

Definition of_tm (dt : tm_t) : Z := set (tm_hour dt) (tm_min dt) (tm_sec dt).
Definition of_time `{Clock} (t : Z) : option Z := dt ← local (Some t); Some (of_tm dt).
Definition present `{Clock} : option Z := dt ← local None; Some (of_tm dt).

(** [Time::set (const char *, size_t)] *)
Definition set_text (str : list Z) (size : Z) : option Z :=
  size ← (if size =? 0 then strlen str else Some size);
  if (size =? 5) || (size =? 8) then
    sec ← (if size =? 8 then Date.num str 6 2 else Some 0);
    h ← Date.num str 0 2; m ← Date.num str 3 2;
    Some (set h m sec)
  else Some (-1).

End Time.

Module DateTime.

Record datetime := DT { julian : Z; seconds : Z }.

(** [DateTime::update]: whole days move to the date. *)
Definition update (d : datetime) : datetime :=
  DT (julian d + Z.quot (seconds d) Time.c_day) (Time.update (seconds d)).

Definition add (d : datetime) (value : Z) : datetime := update (DT (julian d) (seconds d + value)).
Definition sub (d : datetime) (value : Z) : datetime := update (DT (julian d) (seconds d - value)).
Definition incr (d : datetime) : datetime := update (DT (julian d + 1) (seconds d)).
Definition decr (d : datetime) : datetime := update (DT (julian d - 1) (seconds d)).

(** [DateTime::operator- (const DateTime&)] in seconds. *)
Definition diff (d o : datetime) : Z :=
  (julian d - julian o) * Time.c_day + (seconds d - seconds o).

Definition is_valid (d : datetime) : bool :=
  Date.is_valid (julian d) && Time.is_valid (seconds d).

Definition eqb (d o : datetime) : bool := (julian d =? julian o) && (seconds d =? seconds o).
Definition neb (d o : datetime) : bool :=
  negb (julian d =? julian o) || negb (seconds d =? seconds o).
Definition ltb (d o : datetime) : bool :=
  if negb (julian d =? julian o) then julian d <? julian o else seconds d <? seconds o.
Definition leb (d o : datetime) : bool :=
  if negb (julian d =? julian o) then julian d <? julian o else seconds d <=? seconds o.
Definition gtb (d o : datetime) : bool :=
  if negb (julian d =? julian o) then julian o <? julian d else seconds o <? seconds d.
Definition geb (d o : datetime) : bool :=
  if negb (julian d =? julian o) then julian o <? julian d else seconds o <=? seconds d.

(** [DateTime::put]: the date, a space in place of its terminator, the time. *)
Definition put (d : datetime) (buf : list Z) : option (list Z) :=
  b ← Date.put (julian d) buf;
  b ← wr b 10 32;
  t ← Time.put (seconds d) (drop 11 b);
  Some (take 11 b ++ t).

(** The broken-down time [DateTime::get] hands to [mktime]: the time is read
    from offsets 0, 2 and 4 of its text. *)
Definition get_tm (d : datetime) : option tm_t :=
  b ← Date.put (julian d) (replicate 11 0);
  y ← Number.get b 4; m ← Number.get (drop 5 b) 2; dd ← Number.get (drop 8 b) 2;
  b ← Time.put (seconds d) b;
  h ← Number.get b 2; mi ← Number.get (drop 2 b) 2; s ← Number.get (drop 4 b) 2;
  Some (Tm (y - 1900) (m - 1) dd h mi s (-1)).

Definition get `{Clock} (d : datetime) : option Z := t ← get_tm d; Some (mktime t).

(** The constructors.  The one from a [time_t] does not use its argument. *)
Definition of_fields (y m d h mi s : Z) : datetime := DT (Date.set y m d) (Time.set h mi s).
Definition of_tm (dt : tm_t) : datetime := DT (Date.of_tm dt) (Time.of_tm dt).
Definition of_time `{Clock} (tm : Z) : option datetime := dt ← local None; Some (of_tm dt).
Definition present `{Clock} : option datetime := dt ← local None; Some (of_tm dt).

(** From a text: the layout is chosen by the size, other sizes leave the object
    at the present, which [Date ()] and [Time ()] have set. *)
Definition of_text `{Clock} (a_str : list Z) (size : Z) : option datetime :=
  start ← present;
  size ← (if size =? 0 then strlen a_str else Some size);
  s ← strncpy a_str (Z.to_nat size);
  let str := s ++ [0] in
  let parts dlen toff tlen :=
    j ← Date.set_text str dlen; t ← Time.set_text (drop toff str) tlen; Some (DT j t) in
  if size =? 11 then parts 5 6%nat 5
  else if size =? 14 then parts 8 9%nat 5
  else if size =? 17 then parts 8 9%nat 8
  else if size =? 19 then parts 10 11%nat 8
  else Some start.

End DateTime.

Example set_y2k : Date.set 2000 1 1 = 2451545. Proof. reflexivity. Qed.
Example put_y2k : Date.string 2451545 = Some (bytes "2000-01-01").
Proof. vm_compute. reflexivity. Qed.
Example put_both : DateTime.put (DateTime.DT 2451545 3661) (replicate 20 7) =
  Some (bytes "2000-01-01 01:01:01" ++ [0]).
Proof. vm_compute. reflexivity. Qed.

(** ** The Gregorian calendar *)

Definition leap (y : Z) : bool :=
  (y mod 4 =? 0) && (negb (y mod 100 =? 0) || (y mod 400 =? 0)).

Definition days_in_month (y m : Z) : Z :=
  if m =? 2 then if leap y then 29 else 28
  else if (m =? 4) || (m =? 6) || (m =? 9) || (m =? 11) then 30 else 31.

Definition valid_date (y m d : Z) : Prop :=
  1 <= y /\ 1 <= m <= 12 /\ 1 <= d <= days_in_month y m.

#[export] Instance valid_date_dec y m d : Decision (valid_date y m d).
Proof. unfold valid_date. apply _. Defined.

(** A julian number by its place in the 400-year cycle that starts in March:
    cycle [q], century [c], year [yy] of the century, day [r] of the year. *)
Definition cycle_day (q c yy r : Z) : Z :=
  146097 * q + (36524 * (c + 1) + (c + 4) / 4) + (1461 * yy / 4 + r) - 68569.

Definition cycle_place (q c yy r : Z) : Prop :=
  0 <= q /\ 0 <= c < 4 /\ 0 <= yy < 100 /\ 0 <= r <= 365 /\
  (r = 365 -> yy mod 4 = 3 /\ (yy = 99 -> c = 3)).

Lemma quot_div a b : 0 <= a -> 0 < b -> Z.quot a b = a / b.
Proof. intros. apply Z.quot_div_nonneg; lia. Qed.

(** A quotient of integers, rounded to a dyadic number [m / 2^k] that is less
    than [1 / b] away and on the same side of every integer, has the truncation
    of the exact quotient.  For a quotient below 2^31 and [b < 2^21] the rounding
    of a [double] is such a number. *)
Lemma trunc_of_rounded a b m k : 0 <= a -> 0 < b -> 0 <= k ->
  a / b * 2 ^ k <= m -> m * b < (a + 1) * 2 ^ k -> m / 2 ^ k = Z.quot a b.
Proof.
  intros Ha Hb Hk Hlo Hhi. rewrite quot_div by done.
  assert (0 < 2 ^ k) by (apply Z.pow_pos_nonneg; lia).
  assert (a + 1 <= (a / b + 1) * b) by dlia.
  symmetry. apply Z.div_unique with (m - a / b * 2 ^ k); [|lia].
  left. split; [lia|]. assert (m < (a / b + 1) * 2 ^ k); [|lia].
  apply Z.mul_lt_mono_pos_r with b; nia.
Qed.

(** Month and day from the day of the year that starts in March. *)
Definition month_day (r : Z) : Z * Z :=
  let j := 80 * (r + 31) / 2447 in (j, r + 31 - 2447 * j / 80).

(** The last day whose conversions are all [int]s, 5874800-02-29. *)
Definition last_day : Z := 2147447758.

Lemma to_int_ok a b : 0 <= a -> 0 < b -> a / b < 2 ^ 31 -> Date.to_int a b = Some (a / b).
Proof.
  intros Ha Hb H. unfold Date.to_int. rewrite quot_div by done.
  pose proof (Z.div_pos a b Ha Hb). by rewrite (proj2 (Z.leb_le _ _)), (proj2 (Z.ltb_lt _ _)) by lia.
Qed.

Lemma to_int_one a : - 2 ^ 31 <= a < 2 ^ 31 -> Date.to_int a 1 = Some a.
Proof.
  intros H. unfold Date.to_int. rewrite Z.quot_1_r.
  by rewrite (proj2 (Z.leb_le _ _)), (proj2 (Z.ltb_lt _ _)) by lia.
Qed.

Lemma to_int_large a b : 0 < b -> 2 ^ 31 * b <= a -> Date.to_int a b = None.
Proof.
  intros Hb H. unfold Date.to_int. rewrite quot_div by lia.
  assert (2 ^ 31 <= a / b) by (apply Z.div_le_lower_bound; lia).
  by rewrite (proj2 (Z.ltb_ge _ _)), andb_false_r by done.
Qed.

Lemma civil_cycle q c yy r : cycle_place q c yy r -> cycle_day q c yy r <= last_day ->
  Date.civil (cycle_day q c yy r) =
  let '(j, k) := month_day r in
  Some (400 * q + 100 * c + yy - 4800 + j / 11, j + 2 - 12 * (j / 11), k).
Proof.
  intros (Hq & Hc & Hyy & Hr & Hl) Hlast. unfold Date.civil, month_day.
  set (l1 := 1461 * yy / 4 + r).
  set (s := 36524 * (c + 1) + (c + 4) / 4).
  assert (Hl1 : 0 <= l1 /\ 1461001 * yy <= 4000 * (l1 + 1) < 1461001 * (yy + 1)).
  { unfold l1. clear s Hq Hc. split; [dlia|].
    destruct (Z.eq_dec r 365) as [E|E]; [destruct (Hl E)|]; dlia. }
  assert (Hn : 146097 * (4 * q + c + 1) <= 4 * (146097 * q + s + l1) < 146097 * (4 * q + c + 2)).
  { unfold s, l1. clear s l1 Hl1. destruct (Z.eq_dec r 365) as [E|E]; [destruct (Hl E)|]; dlia. }
  assert (Hs : (146097 * (4 * q + c + 1) + 3) / 4 = 146097 * q + s).
  { unfold s. clear l1 s Hl1 Hn Hl. dlia. }
  assert (cycle_day q c yy r + 68569 = 146097 * q + s + l1) as ->.
  { unfold cycle_day, s, l1. lia. }
  assert (0 <= s) by (unfold s; dlia).
  assert (Hn4 : 4 * (146097 * q + s + l1) / 146097 = 4 * q + c + 1).
  { symmetry. apply Z.div_unique with (4 * (146097 * q + s + l1) - 146097 * (4 * q + c + 1)); lia. }
  assert (Hi : 4000 * (l1 + 1) / 1461001 = yy).
  { symmetry. apply Z.div_unique with (4000 * (l1 + 1) - 1461001 * yy); lia. }
  assert (Hl1' : l1 - 1461 * yy / 4 + 31 = r + 31) by (unfold l1; lia).
  assert (Hq' : 146097 * q + s < 2 ^ 31).
  { rewrite <- Hs. unfold last_day, cycle_day in Hlast. fold s in Hlast.
    fold l1 in Hlast. assert (4 * q + c + 1 <= 58796) by lia. clear - H0. dlia. }
  assert (Hr' : 0 <= 80 * (r + 31) / 2447 <= 13) by (clear - Hr; dlia).
  set (j := 80 * (r + 31) / 2447) in *.
  rewrite to_int_ok, Hn4 by (rewrite ?Hn4; lia). run.
  rewrite to_int_ok, Hs by (rewrite ?Hs; lia). run.
  replace (146097 * q + s + l1 - (146097 * q + s)) with l1 by lia.
  rewrite to_int_ok, Hi by (rewrite ?Hi; lia). run.
  rewrite to_int_ok by (clear - Hyy; dlia). run. rewrite Hl1'.
  rewrite to_int_ok by (fold j; lia). fold j. run.
  rewrite to_int_ok by (clear - Hr'; dlia). run.
  rewrite to_int_ok by (clear - Hr'; dlia). run.
  assert (q <= 14699) by lia.
  do 3 (rewrite to_int_one by (clear - Hr' Hr Hyy Hc Hq H0; dlia); run).
  leaves; lia.
Qed.

(** The first day of a month in the year that starts in March. *)
Definition month_start (m : Z) : Z :=
  367 * (if m <=? 2 then m + 10 else m - 2) / 12 - 30.

Ltac month_consts :=
  repeat match goal with |- context [month_start ?m] =>
    let v := eval vm_compute in (month_start m) in change (month_start m) with v end.

(** A statement for the twelve months. *)
Lemma month_cases (P : Z -> Prop) :
  P 1 -> P 2 -> P 3 -> P 4 -> P 5 -> P 6 -> P 7 -> P 8 -> P 9 -> P 10 -> P 11 -> P 12 ->
  forall m, 1 <= m <= 12 -> P m.
Proof.
  intros. assert (m = 1 \/ m = 2 \/ m = 3 \/ m = 4 \/ m = 5 \/ m = 6 \/ m = 7 \/ m = 8 \/
    m = 9 \/ m = 10 \/ m = 11 \/ m = 12) as Hm by lia.
  repeat destruct Hm as [->|Hm]; subst; assumption.
Qed.

Lemma month_quot m : 1 <= m <= 12 ->
  Z.quot (m - 14) 12 = - (if m <=? 2 then 1 else 0) /\
  Z.quot (367 * (m - 2 - - (if m <=? 2 then 1 else 0) * 12)) 12 = month_start m + 30.
Proof. revert m. apply month_cases; split; reflexivity. Qed.

Definition march_year (y m : Z) : Z := y + 4800 - (if m <=? 2 then 1 else 0).

Lemma set_cycle y m d : 1 <= y -> 1 <= m <= 12 -> 1 <= d <= 31 ->
  let Y := march_year y m in
  Date.set y m d = cycle_day (Y / 400) (Y mod 400 / 100) (Y mod 100) (month_start m + d - 1).
Proof.
  intros Hy Hm Hd Y. unfold Date.set.
  assert ((m <? 1) || (12 <? m) || (d <? 1) || (31 <? d) || (y =? 0) = false) as -> by lia.
  destruct (Z.ltb_spec y 0); [lia|]. subst Y. revert m Hm.
  assert (Hmain : forall Y, 0 <= Y ->
    1461 * Y / 4 - 3 * ((Y + 100) / 100) / 4 =
    146097 * (Y / 400) + (36524 * (Y mod 400 / 100 + 1) + (Y mod 400 / 100 + 4) / 4)
      + 1461 * (Y mod 100) / 4 - 36525).
  { clear. intros Y HY. dlia. }
  assert (Hshift : forall Y s, 0 <= Y -> d - 32075 + 1461 * Y / 4 + s - 3 * ((Y + 100) / 100) / 4 =
    cycle_day (Y / 400) (Y mod 400 / 100) (Y mod 100) (s - 30 + d - 1)).
  { intros Y s HY. specialize (Hmain Y HY). unfold cycle_day. lia. }
  assert (Hq : forall Y s, 0 <= Y ->
    d - 32075 + Z.quot (1461 * Y) 4 + s - Z.quot (3 * Z.quot (Y + 100) 100) 4 =
    cycle_day (Y / 400) (Y mod 400 / 100) (Y mod 100) (s - 30 + d - 1)).
  { intros Y s HY. rewrite (quot_div (1461 * Y)), (quot_div (Y + 100)) by lia.
    rewrite quot_div by dlia. by apply Hshift. }
  intros m Hm. destruct (month_quot m Hm) as [-> ->].
  unfold march_year. replace (month_start m + d - 1) with (month_start m + 30 - 30 + d - 1) by lia.
  rewrite <- Hq by (destruct (m <=? 2); lia).
  generalize (if m <=? 2 then 1 else 0). intros x.
  by replace (y + 4900 + - x) with (y + 4800 - x + 100) by lia.
Qed.

Lemma leap_spec y : leap y = true <-> y mod 4 = 0 /\ (y mod 100 = 0 -> y mod 400 = 0).
Proof.
  unfold leap. rewrite andb_true_iff, orb_true_iff, negb_true_iff, !Z.eqb_eq, Z.eqb_neq.
  destruct (Z.eq_dec (y mod 100) 0); tauto.
Qed.

(** A valid date has a place in the cycle. *)
Lemma valid_place y m d : valid_date y m d -> let Y := march_year y m in
  cycle_place (Y / 400) (Y mod 400 / 100) (Y mod 100) (month_start m + d - 1).
Proof.
  intros (Hy & Hm & Hd) Y. unfold cycle_place.
  assert (Hr : 0 <= month_start m + d - 1 <= 365 /\
    (month_start m + d - 1 = 365 -> m = 2 /\ leap y = true)).
  { clear Y. revert m Hm Hd. apply (month_cases (fun m => 1 <= d <= days_in_month y m -> _));
      intros Hd; cbn in Hd; month_consts; try lia.
    change (days_in_month y 2) with (if leap y then 29 else 28) in Hd. destruct (leap y); lia. }
  assert (0 <= Y) by (unfold Y, march_year; destruct (m <=? 2); lia).
  split_and!; try dlia. intros E. destruct Hr as [_ Hr]. destruct (Hr E) as [-> Hl].
  apply leap_spec in Hl as [H4 H100]. unfold Y, march_year in *. cbn [Z.leb Z.compare Pos.compare Pos.compare_cont] in *.
  clear Y E Hr Hd Hm. dlia.
Qed.

Lemma month_day_start m d : 1 <= m <= 12 -> 1 <= d <= (if m =? 2 then 29 else if
  (m =? 4) || (m =? 6) || (m =? 9) || (m =? 11) then 30 else 31) ->
  month_day (month_start m + d - 1) = (if m <=? 2 then m + 10 else m - 2, d).
Proof.
  intros Hm. revert m Hm.
  apply (month_cases (fun m => 1 <= d <= _ -> month_day (month_start m + d - 1) = _));
    intros Hd; cbn in Hd;
    month_consts; unfold month_day; cbn [Z.leb Z.compare Pos.compare Pos.compare_cont];
    leaves; dlia.
Qed.

Lemma civil_set y m d : valid_date y m d -> Date.set y m d <= last_day ->
  Date.civil (Date.set y m d) = Some (y, m, d).
Proof.
  intros Hv Hlast. pose proof (valid_place y m d Hv) as Hp. destruct Hv as (Hy & Hm & Hd).
  assert (Hd' : 1 <= d <= (if m =? 2 then 29 else if
    (m =? 4) || (m =? 6) || (m =? 9) || (m =? 11) then 30 else 31)).
  { unfold days_in_month in Hd. destruct (m =? 2), (leap y); lia. }
  rewrite set_cycle in * by (done || (repeat case_match; lia)).
  rewrite civil_cycle by done. rewrite month_day_start by done.
  unfold march_year in *. clear Hp Hd Hd' Hlast.
  destruct (Z.leb_spec m 2); leaves; dlia.
Qed.

(** Every day of the year that starts in March is a day of some month. *)
Lemma month_day_cover r : 0 <= r <= 365 ->
  let '(j, k) := month_day r in let m := j + 2 - 12 * (j / 11) in
  1 <= m <= 12 /\ j / 11 = (if m <=? 2 then 1 else 0) /\ month_start m + k - 1 = r /\
  1 <= k <= days_in_month 4 m /\ (k = 29 /\ m = 2 -> r = 365).
Proof.
  intros Hr.
  pose proof (below_spec 366 (fun r => let '(j, k) := month_day r in
    let m := j + 2 - 12 * (j / 11) in
    (1 <=? m) && (m <=? 12) && (j / 11 =? (if m <=? 2 then 1 else 0)) &&
    (month_start m + k - 1 =? r) && (1 <=? k) && (k <=? days_in_month 4 m) &&
    (negb ((k =? 29) && (m =? 2)) || (r =? 365))) r eq_refl ltac:(lia)) as H.
  cbn beta in H. destruct (month_day r) as [j k].
  rewrite !andb_true_iff, orb_true_iff, negb_true_iff, andb_false_iff in H.
  destruct H as ((((((H1 & H2) & H3) & H4) & H5) & H6) & H7).
  apply Z.leb_le in H1, H2, H5, H6. apply Z.eqb_eq in H3, H4.
  rewrite !Z.eqb_neq, Z.eqb_eq in H7. split_and!; try done. tauto.
Qed.

(** March to December are the first 306 days of that year. *)
Lemma march_first m k : 1 <= m <= 12 -> k <= days_in_month 4 m ->
  2 < m -> month_start m + k - 1 <= 305.
Proof.
  revert m. apply (month_cases (fun m => k <= days_in_month 4 m -> 2 < m -> _));
    intros Hk ?; try lia; month_consts; cbn in Hk; lia.
Qed.

(** Every day from 0001-01-01 on has a place in the cycle. *)
Lemma julian_place julian : 1721426 <= julian -> exists q c yy r,
  cycle_place q c yy r /\ julian = cycle_day q c yy r.
Proof.
  intros Hj. set (G := julian + 68569 - 36525). set (g := G mod 146097).
  set (c := Z.min 3 (g / 36524)). set (h := g - 36524 * c). set (yy := (4 * h + 3) / 1461).
  exists (G / 146097), c, yy, (h - 1461 * yy / 4).
  assert (0 <= g < 146097) by (apply Z.mod_pos_bound; lia).
  assert (G = 146097 * (G / 146097) + g) by (apply Z.div_mod; lia).
  assert (0 <= G) by (unfold G; lia).
  assert (0 <= G / 146097) by (apply Z.div_pos; lia).
  assert (Hc : 0 <= c <= 3 /\ 0 <= h <= 36524 /\ (c < 3 -> h < 36524)) by (unfold h, c; dlia).
  assert (Hh : h = g - 36524 * c) by done.
  assert (HG : G = julian + 32044) by (unfold G; lia).
  clearbody g c h. unfold cycle_place, cycle_day. clear Hj. clearbody G.
  assert (Hyy : 1461 * yy <= 4 * h + 3 < 1461 * (yy + 1)) by (unfold yy; dlia). clearbody yy.
  split; [|dlia]. clear HG. split_and!; try dlia.
Qed.

(** [put]'s date of a julian number is valid, and [set] gives the number back. *)
Lemma civil_inv julian : 1721426 <= julian <= last_day -> exists y m d,
  Date.civil julian = Some (y, m, d) /\ valid_date y m d /\ Date.set y m d = julian.
Proof.
  intros [Hj Hlast].
  destruct (julian_place julian Hj) as (q & c & yy & r & Hp & ->).
  rewrite civil_cycle by done. clear Hlast. destruct Hp as (Hq & Hc & Hyy & Hr & Hl).
  pose proof (month_day_cover r Hr) as Hmd. destruct (month_day r) as [j k].
  destruct Hmd as (Hm & Hj11 & Hs & Hk & H29).
  set (m := j + 2 - 12 * (j / 11)) in *. set (y := 400 * q + 100 * c + yy - 4800 + j / 11).
  assert (Hmy : march_year y m = 400 * q + 100 * c + yy).
  { unfold march_year, y. rewrite Hj11. lia. }
  assert (Hy1 : 1 <= y).
  { unfold cycle_day in Hj. unfold y. rewrite Hj11.
    pose proof (march_first m k Hm ltac:(lia)) as H305. clear - Hj H305 Hs Hq Hc Hyy Hr.
    assert ((c + 4) / 4 = 1) as E4 by dlia. rewrite E4 in Hj. clear E4.
    assert (0 <= 1461 * yy / 4 <= 36159) by dlia.
    destruct (Z.eq_dec q 12) as [->|]; [destruct (Z.eq_dec c 0) as [->|];
      [destruct (Z.eq_dec yy 0) as [->|]|]|].
    all: destruct (Z.leb_spec m 2); cbn in *; try lia.
    all: try dlia. }
  assert (Hd : 1 <= k <= days_in_month y m).
  { unfold days_in_month in *. destruct (Z.eqb_spec m 2); [|done].
    change (leap 4) with true in Hk. destruct (leap y) eqn:El; [done|]. split; [lia|].
    destruct (Z.eq_dec k 29) as [->|]; [|lia]. exfalso.
    apply not_true_iff_false in El. apply El, leap_spec.
    destruct (Hl (H29 (conj eq_refl e))) as [H4 H99].
    assert (y = 400 * q + 100 * c + yy - 4799) as -> by (unfold y; rewrite Hj11, e; cbn; lia).
    clear - H4 H99 Hyy Hc Hq. dlia. }
  exists y, m, k. split; [done|]. split; [done|]. rewrite set_cycle; [|done|done|].
  - rewrite Hmy. f_equal; [dlia|dlia|dlia|lia].
  - unfold days_in_month in Hd. repeat case_match; lia.
Qed.

(** The years before 5874800 end before the last day. *)
Lemma set_last y m d : valid_date y m d -> y < 5874800 -> Date.set y m d <= last_day.
Proof.
  intros (Hy & Hm & Hd) Hk.
  assert (1 <= d <= 31) by (unfold days_in_month in Hd; repeat case_match; lia).
  rewrite set_cycle by done.
  assert (month_start m <= 337 /\ (2 < m -> month_start m <= 275)).
  { clear Hd. revert m Hm. apply month_cases; vm_compute; intuition discriminate. }
  assert (0 <= march_year y m <= 5879599 - if m <=? 2 then 1 else 0)
    by (unfold march_year; case_match; lia).
  unfold cycle_day, last_day. generalize dependent (march_year y m).
  clear - H H0. intros; destruct (Z.leb_spec m 2); dlia.
Qed.

Lemma set_year y m d : valid_date y m d -> Date.set y m d <= last_day -> y <= 5874800.
Proof.
  intros (Hy & Hm & Hd).
  assert (1 <= d <= 31) by (unfold days_in_month in Hd; repeat case_match; lia).
  rewrite set_cycle by done.
  assert (0 <= month_start m /\ (m <= 2 -> 306 <= month_start m)).
  { clear Hd. revert m Hm. apply month_cases; vm_compute; intuition discriminate. }
  unfold march_year, cycle_day, last_day. destruct (Z.leb_spec m 2); dlia.
Qed.

(** From the day after it on the second conversion overflows. *)
Lemma civil_overflow julian : last_day < julian -> Date.civil julian = None.
Proof.
  intros Hj. unfold last_day in Hj. unfold Date.civil.
  destruct (Date.to_int (4 * (julian + 68569)) 146097) as [n|] eqn:En; [|done]. run.
  unfold Date.to_int in En. rewrite quot_div in En by lia.
  assert (58797 <= 4 * (julian + 68569) / 146097) by (apply Z.div_le_lower_bound; lia).
  case_match; [|done]. injection En as <-. by rewrite to_int_large by lia.
Qed.

(** C5.  The calendar: the Fliegel and Van Flandern formulas of [set] and [put]
    are inverse to each other on the proleptic Gregorian calendar.  From the
    julian number of any valid date of the years 1 to 5874799 [put] computes that
    date, and any julian number from 0001-01-01 to 5874800-02-29 is the one of the
    valid date [put] computes, all its conversions to [int] being defined.  From
    the next day on, the number that marks an invalid date included, [put]
    converts a number to [int] that is none, which is undefined. *)
Theorem calendar_inverse :
  (forall y m d, valid_date y m d -> y < 5874800 ->
    Date.civil (Date.set y m d) = Some (y, m, d)) /\
  (forall julian, 1721426 <= julian <= last_day -> exists y m d,
    Date.civil julian = Some (y, m, d) /\ valid_date y m d /\ y <= 5874800 /\
    Date.set y m d = julian) /\
  (forall julian, last_day < julian -> Date.civil julian = None).
Proof.
  split; [|split; [|exact civil_overflow]].
  - intros y m d Hv Hy. apply civil_set; [done|]. by apply (set_last y m d).
  - intros julian Hj. destruct (civil_inv julian Hj) as (y & m & d & Hc & Hv & Hs).
    exists y, m, d. split_and!; try done. apply (set_year y m d Hv). rewrite Hs. lia.
Qed.

Lemma calendar_inverse_witness :
  Date.civil (Date.set 2024 2 29) = Some (2024, 2, 29) /\
  (exists y m d, Date.civil 2460370 = Some (y, m, d) /\ valid_date y m d /\ y <= 5874800 /\
    Date.set y m d = 2460370) /\
  Date.civil Date.invalid = None.
Proof.
  split; [|split].
  - apply (proj1 calendar_inverse); [|reflexivity].
    unfold valid_date. vm_compute. intuition discriminate.
  - apply (proj1 (proj2 calendar_inverse) 2460370). unfold last_day. lia.
  - apply (proj2 (proj2 calendar_inverse)). reflexivity.
Defined.

(** The last day, and the text of an invalid date. *)
Example last_day_date : Date.civil last_day = Some (5874800, 2, 29). Proof. reflexivity. Qed.
Example put_invalid : Date.string (Date.set 2000 13 1) = None. Proof. reflexivity. Qed.

(** ** The texts *)

Definition date_text (y m d : Z) : list Z :=
  decimal 4 y ++ [45] ++ decimal 2 m ++ [45] ++ decimal 2 d.

Definition time_text (h m s : Z) : list Z :=
  decimal 2 h ++ [58] ++ decimal 2 m ++ [58] ++ decimal 2 s.

Lemma zput_mid p old r at_ n v : at_ = zlen p -> n = zlen old -> (0 < length old <= 10)%nat ->
  0 <= v < 10 ^ n ->
  Date.zput (p ++ old ++ r) at_ n v = Some (p ++ decimal (length old) v ++ r).
Proof.
  intros -> -> Ho Hv. unfold Date.zput. rewrite zlen_to_nat, drop_app_length, take_app_length.
  rewrite zset_nonneg by (unfold zlen in *; rewrite ?length_app; lia). run.
  by rewrite zlen_to_nat, drop_app_length.
Qed.

Lemma get_at p n v r off w : off = zlen p -> w = Z.of_nat n -> (0 < n)%nat ->
  0 <= v < 10 ^ Z.of_nat n -> Number.get (drop (Z.to_nat off) (p ++ decimal n v ++ r)) w = Some v.
Proof. intros -> -> Hn Hv. rewrite zlen_to_nat, drop_app_length. by apply get_decimal. Qed.

(** [Date::put] writes the text of the date it computes. *)
Lemma date_put julian y m d old r : Date.civil julian = Some (y, m, d) -> zlen old = 11 ->
  0 <= y < 10000 -> 0 <= m < 100 -> 0 <= d < 100 ->
  Date.put julian (old ++ r) = Some (date_text y m d ++ 0 :: r).
Proof.
  intros Hc Ho Hy Hm Hd. unfold Date.put. rewrite Hc. run. unfold zlen in Ho.
  do 11 (destruct old as [|? old]; [cbn in Ho; lia|]). destruct old; [|cbn in Ho; lia].
  cbn [app].
  match goal with |- context [wr (?a :: ?b :: ?c :: ?e :: ?x :: ?l) 4 45] =>
    rewrite (wr_app_r [a; b; c; e] l 4 x 45 eq_refl : wr (a :: b :: c :: e :: x :: l) 4 45 = _) end.
  run. cbn [app].
  match goal with |- context [wr (?a :: ?b :: ?c :: ?e :: ?f :: ?g :: ?h :: ?x :: ?l) 7 45] =>
    rewrite (wr_app_r [a; b; c; e; f; g; h] l 7 x 45 eq_refl :
      wr (a :: b :: c :: e :: f :: g :: h :: x :: l) 7 45 = _) end.
  run. cbn [app].
  match goal with |- context [Date.zput (?a :: ?b :: ?c :: ?e :: ?l) 0 4 y] =>
    rewrite (zput_mid [] [a; b; c; e] l 0 4 y eq_refl eq_refl ltac:(cbn; lia) ltac:(lia) :
      Date.zput (a :: b :: c :: e :: l) 0 4 y = _) end.
  run. cbn [app length].
  match goal with |- context [decimal 4 y ++ ?s :: ?a :: ?b :: ?l] =>
    rewrite (app_assoc _ [s] _ : decimal 4 y ++ s :: a :: b :: l = (decimal 4 y ++ [s]) ++ [a; b] ++ l)
  end.
  rewrite zput_mid by (unfold zlen; rewrite ?length_app, ?length_decimal; cbn; lia).
  run. cbn [app length].
  match goal with |- context [?p ++ decimal 2 m ++ ?s :: ?a :: ?b :: ?l] =>
    rewrite (app_assoc (decimal 2 m) [s] _ : decimal 2 m ++ s :: a :: b :: l = (decimal 2 m ++ [s]) ++ [a; b] ++ l),
      (app_assoc p)
  end.
  rewrite zput_mid by (unfold zlen; rewrite ?length_app, ?length_decimal; cbn; lia).
  run. cbn [app length]. rewrite (app_assoc _ (decimal 2 d)), wr_app_r
    by (unfold zlen; rewrite ?length_app, ?length_decimal; done).
  unfold date_text. by rewrite <- !app_assoc.
Qed.

Lemma zlen_date_text y m d : zlen (date_text y m d) = 10.
Proof. unfold date_text, zlen. by rewrite !length_app, !length_decimal. Qed.

Lemma nonul_decimal n v : nonul (decimal n v).
Proof.
  induction n as [|n IH]; cbn; constructor; [|done].
  pose proof (Z.mod_pos_bound (v / 10 ^ Z.of_nat n) 10 eq_refl). cbn. lia.
Qed.

Lemma nonul_date_text y m d : nonul (date_text y m d).
Proof. unfold date_text. rewrite !nonul_app. split_and!; try apply nonul_decimal; by repeat constructor. Qed.

(** Any four digit date. *)
Section date_fields.
Context (y m d : Z) (Hy : 0 <= y < 10000) (Hm : 0 <= m < 100) (Hd : 0 <= d < 100).

Lemma date_text_get r :
  Number.get (drop 0 (date_text y m d ++ r)) 4 = Some y /\
  Number.get (drop 5 (date_text y m d ++ r)) 2 = Some m /\
  Number.get (drop 8 (date_text y m d ++ r)) 2 = Some d.
Proof.
  unfold date_text. rewrite <- !app_assoc. split_and!.
  - apply (get_at [] 4 y _ 0 4); done || lia.
  - rewrite (app_assoc (decimal 4 y)). apply (get_at _ 2 m _ 5 2);
      unfold zlen; rewrite ?length_app, ?length_decimal; done || lia.
  - rewrite (app_assoc (decimal 2 m)), (app_assoc [45]), (app_assoc (decimal 4 y)).
    apply (get_at _ 2 d _ 8 2); unfold zlen; rewrite ?length_app, ?length_decimal; done || lia.
Qed.

Lemma put_field julian : Date.civil julian = Some (y, m, d) ->
  Date.put julian (replicate 11 0) = Some (date_text y m d ++ [0]).
Proof.
  intros Hc. rewrite <- (app_nil_r (replicate 11 0)). by apply date_put.
Qed.
End date_fields.

Lemma set_upper y m d : valid_date y m d -> 10000 <= y -> 5373485 <= Date.set y m d.
Proof.
  intros (Hy & Hm & Hd) H. rewrite set_cycle; [|done|done|].
  2: { unfold days_in_month in Hd. repeat case_match; lia. }
  assert (month_start m >= if m <=? 2 then 306 else 0).
  { clear Hd. revert m Hm. by apply month_cases. }
  unfold march_year, cycle_day. destruct (Z.leb_spec m 2); dlia.
Qed.

(** The four digit years of the common era. *)
Lemma julian_range julian : 1721426 <= julian <= 5373484 ->
  exists y m d, Date.civil julian = Some (y, m, d) /\ valid_date y m d /\
  Date.set y m d = julian /\ 1 <= y < 10000 /\ 1 <= m <= 12 /\ 1 <= d <= 31.
Proof.
  intros Hj. destruct (civil_inv julian ltac:(unfold last_day; lia)) as (y & m & d & Hc & Hv & Hs).
  exists y, m, d. split_and!; try done; try (apply Hv).
  - destruct (Z.lt_ge_cases y 10000) as [|H]; [done|].
    pose proof (set_upper y m d Hv H). lia.
  - destruct Hv as (_ & _ & Hd). unfold days_in_month in Hd. repeat case_match; lia.
Qed.

Lemma valid_small y m d : valid_date y m d -> 1 <= y /\ 1 <= m <= 12 /\ 1 <= d <= 31.
Proof.
  intros (Hy & Hm & Hd). split_and!; try lia.
  unfold days_in_month in Hd. repeat case_match; lia.
Qed.

Lemma digits_decimal n v r acc : no_digit r -> 0 <= v < 10 ^ Z.of_nat n ->
  digits (decimal n v ++ r) acc = (acc * 10 ^ Z.of_nat n + v, r).
Proof.
  intros Hr. revert v acc. induction n as [|n IH]; intros v acc Hv.
  - assert (v = 0) as -> by (cbn in Hv; lia). cbn [decimal app].
    destruct r as [|c r]; cbn; [|cbn in Hr; rewrite Hr]; f_equal; cbn; lia.
  - pose proof (pow10_pos n). pose proof (decimal_S_head n v Hv) as Hh.
    pose proof (Z.mod_pos_bound (v / 10 ^ Z.of_nat n) 10 eq_refl).
    cbn [decimal app digits]. rewrite isdigit_digit by done.
    rewrite <- (decimal_mod n n) by lia. rewrite IH by (apply Z.mod_pos_bound; lia).
    f_equal. rewrite pow10_S, Hh, Z.mod_eq by lia. lia.
Qed.

Lemma atol_decimal n v r : (0 < n)%nat -> no_digit r -> 0 <= v < 10 ^ Z.of_nat n ->
  atol (decimal n v ++ r) = v.
Proof.
  intros Hn Hr Hv. pose proof (digits_decimal n v r 0 Hr Hv) as Hd.
  destruct n as [|n]; [lia|]. cbn [decimal app] in *.
  rewrite atol_digit by (apply isdigit_digit, Z.mod_pos_bound; lia). by rewrite Hd.
Qed.

(** ** [Time::put] *)

Lemma time_put h m sec old r : zlen old = 9 -> 0 <= h < 24 -> 0 <= m < 60 -> 0 <= sec < 60 ->
  Time.put (3600 * h + 60 * m + sec) (old ++ r) = Some (time_text h m sec ++ 0 :: r).
Proof.
  intros Ho Hh Hm Hs. unfold Time.put. unfold zlen in Ho.
  do 9 (destruct old as [|? old]; [cbn in Ho; lia|]). destruct old; [|cbn in Ho; lia].
  cbn [app].
  match goal with |- context [wr (?a :: ?b :: ?x :: ?l) 2 58] =>
    rewrite (wr_app_r [a; b] l 2 x 58 eq_refl : wr (a :: b :: x :: l) 2 58 = _) end.
  run. cbn [app].
  match goal with |- context [wr (?a :: ?b :: ?c :: ?e :: ?f :: ?x :: ?l) 5 58] =>
    rewrite (wr_app_r [a; b; c; e; f] l 5 x 58 eq_refl :
      wr (a :: b :: c :: e :: f :: x :: l) 5 58 = _) end.
  run. cbn [app].
  rewrite quot_div, Z.rem_mod_nonneg by dlia.
  replace ((3600 * h + 60 * m + sec) / 3600 mod 24) with h by dlia.
  match goal with |- context [Date.zput (?a :: ?b :: ?l) 0 2 h] =>
    rewrite (zput_mid [] [a; b] l 0 2 h eq_refl eq_refl ltac:(cbn; lia) ltac:(lia) :
      Date.zput (a :: b :: l) 0 2 h = _) end.
  run. cbn [app length]. rewrite (get_decimal 2 h) by lia. run.
  replace (3600 * h + 60 * m + sec - 3600 * h) with (60 * m + sec) by lia.
  rewrite quot_div by lia. replace ((60 * m + sec) / 60) with m by dlia.
  match goal with |- context [decimal 2 h ++ ?s :: ?a :: ?b :: ?l] =>
    rewrite (app_assoc _ [s] _ : decimal 2 h ++ s :: a :: b :: l = (decimal 2 h ++ [s]) ++ [a; b] ++ l)
  end.
  rewrite zput_mid by (unfold zlen; rewrite ?length_app, ?length_decimal; cbn; lia).
  run. cbn [length].
  rewrite (get_at (decimal 2 h ++ [58]) 2 m _ 3 2)
    by (unfold zlen; rewrite ?length_app, ?length_decimal; done || lia).
  run. replace (60 * m + sec - 60 * m) with sec by lia. cbn [app].
  match goal with |- context [?p ++ decimal 2 m ++ ?s :: ?a :: ?b :: ?l] =>
    rewrite (app_assoc (decimal 2 m) [s] _ : decimal 2 m ++ s :: a :: b :: l = (decimal 2 m ++ [s]) ++ [a; b] ++ l),
      (app_assoc p)
  end.
  rewrite zput_mid by (unfold zlen; rewrite ?length_app, ?length_decimal; cbn; lia).
  run. cbn [app length]. rewrite (app_assoc _ (decimal 2 sec)), wr_app_r
    by (unfold zlen; rewrite ?length_app, ?length_decimal; done).
  unfold time_text. by rewrite <- !app_assoc.
Qed.

Lemma zlen_time_text h m s : zlen (time_text h m s) = 8.
Proof. unfold time_text, zlen. by rewrite !length_app, !length_decimal. Qed.

Lemma nonul_time_text h m s : nonul (time_text h m s).
Proof. unfold time_text. rewrite !nonul_app. split_and!; try apply nonul_decimal; by repeat constructor. Qed.

Lemma time_text_get h m s r : 0 <= h < 24 -> 0 <= m < 60 -> 0 <= s < 60 ->
  Number.get (drop 0 (time_text h m s ++ r)) 2 = Some h /\
  Number.get (drop 3 (time_text h m s ++ r)) 2 = Some m /\
  Number.get (drop 6 (time_text h m s ++ r)) 2 = Some s.
Proof.
  intros Hh Hm Hs. unfold time_text. rewrite <- !app_assoc. split_and!.
  - apply (get_at [] 2 h _ 0 2); done || lia.
  - rewrite (app_assoc (decimal 2 h)). apply (get_at _ 2 m _ 3 2);
      unfold zlen; rewrite ?length_app, ?length_decimal; done || lia.
  - rewrite (app_assoc (decimal 2 m)), (app_assoc [58]), (app_assoc (decimal 2 h)).
    apply (get_at _ 2 s _ 6 2); unfold zlen; rewrite ?length_app, ?length_decimal; done || lia.
Qed.

Lemma time_set h m s : 0 <= h < 24 -> 0 <= m < 60 -> 0 <= s < 60 ->
  Time.set h m s = 3600 * h + 60 * m + s.
Proof. intros. unfold Time.set. uc_cases. by rewrite (s32_id (3600 * h)), (s32_id (60 * m)), (s32_id (_ + 60 * m)), s32_id by lia. Qed.

(** Seconds of a day, as hour, minute and second. *)
Lemma second_split sec : 0 <= sec < 86400 -> exists h m s,
  sec = 3600 * h + 60 * m + s /\ 0 <= h < 24 /\ 0 <= m < 60 /\ 0 <= s < 60.
Proof. intros. exists (sec / 3600), (sec / 60 mod 60), (sec mod 60). dlia. Qed.

Lemma drop_date_text y m d r :
  drop 5 (date_text y m d ++ r) = (decimal 2 m ++ 45 :: decimal 2 d) ++ r /\
  drop 8 (date_text y m d ++ r) = decimal 2 d ++ r.
Proof. done. Qed.

(** ** Properties *)

(** The accessors of a [Date] agree with [set] and with its text: on a valid
    date of a four digit year they return the year, the month and the day, the
    string is the ISO date, and [get] is the number [yyyymmdd]. *)
Theorem date_fields (y m d : Z) : valid_date y m d -> y < 10000 ->
  let julian := Date.set y m d in
  Date.year julian = Some y /\ Date.month julian = Some m /\ Date.day julian = Some d /\
  Date.string julian = Some (date_text y m d) /\
  Date.get julian = Some (y * 10000 + m * 100 + d).
Proof.
  intros Hv Hy9 julian. pose proof (civil_set y m d Hv (set_last y m d Hv ltac:(lia))) as Hc. fold julian in Hc.
  destruct (valid_small y m d Hv) as (Hy & Hm & Hd).
  pose proof (put_field y m d ltac:(lia) ltac:(lia) ltac:(lia) julian Hc) as Hp.
  destruct (date_text_get y m d ltac:(lia) ltac:(lia) ltac:(lia) [0]) as (Gy & Gm & Gd).
  unfold Date.year, Date.month, Date.day, Date.field, Date.string, Date.get. rewrite Hp. run.
  split; [exact Gy|]. split; [exact Gm|]. split; [exact Gd|].
  split; [apply cstr_app, nonul_date_text|].
  destruct (drop_date_text y m d [0]) as [-> ->].
  rewrite !cstr_app by (apply nonul_date_text || apply nonul_decimal ||
    (rewrite nonul_app; split; [apply nonul_decimal|constructor; [done|apply nonul_decimal]])).
  run. unfold date_text. rewrite !atol_decimal by (done || lia).
  by rewrite <- (app_nil_r (decimal 2 d)), atol_decimal by (done || lia).
Qed.

Lemma date_fields_witness :
  let julian := Date.set 2024 2 29 in
  Date.year julian = Some 2024 /\ Date.month julian = Some 2 /\ Date.day julian = Some 29 /\
  Date.string julian = Some (date_text 2024 2 29) /\
  Date.get julian = Some (2024 * 10000 + 2 * 100 + 29).
Proof.
  apply (date_fields 2024 2 29); [|reflexivity].
  unfold valid_date. vm_compute. intuition discriminate.
Defined.

Lemma strncpy_app s r n : nonul s -> n = length s -> strncpy (s ++ r) n = Some s.
Proof.
  intros Hs ->. induction Hs as [|c s Hc Hs IH]; [done|]. cbn.
  destruct (Z.eqb_spec c 0); [done|]. by rewrite IH.
Qed.

(** Parsing the texts: a size of zero stands for the length. *)
Lemma date_set_text `{Clock} y m d r size : 0 <= y < 10000 -> 0 <= m < 100 -> 0 <= d < 100 ->
  local None <> None -> size = 10 \/ size = 0 /\ head r = Some 0 ->
  Date.set_text (date_text y m d ++ r) size = Some (Date.set y m d).
Proof.
  intros Hy Hm Hd Hl Hsize. destruct (local None) as [dt|] eqn:El; [clear Hl|done].
  unfold Date.set_text. rewrite El. run.
  assert ((if size =? 0 then strlen (date_text y m d ++ r) else Some size) = Some 10) as ->.
  { destruct Hsize as [->|[-> Hr]]; [done|]. destruct r as [|c r]; [done|]. injection Hr as ->.
    change (0 =? 0) with true. cbv iota. rewrite strlen_app by apply nonul_date_text.
    by rewrite zlen_date_text. }
  destruct (date_text_get y m d Hy Hm Hd r) as (Gy & Gm & Gd).
  unfold Date.num. change (Z.to_nat 0) with 0%nat. change (Z.to_nat 5) with 5%nat.
  change (Z.to_nat 8) with 8%nat. rewrite Gy, Gm, Gd.
  do 6 (cbn [Z.eqb Pos.eqb andb]; run). done.
Qed.

Lemma time_set_text h m s r size : 0 <= h < 24 -> 0 <= m < 60 -> 0 <= s < 60 ->
  size = 8 \/ size = 0 /\ head r = Some 0 ->
  Time.set_text (time_text h m s ++ r) size = Some (3600 * h + 60 * m + s).
Proof.
  intros Hh Hm Hs Hsize. unfold Time.set_text.
  assert ((if size =? 0 then strlen (time_text h m s ++ r) else Some size) = Some 8) as ->.
  { destruct Hsize as [->|[-> Hr]]; [done|]. destruct r as [|c r]; [done|]. injection Hr as ->.
    change (0 =? 0) with true. cbv iota. rewrite strlen_app by apply nonul_time_text.
    by rewrite zlen_time_text. }
  destruct (time_text_get h m s r Hh Hm Hs) as (Th & Tm & Ts).
  unfold Date.num. change (Z.to_nat 0) with 0%nat. change (Z.to_nat 3) with 3%nat.
  change (Z.to_nat 6) with 6%nat. rewrite Th, Tm, Ts.
  do 6 (cbn [Z.eqb Pos.eqb orb]; run). by rewrite time_set.
Qed.

(** A date and a time one behind the other. *)
Lemma length_date_text y m d x : length (date_text y m d ++ [x]) = 11%nat.
Proof. pose proof (zlen_date_text y m d). rewrite length_app. cbn. unfold zlen in *. lia. Qed.

Lemma both_put j y m d h mi s old r : Date.civil j = Some (y, m, d) ->
  0 <= y < 10000 -> 0 <= m < 100 -> 0 <= d < 100 ->
  0 <= h < 24 -> 0 <= mi < 60 -> 0 <= s < 60 -> zlen old = 20 ->
  (b ← Date.put j (old ++ r); b ← wr b 10 32;
   t ← Time.put (3600 * h + 60 * mi + s) (drop 11 b); Some (take 11 b ++ t)) =
  Some (date_text y m d ++ 32 :: time_text h mi s ++ 0 :: r).
Proof.
  intros Hc Hy Hm Hd Hh Hmi Hs Ho. unfold zlen in Ho.
  rewrite <- (take_drop 11 old), <- app_assoc.
  rewrite (date_put j y m d) by (done || (unfold zlen; rewrite length_take; lia)). run.
  rewrite wr_app_r by (rewrite zlen_date_text; done). run.
  rewrite (app_assoc _ [32] _ : date_text y m d ++ 32 :: drop 11 old ++ r =
    (date_text y m d ++ [32]) ++ drop 11 old ++ r).
  rewrite drop_app_length', take_app_length' by (by rewrite length_date_text).
  rewrite time_put by (done || (unfold zlen; rewrite length_drop; lia)). run.
  by rewrite <- app_assoc.
Qed.

(** C6.  Text round trip: for every second of every day of the years 1 to 9999,
    [DateTime::put] writes nineteen characters and a terminator, and the
    constructor from a text gives the same date and time back. *)
Theorem datetime_text_roundtrip `{Clock} (j sec : Z) :
  1721426 <= j <= 5373484 -> 0 <= sec < 86400 ->
  local None <> None ->
  exists s, DateTime.put (DateTime.DT j sec) (replicate 20 0) = Some (s ++ [0]) /\
    zlen s = 19 /\ DateTime.of_text (s ++ [0]) 0 = Some (DateTime.DT j sec).
Proof.
  intros Hj Hsec Hl. destruct (local None) as [now_|] eqn:El; [clear Hl|done].
  destruct (julian_range j Hj) as (y & m & d & Hc & Hv & Hset & Hy & Hm & Hd).
  destruct (second_split sec Hsec) as (h & mi & s & -> & Hh & Hmi & Hs).
  set (text := date_text y m d ++ 32 :: time_text h mi s).
  assert (Hz : zlen text = 19).
  { unfold text. rewrite zlen_app, zlen_cons, zlen_date_text, zlen_time_text. done. }
  assert (Hn : nonul text).
  { unfold text. rewrite nonul_app. split; [apply nonul_date_text|].
    constructor; [done|apply nonul_time_text]. }
  exists text. split; [|split; [done|]].
  - unfold text. rewrite <- app_assoc. by apply (both_put j y m d h mi s (replicate 20 0) []); lia || done.
  - unfold DateTime.of_text, DateTime.present. rewrite El. run.
    change (0 =? 0) with true. cbv iota. rewrite strlen_app, Hz by done. run.
    rewrite strncpy_app by (done || (unfold zlen in Hz; lia)). run.
    cbn [Z.eqb Pos.eqb]. unfold text. rewrite <- app_assoc.
    rewrite date_set_text by (rewrite ?El; lia || by left || done). run.
    rewrite Hset. cbn [app]. rewrite (app_assoc _ [32] _ :
      date_text y m d ++ 32 :: time_text h mi s ++ [0] = (date_text y m d ++ [32]) ++ time_text h mi s ++ [0]).
    rewrite drop_app_length' by (by rewrite length_date_text).
    rewrite time_set_text by (done || by left). by run.
Qed.

Definition utc_zero : Clock :=
  {| localtime _ := Some (Tm 70 0 1 0 0 0 0); gmtime _ := Some (Tm 70 0 1 0 0 0 0);
     now := 0; mktime _ := 0 |}.

Lemma datetime_text_roundtrip_witness : exists s,
  DateTime.put (DateTime.DT 2460370 86399) (replicate 20 0) = Some (s ++ [0]) /\
  zlen s = 19 /\ @DateTime.of_text utc_zero (s ++ [0]) 0 = Some (DateTime.DT 2460370 86399).
Proof. apply (@datetime_text_roundtrip utc_zero 2460370 86399); [lia | lia | discriminate]. Defined.

(** The instant of a date and time, in seconds. *)
Definition instant (d : DateTime.datetime) : Z :=
  DateTime.julian d * Time.c_day + DateTime.seconds d.

(** Adding seconds, as long as the sum with the seconds of the day is not
    negative: the result is normalised, lies exactly [v] seconds later, and the
    difference operator returns [v]. *)
Theorem datetime_add (d : DateTime.datetime) (v : Z) : 0 <= DateTime.seconds d + v ->
  let d' := DateTime.add d v in
  0 <= DateTime.seconds d' < Time.c_day /\ instant d' = instant d + v /\ DateTime.diff d' d = v.
Proof.
  intros Hv d'. unfold d', DateTime.add, DateTime.update, DateTime.diff, instant, Time.update.
  cbn [DateTime.julian DateTime.seconds]. unfold Time.c_day.
  rewrite quot_div, Z.rem_mod_nonneg by lia. dlia.
Qed.

Lemma datetime_add_witness :
  let d' := DateTime.add (DateTime.DT 2451545 86399) 2 in
  0 <= DateTime.seconds d' < Time.c_day /\
  instant d' = instant (DateTime.DT 2451545 86399) + 2 /\
  DateTime.diff d' (DateTime.DT 2451545 86399) = 2.
Proof. apply (datetime_add (DateTime.DT 2451545 86399) 2). discriminate. Defined.

(** There is no borrow from the date: going back less than a day across
    midnight leaves the date alone and mirrors the seconds, so the result is the
    instant [v - s] past midnight of the same day, where [s - v] was meant. *)
Theorem datetime_sub_no_borrow (d : DateTime.datetime) (v : Z) :
  DateTime.seconds d < v < DateTime.seconds d + Time.c_day ->
  DateTime.sub d v = DateTime.DT (DateTime.julian d) (v - DateTime.seconds d) /\
  Time.sub (DateTime.seconds d) v = v - DateTime.seconds d /\
  instant (DateTime.sub d v) <> instant d - v.
Proof.
  intros Hv. assert (DateTime.sub d v = DateTime.DT (DateTime.julian d) (v - DateTime.seconds d)) as E.
  { unfold DateTime.sub, DateTime.update, Time.update, Time.c_day in *.
    cbn [DateTime.julian DateTime.seconds].
    replace (DateTime.seconds d - v) with (- (v - DateTime.seconds d)) by lia.
    rewrite Z.quot_opp_l, Z.rem_opp_l, Z.quot_small, Z.rem_small by lia. f_equal; lia. }
  rewrite E. split_and!; [done|by injection E|].
  unfold instant. cbn [DateTime.julian DateTime.seconds]. lia.
Qed.

Lemma datetime_sub_no_borrow_witness :
  DateTime.sub (DateTime.DT 2451545 0) 1 = DateTime.DT 2451545 (1 - 0) /\
  Time.sub 0 1 = 1 - 0 /\
  instant (DateTime.sub (DateTime.DT 2451545 0) 1) <> instant (DateTime.DT 2451545 0) - 1.
Proof. apply (datetime_sub_no_borrow (DateTime.DT 2451545 0) 1). done. Defined.

(** [DateTime::get] reads the time from the wrong offsets: whatever the
    minute and the second, the broken-down time handed to [mktime] has minute
    zero and, as its second, the last digit of the minute. *)
Theorem datetime_get_tm (y m d h mi s : Z) :
  valid_date y m d -> y < 10000 -> 0 <= h < 24 -> 0 <= mi < 60 -> 0 <= s < 60 ->
  DateTime.get_tm (DateTime.of_fields y m d h mi s) =
  Some (Tm (y - 1900) (m - 1) d h 0 (mi mod 10) (-1)).
Proof.
  intros Hv Hy9 Hh Hmi Hs. destruct (valid_small y m d Hv) as (Hy & Hm & Hd).
  unfold DateTime.get_tm, DateTime.of_fields. cbn [DateTime.julian DateTime.seconds].
  rewrite (put_field y m d) by (lia || (apply civil_set; [done|apply set_last; [done|lia]])). run.
  destruct (date_text_get y m d ltac:(lia) ltac:(lia) ltac:(lia) [0]) as (Gy & Gm & Gd).
  rewrite drop_0 in Gy. rewrite Gy, Gm, Gd. do 3 run.
  destruct (block_split (date_text y m d ++ [0]) 9) as (old & r & -> & Ho).
  { rewrite zlen_app, zlen_date_text. done. }
  rewrite time_set, time_put by done. run.
  destruct (time_text_get h mi s (0 :: r) Hh Hmi Hs) as (Th & _ & _).
  rewrite drop_0 in Th. rewrite Th. run. unfold time_text. cbn [decimal app drop].
  change (10 ^ Z.of_nat 0) with 1. rewrite !Z.div_1_r.
  assert (Number.get (58 :: 48 + mi / 10 ^ Z.of_nat 1 mod 10 :: 48 + mi mod 10 :: 58 ::
    48 + s / 10 ^ Z.of_nat 1 mod 10 :: 48 + s mod 10 :: 0 :: r) 2 = Some 0) as -> by done.
  run. unfold Number.get. change (Z.to_nat 2) with 2%nat.
  pose proof (Z.mod_pos_bound mi 10 eq_refl). uc_cases. cbn [Number.get_loop].
  rewrite isdigit_digit by done. change (isdigit 58) with false. replace (0 * 10 + (48 + mi mod 10 - 48)) with (mi mod 10) by lia. by run.
Qed.

Lemma datetime_get_tm_witness :
  DateTime.get_tm (DateTime.of_fields 2024 2 29 23 59 58) =
  Some (Tm (2024 - 1900) (2 - 1) 29 23 0 (59 mod 10) (-1)).
Proof.
  apply (datetime_get_tm 2024 2 29 23 59 58); try lia.
  unfold valid_date. vm_compute. intuition discriminate.
Defined.
