(* ===== verification/IsoTime.v ===== *)
(** * Typed and printed times (corelib/datetime.cpp)

    [DateTimeString] keeps the text of a date and time next to it; [isotime] is
    the filter that lets a [Date], a [Time] or both be typed in over their
    present text.  [EOF] is -1. *)

From stdpp Require Import strings.
From S2P Require Import Prelude CLib Numbers DateTime.

Module DateTimeString.

Inductive mode_t := DATE | TIME | BOTH.

(** The [DateTime] base, [buffer] and [mode]. *)
Record t := Mk { base : DateTime.datetime; buffer : list Z; mode : mode_t }.

(** [DateTimeString::update] *)
Definition update (s : t) : option t :=
  let d := DateTime.update (base s) in
  b ← (match mode s with
       | BOTH => DateTime.put d (buffer s)
       | DATE => Date.put (DateTime.julian d) (buffer s)
       | TIME => Time.put (DateTime.seconds d) (buffer s)
       end);
  Some (Mk d b (mode s)).

(** Every constructor builds the base, sets the mode and updates. *)
Definition make (d : DateTime.datetime) (m : mode_t) (b : list Z) : option t := update (Mk d b m).

(** [set (mode_t)] *)
Definition set_mode (s : t) (m : mode_t) : option t := update (Mk (base s) (buffer s) m).

(** [set ()]: the present; [Date::set ()] and [Time::set ()] each ask for it. *)
Definition set `{Clock} (s : t) : option t :=
  j ← Date.today; sec ← Time.present; update (Mk (DateTime.DT j sec) (buffer s) (mode s)).

(** The inherited operators call the virtual [update]. *)
Definition add (s : t) (value : Z) : option t :=
  let d := base s in
  update (Mk (DateTime.DT (DateTime.julian d) (DateTime.seconds d + value)) (buffer s) (mode s)).

Definition incr (s : t) : option t :=
  let d := base s in
  update (Mk (DateTime.DT (DateTime.julian d + 1) (DateTime.seconds d)) (buffer s) (mode s)).

(** [operator()] and the cast. *)
Definition text (s : t) : option (list Z) := cstr (buffer s).

End DateTimeString.

Module isotime.

Inductive mode_t := DATE | TIME | DATETIME.

(** The values behind the pointers [d] and [t], and the fields. *)
Record t := Mk { d : Z; tm : Z; mode : mode_t; buf : list Z; pos : Z }.

Definition EOF : Z := -1.

(** The constructors; [buf] is the uninitialised [char buf[32]]. *)
Definition of_time (sec : Z) (buf : list Z) : option t :=
  b ← Time.put sec buf; Some (Mk 0 sec TIME b 0).

Definition of_date (julian : Z) (buf : list Z) : option t :=
  b ← Date.put julian buf; Some (Mk julian 0 DATE b 0).

Definition of_both (julian sec : Z) (buf : list Z) : option t :=
  b ← Date.put julian buf;
  b ← wr b 10 32;
  t ← Time.put sec (drop 11 b);
  Some (Mk julian sec DATETIME (take 11 b ++ t) 0).

(** [_print] *)
Definition print (s : t) : option (list Z) := cstr (buf s).

(** The label [final]: the text is cut and assigned. *)
Definition final `{Clock} (s : t) : option t :=
  b ← wr (buf s) (pos s) 0;
  match mode s with
  | DATE => j ← Date.set_text b 0; Some (Mk j (tm s) DATE b (pos s))
  | TIME => v ← Time.set_text b 0; Some (Mk (d s) v TIME b (pos s))
  | DATETIME =>
      b ← wr b 10 0;
      j ← Date.set_text b 0;
      v ← Time.set_text (drop 11 b) 0;
      Some (Mk j v DATETIME b (pos s))
  end.

(** [_input]: the new state and the code returned. *)
Definition input `{Clock} (s : t) (code : Z) : option (t * Z) :=
  c ← rd (buf s) (pos s);
  if isdigit c && isdigit code then
    b ← wr (buf s) (pos s) code;
    let s := Mk (d s) (tm s) (mode s) b (pos s + 1) in
    c ← rd b (pos s);
    if c =? 0 then s ← final s; Some (s, EOF) else Some (s, 0)
  else if code =? c then Some (Mk (d s) (tm s) (mode s) (buf s) (pos s + 1), 0)
  else s ← final s; Some (s, code).

(** [_stream_operators::input] (corelib/stream.cpp) on a source that holds
    [codes]: the state and the characters left, one of them put back.  Behind the
    last character the source gives [EOF]; a filter that still asks for more has
    no end. *)
Fixpoint stream_input `{Clock} (s : t) (codes : list Z) : option (t * list Z) :=
  match codes with
  | [] => '(s, r) ← input s EOF; if r =? 0 then None else Some (s, [])
  | c :: cs =>
      '(s, r) ← input s c;
      if r =? 0 then stream_input s cs else Some (s, if r =? EOF then cs else r :: cs)
  end.

End isotime.

Example iso_time :
  @isotime.stream_input utc_zero (isotime.Mk 0 0 isotime.TIME (bytes "00:00:00" ++ [0; 9]) 0)
    (bytes "12:34:56 x") =
  Some (isotime.Mk 0 45296 isotime.TIME (bytes "12:34:56" ++ [0; 9]) 8, bytes " x").
Proof. vm_compute. reflexivity. Qed.

(** Two texts of the same layout. *)
Definition shape (x y : Z) : Prop :=
  y <> 0 /\ (isdigit x = true /\ isdigit y = true \/ x = y /\ isdigit y = false).

Lemma shape_decimal n v w : Forall2 shape (decimal n v) (decimal n w).
Proof.
  induction n as [|n IH]; cbn; constructor; [|done].
  pose proof (Z.mod_pos_bound (v / 10 ^ Z.of_nat n) 10 eq_refl).
  pose proof (Z.mod_pos_bound (w / 10 ^ Z.of_nat n) 10 eq_refl).
  split; [lia|left]. split; by apply isdigit_digit.
Qed.

Lemma shape_same c : c <> 0 -> isdigit c = false -> Forall2 shape [c] [c].
Proof. intros. apply Forall2_cons_2; [split; [done|by right]|constructor]. Qed.

Lemma shape_date y m d y' m' d' : Forall2 shape (date_text y m d) (date_text y' m' d').
Proof.
  repeat apply Forall2_app; try apply shape_decimal; by apply shape_same.
Qed.

Lemma shape_time h m s h' m' s' : Forall2 shape (time_text h m s) (time_text h' m' s').
Proof.
  repeat apply Forall2_app; try apply shape_decimal; by apply shape_same.
Qed.

(** Typing over a text of the same layout up to its last digit. *)
Lemma input_over `{Clock} typed x y rest r dd t m : forall p old,
  Forall2 shape typed old -> isdigit x = true -> isdigit y = true ->
  isotime.stream_input (isotime.Mk dd t m (p ++ old ++ y :: 0 :: r) (zlen p))
    (typed ++ x :: rest) =
  (s ← isotime.final (isotime.Mk dd t m (p ++ typed ++ x :: 0 :: r) (zlen p + zlen typed + 1));
   Some (s, rest)).
Proof.
  intros p old Hsh Hx Hy. revert p. induction Hsh as [|a b typed old [Hb Hab] Htl IH]; intros p;
    cbn [app isotime.stream_input]; unfold isotime.input;
    cbn [isotime.buf isotime.pos isotime.d isotime.tm isotime.mode].
  - rewrite rd_app_r by done. cbn [lookup list_lookup]. run.
    rewrite Hx, Hy. cbn [andb]. rewrite wr_app_r by done. run.
    rewrite (app_assoc p [x] _ : p ++ x :: 0 :: r = (p ++ [x]) ++ 0 :: r).
    rewrite rd_app_r by uc_len. cbn [lookup list_lookup]. run. cbn [Z.eqb].
    replace (zlen p + zlen [] + 1) with (zlen p + 1) by (rewrite zlen_nil; lia).
    destruct (isotime.final _); [|done]. by run.
  - rewrite rd_app_r by done. cbn [lookup list_lookup]. run.
    replace (zlen p + zlen (a :: typed) + 1) with (zlen (p ++ [a]) + zlen typed + 1) by uc_len.
    rewrite (app_assoc p [a] _ : p ++ a :: typed ++ x :: 0 :: r = (p ++ [a]) ++ typed ++ x :: 0 :: r).
    rewrite <- IH. replace (zlen (p ++ [a])) with (zlen p + 1) by uc_len. rewrite <- app_assoc.
    cbn [app]. destruct Hab as [[Ha Hbd]|[-> Hbd]].
    + rewrite Ha, Hbd. cbn [andb]. rewrite wr_app_r by done. run.
      rewrite (app_assoc p [a] _ : p ++ a :: old ++ y :: 0 :: r = (p ++ [a]) ++ old ++ y :: 0 :: r).
      rewrite rd_app_r by uc_len.
      assert (exists c l, old ++ y :: 0 :: r = c :: l /\ c <> 0) as (c & l & E & Hc).
      { destruct Htl as [|a' c ? ? [Hc _]]; [|by eexists c, _].
        exists y, (0 :: r). split; [done|]. intros ->. done. }
      rewrite E. cbn [lookup list_lookup]. run. destruct (Z.eqb_spec c 0); [done|]. by run.
    + rewrite Hbd. cbn [andb]. rewrite Z.eqb_refl. by run.
Qed.

(** A text ends in a digit. *)
Lemma time_text_last h m s : exists l x, time_text h m s = l ++ [x] /\ isdigit x = true /\
  forall h' m' s', exists l' x', time_text h' m' s' = l' ++ [x'] /\ isdigit x' = true /\
    Forall2 shape l' l.
Proof.
  unfold time_text. cbn [decimal].
  eexists (decimal 2 h ++ [58] ++ decimal 2 m ++ [58] ++ [_]), _.
  split; [cbn; reflexivity|]. split; [apply isdigit_digit, Z.mod_pos_bound; lia|].
  intros h' m' s'. eexists (decimal 2 h' ++ [58] ++ decimal 2 m' ++ [58] ++ [_]), _.
  split; [cbn; reflexivity|]. split; [apply isdigit_digit, Z.mod_pos_bound; lia|].
  pose proof (shape_decimal 2 s' s) as Hd. inversion Hd as [|? ? ? ? Hsd _]; subst.
  repeat apply Forall2_app; try apply shape_decimal; try by apply shape_same.
  apply Forall2_cons_2; [done|constructor].
Qed.

Lemma of_both_text j y m d h mi s old r : Date.civil j = Some (y, m, d) ->
  0 <= y < 10000 -> 0 <= m < 100 -> 0 <= d < 100 ->
  0 <= h < 24 -> 0 <= mi < 60 -> 0 <= s < 60 -> zlen old = 20 ->
  isotime.of_both j (3600 * h + 60 * mi + s) (old ++ r) =
  Some (isotime.Mk j (3600 * h + 60 * mi + s) isotime.DATETIME
    (date_text y m d ++ 32 :: time_text h mi s ++ 0 :: r) 0).
Proof.
  intros Hc Hy Hm Hd Hh Hmi Hs Ho.
  pose proof (both_put j y m d h mi s old r Hc Hy Hm Hd Hh Hmi Hs Ho) as H.
  unfold isotime.of_both. destruct (Date.put j (old ++ r)) as [b|]; [|done].
  rewrite !bind_Some in *. destruct (wr b 10 32) as [b'|]; [|done].
  rewrite !bind_Some in *. destruct (Time.put _ (drop 11 b')) as [t|]; [|done].
  rewrite !bind_Some in *. by injection H as ->.
Qed.

(** The last digit assigns both. *)
Lemma final_both `{Clock} y m d h mi s r dd t : 0 <= y < 10000 -> 0 <= m < 100 -> 0 <= d < 100 ->
  0 <= h < 24 -> 0 <= mi < 60 -> 0 <= s < 60 -> local None <> None ->
  exists b, isotime.final (isotime.Mk dd t isotime.DATETIME
    (date_text y m d ++ 32 :: time_text h mi s ++ 0 :: r) 19) =
  Some (isotime.Mk (Date.set y m d) (3600 * h + 60 * mi + s) isotime.DATETIME b 19).
Proof.
  intros Hy Hm Hd Hh Hmi Hs Hl. unfold isotime.final.
  cbn [isotime.buf isotime.pos isotime.d isotime.tm isotime.mode].
  rewrite (app_assoc (date_text y m d) (32 :: time_text h mi s) (0 :: r) : date_text y m d ++ 32 :: time_text h mi s ++ 0 :: r =
    (date_text y m d ++ 32 :: time_text h mi s) ++ 0 :: r).
  rewrite wr_app_r by (by rewrite zlen_app, zlen_cons, zlen_date_text, zlen_time_text).
  run. rewrite <- app_assoc. cbn [app]. rewrite wr_app_r by (by rewrite zlen_date_text). run.
  rewrite date_set_text by (done || by right). run.
  rewrite (app_assoc _ [0] _ : date_text y m d ++ 0 :: time_text h mi s ++ 0 :: r =
    (date_text y m d ++ [0]) ++ time_text h mi s ++ 0 :: r).
  rewrite drop_app_length' by (by rewrite length_date_text).
  rewrite time_set_text by (done || by right). run. by eexists.
Qed.

Lemma typed_both `{Clock} y m d h mi s y' m' d' h' mi' s' r rest dd t :
  0 <= y' < 10000 -> 0 <= m' < 100 -> 0 <= d' < 100 ->
  0 <= h' < 24 -> 0 <= mi' < 60 -> 0 <= s' < 60 -> local None <> None ->
  exists b, isotime.stream_input (isotime.Mk dd t isotime.DATETIME
      (date_text y m d ++ 32 :: time_text h mi s ++ 0 :: r) 0)
    ((date_text y' m' d' ++ 32 :: time_text h' mi' s') ++ rest) =
  Some (isotime.Mk (Date.set y' m' d') (3600 * h' + 60 * mi' + s') isotime.DATETIME b 19, rest).
Proof.
  intros Hy Hm Hd Hh Hmi Hs Hl.
  destruct (time_text_last h mi s) as (l & x & El & Hx & Hlast).
  destruct (Hlast h' mi' s') as (l' & x' & El' & Hx' & Hsh).
  destruct (final_both y' m' d' h' mi' s' r dd t) as (b & Hb); [done..|]. exists b.
  assert (Hlen : zlen (date_text y' m' d' ++ 32 :: l') + 1 = 19).
  { pose proof (zlen_time_text h' mi' s') as E. rewrite El', zlen_app in E.
    rewrite zlen_app, zlen_cons, zlen_date_text. change (zlen [x']) with 1 in E. lia. }
  pose proof (input_over (date_text y' m' d' ++ 32 :: l') x' x rest r dd t isotime.DATETIME []
    (date_text y m d ++ 32 :: l)) as Hin.
  change (zlen []) with 0 in Hin. rewrite Z.add_0_l, Hlen in Hin.
  rewrite El, El' in *. rewrite <- !app_assoc in *. cbn [app] in *.
  rewrite <- !app_assoc in *. cbn [app] in *. rewrite Hin; [|by apply Forall2_app; [apply shape_date|];
    apply Forall2_cons_2; [split; [done|by right]|done]|done|done].
  rewrite Hb. by run.
Qed.

(** Typing a date and time: [isotime] over any date and time of four digit
    years takes the nineteen characters of another one, stores it in both
    objects at the last digit, and leaves the characters behind it in the
    stream. *)
Theorem isotime_typed `{Clock} (j sec j' sec' : Z) (buf rest : list Z) :
  1721426 <= j <= 5373484 -> 0 <= sec < 86400 ->
  1721426 <= j' <= 5373484 -> 0 <= sec' < 86400 ->
  local None <> None -> zlen buf = 32 ->
  exists text s s', DateTime.put (DateTime.DT j' sec') (replicate 20 0) = Some (text ++ [0]) /\
    isotime.of_both j sec buf = Some s /\
    isotime.stream_input s (text ++ rest) = Some (s', rest) /\
    isotime.d s' = j' /\ isotime.tm s' = sec'.
Proof.
  intros Hj Hsec Hj' Hsec' Hl Hb.
  destruct (julian_range j Hj) as (y & m & d & Hc & Hv & Hset & Hy & Hm & Hd).
  destruct (julian_range j' Hj') as (y' & m' & d' & Hc' & Hv' & Hset' & Hy' & Hm' & Hd').
  destruct (second_split sec Hsec) as (h & mi & s & -> & Hh & Hmi & Hs).
  destruct (second_split sec' Hsec') as (h' & mi' & s' & -> & Hh' & Hmi' & Hs').
  destruct (block_split buf 20 ltac:(lia)) as (old & r & -> & Ho).
  destruct (typed_both y m d h mi s y' m' d' h' mi' s' r rest j (3600 * h + 60 * mi + s))
    as (b & Hin); [lia || done..|].
  exists (date_text y' m' d' ++ 32 :: time_text h' mi' s'). eexists _, _. split_and!.
  - unfold DateTime.put. rewrite <- app_assoc.
    by apply (both_put j' y' m' d' h' mi' s' (replicate 20 0) []); lia || done.
  - apply (of_both_text j y m d h mi s old r); done || lia.
  - exact Hin.
  - done.
  - done.
Qed.

Lemma isotime_typed_witness :
  exists text s s', DateTime.put (DateTime.DT 2460370 86399) (replicate 20 0) = Some (text ++ [0]) /\
    isotime.of_both 2451545 0 (replicate 32 7) = Some s /\
    @isotime.stream_input utc_zero s (text ++ bytes " rest") = Some (s', bytes " rest") /\
    isotime.d s' = 2460370 /\ isotime.tm s' = 86399.
Proof.
  apply (@isotime_typed utc_zero 2451545 0 2460370 86399 (replicate 32 7) (bytes " rest"));
    lia || discriminate || reflexivity.
Defined.
