(* ===== verification/Strings.v ===== *)
(** * The static text functions of String (corelib/string.cpp)

    They work on null terminated text in memory.  A [char *] or [const char *]
    argument is the block from that address on, or [None] for NULL; a returned
    pointer is an offset into the argument's block.  A character list ([clist],
    [quote]) is given by its characters. *)

From stdpp Require Import strings.
From S2P Require Import Prelude CLib.

Module Str.

(** [String::count]: the length, zero for NULL. *)
Definition count (cp : option (list Z)) : option Z :=
  match cp with None => Some 0 | Some b => strlen b end.

(** The text of a pointer, NULL standing for the empty text. *)
Definition text (s : option (list Z)) : option (list Z) :=
  match s with None => Some [] | Some b => cstr b end.

(** What both [set]s do with the [l] characters that fit. *)
Definition store (b t : list Z) (l : Z) : option (list Z) :=
  if l =? 0 then wr b 0 0
  else b ← blit b 0 (take (Z.to_nat l) t); wr b l 0.

Definition set (str : list Z) (size : Z) (s : option (list Z)) : option (list Z) :=
  if size <? 2 then Some str
  else
    t ← text s;
    let l := zlen t in
    let l := if size <=? l then size - 1 else l in
    store str t l.

Definition set_len (str : list Z) (size : Z) (s : option (list Z)) (len : Z) : option (list Z) :=
  if size <? 2 then Some str
  else
    t ← text s;
    let l := zlen t in
    let l := if size <=? l then size - 1 else l in
    let l := if len <? l then len else l in
    store str t l.

(** [String::rset]: the end of the text.  [s] moves only when it is longer than
    [size], so it is not NULL there. *)
Definition rset (str : list Z) (size : Z) (s : option (list Z)) : option (list Z) :=
  len ← count s;
  set str size (if size <? len then drop (Z.to_nat (len - size)) <$> s else s).

(** A function that writes, applied behind the first [o] cells. *)
Definition behind (o : Z) (f : list Z -> option (list Z)) (b : list Z) : option (list Z) :=
  b' ← f (drop (Z.to_nat o) b); Some (take (Z.to_nat o) b ++ b').

Definition add (str : list Z) (size : Z) (s : option (list Z)) : option (list Z) :=
  match s with
  | None => Some str
  | Some _ =>
      o ← strlen str;
      if u64 (size - 1) <=? o then Some str
      else behind o (fun b => set b (u64 (size - o)) s) str
  end.

(** The fourth argument is never read: the limit is the length of [s]. *)
Definition add_len (str : list Z) (size : Z) (s : option (list Z)) (len : Z) : option (list Z) :=
  match s with
  | None => Some str
  | Some sb =>
      l ← strlen sb; o ← strlen str;
      if u64 (size - 1) <=? o then Some str
      else behind o (fun b => set_len b (u64 (size - o)) s l) str
  end.

(** [while (p && strchr (clist, p)) ++str]: the offset reached.  It is the loop
    of [trim] and [skip] and the first one of [token]. *)
Fixpoint span_in (clist b : list Z) : option Z :=
  match b with
  | [] => None
  | c :: b' => if negb (c =? 0) && in_set clist c then Z.succ <$> span_in clist b' else Some 0
  end.

(** [while (p && !strchr (clist, p)) ++str]: the loop of [seek] and the last one
    of [token]. *)
Fixpoint span_out (clist b : list Z) : option Z :=
  match b with
  | [] => None
  | c :: b' => if negb (c =? 0) && negb (in_set clist c) then Z.succ <$> span_out clist b' else Some 0
  end.

Definition trim (str : option (list Z)) (clist : option (list Z)) : option (option Z) :=
  match str, clist with
  | None, _ => Some None
  | Some _, None => Some (Some 0)
  | Some b, Some cl => Some <$> span_in cl b
  end.

(** The loop of [chop]: [offset] runs down from the terminator. *)
Fixpoint chop_loop (clist : list Z) (str : list Z) (offset : nat) : option (list Z) :=
  match offset with
  | O => Some str
  | S o =>
      c ← rd str (Z.of_nat o);
      if in_set clist c then b ← wr str (Z.of_nat o) 0; chop_loop clist b o else Some str
  end.

Definition chop (str : list Z) (clist : option (list Z)) : option (list Z) :=
  match clist with
  | None => Some str
  | Some cl => offset ← strlen str; chop_loop cl str (Z.to_nat offset)
  end.

(** [strip]: the block and the offset returned. *)
Definition strip (str : list Z) (clist : option (list Z)) : option (list Z * Z) :=
  o ← trim (Some str) clist;
  let o := default 0 o in
  b ← behind o (fun b => chop b clist) str; Some (b, o).

(** [String::check]: a safe length test. *)
Fixpoint check_loop (str : list Z) (max min count : Z) : option bool :=
  match str with
  | [] => None
  | c :: s =>
      if c =? 0 then Some (negb (count <? min))
      else if max <? count + 1 then Some false else check_loop s max min (count + 1)
  end.

Definition check (str : option (list Z)) (max min : Z) : option bool :=
  match str with None => Some false | Some b => check_loop b max min 0 end.

(** [upper] and [lower] *)
Fixpoint map_text (f : Z -> Z) (str : list Z) : option (list Z) :=
  match str with
  | [] => None
  | c :: s => if c =? 0 then Some str else cons (f c) <$> map_text f s
  end.

Definition upper (str : list Z) : option (list Z) := map_text toupper str.
Definition lower (str : list Z) : option (list Z) := map_text tolower str.

Definition erase (str : list Z) : option (list Z) :=
  c ← rd str 0;
  if c =? 0 then Some str else l ← strlen str; blit str 0 (replicate (Z.to_nat l) 0).

Fixpoint ccount_loop (str clist : list Z) (count : Z) : option Z :=
  match str with
  | [] => None
  | c :: s =>
      if c =? 0 then Some count
      else ccount_loop s clist (if in_set clist c then count + 1 else count)
  end.

Definition ccount (str : option (list Z)) (clist : list Z) : option Z :=
  match str with None => Some 0 | Some b => ccount_loop b clist 0 end.

Definition skip (str clist : option (list Z)) : option (option Z) :=
  match str, clist with
  | Some b, Some cl =>
      o ← span_in cl b; c ← rd b o; Some (if c =? 0 then None else Some o)
  | _, _ => Some None
  end.

(** [rskip] returns the start of the text, not the character found. *)
Fixpoint rskip_loop (str clist : list Z) (len : nat) : option (option Z) :=
  match len with
  | O => Some None
  | S n =>
      c ← rd str (Z.of_nat n);
      if in_set clist c then rskip_loop str clist n else Some (Some 0)
  end.

Definition rskip (str clist : option (list Z)) : option (option Z) :=
  len ← count str;
  match str, clist with
  | Some b, Some cl => if len =? 0 then Some None else rskip_loop b cl (Z.to_nat len)
  | _, _ => Some None
  end.

Definition seek (str clist : option (list Z)) : option Z :=
  match str, clist with
  | None, _ => Some 0
  | Some b, None => strlen b
  | Some b, Some cl => span_out cl b
  end.

(** The static [find] never moves: [None] when the fuel is spent. *)
Fixpoint find_loop (fuel : nat) (str clist : list Z) : option (option Z) :=
  match fuel with
  | O => None
  | S n =>
      c ← rd str 0;
      if c =? 0 then Some None
      else if in_set clist c then Some (Some 0) else find_loop n str clist
  end.

Definition find (fuel : nat) (str clist : option (list Z)) : option (option Z) :=
  match str, clist with
  | None, _ => Some None
  | Some _, None => Some (Some 0)
  | Some b, Some cl => find_loop fuel b cl
  end.

Fixpoint rfind_loop (str clist : list Z) (s : nat) : option (option Z) :=
  match s with
  | O => Some None
  | S n =>
      c ← rd str (Z.of_nat n);
      if in_set clist c then Some (Some (Z.of_nat n)) else rfind_loop str clist n
  end.

Definition rfind (str clist : option (list Z)) : option (option Z) :=
  match str, clist with
  | None, _ => Some None
  | Some b, None => Some <$> strlen b
  | Some b, Some cl => l ← strlen b; rfind_loop b cl (Z.to_nat l)
  end.

(** Comparison.  [strcoll] is a parameter: the locale decides. *)
Definition equal (s1 s2 : option (list Z)) : option bool :=
  a ← text s1; b ← text s2; Some (strcmp a b =? 0).

Definition equal_len (s1 s2 : option (list Z)) (size : Z) : option bool :=
  a ← text s1; b ← text s2; Some (eqn a b (Z.to_nat size)).

Definition compare (strcoll : list Z -> list Z -> Z) (s1 s2 : option (list Z)) : option Z :=
  a ← text s1; b ← text s2; Some (strcoll a b).

Definition eq_case (s1 s2 : option (list Z)) : option bool :=
  a ← text s1; b ← text s2; Some (strcmp (map tolower a) (map tolower b) =? 0).

Definition eq_case_len (s1 s2 : option (list Z)) (size : Z) : option bool :=
  a ← text s1; b ← text s2; Some (eqn (map tolower a) (map tolower b) (Z.to_nat size)).

(** The pairs of a quote list; an odd one ends in the terminator. *)
Fixpoint unquote_loop (str : list Z) (len : Z) (clist : list Z) : option (list Z * option Z) :=
  match clist with
  | [] => Some (str, Some 0)
  | o :: rest =>
      let c := match rest with [] => 0 | c :: _ => c end in
      c0 ← rd str 0; c1 ← rd str (len - 1);
      if (c0 =? o) && (c1 =? c) then b ← wr str (len - 1) 0; Some (b, Some 1)
      else match rest with [] => None | _ :: cl => unquote_loop str len cl end
  end.

Definition unquote (str : option (list Z)) (clist : list Z)
    : option (option (list Z) * option Z) :=
  len ← count str;
  match str with
  | None => Some (None, None)
  | Some b =>
      if len =? 0 then Some (str, None)
      else '(b, r) ← unquote_loop b len clist; Some (Some b, r)
  end.

Definition fill (str : list Z) (size fill : Z) : option (list Z) :=
  b ← blit str 0 (replicate (Z.to_nat (size - 1)) fill); wr b (size - 1) 0.

(** [dup] and [left]: the new block, whose bytes [malloc] left as [mem]. *)
Definition dup (cp : option (list Z)) (mem : Z -> list Z) : option (option (list Z)) :=
  match cp with
  | None => Some None
  | Some b => l ← strlen b; Some <$> set (mem (l + 1)) (l + 1) cp
  end.

Definition left (cp : option (list Z)) (size : Z) (mem : Z -> list Z) : option (option (list Z)) :=
  match cp with
  | None => Some None
  | Some b =>
      size ← (if size =? 0 then strlen b else Some size);
      Some <$> set (mem (u64 (size + 1))) (u64 (size + 1)) cp
  end.

Definition pos (cp : option (list Z)) (offset : Z) : option (option Z) :=
  match cp with
  | None => Some None
  | Some b =>
      len ← strlen b;
      Some (Some (
        if len =? 0 then 0
        else if 0 <=? offset then (if len <? offset then len else offset)
        else if len <=? - offset then 0 else len + offset))
  end.

(** [find (str, key, delim)] and [ifind]: [eq] compares the characters.  An empty
    key lets the second inner loop run over the terminator. *)
Fixpoint key_skip (go : Z -> bool) (key s : list Z) (o : Z) : option (list Z * Z) :=
  if zlen s <? zlen key then Some (s, o)
  else
    match s with
    | [] => if go 0 then None else Some (s, o)
    | c :: s' => if go c then key_skip go key s' (o + 1) else Some (s, o)
    end.

Fixpoint key_loop (fuel : nat) (eq : list Z -> list Z -> nat -> bool) (str key : list Z)
    (delim : option (list Z)) (off : Z) : option (option Z) :=
  match fuel with
  | O => None
  | S n =>
      if zlen str <? zlen key then Some None
      else if eq key str (length key) &&
        (match str !! length key, delim with
         | None, _ | _, None => true
         | Some c, Some d => in_set d c
         end)
      then Some (Some off)
      else
        match delim with
        | None => key_loop n eq (drop 1 str) key delim (off + 1)
        | Some d =>
            '(s, o) ← key_skip (fun c => negb (in_set d c)) key str off;
            '(s, o) ← key_skip (in_set d) key s o;
            key_loop n eq s key delim o
        end
  end.

Definition find_key (str key delim : list Z) : option (option Z) :=
  key_loop (length str + 2) eqn str key (match delim with [] => None | _ => Some delim end) 0.

Definition ifind_key (str key delim : list Z) : option (option Z) :=
  key_loop (length str + 2) (fun a b => eqn (map tolower a) (map tolower b)) str key
    (match delim with [] => None | _ => Some delim end) 0.

(** The static [cut] and [paste]. *)
Definition cut (text : list Z) (offset size : Z) : option (list Z) :=
  len ← strlen text;
  if (len =? 0) || (len <=? offset) then Some text
  else if len <=? u64 (offset + size) then wr text offset 0
  else
    b ← memmove text offset (offset + size) (len - offset - size);
    wr b (len - size) 0.

Definition paste (text : list Z) (max offset : Z) (cp : option (list Z)) (size : Z)
    : option (list Z) :=
  match cp with
  | None => Some text
  | Some sb =>
      size ← (if size =? 0 then strlen sb else Some size);
      if size =? 0 then Some text
      else
        len ← strlen text;
        if len <=? max then Some text
        else
          let size := if max <=? u64 (len + size) then u64 (max - len) else size in
          if len <=? offset then behind len (fun b => set b (u64 (size + 1)) cp) text
          else
            b ← memmove text (offset + size) offset (len - offset);
            s ← slice sb 0 size; blit b offset s
  end.

(** [token]: the block, the value left in [*token] and the result, both offsets
    into the block.  The test [eol[0] != eol[1] || *result == eol[1]] behind the
    search in [eol] always holds, because [*result] is [eol[0]] there.  The quote
    pairs are searched two at a time; an odd list has its terminator for the last
    closing quote, and is overrun when nothing in it matches. *)
Fixpoint quote_of (c : Z) (quote : list Z) : option (option Z) :=
  match quote with
  | o :: q :: rest => if c =? o then Some (Some q) else quote_of c rest
  | [o] => if c =? o then Some (Some 0) else None
  | [] => Some None
  end.

Definition token (b : list Z) (text : Z) (tok : option Z) (clist : list Z)
    (quote eol : list Z) : option (list Z * option Z * option Z) :=
  let t := default text tok in
  c ← rd b t;
  if c =? 0 then Some (b, Some text, None)
  else
    o ← span_in clist (drop (Z.to_nat t) b);
    let result := t + o in
    c ← rd b result;
    if (c =? 0) || in_set eol c then Some (b, Some text, None)
    else
      q ← quote_of c quote;
      match q with
      | Some q =>
          s ← cstr (drop (Z.to_nat (result + 1)) b);
          match strchr s q with
          | None => Some (b, Some (result + 1 + zlen s), Some (result + 1))
          | Some k => b ← wr b (result + 1 + k) 0;
                      Some (b, Some (result + 1 + k + 1), Some (result + 1))
          end
      | None =>
          o ← span_out clist (drop (Z.to_nat result) b);
          let e := result + o in
          c ← rd b e;
          if c =? 0 then Some (b, Some e, Some result)
          else b ← wr b e 0; Some (b, Some (e + 1), Some result)
      end.

(** The calls a program makes until [token] returns NULL, with the text of each
    result. *)
Fixpoint tokens (fuel : nat) (b : list Z) (tok : option Z) (clist quote eol : list Z)
    : option (list (list Z)) :=
  match fuel with
  | O => None
  | S n =>
      '(b, tok, r) ← token b 0 tok clist quote eol;
      match r with
      | None => Some []
      | Some p => s ← cstr (drop (Z.to_nat p) b); cons s <$> tokens n b tok clist quote eol
      end
  end.

End Str.

Example token_ex : Str.tokens 9 (bytes "a, 'b c',,d" ++ [0]) None (bytes ", ") (bytes "''") [] =
  Some [bytes "a"; bytes "b c"; bytes "d"].
Proof. vm_compute. reflexivity. Qed.

Example find_key_ex : Str.find_key (bytes "alpha beta") (bytes "beta") (bytes " ") = Some (Some 6).
Proof. vm_compute. reflexivity. Qed.

(** ** Buffers *)

Lemma store_spec b t l : 0 <= l <= zlen t -> l < zlen b ->
  Str.store b t l = Some (take (Z.to_nat l) t ++ 0 :: drop (Z.to_nat l + 1) b).
Proof.
  intros Hl Hb. unfold Str.store. destruct (Z.eqb_spec l 0) as [->|].
  - destruct b as [|x b]; [uc_len|]. done.
  - destruct (block_split b l ltac:(lia)) as (p & r & -> & Hp).
    assert (length (take (Z.to_nat l) t) = length p) by (rewrite length_take; unfold zlen in *; lia).
    rewrite (blit_mid [] p _ r 0 eq_refl ltac:(done) : blit (p ++ r) 0 _ = _). run. cbn [app].
    destruct r as [|x r]; [uc_len|]. rewrite wr_app_r by (unfold zlen in *; lia). do 2 f_equal.
    replace (p ++ x :: r) with ((p ++ [x]) ++ r) by (by rewrite <- app_assoc).
    rewrite drop_app_length' by (rewrite length_app; cbn; unfold zlen in *; lia). done.
Qed.

Lemma set_spec b size s t : 2 <= size <= zlen b -> Str.text s = Some t ->
  exists r, Str.set b size s = Some (take (Z.to_nat (size - 1)) t ++ 0 :: r) /\
    zlen (take (Z.to_nat (size - 1)) t ++ 0 :: r) = zlen b.
Proof.
  intros Hs Ht. unfold Str.set. destruct (Z.ltb_spec size 2); [lia|]. rewrite Ht. run.
  set (l := if size <=? zlen t then size - 1 else zlen t).
  assert (Hl : 0 <= l <= zlen t /\ l < size /\ take (Z.to_nat l) t = take (Z.to_nat (size - 1)) t).
  { pose proof (zlen_nonneg t). unfold l. destruct (Z.leb_spec size (zlen t)); split_and!; try lia; [done|].
    rewrite !take_ge; unfold zlen in *; lia || done. }
  destruct Hl as (Hl & Hls & <-). rewrite store_spec by lia. eexists. split; [done|].
  rewrite zlen_app, zlen_cons, zlen_take by lia. unfold zlen. rewrite length_drop. unfold zlen in *. lia.
Qed.

Lemma text_some s t : cstr s = Some t -> Str.text (Some s) = Some t.
Proof. done. Qed.

Lemma buffer_add_spec b s t o size : 2 <= size <= zlen b -> size < 2 ^ 64 -> cstr s = Some t -> cstr b = Some o ->
  zlen o < size -> exists r, Str.add b size (Some s) = Some (take (Z.to_nat (size - 1)) (o ++ t) ++ 0 :: r) /\
    zlen (take (Z.to_nat (size - 1)) (o ++ t) ++ 0 :: r) = zlen b.
Proof.
  intros Hs H64 Ht Hb Ho. destruct (cstr_inv b o Hb) as (Hn & r & ->). pose proof (zlen_nonneg o).
  unfold Str.add, strlen. rewrite Hb. cbn [fmap option_fmap option_map]. run.
  rewrite u64_id by lia. destruct (Z.leb_spec (size - 1) (zlen o)).
  - exists r. replace (Z.to_nat (size - 1)) with (length o + 0)%nat by (unfold zlen in *; lia).
    rewrite take_app_add, take_0, app_nil_r. done.
  - unfold Str.behind. rewrite zlen_to_nat, drop_app_length, take_app_length.
    autorewrite with zlen in Hs.
    rewrite u64_id by lia.
    destruct (set_spec (0 :: r) (size - zlen o) (Some s) t) as (r' & -> & Hz);
      [rewrite zlen_cons; lia|done|].
    run. exists r'. rewrite take_app_ge by (unfold zlen in *; lia).
    replace (Z.to_nat (size - zlen o - 1)) with (Z.to_nat (size - 1) - length o)%nat in *
      by (unfold zlen in *; lia).
    rewrite <- app_assoc. split; [done|]. rewrite zlen_app, Hz, zlen_app. done.
Qed.

(** The buffer functions cannot overflow: with the size of the buffer they
    are given, [set] stores the text cut to the size less one and [add] appends
    to the text present, cut the same way; both leave a terminated buffer of the
    same length. *)
Theorem buffer_set_add (b s t o : list Z) (size : Z) :
  2 <= size <= zlen b -> size < 2 ^ 64 -> cstr s = Some t -> cstr b = Some o -> zlen o < size ->
  (exists r, Str.set b size (Some s) = Some (take (Z.to_nat (size - 1)) t ++ 0 :: r) /\
    zlen (take (Z.to_nat (size - 1)) t ++ 0 :: r) = zlen b) /\
  (exists r, Str.add b size (Some s) = Some (take (Z.to_nat (size - 1)) (o ++ t) ++ 0 :: r) /\
    zlen (take (Z.to_nat (size - 1)) (o ++ t) ++ 0 :: r) = zlen b).
Proof.
  intros. split; [by apply set_spec|by apply buffer_add_spec].
Qed.

Lemma buffer_set_add_witness :
  (exists r, Str.set (bytes "ab" ++ replicate 4 0) 6 (Some (bytes "cdefg" ++ [0])) =
      Some (take 5 (bytes "cdefg") ++ 0 :: r) /\
    zlen (take 5 (bytes "cdefg") ++ 0 :: r) = zlen (bytes "ab" ++ replicate 4 0)) /\
  (exists r, Str.add (bytes "ab" ++ replicate 4 0) 6 (Some (bytes "cdefg" ++ [0])) =
      Some (take 5 (bytes "ab" ++ bytes "cdefg") ++ 0 :: r) /\
    zlen (take 5 (bytes "ab" ++ bytes "cdefg") ++ 0 :: r) = zlen (bytes "ab" ++ replicate 4 0)).
Proof.
  apply (buffer_set_add (bytes "ab" ++ replicate 4 0) (bytes "cdefg" ++ [0]) (bytes "cdefg")
    (bytes "ab") 6); reflexivity || (split; [lia|discriminate]).
Defined.

(** ** Runs of listed characters *)

Definition listed (cl : list Z) (c : Z) : Prop := in_set cl c = true.

(** The text does not start with a listed character. *)
Definition head_out (cl k : list Z) : Prop :=
  match k with [] => True | c :: _ => in_set cl c = false end.

Lemma span_in_spec cl s r : nonul s -> exists l k, s = l ++ k /\ Forall (listed cl) l /\
  head_out cl k /\ Str.span_in cl (s ++ 0 :: r) = Some (zlen l).
Proof.
  induction 1 as [|c s Hc Hs IH].
  - exists [], []. split_and!; done.
  - cbn [app Str.span_in]. destruct (Z.eqb_spec c 0); [done|]. cbn [negb andb].
    destruct (in_set cl c) eqn:E.
    + destruct IH as (l & k & -> & Hl & Hk & ->). exists (c :: l), k.
      split_and!; [done|by constructor|done|]. cbn. f_equal. rewrite zlen_cons. lia.
    + exists [], (c :: s). split_and!; done.
Qed.

Lemma span_out_spec cl s r : nonul s -> exists l k, s = l ++ k /\
  Forall (fun c => in_set cl c = false) l /\
  (match k with [] => True | c :: _ => in_set cl c = true end) /\
  Str.span_out cl (s ++ 0 :: r) = Some (zlen l).
Proof.
  induction 1 as [|c s Hc Hs IH].
  - exists [], []. split_and!; done.
  - cbn [app Str.span_out]. destruct (Z.eqb_spec c 0); [done|]. cbn [negb andb].
    destruct (in_set cl c) eqn:E.
    + exists [], (c :: s). split_and!; done.
    + destruct IH as (l & k & -> & Hl & Hk & ->). exists (c :: l), k.
      split_and!; [done|by constructor|done|]. cbn. f_equal. rewrite zlen_cons. lia.
Qed.

Lemma chop_loop_spec cl s : forall r, nonul s -> exists k t, s = k ++ t /\ Forall (listed cl) t /\
  head_out cl (rev k) /\
  Str.chop_loop cl (s ++ r) (length s) = Some (k ++ replicate (length t) 0 ++ r).
Proof.
  induction s as [|c s IH] using rev_ind; intros r Hs.
  - exists [], []. split_and!; done.
  - apply nonul_app in Hs as [Hs Hc]. rewrite length_app, Nat.add_comm. cbn [length Nat.add Str.chop_loop].
    rewrite <- app_assoc. cbn [app]. rewrite rd_app_r by done. cbn [lookup list_lookup]. run.
    destruct (in_set cl c) eqn:E.
    + rewrite wr_app_r by done. run. destruct (IH (0 :: r) Hs) as (k & t & -> & Ht & Hk & ->).
      exists k, (t ++ [c]). rewrite <- app_assoc. split_and!; [done| |done|].
      * apply Forall_app. split; [done|by constructor].
      * rewrite length_app, Nat.add_comm. cbn [length Nat.add].
        by rewrite replicate_S_end, <- app_assoc.
    + exists (s ++ [c]), []. rewrite app_nil_r, rev_app_distr. cbn. rewrite <- app_assoc.
      split_and!; done.
Qed.

(** [strip] removes the listed characters from both ends of a text and
    nothing else: behind the offset it returns, the buffer holds the text between
    them, terminated, and [trim] and [chop] are its two halves. *)
Theorem strip_core (cl s r : list Z) : nonul s ->
  exists lead core trail b, s = lead ++ core ++ trail /\
    Forall (listed cl) lead /\ Forall (listed cl) trail /\
    head_out cl core /\ head_out cl (rev core) /\
    Str.trim (Some (s ++ 0 :: r)) (Some cl) = Some (Some (zlen lead)) /\
    Str.strip (s ++ 0 :: r) (Some cl) = Some (b, zlen lead) /\
    cstr (drop (length lead) b) = Some core.
Proof.
  intros Hs. destruct (span_in_spec cl s r Hs) as (l & k & -> & Hl & Hk & Hsp).
  apply nonul_app in Hs as [Hnl Hnk].
  destruct (chop_loop_spec cl k (0 :: r) Hnk) as (c & t & -> & Ht & Hc & Hch).
  apply nonul_app in Hnk as [Hnc Hnt].
  exists l, c, t. eexists. split_and!; [done|done|done| |done| | |].
  - destruct c; [|done]. done.
  - unfold Str.trim. by rewrite Hsp.
  - unfold Str.strip, Str.trim. rewrite Hsp. cbn [fmap option_fmap option_map default]. run.
    cbn [from_option id]. unfold Str.behind. rewrite zlen_to_nat, <- app_assoc, drop_app_length, take_app_length.
    unfold Str.chop. rewrite strlen_app by (by apply nonul_app). run.
    rewrite zlen_to_nat, Hch. by run.
  - rewrite drop_app_length. destruct t as [|x t]; cbn; by apply cstr_app.
Qed.

Lemma strip_core_witness : exists lead core trail b,
  bytes "  a b " = lead ++ core ++ trail /\
  Forall (listed (bytes " ")) lead /\ Forall (listed (bytes " ")) trail /\
  head_out (bytes " ") core /\ head_out (bytes " ") (rev core) /\
  Str.trim (Some (bytes "  a b " ++ [0])) (Some (bytes " ")) = Some (Some (zlen lead)) /\
  Str.strip (bytes "  a b " ++ [0]) (Some (bytes " ")) = Some (b, zlen lead) /\
  cstr (drop (length lead) b) = Some core.
Proof. apply (strip_core (bytes " ") (bytes "  a b ") []). repeat constructor; discriminate. Defined.

(** ** Tokens *)

(** The fields of a text: its maximal runs of characters that are not listed. *)
Fixpoint split_on (cl s : list Z) : list (list Z) :=
  match s with
  | [] => [[]]
  | c :: s' =>
      if in_set cl c then [] :: split_on cl s'
      else match split_on cl s' with [] => [[c]] | w :: ws => (c :: w) :: ws end
  end.

Definition nonempty (w : list Z) : bool := match w with [] => false | _ => true end.
Definition fields (cl s : list Z) : list (list Z) := List.filter nonempty (split_on cl s).

Lemma fields_lead cl l s : Forall (listed cl) l -> fields cl (l ++ s) = fields cl s.
Proof.
  unfold fields. induction 1 as [|c l Hc Hl IH]; [done|]. cbn. unfold listed in Hc. by rewrite Hc.
Qed.

Lemma split_on_word cl w s : Forall (fun c => in_set cl c = false) w ->
  split_on cl (w ++ s) = match split_on cl s with [] => [w] | x :: xs => (w ++ x) :: xs end.
Proof.
  induction 1 as [|c w Hc Hw IH]; cbn; [by destruct s as [|c s]; cbn; repeat case_match|].
  rewrite Hc, IH. by destruct (split_on cl s).
Qed.

Lemma fields_word cl c w d s : Forall (fun c => in_set cl c = false) (c :: w) -> in_set cl d = true ->
  fields cl ((c :: w) ++ d :: s) = (c :: w) :: fields cl s.
Proof.
  intros Hw Hd. unfold fields. rewrite split_on_word by done. cbn [split_on]. rewrite Hd.
  by rewrite app_nil_r.
Qed.

Lemma fields_last cl c w : Forall (fun c => in_set cl c = false) (c :: w) ->
  fields cl (c :: w) = [c :: w].
Proof.
  intros Hw. unfold fields. rewrite <- (app_nil_r (c :: w)), split_on_word by done.
  cbn [split_on]. by rewrite app_nil_r.
Qed.

(** One call behind a prefix that earlier calls have used up. *)
Lemma token_step cl p s r tok : nonul s -> nonul cl -> default 0 tok = zlen p ->
  (fields cl s = [] /\ exists tok', Str.token (p ++ s ++ 0 :: r) 0 tok cl [] [] =
    Some (p ++ s ++ 0 :: r, tok', None)) \/
  (exists c w l s', fields cl s = (c :: w) :: fields cl s' /\ (length s' < length s)%nat /\
    nonul s' /\ nonul (c :: w) /\
    exists p' d, Str.token (p ++ s ++ 0 :: r) 0 tok cl [] [] =
      Some (p' ++ s' ++ 0 :: r, Some (zlen p'), Some (zlen l)) /\
      p' ++ s' ++ 0 :: r = l ++ (c :: w) ++ 0 :: d).
Proof.
  intros Hs Hcl Htok. unfold Str.token. rewrite Htok.
  rewrite zlen_to_nat, drop_app_length, rd_app_r by done.
  destruct (span_in_spec cl s r Hs) as (l & k & -> & Hl & Hk & ->).
  apply nonul_app in Hs as [Hnl Hnk]. rewrite fields_lead by done.
  destruct ((l ++ k) ++ 0 :: r) as [|c0 x] eqn:Ex; [by destruct l, k|].
  cbn [lookup list_lookup]. run. destruct (Z.eqb_spec c0 0) as [->|Hc0].
  { left. destruct l as [|y l]; [|injection Ex as -> _; inversion Hnl; done].
    destruct k as [|y k]; [|injection Ex as -> _; inversion Hnk; done].
    split; [done|by eexists]. }
  rewrite <- Ex. clear c0 x Ex Hc0. run. rewrite <- !app_assoc, (app_assoc p l).
  rewrite rd_app_r by (by rewrite zlen_app).
  destruct k as [|c k].
  { left. split; [done|]. cbn. by eexists. }
  right. cbn [app lookup list_lookup head_out] in *. run. inversion Hnk as [|? ? Hc Hnk']; subst.
  destruct (Z.eqb_spec c 0); [done|]. cbn [orb].
  assert (in_set [] c = false) as ->.
  { unfold in_set. cbn. by destruct (Z.eqb_spec c 0). }
  cbn [Str.quote_of]. run. rewrite <- (zlen_app p l), zlen_to_nat, drop_app_length.
  destruct (span_out_spec cl (c :: k) r Hnk) as (w & s' & E & Hw & Hs' & Hsp).
  cbn [app] in Hsp. rewrite Hsp. run.
  destruct w as [|c' w].
  { cbn in E. subst s'. cbn in Hs'. congruence. }
  injection E as <- ->. apply nonul_app in Hnk' as [Hnw Hns'].
  set (q := p ++ l) in *. clearbody q.
  assert (Eb : q ++ c :: (w ++ s') ++ 0 :: r = (q ++ c :: w) ++ s' ++ 0 :: r)
    by (rewrite <- !app_assoc; done).
  rewrite Eb, <- zlen_app, rd_app_r by done. destruct s' as [|d s'].
  - exists c, w, q, []. rewrite app_nil_r, fields_last by done. split; [done|].
    split; [rewrite length_app; cbn; lia|]. split; [constructor|].
    split; [by constructor|]. exists (q ++ c :: w), r.
    cbn. split; [done|]. by rewrite <- app_assoc.
  - exists c, w, q, s'. inversion Hns' as [|? ? Hd Hns'']; subst.
    rewrite (fields_word cl c w d s' Hw Hs' : fields cl (c :: w ++ d :: s') = _). split; [done|].
    split; [rewrite length_app; cbn; rewrite length_app; cbn; lia|]. split; [done|].
    split; [by constructor|]. exists (q ++ c :: w ++ [0]), (s' ++ 0 :: r).
    cbn [app lookup list_lookup]. run. destruct (Z.eqb_spec d 0); [done|].
    rewrite wr_app_r by done. run. rewrite <- !app_assoc. cbn [app]. rewrite <- !app_assoc.
    cbn [app]. split; [|done]. do 2 f_equal. f_equal. f_equal. uc_len.
Qed.

Lemma fields_nil cl : fields cl [] = [].
Proof. done. Qed.

(** The loop behind [token_fields]. *)
Lemma tokens_fields (cl s r : list Z) (fuel : nat) :
  nonul s -> nonul cl -> (length s < fuel)%nat ->
  Str.tokens fuel (s ++ 0 :: r) None cl [] [] = Some (fields cl s).
Proof.
  intros Hs Hcl Hf. enough (H : forall n p s tok fuel, (length s <= n)%nat -> nonul s ->
    default 0 tok = zlen p -> (length s < fuel)%nat ->
    Str.tokens fuel (p ++ s ++ 0 :: r) tok cl [] [] = Some (fields cl s)).
  { by apply (H (length s) [] s None). }
  clear s Hs fuel Hf. induction n as [|n IH]; intros p s tok fuel Hn Hs Htok Hf;
    (destruct fuel as [|fuel]; [lia|]); cbn [Str.tokens];
    (destruct (token_step cl p s r tok Hs Hcl Htok)
      as [(-> & tok' & ->)|(c & w & l & s' & -> & Hlen & Hs' & Hw & p' & d & -> & E)];
      [done|]); [lia|]; run.
  rewrite E, zlen_to_nat, drop_app_length, (cstr_app (c :: w)) by done. run.
  rewrite <- E, (IH p' s') by (lia || done). done.
Qed.

(** C7.  [token] is a tokenizer: called until it returns NULL, it yields the
    fields of the text, in order, each as a terminated string, and it stops
    after at most as many calls as the text has characters, plus one. *)
Theorem token_fields (cl s r : list Z) (fuel : nat) :
  nonul s -> nonul cl -> (length s < fuel)%nat ->
  Str.tokens fuel (s ++ 0 :: r) None cl [] [] = Some (fields cl s).
Proof. apply tokens_fields. Qed.

Lemma token_fields_witness :
  Str.tokens 8 (bytes " ab,c, " ++ 0 :: []) None (bytes ", ") [] [] =
  Some (fields (bytes ", ") (bytes " ab,c, ")).
Proof. apply token_fields; [repeat constructor; discriminate..|cbn; lia]. Defined.

(** A text of one quote character is its own closing quote: the pointer returned is
    that of its old terminator, an empty text. *)
Lemma unquote_single q r : q <> 0 ->
  Str.unquote (Some (q :: 0 :: r)) [q; q] = Some (Some (0 :: 0 :: r), Some 1).
Proof.
  intros Hq. unfold Str.unquote, Str.count, strlen. cbn [cstr].
  destruct (Z.eqb_spec q 0); [done|]. change (0 =? 0) with true. cbv iota.
  cbn [fmap option_fmap option_map]. change (zlen [q]) with 1. run. change (1 =? 0) with false.
  cbn [Str.unquote_loop]. change (1 - 1) with 0. rewrite rd_cons_0. do 2 run. rewrite Z.eqb_refl.
  cbn [andb]. by rewrite (wr_app_r [] _ 0 q 0 eq_refl : wr (q :: 0 :: r) 0 0 = _).
Qed.

(** The static [find] does not end unless the first character decides. *)
Lemma find_stuck c s cl fuel : c <> 0 -> in_set cl c = false ->
  Str.find fuel (Some (c :: s)) (Some cl) = None.
Proof.
  intros Hc Hin. cbn. induction fuel as [|n IH]; [done|]. cbn [Str.find_loop].
  rewrite rd_cons_0. run. destruct (Z.eqb_spec c 0); [done|]. by rewrite Hin.
Qed.

(** [rskip] returns the start of the text wherever the character is. *)
Lemma rskip_start s r cl : nonul s -> (exists c, c ∈ s /\ in_set cl c = false) ->
  Str.rskip (Some (s ++ 0 :: r)) (Some cl) = Some (Some 0).
Proof.
  intros Hs Hc. unfold Str.rskip, Str.count. rewrite strlen_app by done. run.
  destruct (Z.eqb_spec (zlen s) 0) as [E|_].
  { destruct s; [|uc_len]. destruct Hc as (c & Hc%elem_of_nil & _). done. }
  rewrite zlen_to_nat. clear Hs. generalize (0 :: r). revert Hc.
  induction s as [|x s IH] using rev_ind; intros (c & Hc & Hin) t.
  - by apply elem_of_nil in Hc.
  - rewrite length_app, Nat.add_comm. cbn [length Nat.add Str.rskip_loop].
    rewrite <- app_assoc. cbn [app]. rewrite rd_app_r by done. cbn [lookup list_lookup]. run.
    destruct (in_set cl x) eqn:E; [|done]. apply IH. exists c. split; [|done].
    apply elem_of_app in Hc as [Hc|Hc%list_elem_of_singleton]; congruence.
Qed.

(** [add] with a limit appends the whole text. *)
Lemma add_len_ignores str size s len len' :
  Str.add_len str size s len = Str.add_len str size s len'.
Proof. done. Qed.
