(* ===== verification/StringObj.v ===== *)
(** * The copy-on-write String (corelib/string.cpp, corelib/object.cpp)

    A [cstring] is a reference counted cell of the heap: its [count] (of
    [CountedObject]), [max], [len] and the [max + 1] bytes of its text.  A
    [String] is its [str] pointer.  An operation takes the heap and the [str] of
    its object and returns the new ones; [None] is undefined behaviour, such as
    an access outside a block.  Allocation succeeds and leaves arbitrary bytes.
    Sizes passed to it are far below 2^63. *)

From stdpp Require Import gmap strings.
From S2P Require Import Prelude CLib Strings.

(** What [malloc] leaves in a new block. *)
Class Malloc := {
  junk : Z -> list Z;
  junk_length : forall n, 0 <= n -> zlen (junk n) = n }.

(** An allocator whose memory is zero. *)
Definition zero_malloc : Malloc.
Proof.
  refine {| junk n := replicate (Z.to_nat n) 0 |}.
  intros n Hn. unfold zlen. rewrite length_replicate. lia.
Defined.

Definition loc := positive.

Module cstring.

Record t := Mk { count : Z; max : Z; len : Z; text : list Z }.

(** A text the operations read: at an offset of the cell's own text, or the
    block of another one. *)
Inductive source := Own (off : Z) | Ext (b : list Z).

Definition with_text (c : t) (len : Z) (text : list Z) : t := Mk (count c) (max c) len text.

(** [cstring (size_t)] *)
Definition make `{Malloc} (size : Z) : t := Mk 0 size 0 (0 :: junk size).

Definition fix_ (c : t) : option t := b ← wr (text c) (len c) 0; Some (with_text c (len c) b).

Definition clear (c : t) (offset : Z) : option t :=
  if len c <=? offset then Some c
  else b ← wr (text c) offset 0; Some (with_text c offset b).

Definition dec (c : t) (offset : Z) : option t :=
  if len c =? 0 then Some c
  else if len c <=? offset then b ← wr (text c) 0 0; fix_ (with_text c 0 b)
  else b ← wr (text c) (len c - 1) 0; Some (with_text c (len c - 1) b).

Definition inc (c : t) (offset : Z) : option t :=
  let offset := if offset =? 0 then 1 else offset in
  if len c <=? offset then b ← wr (text c) 0 0; fix_ (with_text c 0 b)
  else
    b ← memmove (text c) 0 offset (len c - offset);
    fix_ (with_text c (len c - offset) b).

Definition add (c : t) (str : list Z) : option t :=
  s ← cstr str;
  let size := zlen s in
  if size =? 0 then Some c
  else
    let size := if max c <? len c + size then max c - len c else size in
    if size <? 1 then Some c
    else
      b ← blit (text c) (len c) (take (Z.to_nat size) s);
      fix_ (with_text c (len c + size) b).

Definition add_char (c : t) (ch : Z) : option t :=
  if ch =? 0 then Some c
  else if len c =? max c then Some c
  else b ← wr (text c) (len c) ch; fix_ (with_text c (len c + 1) b).

(** The characters [while ( *str && size)] copies. *)
Fixpoint upto (b : list Z) (size : nat) : option (list Z) :=
  match b with
  | [] => None
  | ch :: b' =>
      if ch =? 0 then Some []
      else match size with O => Some [] | S n => cons ch <$> upto b' n end
  end.

(** [cstring::set (offset, str, size)]; the sum wraps. *)
Definition set_at (c : t) (offset : Z) (str : list Z) (size : Z) : option t :=
  if (max c <=? offset) || (len c <? offset) then Some c
  else
    let size := if max c <? u64 (offset + size) then max c - offset else size in
    s ← upto str (Z.to_nat size);
    b ← blit (text c) offset s;
    let offset := offset + zlen s in
    if len c <? offset then b ← wr b offset 0; Some (with_text c offset b)
    else Some (with_text c (len c) b).

(** [cstring::set (str)] *)
Definition set (c : t) (str : source) : option t :=
  s ← cstr (match str with Own off => drop (Z.to_nat off) (text c) | Ext b => b end);
  let size := if max c <? zlen s then max c else zlen s in
  b ← (match str with
       | Ext _ => blit (text c) 0 (take (Z.to_nat size) s)
       | Own off => if off =? 0 then Some (text c) else memmove (text c) 0 off size
       end);
  fix_ (with_text c size b).

End cstring.

Abbreviation heap := (gmap loc cstring.t).

(** One cell rewritten in place. *)
Definition upd (h : heap) (l : loc) (f : cstring.t -> option cstring.t) : option heap :=
  c ← h !! l; c ← f c; Some (<[l := c]> h).

Module StringObj.

(** ** Reference counts *)

Definition retain_cell (h : heap) (l : loc) : option heap :=
  upd h l (fun c => Some (cstring.Mk (cstring.count c + 1) (cstring.max c) (cstring.len c) (cstring.text c))).

(** [CountedObject::release] with [cstring::dealloc]. *)
Definition release_cell (h : heap) (l : loc) : option heap :=
  c ← h !! l;
  if 1 <? cstring.count c
  then Some (<[l := cstring.Mk (cstring.count c - 1) (cstring.max c) (cstring.len c) (cstring.text c)]> h)
  else Some (delete l h).

Definition retain (h : heap) (str : option loc) : option heap :=
  match str with None => Some h | Some l => retain_cell h l end.

Definition release (h : heap) (str : option loc) : option (heap * option loc) :=
  match str with None => Some (h, None) | Some l => h ← release_cell h l; Some (h, None) end.

(** [create]: a new cell, which nobody has retained. *)
Definition bare `{Malloc} (h : heap) (size : Z) : heap * loc :=
  let l := fresh (dom h) in (<[l := cstring.make size]> h, l).

(** [create] followed by [retain], as every caller but [paste] and [memstring] does. *)
Definition create `{Malloc} (h : heap) (size : Z) : option (heap * loc) :=
  let '(h, l) := bare h size in h ← retain_cell h l; Some (h, l).

(** An update of the cell of an object that has one. *)
Definition on (f : cstring.t -> option cstring.t) (h : heap) (str : option loc)
    : option (heap * option loc) :=
  match str with None => Some (h, None) | Some l => h ← upd h l f; Some (h, Some l) end.

(** ** Construction *)

Definition of_source `{Malloc} (h : heap) (size : Z) (s : cstring.source) : option (heap * option loc) :=
  '(h, l) ← create h size; on (fun c => cstring.set c s) h (Some l).

(** [String (const char * )] and [String (const char *, size_t)]; NULL is empty. *)
Definition of_text `{Malloc} (h : heap) (s : option (list Z)) : option (heap * option loc) :=
  size ← Str.count s; of_source h size (cstring.Ext (default [0] s)).

Definition of_text_size `{Malloc} (h : heap) (s : option (list Z)) (size : Z)
    : option (heap * option loc) :=
  let s := default [0] s in
  size ← (if size =? 0 then strlen s else Some size);
  of_source h size (cstring.Ext s).

(** [String (const char *s, const char *end)]: [end_] is the offset of [end]. *)
Definition of_range `{Malloc} (h : heap) (s : option (list Z)) (end_ : option Z)
    : option (heap * option loc) :=
  match s with
  | None => of_source h 0 (cstring.Ext [0])
  | Some b =>
      size ← (match end_ with None => strlen b | Some e => Some (if 0 <? e then e else 0) end);
      of_source h size (cstring.Ext b)
  end.

Definition of_size `{Malloc} (h : heap) (size : Z) : option (heap * option loc) :=
  '(h, l) ← create h size; Some (h, Some l).

Definition copy (h : heap) (dup : option loc) : option (heap * option loc) :=
  h ← retain h dup; Some (h, dup).

(** ** Observers *)

Definition size (h : heap) (str : option loc) : option Z :=
  match str with None => Some 0 | Some l => cstring.max <$> h !! l end.

Definition len (h : heap) (str : option loc) : option Z :=
  match str with None => Some 0 | Some l => cstring.len <$> h !! l end.

(** [c_str]: the text block, the literal [""] without one. *)
Definition c_str (h : heap) (str : option loc) : option (list Z) :=
  match str with None => Some [0] | Some l => cstring.text <$> h !! l end.

Definition compare (strcoll : list Z -> list Z -> Z) (h : heap) (str : option loc)
    (s : option (list Z)) : option Z :=
  b ← c_str h str; Str.compare strcoll (Some b) s.

Definition equal (h : heap) (str : option loc) (s : option (list Z)) : option bool :=
  b ← c_str h str; Str.equal (Some b) s.

Definition full (h : heap) (str : option loc) : option bool :=
  match str with
  | None => Some false
  | Some l => c ← h !! l; Some (cstring.len c =? cstring.max c)
  end.

(** [operator()(int)] as an offset into the text; [at] and [operator[]] read
    there. *)
Definition position (h : heap) (str : option loc) (offset : Z) : option (option Z) :=
  match str with
  | None => Some None
  | Some l =>
      c ← h !! l;
      let n := cstring.len c in
      Some (if s32 n <=? offset then None
            else if -1 <? offset then Some offset
            else if n <=? - offset then Some 0
            else Some (n + offset))
  end.

Definition at_ (h : heap) (str : option loc) (offset : Z) : option Z :=
  p ← position h str offset;
  match p with None => Some 0 | Some p => b ← c_str h str; rd b p end.

(** [operator()(int, size_t)]: a new string. *)
Definition sub `{Malloc} (h : heap) (str : option loc) (offset len : Z)
    : option (heap * option loc) :=
  p ← position h str offset;
  b ← c_str h str;
  let cp := match p with None => [0] | Some p => drop (Z.to_nat p) b end in
  len ← (if len =? 0 then strlen cp else Some len);
  of_text_size h (Some cp) len.

(** [get (offset, len)] *)
Definition get `{Malloc} (h : heap) (str : option loc) (offset len : Z)
    : option (heap * option loc) :=
  n ← StringObj.len h str; b ← c_str h str;
  if n <=? offset then of_text h (Some [0])
  else of_text_size h (Some (drop (Z.to_nat offset) b)) (if len =? 0 then n - offset else len).

(** The searches: [text + offset] while [offset < len]. *)
Fixpoint find_loop (p : Z -> bool) (text : list Z) (offset : Z) (n : nat) : option (option Z) :=
  match n with
  | O => Some None
  | S n => c ← rd text offset; if p c then Some (Some offset) else find_loop p text (offset + 1) n
  end.

Fixpoint rfind_loop (p : Z -> bool) (text : list Z) (offset : nat) : option (option Z) :=
  match offset with
  | O => Some None
  | S n => c ← rd text (Z.of_nat n); if p c then Some (Some (Z.of_nat n)) else rfind_loop p text n
  end.

Definition forward (p : Z -> bool) (h : heap) (str : option loc) (clist : option (list Z)) (offset : Z)
    : option (option Z) :=
  match str, clist with
  | Some l, Some (_ :: _) =>
      c ← h !! l;
      if (cstring.len c =? 0) || (cstring.len c <? offset) then Some None
      else find_loop p (cstring.text c) offset (Z.to_nat (cstring.len c - offset))
  | _, _ => Some None
  end.

Definition find (h : heap) (str : option loc) (clist : option (list Z)) (offset : Z) :=
  forward (in_set (default [] clist)) h str clist offset.

Definition skip (h : heap) (str : option loc) (clist : option (list Z)) (offset : Z) :=
  forward (fun c => negb (in_set (default [] clist) c)) h str clist offset.

(** [rfind] gives the start of an empty text where [rskip] gives NULL. *)
Definition backward (p : Z -> bool) (empty : option Z) (h : heap) (str : option loc)
    (clist : option (list Z)) (offset : Z) : option (option Z) :=
  match str, clist with
  | Some l, Some (_ :: _) =>
      c ← h !! l;
      if cstring.len c =? 0 then Some empty
      else rfind_loop p (cstring.text c)
        (Z.to_nat (if cstring.len c <? offset then cstring.len c else offset))
  | _, _ => Some None
  end.

Definition rfind (h : heap) (str : option loc) (clist : option (list Z)) (offset : Z) :=
  backward (in_set (default [] clist)) (Some 0) h str clist offset.

Definition rskip (h : heap) (str : option loc) (clist : option (list Z)) (offset : Z) :=
  backward (fun c => negb (in_set (default [] clist) c)) None h str clist offset.

Definition chr (h : heap) (str : option loc) (ch : Z) : option (option Z) :=
  match str with None => Some None | Some l => c ← h !! l; s ← cstr (cstring.text c); Some (strchr s ch) end.

Definition rchr (h : heap) (str : option loc) (ch : Z) : option (option Z) :=
  match str with None => Some None | Some l => c ← h !! l; s ← cstr (cstring.text c); Some (strrchr s ch) end.

Definition ccount (h : heap) (str : option loc) (clist : list Z) : option Z :=
  match str with None => Some 0 | Some l => c ← h !! l; Str.ccount (Some (cstring.text c)) clist end.

(** ** Changes in place: the cell is rewritten, whoever shares it *)

(** [str->len = n; str->fix ()] *)
Definition set_len (n : Z) (c : cstring.t) : option cstring.t :=
  cstring.fix_ (cstring.with_text c n (cstring.text c)).

Definition set `{Malloc} (h : heap) (str : option loc) (s : cstring.source)
    : option (heap * option loc) :=
  match str with
  | Some _ => on (fun c => cstring.set c s) h str
  | None =>
      match s with
      | cstring.Own _ => None
      | cstring.Ext b => len ← strlen b; of_source h len s
      end
  end.

(** [set (offset, s, size)] *)
Definition set_at (h : heap) (str : option loc) (offset : Z) (s : option (list Z)) (size : Z)
    : option (heap * option loc) :=
  match s with
  | None => Some (h, str)
  | Some b =>
      c ← rd b 0;
      if c =? 0 then Some (h, str)
      else size ← (if size =? 0 then strlen b else Some size);
           on (fun c => cstring.set_at c offset b size) h str
  end.

(** [set] and [rset] with an overflow character that marks a cut text. *)
Definition field_size (c : cstring.t) (offset size : Z) : Z :=
  if (size =? 0) || (cstring.max c - offset <? size) then cstring.max c - offset else size.

Definition mark (c : cstring.t) (at_ : Z) (overflow : Z) : option cstring.t :=
  b ← wr (cstring.text c) at_ overflow; Some (cstring.with_text c (cstring.len c) b).

Definition set_overflow (h : heap) (str : option loc) (s : list Z) (overflow offset size : Z)
    : option (heap * option loc) :=
  len ← strlen s;
  match str with
  | None => Some (h, str)
  | Some l =>
      c ← h !! l;
      if (len =? 0) || (cstring.max c <=? offset) then Some (h, str)
      else
        let size := field_size c offset size in
        '(h, str) ← set_at h str offset (Some s) size;
        if (size <? len) && negb (overflow =? 0)
        then on (fun c => mark c (offset + size - 1) overflow) h str
        else Some (h, str)
  end.

Definition rset (h : heap) (str : option loc) (s : list Z) (overflow offset size : Z)
    : option (heap * option loc) :=
  len ← strlen s;
  match str with
  | None => Some (h, str)
  | Some l =>
      c ← h !! l;
      if (len =? 0) || (cstring.max c <=? offset) then Some (h, str)
      else
        let size := field_size c offset size in
        let s := if size <? len then drop (Z.to_nat (len - size)) s else s in
        '(h, str) ← set_at h str offset (Some s) size;
        if (size <? len) && negb (overflow =? 0)
        then on (fun c => mark c offset overflow) h str
        else Some (h, str)
  end.

Definition clear_at (h : heap) (str : option loc) (offset : Z) := on (fun c => cstring.clear c offset) h str.
Definition clear (h : heap) (str : option loc) := on (fun c => cstring.set c (cstring.Ext [0])) h str.

Definition cut_cell (offset size : Z) (c : cstring.t) : option cstring.t :=
  if cstring.len c <=? offset then Some c
  else
    let size := if size =? 0 then cstring.len c else size in
    if cstring.len c <=? u64 (offset + size) then set_len offset c
    else
      b ← memmove (cstring.text c) offset (offset + size) (cstring.len c - offset - size);
      cstring.fix_ (cstring.with_text c (cstring.len c - size) b).

Definition cut (h : heap) (str : option loc) (offset size : Z) := on (cut_cell offset size) h str.

(** The offset at which [chop] stops, from the end. *)
Fixpoint chop_loop (clist text : list Z) (offset : nat) : option nat :=
  match offset with
  | O => Some O
  | S n => c ← rd text (Z.of_nat n); if in_set clist c then chop_loop clist text n else Some (S n)
  end.

Definition chop_cell (clist : list Z) (c : cstring.t) : option cstring.t :=
  if cstring.len c =? 0 then Some c
  else
    o ← chop_loop clist (cstring.text c) (Z.to_nat (cstring.len c));
    let offset := Z.of_nat o in
    if offset =? 0 then cstring.set c (cstring.Ext [0])
    else if offset =? cstring.len c then Some c
    else set_len offset c.

(** The offset at which [trim] stops. *)
Fixpoint trim_loop (clist text : list Z) (offset : Z) (n : nat) : option Z :=
  match n with
  | O => Some offset
  | S n => c ← rd text offset; if in_set clist c then trim_loop clist text (offset + 1) n else Some offset
  end.

Definition trim_cell (clist : list Z) (c : cstring.t) : option cstring.t :=
  offset ← trim_loop clist (cstring.text c) 0 (Z.to_nat (cstring.len c));
  if offset =? 0 then Some c
  else if offset =? cstring.len c then cstring.set c (cstring.Ext [0])
  else
    b ← memmove (cstring.text c) 0 offset (cstring.len c - offset);
    cstring.fix_ (cstring.with_text c (cstring.len c - offset) b).

Definition trim (h : heap) (str : option loc) (clist : list Z) := on (trim_cell clist) h str.
Definition chop (h : heap) (str : option loc) (clist : list Z) := on (chop_cell clist) h str.

Definition strip (h : heap) (str : option loc) (clist : list Z) : option (heap * option loc) :=
  '(h, str) ← trim h str clist; chop h str clist.

(** [unquote]: the static one changes the text, a result is moved to the front. *)
Definition unquote_cell (clist : list Z) (c : cstring.t) : option (cstring.t * bool) :=
  '(b, r) ← Str.unquote (Some (cstring.text c)) clist;
  let c := cstring.with_text c (cstring.len c) (default [] b) in
  match r with
  | None => c ← cstring.fix_ c; Some (c, false)
  | Some o => c ← cstring.set c (cstring.Own o); Some (c, true)
  end.

Definition unquote (h : heap) (str : option loc) (clist : list Z)
    : option (heap * option loc * bool) :=
  match str with
  | None => Some (h, None, false)
  | Some l =>
      c ← h !! l; '(c, r) ← unquote_cell clist c; Some (<[l := c]> h, Some l, r)
  end.

(** A change of the text alone. *)
Definition retext (f : list Z -> option (list Z)) (c : cstring.t) : option cstring.t :=
  b ← f (cstring.text c); Some (cstring.with_text c (cstring.len c) b).

Definition upper (h : heap) (str : option loc) := on (retext Str.upper) h str.
Definition lower (h : heap) (str : option loc) := on (retext Str.lower) h str.

Definition erase (h : heap) (str : option loc) :=
  on (fun c => b ← blit (cstring.text c) 0 (replicate (Z.to_nat (cstring.max c)) 0);
               cstring.fix_ (cstring.with_text c (cstring.len c) b)) h str.

(** [split]: the text is cut, [len] stays. *)
Definition split (h : heap) (str : option loc) (pos : Z) :=
  on (fun c => if cstring.len c <=? pos then Some c
               else b ← wr (cstring.text c) pos 0; cstring.fix_ (cstring.with_text c (cstring.len c) b)) h str.

Definition rsplit (h : heap) (str : option loc) (pos : Z) :=
  on (fun c => if (cstring.len c <? pos) || (pos =? 0) then Some c
               else cstring.set c (cstring.Own pos)) h str.

(** The loop of [fill] writes at most up to [max]. *)
Definition fill_cell (size ch : Z) (c : cstring.t) : option cstring.t :=
  let n := Z.min size (cstring.max c - cstring.len c) in
  b ← blit (cstring.text c) (cstring.len c) (replicate (Z.to_nat n) ch);
  cstring.fix_ (cstring.with_text c (cstring.len c + Z.max 0 n) b).

Definition fill `{Malloc} (h : heap) (str : option loc) (size ch : Z) : option (heap * option loc) :=
  '(h, str) ← (match str with None => of_size h size | Some _ => Some (h, str) end);
  on (fill_cell size ch) h str.

(** [operator++], [--], [+=] and [-=] with a size. *)
Definition inc (h : heap) (str : option loc) (offset : Z) := on (fun c => cstring.inc c offset) h str.
Definition dec (h : heap) (str : option loc) (offset : Z) := on (fun c => cstring.dec c offset) h str.

(** [String::fix (String&)] *)
Definition refix (h : heap) (str : option loc) :=
  on (fun c => n ← strlen (cstring.text c); set_len n c) h str.

(** [operator|]: appends what fits. *)
Definition append_in_place `{Malloc} (h : heap) (str : option loc) (s : list Z)
    : option (heap * option loc) :=
  n ← strlen s;
  if n =? 0 then Some (h, str)
  else match str with
       | None => set h None (cstring.Ext s)
       | Some _ => on (fun c => cstring.add c s) h str
       end.

(** ** Changes that first get a cell of their own *)

Definition cow `{Malloc} (h : heap) (str : option loc) (size : Z) : option (heap * option loc) :=
  match str with
  | None =>
      if size =? 0 then Some (h, None) else of_size h size
  | Some l =>
      c ← h !! l;
      let size := size + cstring.len c in
      if size =? 0 then Some (h, str)
      else if (cstring.max c =? 0) || (1 <? cstring.count c) || (cstring.max c <? size) then
        '(h, s) ← create h size;
        h ← upd h s (fun n =>
          b ← Str.set (cstring.text n) (cstring.max n + 1) (Some (cstring.text c));
          Some (cstring.with_text n (cstring.len c) b));
        '(h, _) ← release h str;
        Some (h, Some s)
      else Some (h, str)
  end.

Definition add `{Malloc} (h : heap) (str : option loc) (s : option (list Z))
    : option (heap * option loc) :=
  match s with
  | None => Some (h, str)
  | Some b =>
      n ← strlen b;
      if n =? 0 then Some (h, str)
      else match str with
           | None => set h None (cstring.Ext b)
           | Some _ => '(h, str) ← cow h str n; on (fun c => cstring.add c b) h str
           end
  end.

Definition add_char `{Malloc} (h : heap) (str : option loc) (ch : Z) : option (heap * option loc) :=
  if ch =? 0 then Some (h, str)
  else match str with
       | None => set h None (cstring.Ext [ch; 0])
       | Some _ => '(h, str) ← cow h str 1; on (fun c => cstring.add c [ch; 0]) h str
       end.

Definition paste_cell (offset size : Z) (cp : list Z) (c : cstring.t) : option cstring.t :=
  b ← (if cstring.len c <=? offset
       then Str.behind (cstring.len c) (fun b => Str.set b (size + 1) (Some cp)) (cstring.text c)
       else
         b ← memmove (cstring.text c) (offset + size) offset (cstring.len c - offset);
         s ← slice cp 0 size; blit b offset s);
  cstring.fix_ (cstring.with_text c (cstring.len c + size) b).

Definition paste `{Malloc} (h : heap) (str : option loc) (offset : Z) (cp : option (list Z)) (size : Z)
    : option (heap * option loc) :=
  match cp with
  | None => Some (h, str)
  | Some b =>
      size ← (if size =? 0 then strlen b else Some size);
      if size =? 0 then Some (h, str)
      else match str with
           | None =>
               let '(h, l) := bare h size in
               on (fun c => t ← Str.set (cstring.text c) (size + 1) (Some b);
                            cstring.fix_ (cstring.with_text c size t)) h (Some l)
           | Some _ => '(h, str) ← cow h str size; on (paste_cell offset size b) h str
           end
  end.

(** [replace]: the offset of each cut is where the search started.  [find] is
    [strstr] or, with the flag, [strcasestr]. *)
Fixpoint replace_loop `{Malloc} (fuel : nat) (find : list Z -> list Z -> option Z) (h : heap)
    (str : option loc) (substring : list Z) (cp : option (list Z)) (cpl offset count : Z)
    : option (heap * option loc * Z) :=
  match fuel with
  | O => None
  | S n =>
      b ← c_str h str; t ← cstr (drop (Z.to_nat offset) b);
      match find t substring with
      | None => Some (h, str, count)
      | Some _ =>
          '(h, str) ← cut h str offset (zlen substring);
          '(h, str) ← (if cpl =? 0 then Some (h, str) else paste h str offset cp 0);
          replace_loop n find h str substring cp cpl (offset + cpl) (count + 1)
      end
  end.

Definition replace `{Malloc} (fuel : nat) (find : list Z -> list Z -> option Z) (h : heap)
    (str : option loc) (substring : option (list Z)) (cp : option (list Z))
    : option (heap * option loc * Z) :=
  cpl ← Str.count cp;
  n ← len h str;
  match str, substring with
  | Some _, Some sub =>
      if n =? 0 then Some (h, str, 0)
      else s ← cstr sub; replace_loop fuel find h str s cp cpl 0 0
  | _, _ => Some (h, str, 0)
  end.

(** [search]: the next instance is looked for behind the end of the text. *)
Fixpoint search_loop (find : list Z -> list Z -> option Z) (text substring : list Z) (offset : Z)
    (instance_ : nat) : option Z :=
  match instance_ with
  | O => None
  | S n =>
      match find (drop (Z.to_nat offset) text) substring with
      | None => None
      | Some o => if (n =? 0)%nat then Some (offset + o) else search_loop find text substring (zlen text) n
      end
  end.

Definition search (find : list Z -> list Z -> option Z) (h : heap) (str : option loc)
    (substring : option (list Z)) (instance_ : nat) : option (option Z) :=
  n ← len h str;
  match str, substring with
  | Some _, Some sub =>
      if n =? 0 then Some None
      else
        b ← c_str h str; t ← cstr b; s ← cstr sub;
        Some (search_loop find t s 0 (if (instance_ =? 0)%nat then 1%nat else instance_))
  | _, _ => Some None
  end.

(** ** Objects *)

Definition resize `{Malloc} (h : heap) (str : option loc) (size : Z) : option (heap * option loc) :=
  if size =? 0 then release h str
  else match str with
       | None => of_size h size
       | Some l =>
           c ← h !! l;
           if (1 <? cstring.count c) || (cstring.max c <? size)
           then '(h, _) ← release h str; of_size h size
           else Some (h, str)
       end.

(** [operator=] and [operator^=] of a text: the old cell is released first. *)
Definition assign_text `{Malloc} (h : heap) (str : option loc) (s : option (list Z))
    : option (heap * option loc) :=
  '(h, str) ← release h str; set h str (cstring.Ext (default [0] s)).

(** [operator= (const String&)] *)
Definition assign (h : heap) (str other : option loc) : option (heap * option loc) :=
  if decide (str = other) then Some (h, str)
  else
    h ← retain h other;
    '(h, _) ← release h str;
    Some (h, other).

(** [operator+]: a new string. *)
Definition concat `{Malloc} (h : heap) (str : option loc) (s : option (list Z))
    : option (heap * option loc) :=
  b ← c_str h str; n ← strlen b;
  '(h, tmp) ← (if n =? 0 then Some (h, None) else set h None (cstring.Ext b));
  match s with
  | None => Some (h, tmp)
  | Some _ => add h tmp s
  end.

End StringObj.
