(* ===== verification/StringLaws.v ===== *)
(** * What the String operations promise

    Every operation keeps the cells well formed and the reference counts equal
    to the number of objects that share a cell; the contents each leaves; and
    what objects that share a cell see of a change. *)

From stdpp Require Import gmap strings.
From S2P Require Import Prelude CLib Strings StringObj.
Import cstring.

(** ** Cells

    [has c n m s]: a cell of count [n] and capacity [m] that holds the
    characters [s], terminated. *)
Definition has (c : cstring.t) (n m : Z) (s : list Z) : Prop :=
  exists r, c = Mk n m (zlen s) (s ++ 0 :: r) /\ m = zlen s + zlen r.

Definition cell_ok (c : cstring.t) : Prop := exists n m s, has c n m s.

(** The same, with any byte where the terminator belongs. *)
Definition weak (c : cstring.t) (n m : Z) (s : list Z) : Prop :=
  exists x r, c = Mk n m (zlen s) (s ++ x :: r) /\ m = zlen s + zlen r.

Lemma has_weak c n m s : has c n m s -> weak c n m s.
Proof. intros (r & H). by exists 0, r. Qed.

Lemma has_count c n m s : has c n m s -> count c = n.
Proof. by intros (r & -> & _). Qed.

Lemma has_len c n m s : has c n m s -> len c = zlen s.
Proof. by intros (r & -> & _). Qed.

Lemma has_max c n m s : has c n m s -> max c = m.
Proof. by intros (r & -> & _). Qed.

Lemma has_bound c n m s : has c n m s -> 0 <= zlen s <= m.
Proof. intros (r & _ & ->). pose proof (zlen_nonneg s). pose proof (zlen_nonneg r). lia. Qed.

Lemma make_has `{Malloc} m : 0 <= m -> has (make m) 0 m [].
Proof. intros Hm. exists (junk m). split; [done|]. by rewrite junk_length. Qed.

(** A block with its terminator written at [l]. *)
Lemma fix_has n m l b : zlen b = m + 1 -> 0 <= l <= m ->
  exists c, fix_ (Mk n m l b) = Some c /\ has c n m (take (Z.to_nat l) b).
Proof.
  intros Hb Hl. destruct (block_split b l ltac:(lia)) as (p & r & -> & <-).
  destruct r as [|x r]; [uc_len|]. rewrite zlen_to_nat, take_app_length.
  unfold fix_. cbn [text len]. rewrite wr_app_r by done. run. eexists. split; [done|].
  exists r. split; [done|]. uc_len.
Qed.

Lemma fix_has' n m s x r : m = zlen s + zlen r ->
  exists c, fix_ (Mk n m (zlen s) (s ++ x :: r)) = Some c /\ has c n m s.
Proof.
  intros ->. pose proof (zlen_nonneg s). pose proof (zlen_nonneg r).
  destruct (fix_has n (zlen s + zlen r) (zlen s) (s ++ x :: r)) as (c & E & Hc);
    [uc_len|lia|]. rewrite zlen_to_nat, take_app_length in Hc. by exists c.
Qed.

Lemma clear_has c n m s offset : has c n m s -> 0 <= offset ->
  exists c', clear c offset = Some c' /\ has c' n m (take (Z.to_nat offset) s).
Proof.
  intros (r & -> & ->) Ho. unfold clear. cbn [len text].
  destruct (Z.leb_spec (zlen s) offset).
  - rewrite take_ge by (unfold zlen in *; lia). eexists. split; [done|]. by exists r.
  - destruct (block_split s offset) as (p & q & -> & <-); [lia|].
    destruct q as [|x q]; [uc_len|]. rewrite <- app_assoc. cbn [app]. rewrite wr_app_r by done.
    run. eexists. split; [done|]. rewrite zlen_to_nat, take_app_length.
    exists (q ++ 0 :: r). split; [done|]. uc_len.
Qed.

Lemma has_nil n m x r : m = zlen r ->
  exists c, (b ← wr (x :: r) 0 0; fix_ (Mk n m 0 b)) = Some c /\ has c n m [].
Proof.
  intros ->. rewrite (wr_app_r [] r 0 x 0 eq_refl : wr (x :: r) 0 0 = _). run.
  by apply (fix_has' n _ [] 0 r).
Qed.

(** Moving the tail of the text to an earlier place. *)
Lemma shift_down n m p d k r : m = zlen p + zlen d + zlen k + zlen r ->
  exists c, (b ← memmove (p ++ d ++ k ++ 0 :: r) (zlen p) (zlen p + zlen d) (zlen k);
             fix_ (Mk n m (zlen p + zlen k) b)) = Some c /\ has c n m (p ++ k).
Proof.
  intros ->. unfold memmove.
  rewrite (app_assoc p d), (slice_mid (p ++ d) k (0 :: r)) by (done || uc_len). run.
  assert (exists x y, d ++ k ++ 0 :: r = x ++ y /\ length x = length k) as (x & y & E & Hx).
  { exists (take (length k) (d ++ k ++ 0 :: r)), (drop (length k) (d ++ k ++ 0 :: r)).
    rewrite take_drop. split; [done|]. rewrite length_take, !length_app. cbn. lia. }
  rewrite <- app_assoc, E, (blit_mid p x k y) by done. run.
  pose proof (f_equal (@zlen Z) E) as El. autorewrite with zlen in El.
  assert (zlen x = zlen k) by (unfold zlen; lia). destruct y as [|z y]; [uc_len|].
  rewrite (app_assoc p k), <- (zlen_app p k). apply fix_has'. autorewrite with zlen in *. lia.
Qed.

Lemma inc_has c n m s offset : has c n m s -> 0 <= offset ->
  exists c', inc c offset = Some c' /\ has c' n m (drop (Z.to_nat (Z.max 1 offset)) s).
Proof.
  intros (r & -> & ->) Ho. unfold inc. cbn [len text].
  assert ((if offset =? 0 then 1 else offset) = Z.max 1 offset) as -> by uc_cases.
  pose proof (zlen_nonneg s). destruct (Z.leb_spec (zlen s) (Z.max 1 offset)).
  - rewrite drop_ge by (unfold zlen in *; lia).
    destruct s as [|x s]; cbn [app]; apply has_nil; uc_len.
  - destruct (block_split s (Z.max 1 offset)) as (d & k & -> & Ed); [lia|].
    rewrite <- Ed, zlen_to_nat, drop_app_length, zlen_app, <- app_assoc.
    replace (zlen d + zlen k - zlen d) with (zlen k) by lia.
    apply (shift_down n _ [] d k r). cbn [cstring.max]. uc_len.
Qed.

Lemma dec_has c n m s offset : has c n m s -> 0 <= offset ->
  exists c', dec c offset = Some c' /\
    has c' n m (if zlen s <=? offset then [] else take (length s - 1) s).
Proof.
  intros (r & -> & ->) Ho. unfold dec. cbn [len text]. pose proof (zlen_nonneg s).
  destruct (Z.eqb_spec (zlen s) 0) as [E|].
  { destruct s; [|uc_len]. rewrite E. destruct (Z.leb_spec 0 offset); [|lia].
    eexists. split; [done|]. by exists r. }
  destruct (Z.leb_spec (zlen s) offset).
  - destruct s as [|x s]; cbn [app]; apply has_nil; uc_len.
  - destruct s as [|x s _] using rev_ind; [done|]. rewrite length_app, Nat.add_sub, take_app_length.
    rewrite zlen_app, <- app_assoc. cbn [app]. change (zlen [x]) with 1.
    rewrite Z.add_simpl_r, wr_app_r by done. run. eexists. split; [done|].
    exists (0 :: r). split; [done|]. uc_len.
Qed.

(** Storing at the end of the characters. *)
Lemma store_end n m s t x : zlen s + zlen t <= m -> m + 1 = zlen s + zlen x ->
  exists c, (b ← blit (s ++ x) (zlen s) t; fix_ (Mk n m (zlen s + zlen t) b)) = Some c /\
    has c n m (s ++ t).
Proof.
  intros Hm Hx. destruct (block_split x (zlen t)) as (y & z & -> & Hy).
  { pose proof (zlen_nonneg t). lia. }
  rewrite (blit_mid s y t z) by (done || (unfold zlen in Hy; lia)). run.
  destruct z as [|e z]; [uc_len|]. rewrite (app_assoc s t), <- (zlen_app s t).
  apply fix_has'. autorewrite with zlen in *. lia.
Qed.

Lemma add_has c n m s b t : has c n m s -> cstr b = Some t ->
  exists c', cstring.add c b = Some c' /\ has c' n m (s ++ take (Z.to_nat (m - zlen s)) t).
Proof.
  intros (r & -> & ->) Ht. unfold cstring.add. rewrite Ht. run. cbn [len max text].
  pose proof (zlen_nonneg t). pose proof (zlen_nonneg r).
  replace (zlen s + zlen r - zlen s) with (zlen r) by lia.
  destruct (Z.eqb_spec (zlen t) 0) as [E|].
  { destruct t; [|uc_len]. rewrite take_nil, app_nil_r. eexists. split; [done|]. by exists r. }
  set (size := if zlen s + zlen r <? zlen s + zlen t then zlen r else zlen t).
  assert (Hsize : 0 <= size <= zlen r /\ take (Z.to_nat size) t = take (Z.to_nat (zlen r)) t /\
    size <= zlen t /\ (size = 0 -> zlen r = 0)).
  { unfold size. destruct (Z.ltb_spec (zlen s + zlen r) (zlen s + zlen t)).
    - split_and!; done || lia.
    - rewrite !take_ge by (unfold zlen in *; lia). split_and!; done || lia. }
  destruct Hsize as (Hsz & <- & Hst & Hr0). clearbody size. destruct (Z.ltb_spec size 1).
  - assert (size = 0) as -> by lia. rewrite take_0, app_nil_r. eexists. split; [done|]. by exists r.
  - unfold with_text. cbn [cstring.count cstring.max].
    pose proof (zlen_take size t ltac:(lia)) as Hz.
    replace (zlen s + size) with (zlen s + zlen (take (Z.to_nat size) t)) by lia.
    apply store_end; [lia|]. rewrite zlen_cons. lia.
Qed.

(** With room for all of it the terminator need not be there. *)
Lemma add_weak c n m s b t : weak c n m s -> cstr b = Some t -> t <> [] -> zlen s + zlen t <= m ->
  exists c', cstring.add c b = Some c' /\ has c' n m (s ++ t).
Proof.
  intros (x & r & -> & ->) Ht Hne Hm. unfold cstring.add. rewrite Ht. run. cbn [len max text].
  pose proof (zlen_nonneg t). destruct (Z.eqb_spec (zlen t) 0); [destruct t; [done|uc_len]|].
  destruct (Z.ltb_spec (zlen s + zlen r) (zlen s + zlen t)); [lia|].
  destruct (Z.ltb_spec (zlen t) 1); [lia|]. rewrite zlen_to_nat, take_ge by done.
  unfold with_text. cbn [cstring.count cstring.max]. apply store_end; [lia|]. rewrite zlen_cons. lia.
Qed.

Lemma set_ext_has c n m s b t : has c n m s -> cstr b = Some t ->
  exists c', cstring.set c (Ext b) = Some c' /\ has c' n m (take (Z.to_nat m) t).
Proof.
  intros Hc Ht. pose proof (has_bound c n m s Hc) as Hb. destruct Hc as (r & -> & ->).
  unfold cstring.set. rewrite Ht. run. cbn [len max text]. set (m := zlen s + zlen r) in *.
  pose proof (zlen_nonneg t).
  assert (Hsize : (if m <? zlen t then m else zlen t) = zlen (take (Z.to_nat m) t)).
  { destruct (Z.ltb_spec m (zlen t)); [by rewrite zlen_take by lia|].
    by rewrite take_ge by (unfold zlen in *; lia). }
  rewrite Hsize.
  assert (Htt : take (Z.to_nat (zlen (take (Z.to_nat m) t))) t = take (Z.to_nat m) t).
  { rewrite zlen_to_nat, length_take. destruct (Nat.min_spec (Z.to_nat m) (length t)) as [[? ->]|[? ->]];
      [done|]. by rewrite !take_ge by lia. }
  rewrite Htt. unfold with_text. cbn [cstring.count cstring.max].
  apply (store_end n m [] (take (Z.to_nat m) t) (s ++ 0 :: r)).
  - rewrite zlen_nil, <- Hsize. destruct (Z.ltb_spec m (zlen t)); lia.
  - unfold m. uc_len.
Qed.

(** The text up to its first terminator. *)
Lemma cstr_prefix s r : exists t k q, cstr (s ++ 0 :: r) = Some t /\ s = t ++ k /\
  k ++ 0 :: r = 0 :: q /\ (nonul s -> k = []) /\ nonul t.
Proof.
  induction s as [|x s (t & k & q & E & -> & Eq & Hk & Ht)].
  { exists [], [], r. by repeat constructor. }
  cbn. destruct (Z.eqb_spec x 0) as [->|Hx].
  - exists [], (0 :: t ++ k), ((t ++ k) ++ 0 :: r). split_and!; [done|done|done| |constructor].
    intros H. by inversion H.
  - rewrite E. exists (x :: t), k, q. split_and!; try done.
    + intros H. inversion H. by apply Hk.
    + by constructor.
Qed.

Lemma set_own_has c n m s off : has c n m s -> 0 <= off <= zlen s ->
  exists c' t k, cstring.set c (Own off) = Some c' /\ has c' n m t /\
    drop (Z.to_nat off) s = t ++ k /\ (nonul (drop (Z.to_nat off) s) -> k = []).
Proof.
  intros (r & -> & ->) Ho. destruct (block_split s off ltac:(lia)) as (d & q & -> & <-).
  unfold cstring.set. cbn [text len max]. rewrite zlen_to_nat, <- app_assoc, !drop_app_length.
  destruct (cstr_prefix q r) as (t & k & q' & -> & -> & Eq & Hk & _). run.
  pose proof (zlen_nonneg k). pose proof (zlen_nonneg r). pose proof (zlen_nonneg d).
  destruct (Z.ltb_spec (zlen (d ++ t ++ k) + zlen r) (zlen t)) as [Hlt|_]; [uc_len|].
  unfold with_text. cbn [cstring.count cstring.max]. rewrite <- app_assoc, Eq.
  apply (f_equal (@zlen Z)) in Eq. autorewrite with zlen in Eq.
  set (m := zlen (d ++ t ++ k) + zlen r). assert (Hm : m = zlen d + zlen t + zlen q').
  { unfold m. autorewrite with zlen. lia. }
  clearbody m. destruct (Z.eqb_spec (zlen d) 0) as [E|].
  - destruct d; [|uc_len]. cbn [app]. run.
    destruct (fix_has' n m t 0 q') as (c' & Ec & Hc'); [lia|]. by exists c', t, k.
  - destruct (shift_down n m [] d t q') as (c' & Ec & Hc'); [rewrite Hm; uc_len|].
    by exists c', t, k.
Qed.

(** Sizes and capacities below 2^63, where sums do not wrap. *)
Definition small (z : Z) : Prop := 0 <= z < 2 ^ 63.

Lemma small_sum x y : small x -> small y -> u64 (x + y) = x + y.
Proof. unfold small. intros. apply u64_id. lia. Qed.

Lemma set_len_has n m s l x : zlen s + zlen x = m -> 0 <= l <= zlen s -> 0 < zlen (0 :: x) ->
  exists c, StringObj.set_len l (Mk n m (zlen s) (s ++ 0 :: x)) = Some c /\
    has c n m (take (Z.to_nat l) s).
Proof.
  intros Hm Hl _. unfold StringObj.set_len, with_text. cbn [cstring.count cstring.max cstring.text].
  pose proof (zlen_nonneg x).
  destruct (fix_has n m l (s ++ 0 :: x)) as (c & E & Hc); [uc_len|lia|].
  exists c. split; [done|]. rewrite take_app_le in Hc by (unfold zlen in *; lia). done.
Qed.

(** What [cut] leaves. *)
Definition cut_text (offset size : Z) (s : list Z) : list Z :=
  take (Z.to_nat offset) s ++
  drop (Z.to_nat (offset + (if size =? 0 then zlen s else size))) s.

Lemma cut_has c n m s offset size : has c n m s -> small m -> small offset -> small size ->
  exists c', StringObj.cut_cell offset size c = Some c' /\ has c' n m (cut_text offset size s).
Proof.
  intros Hc Hm Ho Hz. pose proof (has_bound _ _ _ _ Hc) as Hb. destruct Hc as (r & -> & Em).
  unfold StringObj.cut_cell, cut_text. cbn [len text]. unfold small in *. pose proof (zlen_nonneg r).
  destruct (Z.leb_spec (zlen s) offset).
  { rewrite take_ge, drop_ge, app_nil_r by (destruct (size =? 0); unfold zlen in *; lia). eexists. split; [done|].
    by exists r. }
  set (size' := if size =? 0 then zlen s else size).
  assert (0 <= size' < 2 ^ 63 /\ 0 < size') as Hs' by (unfold size'; destruct (Z.eqb_spec size 0); lia).
  clearbody size'. clear Hz size. rewrite small_sum by (unfold small; lia).
  destruct (Z.leb_spec (zlen s) (offset + size')).
  - rewrite (drop_ge s), app_nil_r by (unfold zlen in *; lia).
    apply set_len_has; [lia|lia|uc_len].
  - destruct (block_split s offset) as (p & q & -> & <-); [lia|].
    destruct (block_split q size') as (d & k & -> & <-); [uc_len|].
    rewrite <- !app_assoc, zlen_to_nat, take_app_length.
    rewrite (app_assoc p d k), drop_app_length' by (unfold zlen; rewrite length_app; lia).
    rewrite !zlen_app. unfold with_text. cbn [cstring.count cstring.max].
    replace (zlen p + zlen d + zlen k - zlen p - zlen d) with (zlen k) by lia.
    replace (zlen p + zlen d + zlen k - zlen d) with (zlen p + zlen k) by lia.
    rewrite <- ?app_assoc. apply shift_down. rewrite Em, !zlen_app. lia.
Qed.

(** ** The characters at the ends *)

Fixpoint trim_text (cl s : list Z) : list Z :=
  match s with c :: s' => if in_set cl c then trim_text cl s' else s | [] => [] end.

Definition chop_text (cl s : list Z) : list Z := rev (trim_text cl (rev s)).

Lemma trim_loop_spec cl s r : forall p, exists l,
  s = l ++ trim_text cl s /\
  StringObj.trim_loop cl (p ++ s ++ r) (zlen p) (length s) = Some (zlen p + zlen l).
Proof.
  induction s as [|x s IH]; intros p; cbn [trim_text app length StringObj.trim_loop].
  { exists []. split; [done|]. f_equal. rewrite zlen_nil. lia. }
  rewrite rd_app_r by done. cbn [lookup list_lookup]. run.
  destruct (in_set cl x).
  - destruct (IH (p ++ [x])) as (l & E & Hl). exists (x :: l). cbn [app]. split; [congruence|].
    rewrite <- app_assoc in Hl. cbn [app] in Hl.
    replace (zlen p + 1) with (zlen (p ++ [x])) by uc_len. rewrite Hl. f_equal. uc_len.
  - exists []. split; [done|]. f_equal. rewrite zlen_nil. lia.
Qed.

Lemma chop_offset_spec cl s : forall r, exists t,
  s = chop_text cl s ++ t /\
  StringObj.chop_loop cl (s ++ r) (length s) = Some (length (chop_text cl s)).
Proof.
  unfold chop_text. induction s as [|x s IH] using rev_ind; intros r.
  { by exists []. }
  rewrite rev_app_distr, length_app, Nat.add_comm. cbn [rev app length Nat.add trim_text StringObj.chop_loop].
  rewrite <- app_assoc. cbn [app]. rewrite rd_app_r by done. cbn [lookup list_lookup]. run.
  destruct (in_set cl x).
  - destruct (IH (x :: r)) as (t & E & Hl). exists (t ++ [x]). split; [|done].
    rewrite app_assoc. congruence.
  - exists []. cbn [rev]. rewrite rev_involutive, app_nil_r, length_app. cbn [length].
    split; [done|]. f_equal. lia.
Qed.

Lemma trim_has c n m s cl : has c n m s ->
  exists c', StringObj.trim_cell cl c = Some c' /\ has c' n m (trim_text cl s).
Proof.
  intros (r & -> & Em). unfold StringObj.trim_cell. cbn [len text].
  destruct (trim_loop_spec cl s (0 :: r) []) as (l & E & Hl). cbn [app] in Hl.
  rewrite zlen_to_nat. change (zlen []) with 0 in Hl. rewrite Hl. run. rewrite Z.add_0_l.
  set (k := trim_text cl s) in *. clearbody k. subst s. pose proof (zlen_nonneg k).
  destruct (Z.eqb_spec (zlen l) 0) as [El|].
  { destruct l; [|uc_len]. eexists. split; [done|]. by exists r. }
  destruct (Z.eqb_spec (zlen l) (zlen (l ++ k))) as [El|].
  - assert (k = []) as -> by (destruct k; [done|uc_len]).
    destruct (set_ext_has (Mk n m (zlen (l ++ [])) ((l ++ []) ++ 0 :: r)) n m (l ++ []) [0] [])
      as (c' & Ec & Hc'); [by exists r|done|]. rewrite take_nil in Hc'. by exists c'.
  - rewrite zlen_app, <- app_assoc. unfold with_text. cbn [cstring.count cstring.max].
    replace (zlen l + zlen k - zlen l) with (zlen k) by lia.
    apply (shift_down n m [] l k r). rewrite Em. uc_len.
Qed.

Lemma chop_has c n m s cl : has c n m s ->
  exists c', StringObj.chop_cell cl c = Some c' /\ has c' n m (chop_text cl s).
Proof.
  intros Hc. pose proof Hc as (r & -> & Em). unfold StringObj.chop_cell. cbn [len text].
  destruct (chop_offset_spec cl s (0 :: r)) as (t & E & Hl). rewrite zlen_to_nat, Hl. run.
  pose proof (f_equal (@length Z) E) as El. rewrite length_app in El. pose proof (zlen_nonneg r).
  destruct (Z.eqb_spec (zlen s) 0) as [Es|].
  { destruct s; [|uc_len]. by eexists. }
  destruct (Z.eqb_spec (Z.of_nat (length (chop_text cl s))) 0) as [Ek|].
  - destruct (chop_text cl s); [|cbn in Ek; lia].
    destruct (set_ext_has _ n m s [0] [] Hc eq_refl) as (c' & Ec & Hc').
    rewrite take_nil in Hc'. by exists c'.
  - destruct (Z.eqb_spec (Z.of_nat (length (chop_text cl s))) (zlen s)) as [Ek|].
    + assert (t = []) as -> by (destruct t; [done|cbn in El; unfold zlen in Ek; lia]).
      rewrite app_nil_r in E. rewrite <- E. by eexists.
    + destruct (set_len_has n m s (Z.of_nat (length (chop_text cl s))) r) as (c' & Ec & Hc');
        [lia|unfold zlen; lia|uc_len|].
      exists c'. split; [done|]. rewrite Nat2Z.id in Hc'. rewrite E in Hc' at 2.
      by rewrite take_app_length in Hc'.
Qed.

(** ** The other changes in place *)

Lemma fill_has c n m s size ch : has c n m s -> 0 <= size ->
  exists c', StringObj.fill_cell size ch c = Some c' /\
    has c' n m (s ++ replicate (Z.to_nat (Z.min size (m - zlen s))) ch).
Proof.
  intros (r & -> & ->) Hs. unfold StringObj.fill_cell, with_text.
  cbn [len text cstring.max cstring.count].
  pose proof (zlen_nonneg r). set (k := Z.min size (zlen s + zlen r - zlen s)).
  assert (0 <= k <= zlen r) by (unfold k; lia). clearbody k.
  replace (Z.max 0 k) with (zlen (replicate (Z.to_nat k) ch))
    by (unfold zlen; rewrite length_replicate; lia).
  apply store_end; [unfold zlen at 2; rewrite length_replicate; lia|]. rewrite zlen_cons. lia.
Qed.

Lemma split_has c n m s pos : has c n m s -> 0 <= pos ->
  exists c', (if len c <=? pos then Some c
    else b ← wr (text c) pos 0; fix_ (with_text c (len c) b)) = Some c' /\
    has c' n m (if zlen s <=? pos then s else <[Z.to_nat pos := 0]> s).
Proof.
  intros Hc Hp. pose proof Hc as (r & -> & ->). cbn [len text].
  destruct (Z.leb_spec (zlen s) pos); [by eexists|].
  destruct (block_split s pos) as (p & q & -> & <-); [lia|]. destruct q as [|x q]; [uc_len|].
  rewrite <- app_assoc. cbn [app]. rewrite wr_app_r by done. run.
  unfold with_text. cbn [cstring.count cstring.max].
  rewrite zlen_to_nat, (insert_app_r_alt p) by lia. rewrite Nat.sub_diag. cbn [insert list_insert].
  replace (zlen (p ++ x :: q)) with (zlen (p ++ 0 :: q)) by uc_len.
  rewrite (app_assoc p (0 :: q) (0 :: r) : p ++ 0 :: q ++ 0 :: r = _). by apply fix_has'.
Qed.

(** A change of the characters before the first terminator. *)
Lemma map_text_spec f s r : exists s', zlen s' = zlen s /\
  Str.map_text f (s ++ 0 :: r) = Some (s' ++ 0 :: r) /\ (nonul s -> s' = map f s).
Proof.
  induction s as [|x s (s' & Hz & E & Hn)]; [by exists []|]. cbn [app Str.map_text].
  destruct (Z.eqb_spec x 0) as [->|Hx].
  - exists (0 :: s). split_and!; [done|done|]. intros H. by inversion H.
  - rewrite E. exists (f x :: s'). split_and!; [uc_len|done|]. intros H. inversion H. cbn.
    by rewrite Hn.
Qed.

Lemma retext_has f c n m s : has c n m s ->
  exists c' s', StringObj.retext (Str.map_text f) c = Some c' /\ has c' n m s' /\
    zlen s' = zlen s /\ (nonul s -> s' = map f s).
Proof.
  intros (r & -> & ->). unfold StringObj.retext. cbn [text len].
  destruct (map_text_spec f s r) as (s' & Hz & -> & Hn). run. eexists _, s'.
  split_and!; [done| |done|done]. exists r. unfold with_text. cbn [cstring.count cstring.max].
  by rewrite Hz.
Qed.

Lemma erase_has c n m s : has c n m s ->
  exists c', (b ← blit (text c) 0 (replicate (Z.to_nat (max c)) 0); fix_ (with_text c (len c) b)) =
    Some c' /\ has c' n m (replicate (length s) 0).
Proof.
  intros (r & -> & ->). cbn [text max len]. pose proof (zlen_nonneg s). pose proof (zlen_nonneg r).
  destruct (block_split (s ++ 0 :: r) (zlen s + zlen r)) as (x & y & E & Hx); [uc_len|].
  assert (length (replicate (Z.to_nat (zlen s + zlen r)) 0) = length x) as Hlx.
  { rewrite length_replicate. unfold zlen in *. lia. }
  rewrite E, (blit_mid [] x _ y 0 eq_refl Hlx : blit (x ++ y) 0 _ = _).
  run. cbn [app]. unfold with_text. cbn [cstring.count cstring.max].
  pose proof (f_equal (@zlen Z) E) as El. autorewrite with zlen in El.
  destruct (fix_has (cstring.count (Mk n (zlen s + zlen r) (zlen s) (s ++ 0 :: r)))
    (zlen s + zlen r) (zlen s) (replicate (Z.to_nat (zlen s + zlen r)) 0 ++ y)) as (c' & Ec & Hc').
  { autorewrite with zlen. unfold zlen at 1. rewrite length_replicate. lia. }
  { lia. }
  exists c'. split; [done|].
  rewrite take_app_le in Hc' by (rewrite length_replicate; lia).
  rewrite zlen_to_nat, take_replicate in Hc'.
  by replace (length s `min` Z.to_nat (zlen s + zlen r))%nat with (length s) in Hc'
    by (unfold zlen in *; lia).
Qed.

Lemma refix_has c n m s : has c n m s ->
  exists c' t k, (l ← strlen (text c); StringObj.set_len l c) = Some c' /\ has c' n m t /\
    s = t ++ k /\ (nonul s -> k = []).
Proof.
  intros (r & -> & ->). cbn [text]. destruct (cstr_prefix s r) as (t & k & q & E & Hs & Eq & Hk & _).
  unfold strlen. rewrite E. cbn [fmap option_fmap option_map]. run.
  pose proof (zlen_nonneg t). pose proof (zlen_nonneg k). pose proof (f_equal (@zlen Z) Hs) as Hl.
  autorewrite with zlen in Hl.
  destruct (set_len_has n (zlen s + zlen r) s (zlen t) r) as (c' & Ec & Hc'); [done|lia|uc_len|].
  exists c', t, k. split_and!; [done| |done|done].
  rewrite Hs, zlen_to_nat, take_app_length in Hc'. by rewrite <- Hs in Hc'.
Qed.

Lemma upto_spec t r n : nonul t -> cstring.upto (t ++ 0 :: r) n = Some (take n t).
Proof.
  intros Ht. revert n. induction Ht as [|x t Hx Ht IH]; intros n; [by destruct n|].
  cbn [app cstring.upto]. destruct (Z.eqb_spec x 0); [done|]. destruct n as [|n]; [done|].
  by rewrite IH.
Qed.

(** What [set (offset, text, size)] leaves: the characters of the text that fit
    overwrite those from the offset on. *)
Definition set_at_text (m offset size : Z) (t s : list Z) : list Z :=
  if (m <=? offset) || (zlen s <? offset) then s
  else
    let t := take (Z.to_nat (Z.min size (m - offset))) t in
    take (Z.to_nat offset) s ++ t ++ drop (Z.to_nat (offset + zlen t)) s.

Lemma set_at_has c n m s b t offset size : has c n m s -> cstr b = Some t ->
  small m -> small offset -> small size ->
  exists c', cstring.set_at c offset b size = Some c' /\ has c' n m (set_at_text m offset size t s).
Proof.
  intros Hc Ht Hm Ho Hz. pose proof Hc as (r & -> & Em). unfold cstring.set_at, set_at_text.
  cbn [len text max]. unfold small in *. pose proof (zlen_nonneg r). pose proof (zlen_nonneg s).
  destruct (Z.leb_spec m offset); [by eexists|]. destruct (Z.ltb_spec (zlen s) offset); [by eexists|].
  cbn [orb]. rewrite small_sum by done.
  destruct (cstr_inv b t Ht) as (Hn & br & ->).
  assert ((if m <? offset + size then m - offset else size) = Z.min size (m - offset)) as ->
    by (destruct (Z.ltb_spec m (offset + size)); lia).
  rewrite upto_spec by done. run. set (u := take (Z.to_nat (Z.min size (m - offset))) t).
  assert (0 <= zlen u <= m - offset) as Hu.
  { unfold u. pose proof (zlen_nonneg t). unfold zlen. rewrite length_take. lia. }
  clearbody u. destruct (block_split s offset) as (p & q & -> & <-); [lia|].
  destruct (block_split (q ++ 0 :: r) (zlen u)) as (x & y & E & Hx).
  { autorewrite with zlen in *. lia. }
  rewrite <- app_assoc, E, (blit_mid p x u y) by (done || (unfold zlen in Hx; lia)). run.
  rewrite zlen_to_nat, take_app_length.
  pose proof (f_equal (@zlen Z) E) as El. autorewrite with zlen in El, Em |- *.
  destruct (Z.ltb_spec (zlen p + zlen q) (zlen p + zlen u)).
  - rewrite (drop_ge (p ++ q)), app_nil_r by (rewrite length_app; unfold zlen in *; lia).
    destruct y as [|z y]; [uc_len|].
    rewrite (app_assoc p u), wr_app_r by (by rewrite zlen_app). run. eexists. split; [done|].
    exists y. unfold with_text. cbn [cstring.count cstring.max]. rewrite !zlen_app, zlen_cons in *.
    rewrite <- !app_assoc. split; [done|]. lia.
  - eexists. split; [done|]. destruct (block_split q (zlen u)) as (x' & k & -> & Hx'); [lia|].
    rewrite <- app_assoc in E. apply app_inj_1 in E as [-> <-]; [|unfold zlen in *; lia].
    exists r. unfold with_text. cbn [cstring.count cstring.max].
    rewrite (app_assoc p x k), drop_app_length' by (rewrite length_app; unfold zlen in *; lia).
    rewrite <- !app_assoc. split; [|uc_len]. f_equal. uc_len.
Qed.

(** What [paste] inserts. *)
Definition paste_text (offset size : Z) (t s : list Z) : list Z :=
  take (Z.to_nat offset) s ++ take (Z.to_nat size) t ++ drop (Z.to_nat offset) s.

Lemma paste_has c n m s b t offset size : weak c n m s -> cstr b = Some t -> 0 <= offset ->
  0 < size <= zlen t -> zlen s + size <= m ->
  exists c', StringObj.paste_cell offset size b c = Some c' /\ has c' n m (paste_text offset size t s).
Proof.
  intros (x0 & r & -> & ->) Ht Ho Hz Hm. unfold StringObj.paste_cell, paste_text.
  cbn [len text]. destruct (cstr_inv b t Ht) as (Hn & br & ->).
  destruct (block_split t size) as (u & v & -> & <-); [lia|].
  rewrite (zlen_to_nat u), take_app_length.
  unfold with_text. cbn [cstring.count cstring.max].
  destruct (Z.leb_spec (zlen s) offset).
  - rewrite take_ge, drop_ge, app_nil_r by (unfold zlen in *; lia). unfold Str.behind.
    rewrite zlen_to_nat, drop_app_length, take_app_length.
    destruct (set_spec (x0 :: r) (zlen u + 1) (Some ((u ++ v) ++ 0 :: br)) (u ++ v))
      as (r' & -> & Hr'); [rewrite zlen_cons; lia|done|]. run.
    replace (Z.to_nat (zlen u + 1 - 1)) with (length u) in * by (unfold zlen; lia).
    rewrite take_app_length in *. rewrite (app_assoc s u), <- (zlen_app s u). apply fix_has'.
    autorewrite with zlen in *. lia.
  - destruct (block_split s offset) as (p & q & -> & <-); [lia|].
    rewrite zlen_to_nat, take_app_length, drop_app_length, <- !app_assoc.
    unfold memmove. rewrite (slice_mid p q (x0 :: r)) by (done || (rewrite zlen_app; lia)). run.
    destruct (block_split (q ++ x0 :: r) (zlen u)) as (x & y & E & Hx).
    { autorewrite with zlen in *. lia. }
    pose proof (f_equal (@zlen Z) E) as El. autorewrite with zlen in El, Hm.
    destruct (block_split y (zlen q)) as (y1 & y2 & -> & Hy).
    { pose proof (zlen_nonneg q). lia. }
    rewrite E, (app_assoc p x), blit_mid by (rewrite ?zlen_app; unfold zlen in *; lia). run.
    rewrite (slice_mid [] u (v ++ 0 :: br) 0 (zlen u) eq_refl eq_refl : slice (u ++ v ++ 0 :: br) 0 _ = _).
    run. rewrite <- app_assoc, blit_mid by (done || (unfold zlen in *; lia)). run.
    destruct y2 as [|z y2]; [uc_len|].
    rewrite (app_assoc u q), (app_assoc p (u ++ q)).
    replace (zlen (p ++ q) + zlen u) with (zlen (p ++ u ++ q)) by uc_len. apply fix_has'.
    autorewrite with zlen in *. lia.
Qed.
