(* ===== verification/StringHeap.v ===== *)
(** * Programs of String objects

    A program state is the heap and the [str] pointers of the program's String
    objects, by number.  A command is one call of a String operation on one of
    them.  The theorems: no valid command of a well formed state fails or breaks the
    reference counts, when the last object is gone the heap is empty; what each
    command leaves in its object; and which commands other objects notice.  Not
    valid ([valid_op]) is a [paste] into an object without a cell: the code does not
    retain the cell it makes there, so the counts are wrong behind it
    ([paste_not_retained], at the end of the file). *)

From stdpp Require Import gmap strings.
From S2P Require Import Prelude CLib Strings StringObj StringLaws.

(** The changes of one object's string. *)
Inductive op :=
  | Set_ (s : list Z) | SetAt (offset : Z) (s : list Z) (size : Z)
  | Clear | ClearAt (offset : Z) | Cut (offset size : Z)
  | Trim (clist : list Z) | Chop (clist : list Z) | Strip (clist : list Z)
  | Upper | Lower | Erase | Split (pos : Z) | Rsplit (pos : Z)
  | Fill (size ch : Z) | Inc (offset : Z) | Dec (offset : Z) | Refix | Append (s : list Z)
  | Add (s : list Z) | AddChar (ch : Z) | Paste (offset : Z) (s : list Z) (size : Z)
  | Resize (size : Z) | AssignText (s : list Z) | Release.

(** The texts of a command are given by their characters. *)
Definition z (s : list Z) : list Z := s ++ [0].

Definition run_op `{Malloc} (o : op) (h : heap) (str : option loc) : option (heap * option loc) :=
  match o with
  | Set_ s => StringObj.set h str (cstring.Ext (z s))
  | SetAt offset s size => StringObj.set_at h str offset (Some (z s)) size
  | Clear => StringObj.clear h str
  | ClearAt offset => StringObj.clear_at h str offset
  | Cut offset size => StringObj.cut h str offset size
  | Trim cl => StringObj.trim h str cl
  | Chop cl => StringObj.chop h str cl
  | Strip cl => StringObj.strip h str cl
  | Upper => StringObj.upper h str
  | Lower => StringObj.lower h str
  | Erase => StringObj.erase h str
  | Split pos => StringObj.split h str pos
  | Rsplit pos => StringObj.rsplit h str pos
  | Fill size ch => StringObj.fill h str size ch
  | Inc offset => StringObj.inc h str offset
  | Dec offset => StringObj.dec h str offset
  | Refix => StringObj.refix h str
  | Append s => StringObj.append_in_place h str (z s)
  | Add s => StringObj.add h str (Some (z s))
  | AddChar ch => StringObj.add_char h str ch
  | Paste offset s size => StringObj.paste h str offset (Some (z s)) size
  | Resize size => StringObj.resize h str size
  | AssignText s => StringObj.assign_text h str (Some (z s))
  | Release => StringObj.release h str
  end.

(** ** Heaps and reference counts *)

Definition wf (h : heap) (R : loc -> Z) : Prop :=
  (forall l c, h !! l = Some c -> exists m s, has c (R l) m s /\ small m) /\
  (forall l, 0 <= R l) /\
  (forall l, 0 < R l <-> is_Some (h !! l)).

(** One reference more or less. *)
Definition one (str : option loc) (l : loc) : Z := if decide (str = Some l) then 1 else 0.

(** The capacity and the characters of an object. *)
Definition shows (h : heap) (str : option loc) (m : Z) (s : list Z) : Prop :=
  match str with
  | None => m = 0 /\ s = []
  | Some l => exists c n, h !! l = Some c /\ has c n m s
  end.

Definition live (R : loc -> Z) (str : option loc) : Prop := forall l, str = Some l -> 0 < R l.

Lemma one_self l : one (Some l) l = 1.
Proof. unfold one. by rewrite decide_True. Qed.

Lemma one_none l : one None l = 0.
Proof. unfold one. by rewrite decide_False. Qed.

Lemma one_ne l k : l <> k -> one (Some l) k = 0.
Proof. intros. unfold one. rewrite decide_False by congruence. done. Qed.

Lemma one_01 str l : 0 <= one str l <= 1.
Proof. unfold one. case_decide; lia. Qed.

Lemma wf_ext h R R' : wf h R -> (forall l, R l = R' l) -> wf h R'.
Proof.
  intros (H1 & H2 & H3) E. split_and!.
  - intros l c Hc. rewrite <- E. by apply H1.
  - intros l. by rewrite <- E.
  - intros l. by rewrite <- E.
Qed.

Lemma wf_cell h R l : wf h R -> 0 < R l -> exists c m s, h !! l = Some c /\ has c (R l) m s /\ small m.
Proof.
  intros (H1 & _ & H3) Hl. apply H3 in Hl as [c Hc]. destruct (H1 l c Hc) as (m & s & Hs & Hm).
  by exists c, m, s.
Qed.

(** Replacing a cell, with a new count. *)
Lemma wf_update h R R' l c m s : wf h R -> 0 < R l -> has c (R' l) m s -> small m -> 0 < R' l ->
  (forall k, k <> l -> R' k = R k) -> wf (<[l := c]> h) R'.
Proof.
  intros (H1 & H2 & H3) Hl Hc Hm Hl' HR. split_and!.
  - intros k ck Hk. destruct (decide (k = l)) as [->|Hne].
    + rewrite lookup_insert_eq in Hk. injection Hk as <-. by exists m, s.
    + rewrite lookup_insert_ne in Hk by done. rewrite HR by done. by apply H1.
  - intros k. destruct (decide (k = l)) as [->|]; [lia|]. rewrite HR by done. apply H2.
  - intros k. destruct (decide (k = l)) as [->|Hne].
    + rewrite lookup_insert_eq. split; [by eexists|done].
    + rewrite lookup_insert_ne by done. rewrite HR by done. apply H3.
Qed.

(** A new cell. *)
Lemma wf_new h R R' l c m s : wf h R -> R l = 0 -> has c (R' l) m s -> small m -> 0 < R' l ->
  (forall k, k <> l -> R' k = R k) -> wf (<[l := c]> h) R'.
Proof.
  intros (H1 & H2 & H3) Hl Hc Hm Hl' HR. split_and!.
  - intros k ck Hk. destruct (decide (k = l)) as [->|Hne].
    + rewrite lookup_insert_eq in Hk. injection Hk as <-. by exists m, s.
    + rewrite lookup_insert_ne in Hk by done. rewrite HR by done. by apply H1.
  - intros k. destruct (decide (k = l)) as [->|]; [lia|]. rewrite HR by done. apply H2.
  - intros k. destruct (decide (k = l)) as [->|Hne].
    + rewrite lookup_insert_eq. split; [by eexists|done].
    + rewrite lookup_insert_ne by done. rewrite HR by done. apply H3.
Qed.

Lemma wf_delete h R R' l : wf h R -> R' l = 0 -> (forall k, k <> l -> R' k = R k) ->
  wf (delete l h) R'.
Proof.
  intros (H1 & H2 & H3) Hl HR. split_and!.
  - intros k c Hk. apply lookup_delete_Some in Hk as [Hne Hk]. rewrite HR by done. by apply H1.
  - intros k. destruct (decide (k = l)) as [->|]; [lia|]. rewrite HR by done. apply H2.
  - intros k. destruct (decide (k = l)) as [->|Hne].
    + rewrite lookup_delete_eq. split; [lia|by intros []].
    + rewrite lookup_delete_ne by done. rewrite HR by done. apply H3.
Qed.

(** ** Operations on the heap

    [effect h R str s private res]: the operation on an object with pointer
    [str] succeeds; the reference moves from the old cell to the new one; the
    object shows [s]; other cells keep their characters, and so does the old one,
    if it is shared and the operation is [private]. *)
Definition effect (h : heap) (R : loc -> Z) (str : option loc) (s : list Z) (private : bool)
    (res : option (heap * option loc)) : Prop :=
  exists h' str' m, res = Some (h', str') /\
    wf h' (fun l => R l - one str l + one str' l) /\ shows h' str' m s /\
    (forall k, is_Some (h !! k) -> Some k <> str -> h' !! k = h !! k) /\
    (private = true -> forall l m t, str = Some l -> 1 < R l -> shows h str m t -> shows h' str m t).

Lemma effect_same h R str m s private : wf h R -> shows h str m s ->
  effect h R str s private (Some (h, str)).
Proof.
  intros Hw Hs. exists h, str, m. split_and!; try done.
  eapply wf_ext; [done|]. intros l. cbn. lia.
Qed.

(** In place: what the change of the cell leaves has the property [P]. *)
Lemma on_effect f h R str m s (P : list Z -> Prop) : wf h R -> live R str -> shows h str m s ->
  (str = None -> P []) ->
  (forall c n, has c n m s -> small m ->
    exists c' s', f c = Some c' /\ has c' n m s' /\ P s') ->
  exists s', effect h R str s' false (StringObj.on f h str) /\ P s'.
Proof.
  intros Hw Hlive Hs Hnone Hf. destruct str as [l|].
  - destruct Hs as (c & n & Hc & Hn). pose proof Hw as (H1 & _ & _).
    destruct (H1 l c Hc) as (m' & t & Ht & Hsm).
    assert (m' = m) as -> by (apply has_max in Ht, Hn; congruence).
    assert (n = R l) as -> by (apply has_count in Ht, Hn; congruence).
    destruct (Hf c (R l) Hn Hsm) as (c' & s' & Ec & Hc' & HP). exists s'. split; [|done].
    exists (<[l := c']> h), (Some l), m. unfold StringObj.on, upd. rewrite Hc. run. rewrite Ec. run.
    split_and!; [done| | | |done].
    + eapply (wf_update h R); [done|by apply Hlive| |done| |].
      * rewrite Z.sub_add. exact Hc'.
      * cbn. pose proof (Hlive l eq_refl). lia.
      * intros k _. cbn. lia.
    + exists c', (R l). by rewrite lookup_insert_eq.
    + intros k _ Hk. rewrite lookup_insert_ne by congruence. done.
  - exists []. split; [|by apply Hnone]. by apply (effect_same h R None 0 []).
Qed.

Section malloc.
Context `{Malloc}.

Lemma create_spec h R size : wf h R -> small size ->
  exists l, StringObj.create h size = Some
    (<[l := cstring.Mk 1 size 0 (0 :: junk size)]> h, l) /\ h !! l = None /\ R l = 0.
Proof.
  intros (H1 & H2 & H3) Hs. exists (fresh (dom h)).
  assert (h !! fresh (dom h) = None) as Hf by (apply not_elem_of_dom, is_fresh).
  unfold StringObj.create, StringObj.bare, StringObj.retain_cell, upd. rewrite lookup_insert_eq. run.
  rewrite insert_insert_eq. split_and!; [done|done|].
  pose proof (H2 (fresh (dom h))). destruct (Z.eq_dec (R (fresh (dom h))) 0); [done|].
  assert (0 < R (fresh (dom h))) as Hp by lia. apply H3 in Hp as [c Hc]. congruence.
Qed.

(** A new cell that is then filled. *)
Lemma fresh_effect h R size f s' : wf h R -> small size ->
  (forall c n, has c n size [] -> exists c', f c = Some c' /\ has c' n size s') ->
  effect h R None s' true
    ('(h, l) ← StringObj.create h size; StringObj.on f h (Some l)).
Proof.
  intros Hw Hs Hf. destruct (create_spec h R size Hw Hs) as (l & -> & Hl & Rl). run.
  destruct (Hf (cstring.Mk 1 size 0 (0 :: junk size)) 1) as (c' & Ec & Hc').
  { exists (junk size). split; [done|]. rewrite junk_length; unfold small in *; [done|lia]. }
  unfold StringObj.on, upd. rewrite lookup_insert_eq. run. rewrite Ec. run. rewrite insert_insert_eq.
  exists (<[l := c']> h), (Some l), size. split_and!; [done| | | |done].
  - eapply (wf_new h R _ l c' size s'); [done|done| |done| |].
    + rewrite Rl, one_self, one_none. exact Hc'.
    + cbn. rewrite Rl, one_self, one_none. lia.
    + intros k Hk. cbn. rewrite one_none, one_ne by done. lia.
  - exists c', 1. by rewrite lookup_insert_eq.
  - intros k [c Hk] _. rewrite lookup_insert_ne by congruence. done.
Qed.

Lemma of_size_effect h R size : wf h R -> small size ->
  effect h R None [] true (StringObj.of_size h size).
Proof.
  intros Hw Hs. destruct (create_spec h R size Hw Hs) as (l & E & Hl & Rl).
  unfold StringObj.of_size. rewrite E. run.
  assert (Hc' : has (cstring.Mk 1 size 0 (0 :: junk size)) 1 size []).
  { exists (junk size). split; [done|]. rewrite junk_length; unfold small in *; [done|lia]. }
  eexists _, (Some l), size. split_and!; [done| | | |done].
  - eapply (wf_new h R _ l _ size []); [done|done| |done| |].
    + rewrite Rl, one_self, one_none. exact Hc'.
    + cbn. rewrite Rl, one_self, one_none. lia.
    + intros k Hk. cbn. rewrite one_none, one_ne by done. lia.
  - eexists _, 1. by rewrite lookup_insert_eq.
  - intros k [c Hk] _. rewrite lookup_insert_ne by congruence. done.
Qed.

(** Dropping a reference. *)
Lemma release_spec h R str : wf h R -> live R str -> exists h',
  StringObj.release h str = Some (h', None) /\ wf h' (fun l => R l - one str l) /\
  (forall k, Some k <> str -> h' !! k = h !! k) /\
  (forall l m t, str = Some l -> 1 < R l -> shows h str m t -> shows h' str m t).
Proof.
  intros Hw Hlive. destruct str as [l|].
  - destruct (wf_cell h R l Hw (Hlive l eq_refl)) as (c & m & t & Hc & Ht & Hm).
    unfold StringObj.release, StringObj.release_cell. rewrite Hc. run.
    rewrite (has_count _ _ _ _ Ht). destruct Ht as (r & -> & Em).
    destruct (Z.ltb_spec 1 (R l)) as [Hl|Hl]; run.
    + eexists. split; [done|]. split; [|split].
      * eapply (wf_update h R); [done|lia| |exact Hm| |].
        -- exists r. rewrite one_self. done.
        -- cbn. rewrite one_self. lia.
        -- intros k Hk. cbn. rewrite one_ne by done. lia.
      * intros k Hk. rewrite lookup_insert_ne by congruence. done.
      * intros l' m' t' [= <-] _ (c' & n & Hc' & Hn). rewrite Hc in Hc'. injection Hc' as <-.
        destruct Hn as (r' & [= -> <- Ht Er] & Em'). eexists _, _. rewrite lookup_insert_eq.
        split; [done|]. exists r'. cbn [cstring.max cstring.len cstring.text]. by rewrite Ht, Er.
    + eexists. split; [done|]. split; [|split].
      * eapply wf_delete; [done| |].
        -- cbn. rewrite one_self. pose proof (Hlive l eq_refl). lia.
        -- intros k Hk. cbn. rewrite one_ne by done. lia.
      * intros k Hk. rewrite lookup_delete_ne by congruence. done.
      * intros l' m' t' [= <-] Hl'. lia.
  - exists h. split_and!; [done| |done|done]. eapply wf_ext; [done|]. intros l. cbn. rewrite one_none. lia.
Qed.
Lemma release_insert (h h' : heap) l l1 c : l1 <> l ->
  StringObj.release h (Some l) = Some (h', None) ->
  StringObj.release (<[l1 := c]> h) (Some l) = Some (<[l1 := c]> h', None).
Proof.
  intros Hne. unfold StringObj.release, StringObj.release_cell. rewrite lookup_insert_ne by done.
  destruct (h !! l) as [cl|]; [|done]. run. destruct (1 <? cstring.count cl); run; intros [= <-].
  - by rewrite (insert_insert_ne h) by done.
  - by rewrite delete_insert_ne by done.
Qed.

(** [cow]: afterwards the object alone holds its characters, with room. *)
Lemma cow_spec h R l m s size : wf h R -> 0 < R l -> shows h (Some l) m s ->
  0 < size -> small (zlen s + size) ->
  exists h1 l1 c1 m1 s1, StringObj.cow h (Some l) size = Some (h1, Some l1) /\
    h1 !! l1 = Some c1 /\ weak c1 1 m1 s1 /\ zlen s1 = zlen s /\ (nonul s -> s1 = s) /\
    zlen s + size <= m1 /\
    (forall c' s', has c' 1 m1 s' ->
      wf (<[l1 := c']> h1) (fun k => R k - one (Some l) k + one (Some l1) k)) /\
    (forall k, is_Some (h !! k) -> k <> l -> h1 !! k = h !! k /\ k <> l1) /\
    (1 < R l -> shows h1 (Some l) m s /\ l <> l1).
Proof.
  intros Hw Hl Hs Hsz Hsm. destruct Hs as (c & n & Hc & Hn).
  pose proof Hw as (H1 & _ & _). destruct (H1 l c Hc) as (m' & t & Ht & Hm').
  assert (m' = m) as -> by (apply has_max in Ht, Hn; congruence).
  assert (n = R l) as -> by (apply has_count in Ht, Hn; congruence). clear t Ht.
  pose proof Hn as (r & Ec & Em). unfold StringObj.cow. rewrite Hc. run.
  rewrite Ec. cbn [cstring.len cstring.max cstring.count cstring.text].
  pose proof (zlen_nonneg s). destruct (Z.eqb_spec (size + zlen s) 0); [lia|].
  destruct ((m =? 0) || (1 <? R l) || (m <? size + zlen s)) eqn:Eif.
  - destruct (create_spec h R (size + zlen s) Hw) as (l1 & -> & Hl1 & Rl1).
    { unfold small in *. lia. }
    run. unfold upd. rewrite lookup_insert_eq. run. cbn [cstring.text cstring.max].
    destruct (cstr_prefix s r) as (u & k & q & Eu & Es & Eq & Hk & _).
    set (M := size + zlen s) in *.
    destruct (set_spec (0 :: junk M) (M + 1) (Some (s ++ 0 :: r)) u) as (r' & -> & Hr').
    { rewrite zlen_cons, junk_length by lia. lia. }
    { exact Eu. }
    run. rewrite insert_insert_eq.
    destruct (release_spec h R (Some l) Hw) as (h2 & Hrel & Hw2 & Hfr & Hsh).
    { by intros ? [= <-]. }
    assert (l1 <> l) as Hne by congruence.
    rewrite (release_insert _ _ _ _ _ Hne Hrel). run.
    rewrite zlen_cons, junk_length in Hr' by lia.
    assert (Htk : take (Z.to_nat (M + 1 - 1)) u = u).
    { apply take_ge. pose proof (f_equal (@length Z) Es) as El. rewrite length_app in El.
      unfold M, zlen. lia. }
    rewrite Htk in *. set (b := u ++ 0 :: r') in *.
    destruct (block_split b (zlen s)) as (s1 & y & Eb & Hs1); [lia|].
    destruct y as [|x y]; [rewrite Eb in Hr'; uc_len|].
    eexists _, l1, _, M, s1. split; [done|]. rewrite lookup_insert_eq. split; [done|].
    split_and!; [|done| |lia| | |].
    + exists x, y. unfold cstring.with_text. cbn [cstring.count cstring.max]. rewrite Eb, Hs1.
      split; [done|]. rewrite Eb in Hr'. autorewrite with zlen in Hr'. lia.
    + intros Hnu. rewrite (Hk Hnu), app_nil_r in Es. subst u. unfold b in Eb.
      apply app_inj_1 in Eb as [<- _]; [done|]. unfold zlen in Hs1. lia.
    + intros c' s' Hc'. rewrite insert_insert_eq. eapply (wf_new h2 _ _ l1 c' M s'); [done| | | | |].
      * cbn. rewrite one_ne by done. lia.
      * rewrite one_ne, one_self, Rl1 by done. exact Hc'.
      * unfold small in *. lia.
      * cbn. rewrite one_ne, one_self by done. lia.
      * intros k' Hk'. cbn. rewrite (one_ne l1) by done. lia.
    + intros k' [ck Hk'] Hkl. rewrite lookup_insert_ne by congruence.
      rewrite Hfr by congruence. split; [done|congruence].
    + intros Hl1'. split; [|done]. destruct (Hsh l m s eq_refl Hl1') as (ck & nk & Hck & Hhk).
      { exists c, (R l). by split. }
      exists ck, nk. rewrite lookup_insert_ne by done. done.
  - apply orb_false_iff in Eif as [[_ E1]%orb_false_iff E2].
    apply Z.ltb_ge in E1, E2. assert (R l = 1) as R1 by lia.
    exists h, l, c, m, s. split_and!; [done|done| |done|done|lia| | |].
    + apply has_weak. by rewrite <- R1.
    + intros c' s' Hc'. eapply (wf_update h R); [done|done| | | |].
      * rewrite R1, one_self. exact Hc'.
      * exact Hm'.
      * cbn. rewrite one_self. lia.
      * intros k Hk. cbn. lia.
    + done.
    + lia.
Qed.

(** A [cow] and a change of the cell that is then private. *)
Lemma cow_effect f h R l m s size g : wf h R -> 0 < R l -> shows h (Some l) m s ->
  0 < size -> small (zlen s + size) ->
  (forall c m1 s1, weak c 1 m1 s1 -> zlen s1 = zlen s -> zlen s + size <= m1 ->
    exists c', f c = Some c' /\ has c' 1 m1 (g s1)) ->
  exists s1, (nonul s -> s1 = s) /\
  effect h R (Some l) (g s1) true
    ('(h, str) ← StringObj.cow h (Some l) size; StringObj.on f h str).
Proof.
  intros Hw Hl Hs Hsz Hsm Hf.
  destruct (cow_spec h R l m s size Hw Hl Hs Hsz Hsm)
    as (h1 & l1 & c1 & m1 & s1 & -> & Hc1 & Hweak & Hz & Hnu & Hroom & Hwf & Hfr & Hsh).
  run. exists s1. split; [done|]. destruct (Hf c1 m1 s1 Hweak Hz Hroom) as (c' & Ec & Hc').
  unfold StringObj.on, upd. rewrite Hc1. run. rewrite Ec. run.
  exists (<[l1 := c']> h1), (Some l1), m1. split_and!.
  - done.
  - by eapply Hwf.
  - exists c', 1. by rewrite lookup_insert_eq.
  - intros k Hk Hne. destruct (Hfr k Hk) as [Hk1 Hk2]; [congruence|].
    by rewrite lookup_insert_ne by done.
  - intros _ l' m' t [= <-] HR Ht. destruct (Hsh HR) as [(cs & ns & Hcs & Hhs) Hne].
    destruct Hs as (c & n & Hc & Hn). destruct Ht as (c2 & n2 & Hc2 & Hn2).
    rewrite Hc in Hc2. injection Hc2 as <-.
    assert (m' = m) as -> by (apply has_max in Hn, Hn2; congruence).
    assert (t = s) as ->.
    { destruct Hn as (ra & -> & Ha). destruct Hn2 as (rb & [= _ Hz2 Et] & Hb).
      apply app_inj_1 in Et as [? _]; [done|]. unfold zlen in Hz2. lia. }
    exists cs, ns. by rewrite lookup_insert_ne by done.
Qed.
End malloc.

(** ** The commands *)

(** When a command is used as intended: the sizes do not wrap, the texts are
    terminated, and a size given with a text does not exceed it; a text is pasted into
    an object that has a cell. *)
Definition valid_op (o : op) (str : option loc) (s : list Z) : Prop :=
  match o with
  | Set_ t | AssignText t | Append t => nonul t /\ small (zlen t)
  | SetAt offset t size => nonul t /\ small (zlen t) /\ small offset /\ small size
  | ClearAt offset | Split offset | Rsplit offset | Inc offset | Dec offset => 0 <= offset
  | Cut offset size => small offset /\ small size
  | Fill size _ | Resize size => small size
  | Add t => nonul t /\ small (zlen s + zlen t)
  | AddChar ch => small (zlen s + 1)
  | Paste offset t size => str <> None /\ nonul t /\ 0 <= offset /\ 0 <= size <= zlen t /\ small (zlen s + zlen t)
  | _ => True
  end.

(** What the object shows afterwards, from its capacity and characters: [fresh]
    when it had no cell. *)
Definition result (o : op) (fresh : bool) (m : Z) (s : list Z) : list Z :=
  match o with
  | Set_ t => if fresh then t else take (Z.to_nat m) t
  | SetAt offset t size =>
      if fresh then [] else set_at_text m offset (if size =? 0 then zlen t else size) t s
  | Clear | Release | Resize _ => []
  | ClearAt offset => take (Z.to_nat offset) s
  | Cut offset size => cut_text offset size s
  | Trim cl => trim_text cl s
  | Chop cl => chop_text cl s
  | Strip cl => chop_text cl (trim_text cl s)
  | Upper => map toupper s
  | Lower => map tolower s
  | Erase => replicate (length s) 0
  | Split pos => if zlen s <=? pos then s else <[Z.to_nat pos := 0]> s
  | Rsplit pos => if zlen s <? pos then s else drop (Z.to_nat pos) s
  | Fill size ch => s ++ replicate (Z.to_nat (if fresh then size else Z.min size (m - zlen s))) ch
  | Inc offset => drop (Z.to_nat (Z.max 1 offset)) s
  | Dec offset => if zlen s <=? offset then [] else take (length s - 1) s
  | Refix => s
  | Append t => if fresh then t else s ++ take (Z.to_nat (m - zlen s)) t
  | Add t => s ++ t
  | AddChar ch => if ch =? 0 then s else s ++ [ch]
  | Paste offset t size => paste_text offset (if size =? 0 then zlen t else size) t s
  | AssignText t => t
  end.

(** The commands that get a cell of their own before they write. *)
Definition private (o : op) : bool :=
  match o with Add _ | AddChar _ | Paste _ _ _ | Resize _ | AssignText _ | Release => true | _ => false end.

(** Two commands in turn. *)
Lemma effect_bind h R str s p res (k : heap -> option loc -> option (heap * option loc)) s' :
  effect h R str s p res -> p = false ->
  (forall h' m, res = Some (h', str) -> wf h' R -> shows h' str m s -> effect h' R str s' false (k h' str)) ->
  (forall h' str', res = Some (h', str') -> str' = str) ->
  effect h R str s' false ('(h, str) ← res; k h str).
Proof.
  intros (h1 & str1 & m1 & -> & Hw1 & Hs1 & Hf1 & _) _ Hk Hstr.
  rewrite (Hstr _ _ eq_refl) in *. run.
  assert (wf h1 R) as Hw.
  { eapply wf_ext; [exact Hw1|]. intros l. cbn. lia. }
  destruct (Hk h1 m1 eq_refl Hw Hs1) as (h2 & str2 & m2 & E2 & Hw2 & Hs2 & Hf2 & _).
  exists h2, str2, m2. split_and!; [done|done|done| |done].
  intros l Hl Hne. rewrite Hf2; [by apply Hf1| |done]. by rewrite Hf1.
Qed.

Lemma on_str f h str h' str' : StringObj.on f h str = Some (h', str') -> str' = str.
Proof.
  unfold StringObj.on. destruct str as [l|]; [|by intros [= <- <-]].
  destruct (upd h l f); [|done]. run. by intros [= <- <-].
Qed.

Lemma cstr_z t : nonul t -> cstr (z t) = Some t.
Proof. apply cstr_app. Qed.

Lemma strlen_z t : nonul t -> strlen (z t) = Some (zlen t).
Proof. apply strlen_app. Qed.

Lemma effect_weaken h R s p res : effect h R None s true res -> effect h R None s p res.
Proof.
  intros (h' & str' & m & E & Hw & Hs & Hf & _). exists h', str', m. split_and!; try done.
Qed.

Lemma set_none_block `{Malloc} h R b t p : wf h R -> cstr b = Some t -> small (zlen t) ->
  effect h R None t p (StringObj.set h None (cstring.Ext b)).
Proof.
  intros Hw Ht Hsm. apply effect_weaken. unfold StringObj.set, strlen. rewrite Ht.
  cbn [fmap option_fmap option_map]. run. unfold StringObj.of_source. apply fresh_effect; [done|done|].
  intros c n Hc. destruct (set_ext_has c n (zlen t) [] b t Hc Ht) as (c' & Ec & Hc').
  rewrite zlen_to_nat, take_ge in Hc' by done. by exists c'.
Qed.

Lemma set_none_effect `{Malloc} h R t p : wf h R -> nonul t -> small (zlen t) ->
  effect h R None t p (StringObj.set h None (cstring.Ext (z t))).
Proof. intros. by apply set_none_block; [|apply cstr_z|]. Qed.

(** A new object that is then changed. *)
Lemma effect_then h R s1 s2 res (k : heap -> option loc -> option (heap * option loc)) :
  wf h R -> effect h R None s1 true res ->
  (forall h' str m, wf h' (fun l => R l + one str l) -> shows h' str m s1 ->
    effect h' (fun l => R l + one str l) str s2 true (k h' str)) ->
  effect h R None s2 true ('(h, str) ← res; k h str).
Proof.
  intros Hw (h1 & str1 & m1 & -> & Hw1 & Hs1 & Hf1 & _) Hk. run.
  assert (Hw1' : wf h1 (fun l => R l + one str1 l)).
  { eapply wf_ext; [exact Hw1|]. intros l. cbn. rewrite one_none. lia. }
  destruct (Hk h1 str1 m1 Hw1' Hs1) as (h2 & str2 & m2 & -> & Hw2 & Hs2 & Hf2 & _).
  exists h2, str2, m2. split_and!; [done| |done| |done].
  - eapply wf_ext; [exact Hw2|]. intros l. cbn. rewrite one_none. lia.
  - intros l [c Hl] _. pose proof (Hf1 l (ex_intro _ c Hl) ltac:(done)) as E1.
    rewrite Hf2; [done|rewrite E1; by exists c|]. intros <-.
    destruct Hw as (Hc & _). destruct (Hc l c Hl) as (m & t & Ht & _).
    destruct Hw1' as (Hc1 & _). rewrite <- E1 in Hl. destruct (Hc1 l c Hl) as (m' & t' & Ht' & _).
    apply has_count in Ht, Ht'. rewrite one_self in Ht'. lia.
Qed.

(** The old reference is dropped first. *)
Lemma release_then h R str k s' : wf h R -> live R str ->
  (forall h', wf h' (fun l => R l - one str l) ->
    effect h' (fun l => R l - one str l) None s' true (k h' None)) ->
  effect h R str s' true ('(h, x) ← StringObj.release h str; k h x).
Proof.
  intros Hw Hl Hk. destruct (release_spec h R str Hw Hl) as (h1 & -> & Hw1 & Hf1 & Hs1). run.
  destruct (Hk h1 Hw1) as (h2 & str2 & m2 & E2 & Hw2 & Hs2 & Hf2 & _).
  exists h2, str2, m2. split_and!; [done| |done| |].
  - eapply wf_ext; [exact Hw2|]. intros l. cbn. rewrite one_none. lia.
  - intros k' Hk' Hne. rewrite Hf2; [by apply Hf1|by rewrite Hf1|done].
  - intros _ l m t -> Hr Ht. destruct (Hs1 l m t eq_refl Hr Ht) as (c & n & Hc & Hn).
    exists c, n. split; [|done]. rewrite Hf2; [done|by exists c|done].
Qed.

Section commands.
Context `{Malloc} (h : heap) (R : loc -> Z) (str : option loc) (m : Z) (s : list Z).
Context (Hw : wf h R) (Hl : live R str) (Hs : shows h str m s).

(** The effect with the functional result for terminated characters. *)
Definition command_effect (o : op) : Prop :=
  exists s', effect h R str s' (private o) (run_op o h str) /\
    (nonul s -> (forall size, o <> Resize size) -> s' = result o (bool_decide (str = None)) m s).

Lemma none_empty : str = None -> s = [].
Proof. intros ->. by destruct Hs. Qed.

Lemma none_m : str = None -> m = 0.
Proof. intros ->. by destruct Hs. Qed.

(** In place: the result when the characters are clean. *)
Lemma place_effect o f : private o = false -> run_op o h str = StringObj.on f h str ->
  (str = None -> result o true m s = []) ->
  (forall c n, has c n m s -> small m -> exists c' s', f c = Some c' /\ has c' n m s' /\
    (nonul s -> s' = result o (bool_decide (str = None)) m s)) ->
  command_effect o.
Proof.
  intros Hp Hrun Hnone Hf.
  destruct (on_effect f h R str m s (fun s' => nonul s -> s' = result o (bool_decide (str = None)) m s))
    as (s' & He & HP); [done|done|done| |done|].
  - intros E _. rewrite bool_decide_true by done. symmetry. by apply Hnone.
  - exists s'. rewrite Hp, Hrun. split; [done|]. intros Hn _. by apply HP.
Qed.

Lemma place_exact o f : private o = false -> run_op o h str = StringObj.on f h str ->
  (str = None -> result o true m s = []) ->
  (forall c n, has c n m s -> small m -> exists c', f c = Some c' /\
    has c' n m (result o (bool_decide (str = None)) m s)) ->
  command_effect o.
Proof.
  intros Hp Hrun Hnone Hf. apply (place_effect o f Hp Hrun Hnone). intros c n Hc Hm.
  destruct (Hf c n Hc Hm) as (c' & Ec & Hc'). by eexists _, _.
Qed.

(** Nothing to do. *)
Lemma skip_effect o : run_op o h str = Some (h, str) ->
  (nonul s -> (forall size, o <> Resize size) -> s = result o (bool_decide (str = None)) m s) ->
  command_effect o.
Proof. intros Hrun Hres. exists s. rewrite Hrun. split; [by eapply effect_same|done]. Qed.

(** An object without a cell gets one for the text. *)
Lemma set_fresh_effect t p : str = None -> nonul t -> small (zlen t) ->
  effect h R str t p (StringObj.set h None (cstring.Ext (z t))).
Proof. intros E Ht Hsm. rewrite E. by apply set_none_effect. Qed.

Ltac no_cell := intros E; rewrite (none_empty E); cbn; rewrite ?take_nil, ?drop_nil; try done.

Lemma some_on o f : str <> None -> (forall l, run_op o h (Some l) = StringObj.on f h (Some l)) ->
  run_op o h str = StringObj.on f h str.
Proof using h str. clear. destruct str; [auto|done]. Qed.

(** The two kinds of objects. *)
Lemma by_cell o f t : (str = None -> effect h R str t (private o) (run_op o h str)) ->
  (str = None -> t = result o true m s) ->
  (str <> None -> run_op o h str = StringObj.on f h str) -> private o = false ->
  (forall c n, has c n m s -> small m -> exists c', f c = Some c' /\ has c' n m (result o false m s)) ->
  command_effect o.
Proof.
  intros Hnone Ht Hrun Hp Hf. destruct (decide (str = None)) as [E|E].
  - exists t. split; [by apply Hnone|]. intros _ _. rewrite bool_decide_true by done. by apply Ht.
  - apply (place_exact _ f); [done|by apply Hrun|done|].
    rewrite bool_decide_false by done. done.
Qed.

Lemma set_command t : nonul t -> small (zlen t) -> command_effect (Set_ t).
Proof.
  intros Ht Hsm. apply (by_cell _ (fun c => cstring.set c (cstring.Ext (z t))) t); [|done| |done|].
  - intros E. cbn [run_op]. replace (StringObj.set h str (cstring.Ext (z t)))
      with (StringObj.set h None (cstring.Ext (z t))) by (by rewrite E). by apply set_fresh_effect.
  - intros E. apply some_on; [done|]. done.
  - intros c n Hc _. apply set_ext_has with (s := s); [done|by apply cstr_z].
Qed.

Lemma set_at_command offset t size : valid_op (SetAt offset t size) str s ->
  command_effect (SetAt offset t size).
Proof.
  intros (Ht & Hts & Ho & Hz). destruct t as [|x t].
  { apply skip_effect; [done|]. intros _ _. cbn. case_bool_decide as E.
    { by apply none_empty. }
    unfold set_at_text. rewrite take_nil. cbn. rewrite zlen_nil, Z.add_0_r, take_drop.
    by case_match. }
  apply (place_exact _ (fun c => cstring.set_at c offset (z (x :: t)) (if size =? 0 then zlen (x :: t) else size)));
    [done| |done|].
  - cbn [run_op]. unfold StringObj.set_at. cbn [z app]. rewrite rd_cons_0. run.
    destruct (Z.eqb_spec x 0) as [->|_]; [by inversion Ht|].
    destruct (size =? 0); [|by run]. rewrite (strlen_z (x :: t) Ht : strlen (x :: t ++ [0]) = _). by run.
  - intros c n Hc Hm. cbn [result]. case_bool_decide as E.
    + rewrite (none_m E), (none_empty E) in Hc. unfold cstring.set_at. rewrite (has_max _ _ _ _ Hc).
      unfold small in Ho. destruct (Z.leb_spec 0 offset); [|lia]. exists c. split; [done|].
      rewrite (none_m E). exact Hc.
    + apply set_at_has; try done; [by apply cstr_z|]. by destruct (size =? 0).
Qed.

Lemma strip_command cl : command_effect (Strip cl).
Proof.
  exists (chop_text cl (trim_text cl s)). split; [|done]. cbn [private run_op]. unfold StringObj.strip.
  destruct (on_effect (StringObj.trim_cell cl) h R str m s (fun s' => s' = trim_text cl s))
    as (s1 & He & ->); [done|done|done| | |].
  { intros E. by rewrite (none_empty E). }
  { intros c n Hc _. destruct (trim_has c n m s cl Hc) as (c' & Ec & Hc'). by eexists _, _. }
  apply (effect_bind h R str _ false _ _ _ He eq_refl).
  - intros h' m' _ Hw' Hs'.
    destruct (on_effect (StringObj.chop_cell cl) h' R str m' _
      (fun s' => s' = chop_text cl (trim_text cl s)) Hw' Hl Hs') as (s2 & He2 & ->); [| |done].
    { intros E. by rewrite (none_empty E). }
    { intros c n Hc _. destruct (chop_has c n m' _ cl Hc) as (c' & Ec & Hc'). by eexists _, _. }
  - intros h' str'. apply on_str.
Qed.

Lemma rsplit_command pos : 0 <= pos -> command_effect (Rsplit pos).
Proof.
  intros Hp. apply (place_effect _ (fun c => if (cstring.len c <? pos) || (pos =? 0) then Some c
    else cstring.set c (cstring.Own pos))); [done|done| |].
  { no_cell. by case_match. }
  intros c n Hc _. rewrite (has_len _ _ _ _ Hc). cbn [result].
  destruct (Z.ltb_spec (zlen s) pos); [by eexists _, _|]. cbn [orb].
  destruct (Z.eqb_spec pos 0) as [->|]; [by eexists _, _|].
  destruct (set_own_has c n m s pos Hc) as (c' & t & k & Ec & Hc' & Ed & Hk); [lia|].
  exists c', t. split_and!; [done|done|]. intros Hn. rewrite Ed, Hk, app_nil_r; [done|].
  rewrite <- (take_drop (Z.to_nat pos) s) in Hn. by apply nonul_app in Hn as [_ Hn].
Qed.

Lemma append_command t : nonul t -> small (zlen t) -> command_effect (Append t).
Proof.
  intros Ht Hsm. destruct (Z.eqb_spec (zlen t) 0) as [E0|Hne].
  { destruct t; [|uc_len]. apply skip_effect; [done|]. intros _ _. cbn.
    rewrite take_nil, app_nil_r. case_bool_decide as E; [by apply none_empty|done]. }
  assert (forall x, run_op (Append t) h x = match x with None => StringObj.set h None (cstring.Ext (z t))
    | Some _ => StringObj.on (fun c => cstring.add c (z t)) h x end) as Hrun.
  { intros x. cbn [run_op]. unfold StringObj.append_in_place. rewrite strlen_z by done. run.
    by destruct (Z.eqb_spec (zlen t) 0). }
  apply (by_cell _ (fun c => cstring.add c (z t)) t); [|done| |done|].
  - intros E. replace (run_op (Append t) h str) with (run_op (Append t) h None) by (by rewrite E).
    rewrite Hrun. by apply set_fresh_effect.
  - intros E. apply some_on; [done|]. intros l. apply Hrun.
  - intros c n Hc _. by apply add_has; [|apply cstr_z].
Qed.

Lemma fill_command size ch : small size -> command_effect (Fill size ch).
Proof.
  intros Hsz. apply (by_cell _ (StringObj.fill_cell size ch) (replicate (Z.to_nat size) ch));
    [| | |done|].
  - intros E. cbn [run_op private]. unfold StringObj.fill, StringObj.of_size.
    destruct (fresh_effect h R size (StringObj.fill_cell size ch) (replicate (Z.to_nat size) ch) Hw)
      as (h' & str' & m' & E' & He); [done| |].
    + intros c n Hc. destruct (fill_has c n size [] size ch Hc) as (c' & Ec & Hc');
        [unfold small in Hsz; lia|]. rewrite zlen_nil, Z.sub_0_r, Z.min_id in Hc'. by exists c'.
    + rewrite E. exists h', str', m'. split; [|tauto].
      destruct (StringObj.create h size) as [[hh ll]|]; [|done].
      exact E'.
  - intros E. cbn. by rewrite (none_empty E).
  - intros E. apply some_on; [done|]. done.
  - intros c n Hc _. apply fill_has; [done|unfold small in Hsz; lia].
Qed.

Lemma by_cow o f size t g : private o = true -> 0 < size -> small (zlen s + size) ->
  (str = None -> effect h R str t true (run_op o h str) /\ t = result o true m s) ->
  (forall l, run_op o h (Some l) =
    ('(h, str) ← StringObj.cow h (Some l) size; StringObj.on f h str)) ->
  (forall c m1 s1, weak c 1 m1 s1 -> zlen s1 = zlen s -> zlen s + size <= m1 ->
    exists c', f c = Some c' /\ has c' 1 m1 (g s1)) ->
  g s = result o false m s -> command_effect o.
Proof.
  intros Hp Hsz Hsm Hnone Hrun Hf Hg. unfold command_effect. rewrite Hp.
  destruct (decide (str = None)) as [E|E].
  - destruct (Hnone E) as [He Ht]. exists t. split; [done|]. intros _ _.
    by rewrite bool_decide_true.
  - destruct str as [l|] eqn:Estr; [|done].
    destruct (cow_effect f h R l m s size g Hw (Hl l eq_refl) Hs Hsz Hsm Hf) as (s1 & Hs1 & He).
    exists (g s1). rewrite Hrun. split; [done|]. intros Hn _. rewrite bool_decide_false by done.
    by rewrite Hs1.
Qed.

Lemma add_command t : nonul t -> small (zlen s + zlen t) -> command_effect (Add t).
Proof.
  intros Ht Hsm. destruct (Z.eqb_spec (zlen t) 0) as [E0|Hne].
  { destruct t; [|uc_len]. apply skip_effect; [done|]. intros _ _. cbn. by rewrite app_nil_r. }
  assert (forall x, run_op (Add t) h x = match x with None => StringObj.set h None (cstring.Ext (z t))
    | Some _ => '(h, str) ← StringObj.cow h x (zlen t); StringObj.on (fun c => cstring.add c (z t)) h str
    end) as Hrun.
  { intros x. cbn [run_op]. unfold StringObj.add. rewrite strlen_z by done. run.
    by destruct (Z.eqb_spec (zlen t) 0). }
  pose proof (zlen_nonneg t).
  apply (by_cow _ (fun c => cstring.add c (z t)) (zlen t) t (fun x => x ++ t));
    [done|lia|done| | | |done].
  - intros E. split; [|cbn; by rewrite (none_empty E)].
    replace (run_op (Add t) h str) with (run_op (Add t) h None) by (by rewrite E).
    rewrite Hrun. apply set_fresh_effect; [done|done|]. pose proof (zlen_nonneg s).
    unfold small in *. lia.
  - intros l. rewrite Hrun. done.
  - intros c m1 s1 Hc Hz Hm. apply add_weak; [done|by apply cstr_z|by intros ->|lia].
Qed.

Lemma add_char_command ch : small (zlen s + 1) -> command_effect (AddChar ch).
Proof.
  intros Hsm. destruct (Z.eqb_spec ch 0) as [->|Hne].
  { by apply skip_effect. }
  assert (Ht : nonul [ch]) by (by constructor).
  assert (forall x, run_op (AddChar ch) h x =
    match x with None => StringObj.set h None (cstring.Ext (z [ch]))
    | Some _ => '(h, str) ← StringObj.cow h x 1; StringObj.on (fun c => cstring.add c (z [ch])) h str
    end) as Hrun.
  { intros x. cbn [run_op]. unfold StringObj.add_char. by destruct (Z.eqb_spec ch 0). }
  apply (by_cow _ (fun c => cstring.add c (z [ch])) 1 [ch] (fun x => x ++ [ch]));
    [done|lia|done| | | |].
  - intros E. split; [|cbn; rewrite (none_empty E); by destruct (Z.eqb_spec ch 0)].
    replace (run_op (AddChar ch) h str) with (run_op (AddChar ch) h None) by (by rewrite E).
    rewrite Hrun. by apply set_fresh_effect.
  - intros l. rewrite Hrun. done.
  - intros c m1 s1 Hc Hz Hm. apply add_weak; [done|by apply cstr_z|done|]. change (zlen [ch]) with 1. lia.
  - cbn. by destruct (Z.eqb_spec ch 0).
Qed.

Lemma paste_command offset t size : valid_op (Paste offset t size) str s ->
  command_effect (Paste offset t size).
Proof.
  intros (Hstr & Ht & Ho & Hz & Hsm). set (n := if size =? 0 then zlen t else size).
  assert (Hn : 0 <= n <= zlen t) by (unfold n; destruct (Z.eqb_spec size 0); lia).
  assert (Hrun : forall x, run_op (Paste offset t size) h x = if n =? 0 then Some (h, x) else
    match x with
    | None => let '(h, l) := StringObj.bare h n in
        StringObj.on (fun c => b ← Str.set (cstring.text c) (n + 1) (Some (z t));
          cstring.fix_ (cstring.with_text c n b)) h (Some l)
    | Some _ => '(h, str) ← StringObj.cow h x n; StringObj.on (StringObj.paste_cell offset n (z t)) h str
    end).
  { intros x. cbn [run_op]. unfold StringObj.paste. rewrite strlen_z by done. unfold n.
    by destruct (size =? 0). }
  destruct (Z.eqb_spec n 0) as [E0|Hne].
  { apply skip_effect; [by rewrite Hrun|]. intros _ _. cbn [result]. unfold paste_text. fold n.
    rewrite E0. change (Z.to_nat 0) with 0%nat. rewrite take_0. cbn [app].
    by rewrite take_drop. }
  pose proof (zlen_nonneg s). unfold small in Hsm.
  apply (by_cow _ (StringObj.paste_cell offset n (z t)) n (take (Z.to_nat n) t) (paste_text offset n t));
    [done|lia|unfold small; lia| | | |done].
  - done.
  - intros l. by rewrite Hrun.
  - intros c m1 s1 Hc Hz1 Hm. apply paste_has; [done|by apply cstr_z|done|lia|lia].
Qed.

Lemma release_effect : effect h R str [] true (StringObj.release h str).
Proof.
  destruct (release_spec h R str Hw Hl) as (h1 & -> & Hw1 & Hf1 & Hs1).
  exists h1, None, 0. split_and!; [done| |done| |].
  - eapply wf_ext; [exact Hw1|]. intros l. cbn. rewrite one_none. lia.
  - intros k _. apply Hf1.
  - intros _. exact Hs1.
Qed.

Lemma assign_command t : nonul t -> small (zlen t) -> command_effect (AssignText t).
Proof.
  intros Ht Hsm. exists t. split; [|done]. cbn [run_op private]. unfold StringObj.assign_text.
  apply (release_then h R str (fun h str => StringObj.set h str (cstring.Ext (z t))));
    [done|done|]. intros h' Hw'. by apply set_none_effect.
Qed.

Lemma resize_command size : small size -> command_effect (Resize size).
Proof.
  intros Hsz. cbn [run_op private]. unfold command_effect, run_op, StringObj.resize.
  destruct (Z.eqb_spec size 0).
  { exists []. split; [apply release_effect|]. intros _ Hne. by destruct (Hne size). }
  destruct str as [l|] eqn:E.
  - pose proof Hs as (c & k & Hc & Hn). rewrite Hc. run.
    destruct ((1 <? cstring.count c) || (cstring.max c <? size)).
    + exists []. split; [|intros _ Hne; by destruct (Hne size)].
      apply (release_then h R (Some l) (fun h _ => StringObj.of_size h size)); [done|done|].
      intros h' Hw'. by apply of_size_effect.
    + exists s. split; [|intros _ Hne; by destruct (Hne size)]. by eapply effect_same.
  - exists []. split; [|intros _ Hne; by destruct (Hne size)]. by apply of_size_effect.
Qed.

(** Every command. *)
Lemma command o : valid_op o str s -> command_effect o.
Proof.
  destruct o; cbn [valid_op]; intros Hv.
  - destruct Hv. by apply set_command.
  - by apply set_at_command.
  - apply (place_exact _ (fun c => cstring.set c (cstring.Ext [0]))); [done|done|done|].
    intros c n Hc _. destruct (set_ext_has c n m s [0] [] Hc eq_refl) as (c' & Ec & Hc').
    rewrite take_nil in Hc'. by exists c'.
  - apply (place_exact _ (fun c => cstring.clear c offset)); [done|done|no_cell|].
    intros c n Hc _. by apply clear_has.
  - destruct Hv. apply (place_exact _ (StringObj.cut_cell offset size)); [done|done| |].
    { no_cell. unfold cut_text. by rewrite take_nil, drop_nil. }
    intros c n Hc Hm. by apply cut_has.
  - apply (place_exact _ (StringObj.trim_cell clist)); [done|done|no_cell|].
    intros c n Hc _. by apply trim_has.
  - apply (place_exact _ (StringObj.chop_cell clist)); [done|done|no_cell|].
    intros c n Hc _. by apply chop_has.
  - apply strip_command.
  - apply (place_effect _ (StringObj.retext Str.upper)); [done|done|no_cell|].
    intros c n Hc _. destruct (retext_has toupper c n m s Hc) as (c' & s' & Ec & Hc' & _ & Hn).
    by exists c', s'.
  - apply (place_effect _ (StringObj.retext Str.lower)); [done|done|no_cell|].
    intros c n Hc _. destruct (retext_has tolower c n m s Hc) as (c' & s' & Ec & Hc' & _ & Hn).
    by exists c', s'.
  - eapply place_exact; [done|done|no_cell|]. intros c n Hc _. by apply erase_has.
  - eapply place_exact; [done|done|no_cell; by case_match|]. intros c n Hc _. by apply split_has.
  - by apply rsplit_command.
  - by apply fill_command.
  - apply (place_exact _ (fun c => cstring.inc c offset)); [done|done|no_cell|].
    intros c n Hc _. by apply inc_has.
  - apply (place_exact _ (fun c => cstring.dec c offset)); [done|done|no_cell; by case_match|].
    intros c n Hc _. by apply dec_has.
  - eapply place_effect; [done|done|no_cell|]. intros c n Hc _.
    destruct (refix_has c n m s Hc) as (c' & t & k & Ec & Hc' & -> & Hk). exists c', t.
    split_and!; [done|done|]. intros Hn. cbn. by rewrite (Hk Hn), app_nil_r.
  - destruct Hv. by apply append_command.
  - destruct Hv. by apply add_command.
  - by apply add_char_command.
  - by apply paste_command.
  - by apply resize_command.
  - destruct Hv. by apply assign_command.
  - exists []. split; [apply release_effect|done].
Qed.
End commands.

(** ** Programs *)

Record program := Prog { hp : heap; objs : list (option loc) }.

Inductive cmd :=
  | Op (i : nat) (o : op)
  | New (s : list Z)
  | Copy (i : nat)
  | Assign (i j : nat)
  | Concat (i : nat) (s : list Z).

(** An operation on object [i], and one that makes a new object. *)
Definition at_obj (p : program) (i : nat) (f : heap -> option loc -> option (heap * option loc))
    : option program :=
  str ← objs p !! i; '(h, str) ← f (hp p) str; Some (Prog h (<[i := str]> (objs p))).

Definition new_obj (p : program) (res : option (heap * option loc)) : option program :=
  '(h, str) ← res; Some (Prog h (objs p ++ [str])).

Definition exec `{Malloc} (c : cmd) (p : program) : option program :=
  match c with
  | Op i o => at_obj p i (run_op o)
  | New s => new_obj p (StringObj.of_text (hp p) (Some (z s)))
  | Copy i => str ← objs p !! i; new_obj p (StringObj.copy (hp p) str)
  | Assign i j => other ← objs p !! j; at_obj p i (fun h str => StringObj.assign h str other)
  | Concat i s => str ← objs p !! i; new_obj p (StringObj.concat (hp p) str (Some (z s)))
  end.

(** How many objects hold a cell. *)
Fixpoint refs (os : list (option loc)) (l : loc) : Z :=
  match os with [] => 0 | o :: os => one o l + refs os l end.

Definition ok (p : program) : Prop := wf (hp p) (refs (objs p)).

Definition valid_cmd (c : cmd) (p : program) : Prop :=
  match c with
  | Op i o => exists str m s, objs p !! i = Some str /\ shows (hp p) str m s /\ valid_op o str s
  | New s => nonul s /\ small (zlen s)
  | Copy i => is_Some (objs p !! i)
  | Assign i j => is_Some (objs p !! i) /\ is_Some (objs p !! j)
  | Concat i s => exists str m t, objs p !! i = Some str /\ shows (hp p) str m t /\
      nonul s /\ small (zlen t + zlen s)
  end.

Lemma refs_app os os' l : refs (os ++ os') l = refs os l + refs os' l.
Proof. induction os; cbn; lia. Qed.

Lemma refs_nonneg os l : 0 <= refs os l.
Proof. induction os as [|o os]; cbn; [lia|]. pose proof (one_01 o l). lia. Qed.

Lemma refs_insert os i str str' l : os !! i = Some str ->
  refs (<[i := str']> os) l = refs os l - one str l + one str' l.
Proof.
  intros Hi. rewrite <- (take_drop_middle os i str Hi) at 2.
  rewrite insert_take_drop by (by eapply lookup_lt_Some).
  rewrite !refs_app. cbn. lia.
Qed.

Lemma refs_live os i str : os !! i = Some str -> live (refs os) str.
Proof.
  intros Hi l ->. rewrite <- (take_drop_middle os i _ Hi), refs_app. cbn. rewrite one_self.
  pose proof (refs_nonneg (take i os) l). pose proof (refs_nonneg (drop (S i) os) l). lia.
Qed.

Lemma ok_shows p i str : ok p -> objs p !! i = Some str -> exists m s, shows (hp p) str m s.
Proof.
  intros Hok Hi. destruct str as [l|]; [|by exists 0, []].
  destruct (wf_cell _ _ l Hok (refs_live _ _ _ Hi l eq_refl)) as (c & m & s & Hc & Hs & _).
  by exists m, s, c, (refs (objs p) l).
Qed.

(** A sound outcome for one object that the others do not notice. *)
Definition keeps (h : heap) (R : loc -> Z) (str : option loc) (s : list Z)
    (res : option (heap * option loc)) : Prop :=
  exists h' str' m, res = Some (h', str') /\
    wf h' (fun l => R l - one str l + one str' l) /\ shows h' str' m s /\
    (forall o m t, (forall l, o = str -> o = Some l -> 1 < R l) -> shows h o m t -> shows h' o m t).

Lemma effect_keeps h R str s res : wf h R -> effect h R str s true res -> keeps h R str s res.
Proof.
  intros Hw (h' & str' & m & E & Hw' & Hs & Hf & Hp). exists h', str', m.
  split_and!; [done|done|done|]. intros o mo t Ho Hsh. destruct o as [l|]; [|done].
  destruct (decide (Some l = str)) as [E'|Hne].
  - subst str. by apply (Hp eq_refl l); [|apply Ho|].
  - destruct Hsh as (c & n & Hc & Hn). exists c, n. split; [|done]. rewrite Hf; [done|by exists c|done].
Qed.

Lemma copy_keeps h R str m s : wf h R -> live R str -> shows h str m s ->
  keeps h R None s (StringObj.copy h str).
Proof.
  intros Hw Hl Hs. unfold StringObj.copy, StringObj.retain. destruct str as [l|].
  - destruct (wf_cell h R l Hw (Hl l eq_refl)) as (c & m' & t & Hc & Ht & Hm').
    unfold StringObj.retain_cell, upd. rewrite Hc. run. run.
    assert (Hsh : forall o mo t, shows h o mo t -> shows (<[l := cstring.Mk (cstring.count c + 1)
      (cstring.max c) (cstring.len c) (cstring.text c)]> h) o mo t).
    { intros [k|] mo t' Ho; [|done]. destruct Ho as (ck & n & Hck & Hn).
      destruct (decide (k = l)) as [->|Hne].
      - rewrite Hc in Hck. injection Hck as <-. eexists _, _. rewrite lookup_insert_eq. split; [done|].
        destruct Hn as (r & -> & Em). by exists r.
      - exists ck, n. by rewrite lookup_insert_ne by done. }
    eexists _, (Some l), m. split_and!; [done| |by apply Hsh|intros; by apply Hsh].
    destruct Ht as (r & -> & Em). eapply (wf_update h R); [done|by apply Hl| |exact Hm'| |].
    + exists r. rewrite one_self, one_none. cbn [cstring.count cstring.max cstring.len cstring.text].
      split; [|done]. f_equal. lia.
    + cbn. rewrite one_self, one_none. pose proof (Hl l eq_refl). lia.
    + intros k Hk. cbn. rewrite one_ne, one_none by done. lia.
  - exists h, None, m. split_and!; [done| |done|done].
    eapply wf_ext; [done|]. intros l. cbn. lia.
Qed.

Lemma assign_keeps h R str other m s : wf h R -> live R str -> live R other -> shows h other m s ->
  keeps h R str s (StringObj.assign h str other).
Proof.
  intros Hw Hl Ho Hs. unfold StringObj.assign. case_decide as E.
  { subst other. exists h, str, m. split_and!; try done. eapply wf_ext; [done|]. intros l. cbn. lia. }
  destruct (copy_keeps h R other m s Hw Ho Hs) as (h1 & str1 & m1 & E1 & Hw1 & Hs1 & Hk1).
  unfold StringObj.copy in E1. destruct (StringObj.retain h other) as [h1'|]; [|done].
  injection E1 as -> <-. run.
  destruct (release_spec h1 _ str Hw1) as (h2 & E2 & Hw2 & Hf2 & Hs2).
  { intros l El. cbn. rewrite one_none. pose proof (Hl l El). pose proof (one_01 other l). lia. }
  rewrite E2. run. exists h2, other.
  assert (Hkeep : forall o mo t, (forall l, o = str -> o = Some l -> 1 < R l) -> shows h o mo t ->
    shows h2 o mo t).
  { intros o mo t Hlive Hsh. apply Hk1 in Hsh; [|intros; congruence]. destruct o as [l|]; [|done].
    destruct (decide (Some l = str)) as [<-|Hne].
    - apply (Hs2 l); [done| |done]. cbn. rewrite one_none. pose proof (Hlive l eq_refl eq_refl).
      pose proof (one_01 other l). lia.
    - destruct Hsh as (c & n & Hc & Hn). exists c, n. by rewrite Hf2. }
  exists m. split_and!; [done| | |done].
  - eapply wf_ext; [exact Hw2|]. intros l. cbn. rewrite one_none. lia.
  - apply Hkeep; [|done]. intros l. congruence.
Qed.

Lemma of_text_keeps `{Malloc} h R s : wf h R -> nonul s -> small (zlen s) ->
  keeps h R None s (StringObj.of_text h (Some (z s))).
Proof.
  intros Hw Hs Hsm. apply effect_keeps; [done|]. unfold StringObj.of_text, Str.count.
  rewrite strlen_z by done. run.
  pose proof (set_none_effect h R s true Hw Hs Hsm) as He. unfold StringObj.set in He.
  rewrite strlen_z in He by done. exact He.
Qed.

Lemma concat_keeps `{Malloc} h R str m t s : wf h R -> shows h str m t -> nonul s ->
  small (zlen t + zlen s) -> exists u, (nonul t -> u = t ++ s) /\
  keeps h R None u (StringObj.concat h str (Some (z s))).
Proof.
  intros Hw Hsh Hs Hsm. unfold StringObj.concat.
  assert (exists b u k, StringObj.c_str h str = Some b /\ cstr b = Some u /\ t = u ++ k /\
    (nonul t -> k = [])) as (b & u & k & -> & Hu & -> & Hk).
  { destruct str as [l|].
    - destruct Hsh as (c & n & Hc & r & -> & _). cbn. rewrite Hc.
      destruct (cstr_prefix t r) as (u & k & q & Hu & -> & _ & Hk & _).
      by eexists _, u, k.
    - destruct Hsh as [_ ->]. by exists [0], [], []. }
  rewrite zlen_app in Hsm. pose proof (zlen_nonneg u). pose proof (zlen_nonneg k).
  pose proof (zlen_nonneg s). unfold small in Hsm. destruct (cstr_inv b u Hu) as (Hnu & _).
  run. unfold strlen. rewrite Hu. cbn [fmap option_fmap option_map]. run.
  assert (Hadd : forall h' R' str' m', wf h' R' -> live R' str' -> shows h' str' m' u ->
    effect h' R' str' (u ++ s) true (StringObj.add h' str' (Some (z s)))).
  { intros h' R' str' m' Hw' Hl' Hs'.
    destruct (add_command h' R' str' m' u Hw' Hl' Hs' s Hs) as (u' & He & Hu'); [unfold small; lia|].
    by rewrite (Hu' Hnu) in He. }
  exists (u ++ s). split; [intros Hn; by rewrite (Hk Hn), app_nil_r|]. apply effect_keeps; [done|].
  destruct (Z.eqb_spec (zlen u) 0) as [E|].
  - destruct u; [|uc_len]. run. eapply (Hadd h R None 0); done.
  - apply (effect_then h R u (u ++ s) _ (fun h tmp => StringObj.add h tmp (Some (z s))));
      [done|apply set_none_block; [done|done|unfold small; lia]|].
    intros h' str' m' Hw' Hs'. eapply Hadd; [done| |done].
    intros l ->. cbn. rewrite one_self. destruct Hw as (_ & Hnn & _). pose proof (Hnn l). lia.
Qed.

(** Two objects with the same cell. *)
Lemma refs_two os i j l : i <> j -> os !! i = Some (Some l) -> os !! j = Some (Some l) ->
  1 < refs os l.
Proof.
  revert i j. induction os as [|o os IH]; intros [|i] [|j] Hne Hi Hj; try done; cbn.
  - injection Hi as ->. rewrite one_self. pose proof (refs_live os j _ Hj l eq_refl). lia.
  - injection Hj as ->. rewrite one_self. pose proof (refs_live os i _ Hi l eq_refl). lia.
  - assert (1 < refs os l) by (eapply (IH i j); [congruence|done|done]). pose proof (one_01 o l). lia.
Qed.

(** The commands that are not private stay with the cell. *)
Lemma place_str `{Malloc} o h l h' str' : private o = false ->
  run_op o h (Some l) = Some (h', str') -> str' = Some l.
Proof.
  destruct o; cbn [private run_op]; intros Hp; try discriminate Hp; clear Hp; try apply on_str.
  - unfold StringObj.set_at. destruct (rd (z s) 0) as [x|]; [|done]. run.
    destruct (x =? 0); [by intros [= <- <-]|].
    destruct (if size =? 0 then _ else _); [|done]. run. apply on_str.
  - unfold StringObj.strip. destruct (StringObj.trim h (Some l) clist) as [[h1 s1]|] eqn:E; [|done].
    unfold StringObj.trim in E. apply on_str in E as ->. run. apply on_str.
  - unfold StringObj.append_in_place. destruct (strlen (z s)); [|done]. run.
    destruct (_ =? 0); [by intros [= <- <-]|]. apply on_str.
Qed.

(** ** The properties *)

Lemma at_obj_ok p i str s' f : objs p !! i = Some str ->
  (exists h' str' m, f (hp p) str = Some (h', str') /\
    wf h' (fun l => refs (objs p) l - one str l + one str' l) /\ shows h' str' m s') ->
  exists p', at_obj p i f = Some p' /\ ok p'.
Proof.
  intros Hi (h' & str' & m & E & Hw & _). unfold at_obj. rewrite Hi. run. rewrite E. run.
  eexists. split; [done|]. eapply wf_ext; [exact Hw|]. intros l. symmetry. by apply refs_insert.
Qed.

Lemma new_obj_ok p s' res : keeps (hp p) (refs (objs p)) None s' res ->
  exists p', new_obj p res = Some p' /\ ok p'.
Proof.
  intros (h' & str' & m & E & Hw & _). unfold new_obj. rewrite E. run.
  eexists. split; [done|]. eapply wf_ext; [exact Hw|]. intros l. cbn.
  rewrite refs_app, one_none. cbn. lia.
Qed.


(** Two strings that share a cell, and a third one. *)
Definition sample : program :=
  Prog (<[1%positive := cstring.Mk 2 4 2 (bytes "ab" ++ [0; 7; 7])]>
       (<[2%positive := cstring.Mk 1 1 1 (bytes "c" ++ [0])]> ∅))
    [Some 1%positive; Some 1%positive; Some 2%positive; None].

Lemma sample_shows : shows (hp sample) (Some 1%positive) 4 (bytes "ab").
Proof. by exists (cstring.Mk 2 4 2 (bytes "ab" ++ [0; 7; 7])), 2; split; [|exists [7; 7]]. Qed.

Lemma sample_ok : ok sample.
Proof.
  split_and!.
  - intros l c. cbn [hp sample]. intros [[<- <-]|[Hl [[<- <-]|[_ He]]%lookup_insert_Some]]%lookup_insert_Some.
    + exists 4, (bytes "ab"). split; [by exists [7; 7]|done].
    + exists 1, (bytes "c"). split; [by exists []|done].
    + by rewrite lookup_empty in He.
  - intros l. apply refs_nonneg.
  - intros l. cbn [hp objs sample refs].
    destruct (decide (l = 1%positive)) as [->|H1]; [vm_compute; split; [by eexists|done]|].
    destruct (decide (l = 2%positive)) as [->|H2]; [vm_compute; split; [by eexists|done]|].
    rewrite !one_ne by congruence. rewrite one_none, !lookup_insert_ne, lookup_empty by congruence.
    split; [lia|by intros []].
Qed.


(** What a command on object [i] leaves. *)
Lemma exec_op `{Malloc} p i o str m s : ok p -> objs p !! i = Some str -> shows (hp p) str m s ->
  valid_op o str s -> exists h' str' m' s', exec (Op i o) p = Some (Prog h' (<[i := str']> (objs p))) /\
    effect (hp p) (refs (objs p)) str s' (private o) (run_op o (hp p) str) /\
    run_op o (hp p) str = Some (h', str') /\ shows h' str' m' s' /\
    (nonul s -> (forall size, o <> Resize size) -> s' = result o (bool_decide (str = None)) m s).
Proof.
  intros Hok Hi Hs Hv.
  destruct (command (hp p) _ str m s Hok (refs_live _ _ _ Hi) Hs o Hv) as (s' & He & Hres).
  pose proof He as (h' & str' & m' & E & Hw & Hs' & _). exists h', str', m', s'.
  split_and!; [|done|done|done|done]. cbn [exec]. unfold at_obj. rewrite Hi. run. rewrite E. by run.
Qed.

Lemma set_nth_same (p : program) i str : objs p !! i = Some str -> forall x, (<[i := x]> (objs p)) !! i = Some x.
Proof. intros Hi x. apply list_lookup_insert_eq. by eapply lookup_lt_Some. Qed.



(** C10.  Copy on write: [add], [paste], assignment, [resize] and release of one
    object, a copy, an assignment from another object and a concatenation leave
    every other object with the cell, the capacity and the characters it had,
    also when it shared the cell.  The counts are right before ([ok]), and a [paste]
    into an object without a cell is not among the valid commands: the cell it makes
    has a count that is one too low ([paste_not_retained]). *)
Theorem string_copy_on_write `{Malloc} (p p' : program) (c : cmd) (j : nat) (k : option loc) (n : Z) (t : list Z) :
  ok p -> valid_cmd c p ->
  (match c with Op i o => private o = true /\ i <> j | Assign i _ => i <> j | _ => True end) ->
  exec c p = Some p' -> objs p !! j = Some k -> shows (hp p) k n t ->
  objs p' !! j = Some k /\ shows (hp p') k n t.
Proof.
  intros Hok Hv Hc He Hj Hs.
  assert (Hat : forall i str s' f, i <> j -> objs p !! i = Some str ->
    keeps (hp p) (refs (objs p)) str s' (f (hp p) str) -> at_obj p i f = Some p' ->
    objs p' !! j = Some k /\ shows (hp p') k n t).
  { intros i str s' f Hne Hi (h' & str' & m' & E & _ & _ & Hk). unfold at_obj. rewrite Hi, bind_Some, E.
    run. intros [= <-]. cbn [objs hp]. rewrite list_lookup_insert_ne by done. split; [done|].
    apply Hk; [|done]. intros l -> ->. eapply refs_two; done. }
  assert (Hnew : forall s' res, keeps (hp p) (refs (objs p)) None s' res -> new_obj p res = Some p' ->
    objs p' !! j = Some k /\ shows (hp p') k n t).
  { intros s' res (h' & str' & m' & E & _ & _ & Hk). unfold new_obj. rewrite E.
    run. intros [= <-]. cbn [objs hp]. split; [by apply lookup_app_l_Some|].
    apply Hk; [congruence|done]. }
  destruct c as [i o|s|i|i i'|i s]; cbn [valid_cmd exec] in Hv, He.
  - destruct Hc as [Hp Hne]. destruct Hv as (str & m & s & Hi & Hss & Hv).
    destruct (exec_op p i o str m s Hok Hi Hss Hv) as (h' & str' & m' & s' & _ & Heff & _).
    rewrite Hp in Heff. eapply Hat; [done|done| |done]. by apply effect_keeps.
  - destruct Hv. eapply Hnew; [|done]. by apply of_text_keeps.
  - destruct Hv as [str Hi]. rewrite Hi in He. rewrite bind_Some in He.
    destruct (ok_shows p i str Hok Hi) as (m & s & Hss).
    eapply Hnew; [|done]. eapply copy_keeps; [done|by eapply refs_live|done].
  - destruct Hv as [[str Hi] [other Hi']]. rewrite Hi', bind_Some in He.
    destruct (ok_shows p i' other Hok Hi') as (m & s & Hss). eapply Hat; [done|done| |done].
    eapply assign_keeps; [done|by eapply refs_live|by eapply refs_live|done].
  - destruct Hv as (str & m & u & Hi & Hss & Ht & Hsm). rewrite Hi, bind_Some in He.
    destruct (concat_keeps (hp p) _ str m u s Hok Hss Ht Hsm) as (v & _ & Hk).
    eapply Hnew; [exact Hk|done].
Qed.

Lemma string_copy_on_write_witness : exists p',
  @exec zero_malloc (Op 0 (Add (bytes "xyz"))) sample = Some p' /\
  objs p' !! 1%nat = Some (Some 1%positive) /\ shows (hp p') (Some 1%positive) 4 (bytes "ab").
Proof.
  destruct (@exec zero_malloc (Op 0 (Add (bytes "xyz"))) sample) as [p'|] eqn:E; [|discriminate E].
  exists p'. split; [reflexivity|].
  apply (@string_copy_on_write zero_malloc sample p' (Op 0 (Add (bytes "xyz"))) 1 (Some 1%positive) 4
    (bytes "ab") sample_ok).
  - exists (Some 1%positive), 4, (bytes "ab"). split; [reflexivity|]. split; [exact sample_shows|].
    split; [repeat constructor; discriminate|split; [discriminate|reflexivity]].
  - split; [reflexivity|discriminate].
  - exact E.
  - reflexivity.
  - exact sample_shows.
Defined.

(** The other operations write into the cell they find, also when it is
    shared: after a copy, a [cut], [trim], [clear], [set] of a text or any other
    command that is not [private] on one object changes the other one the same
    way. *)
Theorem string_in_place_shared `{Malloc} (p : program) (i j : nat) (o : op) (l : loc) (m : Z) (s : list Z) :
  ok p -> objs p !! i = Some (Some l) -> objs p !! j = Some (Some l) ->
  shows (hp p) (Some l) m s -> valid_op o (Some l) s -> nonul s -> private o = false ->
  exists p' m', exec (Op i o) p = Some p' /\ objs p' !! j = Some (Some l) /\
    shows (hp p') (Some l) m' (result o false m s).
Proof.
  intros Hok Hi Hj Hs Hv Hn Hp.
  destruct (exec_op p i o _ m s Hok Hi Hs Hv) as (h' & str' & m' & s' & E & _ & Er & Hs' & Hres).
  assert (str' = Some l) as -> by (by eapply place_str).
  eexists _, m'. split; [exact E|]. cbn [objs hp]. rewrite bool_decide_false in Hres by done.
  rewrite <- Hres; [|done|by intros size ->]. split; [|done].
  destruct (decide (i = j)) as [->|]; [by eapply set_nth_same|by rewrite list_lookup_insert_ne].
Qed.

Lemma string_in_place_shared_witness : exists p' m',
  @exec zero_malloc (Op 0 (Cut 0 1)) sample = Some p' /\ objs p' !! 1%nat = Some (Some 1%positive) /\
  shows (hp p') (Some 1%positive) m' (result (Cut 0 1) false 4 (bytes "ab")).
Proof.
  apply (@string_in_place_shared zero_malloc sample 0 1 (Cut 0 1) 1%positive 4 (bytes "ab") sample_ok
    eq_refl eq_refl sample_shows); [split; split; discriminate || reflexivity| |reflexivity].
  repeat constructor; discriminate.
Defined.

(** ** A text pasted into an object without a cell

    [paste] does not retain the cell it makes: a copy of the object has the cell with
    it, and the count is that of one object.  When one of them is gone, so is the cell
    of the other. *)
Example paste_not_retained :
  let paste := Op 0 (Paste 0 (bytes "ab") 0) in
  (exists p, @exec zero_malloc paste (Prog ∅ [None]) = Some p /\ cstring.count <$> (hp p !! 1%positive) = Some 0) /\
  (p ← @exec zero_malloc paste (Prog ∅ [None]); p ← @exec zero_malloc (Copy 0) p;
   p ← @exec zero_malloc (Op 0 Release) p; Some (objs p, hp p !! 1%positive)) = Some ([None; Some 1%positive], None) /\
  (p ← @exec zero_malloc paste (Prog ∅ [None]); p ← @exec zero_malloc (Copy 0) p;
   p ← @exec zero_malloc (Op 0 Release) p; @exec zero_malloc (Op 1 Release) p) = None.
Proof. split; [by eexists|]. split; by vm_compute. Qed.
