(* ===== verification/Linked.v ===== *)
(** * Linked objects (corelib/linked.cpp, inc/ucommon/linked.h)

    The memory holds the nodes, one record for every class of the hierarchy
    ([LinkedObject], [OrderedObject], [NamedObject], [NamedTree],
    [DLinkedObject]), and the [OrderedIndex] objects.  The [Child] index of a
    tree node lies at the node's own address.  A [LinkedObject **root] argument
    is the value of the variable it points to, returned with the result; the hash
    index of [NamedObject] is the array of its roots.  A loop over a chain of
    nodes runs with fuel; [chain_fuel] is enough unless the chain is cyclic. *)

From stdpp Require Import gmap strings.
From S2P Require Import Prelude CLib.

Definition loc := positive.

Record node := Node {
  Next : option loc; Prev : option loc; Root : option loc;
  Id : option (list Z); Parent : option loc }.

Record index := Index { head : option loc; tail : option loc }.

Record mem := Mem { nodes : gmap loc node; indexes : gmap loc index }.

Definition get_node (m : mem) (l : loc) : option node := nodes m !! l.
Definition put_node (m : mem) (l : loc) (n : node) : mem := Mem (<[l := n]> (nodes m)) (indexes m).
Definition put_index (m : mem) (l : loc) (i : index) : mem := Mem (nodes m) (<[l := i]> (indexes m)).

Definition with_next (n : node) (p : option loc) : node := Node p (Prev n) (Root n) (Id n) (Parent n).
Definition with_prev (n : node) (p : option loc) : node := Node (Next n) p (Root n) (Id n) (Parent n).
Definition with_root (n : node) (p : option loc) : node := Node (Next n) (Prev n) p (Id n) (Parent n).
Definition with_id (n : node) (i : option (list Z)) : node := Node (Next n) (Prev n) (Root n) i (Parent n).
Definition with_parent (n : node) (p : option loc) : node := Node (Next n) (Prev n) (Root n) (Id n) p.

(** The assignments [l->Next = p] and the like. *)
Definition upd_node (f : node -> node) (m : mem) (l : loc) : option mem :=
  n ← get_node m l; Some (put_node m l (f n)).

Definition set_next (m : mem) (l : loc) (p : option loc) := upd_node (fun n => with_next n p) m l.
Definition set_prev (m : mem) (l : loc) (p : option loc) := upd_node (fun n => with_prev n p) m l.
Definition set_root (m : mem) (l : loc) (p : option loc) := upd_node (fun n => with_root n p) m l.
Definition set_id (m : mem) (l : loc) (i : option (list Z)) := upd_node (fun n => with_id n i) m l.
Definition set_parent (m : mem) (l : loc) (p : option loc) := upd_node (fun n => with_parent n p) m l.

(** [delete l] *)
Definition free_node (m : mem) (l : loc) : mem := Mem (delete l (nodes m)) (delete l (indexes m)).

Definition chain_fuel (m : mem) : nat := S (size (nodes m)).

(** [while (node && !stop (node)) { prior = node; node = node->Next; }] *)
Fixpoint walk (fuel : nat) (m : mem) (stop : loc -> node -> bool) (prior cur : option loc)
    : option (option loc * option loc) :=
  match fuel with
  | O => None
  | S f =>
      match cur with
      | None => Some (prior, None)
      | Some l =>
          n ← get_node m l;
          if stop l n then Some (prior, cur) else walk f m stop cur (Next n)
      end
  end.

Definition is_this (this : loc) (l : loc) (_ : node) : bool := bool_decide (l = this).

Module LinkedObject.

Definition enlist (m : mem) (this : loc) (root : option loc) : option (mem * option loc) :=
  m ← set_next m this root; Some (m, Some this).

Definition delist (m : mem) (this : loc) (root : option loc) : option (mem * option loc) :=
  '(prior, node) ← walk (chain_fuel m) m (is_this this) None root;
  match node with
  | None => Some (m, root)
  | Some _ =>
      n ← get_node m this;
      match prior with
      | None => Some (m, Next n)
      | Some p => m ← set_next m p (Next n); Some (m, root)
      end
  end.

Definition is_member (m : mem) (this : loc) (list : option loc) : option bool :=
  '(_, node) ← walk (chain_fuel m) m (is_this this) None list;
  Some (match node with Some _ => true | None => false end).

(** A retained object points to itself; [release] frees the others. *)
Definition retain (m : mem) (this : loc) : option mem := set_next m this (Some this).

Definition release (m : mem) (this : loc) : option mem :=
  n ← get_node m this;
  if decide (Next n = Some this) then Some m else Some (free_node m this).

Fixpoint purge_loop (fuel : nat) (m : mem) (root : option loc) : option mem :=
  match fuel with
  | O => None
  | S f =>
      match root with
      | None => Some m
      | Some l => n ← get_node m l; m ← release m l; purge_loop f m (Next n)
      end
  end.

Definition purge (m : mem) (root : option loc) : option mem := purge_loop (chain_fuel m) m root.

Fixpoint getIndexed (m : mem) (root : option loc) (index : nat) : option (option loc) :=
  match index, root with
  | O, _ => Some root
  | S _, None => Some None
  | S i, Some l => n ← get_node m l; getIndexed m (Next n) i
  end.

Fixpoint count_loop (fuel : nat) (m : mem) (root : option loc) (c : Z) : option Z :=
  match fuel with
  | O => None
  | S f =>
      match root with
      | None => Some c
      | Some l => n ← get_node m l; count_loop f m (Next n) (u32 (c + 1))
      end
  end.

Definition count (m : mem) (root : option loc) : option Z := count_loop (chain_fuel m) m root 0.

End LinkedObject.

Module OrderedObject.

Definition delist (m : mem) (this : loc) (root : index) : option (mem * index) :=
  '(prior, node) ← walk (chain_fuel m) m (is_this this) None (head root);
  match node with
  | None => Some (m, root)
  | Some _ =>
      n ← get_node m this;
      '(m, h) ← (match prior with
                 | None => Some (m, Next n)
                 | Some p => m ← set_next m p (Next n); Some (m, head root)
                 end);
      Some (m, Index h (if decide (tail root = Some this) then prior else tail root))
  end.

(** [this->Next] is not touched. *)
Definition enlistTail (m : mem) (this : loc) (root : index) : option (mem * index) :=
  match head root, tail root with
  | None, _ => Some (m, Index (Some this) (Some this))
  | Some _, Some t => m ← set_next m t (Some this); Some (m, Index (head root) (Some this))
  | Some _, None => Some (m, Index (head root) (Some this))
  end.

Definition enlist (m : mem) (this : loc) (root : index) : option (mem * index) :=
  m ← set_next m this None; enlistTail m this root.

Definition enlistHead (m : mem) (this : loc) (root : index) : option (mem * index) :=
  m ← set_next m this None;
  match tail root, head root with
  | None, _ => Some (m, Index (Some this) (Some this))
  | Some t, Some h => m ← set_next m this (Some h); Some (m, Index (Some this) (Some t))
  | Some t, None => Some (m, Index (Some this) (Some t))
  end.

End OrderedObject.

Module OrderedIndex.

Definition copy (source : index) : index := Index (head source) (tail source).
Definition reset : index := Index None None.
Definition add (m : mem) (root : index) (object : loc) := OrderedObject.enlist m object root.

Definition get (m : mem) (root : index) : option (index * option loc) :=
  match head root with
  | None => Some (root, None)
  | Some l =>
      n ← get_node m l;
      Some (Index (Next n) (match Next n with None => None | Some _ => tail root end), Some l)
  end.

Definition purge (m : mem) (root : index) : option (mem * index) :=
  match head root with
  | None => Some (m, root)
  | Some _ => m ← LinkedObject.purge m (head root); Some (m, reset)
  end.

(** [find]: an index of zero and of one both name the first node. *)
Fixpoint find_loop (m : mem) (node : option loc) (steps : nat) : option (option loc) :=
  match node, steps with
  | None, _ => Some None
  | Some _, O => Some node
  | Some l, S k => n ← get_node m l; find_loop m (Next n) k
  end.

Definition find (m : mem) (root : index) (i : Z) : option (option loc) :=
  find_loop m (head root) (Z.to_nat (i - 1)).

Definition count (m : mem) (root : index) : option Z := LinkedObject.count m (head root).

(** [index]: the array of the nodes, without its final NULL. *)
Fixpoint index_loop (fuel : nat) (m : mem) (node : option loc) : option (list loc) :=
  match fuel with
  | O => None
  | S f =>
      match node with
      | None => Some []
      | Some l => n ← get_node m l; cons l <$> index_loop f m (Next n)
      end
  end.

Definition index_ (m : mem) (root : index) : option (list loc) := index_loop (chain_fuel m) m (head root).

End OrderedIndex.

Module DLinkedObject.

(** The index behind [Root]. *)
Definition get_index (m : mem) (r : loc) : option index := indexes m !! r.

(** [DLinkedObject ()] *)
Definition make (m : mem) (this : loc) : mem := put_node m this (Node None None None None None).

Definition delist (m : mem) (this : loc) : option mem :=
  n ← get_node m this;
  match Root n with
  | None => Some m
  | Some r =>
      i ← get_index m r;
      m ← (match Prev n with
           | Some p => set_next m p (Next n)
           | None => Some (if decide (head i = Some this)
                           then put_index m r (Index (Next n) (tail i)) else m)
           end);
      i ← get_index m r;
      m ← (match Next n with
           | Some x => set_prev m x (Prev n)
           | None => Some (if decide (tail i = Some this)
                           then put_index m r (Index (head i) (Prev n)) else m)
           end);
      upd_node (fun n => Node None None None (Id n) (Parent n)) m this
  end.

Definition enlistHead (m : mem) (this r : loc) : option mem :=
  m ← delist m this;
  m ← upd_node (fun n => Node None None (Some r) (Id n) (Parent n)) m this;
  i ← get_index m r;
  match tail i with
  | None => Some (put_index m r (Index (Some this) (Some this)))
  | Some _ =>
      m ← set_next m this (head i);
      h ← head i;
      m ← set_prev m h (Some this);
      Some (put_index m r (Index (Some this) (tail i)))
  end.

Definition enlistTail (m : mem) (this r : loc) : option mem :=
  m ← delist m this;
  m ← upd_node (fun n => Node None None (Some r) (Id n) (Parent n)) m this;
  i ← get_index m r;
  match head i with
  | None => Some (put_index m r (Index (Some this) (Some this)))
  | Some _ =>
      m ← set_prev m this (tail i);
      t ← tail i;
      m ← set_next m t (Some this);
      Some (put_index m r (Index (head i) (Some this)))
  end.

Definition enlist (m : mem) (this r : loc) : option mem := enlistTail m this r.

(** [insertHead]: [o] in front of this object.  The predecessor still points
    here. *)
Definition insertHead (m : mem) (this o : loc) : option mem :=
  m ← delist m o;
  n ← get_node m this;
  r ← Root n;
  i ← get_index m r;
  m ← (match Prev n with
       | Some p => m ← set_next m o (Some this); set_prev m o (Some p)
       | None => set_prev (put_index m r (Index (Some o) (tail i))) o None
       end);
  m ← set_root m o (Some r);
  m ← set_next m o (Some this);
  set_prev m this (Some o).

(** [insertTail]: the successor still points back here. *)
Definition insertTail (m : mem) (this o : loc) : option mem :=
  m ← delist m o;
  n ← get_node m this;
  r ← Root n;
  i ← get_index m r;
  m ← (match Next n with
       | Some x => m ← set_prev m o (Some this); set_next m o (Some x)
       | None => set_next (put_index m r (Index (head i) (Some o))) o None
       end);
  m ← set_root m o (Some r);
  m ← set_prev m o (Some this);
  set_next m this (Some o).

Definition insert (m : mem) (this o : loc) : option mem := insertTail m this o.

(** [~DLinkedObject ()] and [delete]. *)
Definition destroy (m : mem) (this : loc) : option mem :=
  m ← delist m this; Some (free_node m this).

Definition is_head (m : mem) (this : loc) : option bool :=
  n ← get_node m this; r ← Root n; i ← get_index m r; Some (bool_decide (head i = Some this)).

Definition is_tail (m : mem) (this : loc) : option bool :=
  n ← get_node m this; r ← Root n; i ← get_index m r; Some (bool_decide (tail i = Some this)).

End DLinkedObject.
