(* ===== verification/LinkedLaws.v ===== *)
(** * The lists behind the links

    What the operations of [Linked] do to the list of nodes a root or an index
    stands for. *)

From stdpp Require Import gmap sets list.
From S2P Require Import Prelude Linked.

(** ** Chains

    [seg m p l q]: following [Next] from [p] passes the nodes [l] and ends at
    [q]. *)
Fixpoint seg (m : mem) (p : option loc) (l : list loc) (q : option loc) : Prop :=
  match l with
  | [] => p = q
  | x :: l' => p = Some x /\ exists n, nodes m !! x = Some n /\ seg m (Next n) l' q
  end.

(** A whole list. *)
Definition lst (m : mem) (p : option loc) (l : list loc) : Prop := seg m p l None.

(** The last node, or what stands before the list. *)
Definition last_of (p : option loc) (l : list loc) : option loc := foldl (fun _ x => Some x) p l.

(** The first node, or what stands behind the list. *)
Definition first_of (l : list loc) (q : option loc) : option loc :=
  match l with [] => q | x :: _ => Some x end.

Lemma last_of_app p l k : last_of p (l ++ k) = last_of (last_of p l) k.
Proof. unfold last_of. by rewrite foldl_app. Qed.

Lemma last_of_snoc p l x : last_of p (l ++ [x]) = Some x.
Proof. by rewrite last_of_app. Qed.

Lemma last_of_cons p x l : exists y, last_of p (x :: l) = Some y /\ y ∈ x :: l.
Proof.
  revert p x. induction l as [|z l IH]; intros p x; [exists x; split; [done|left]|].
  cbn. destruct (IH (Some x) z) as (y & E & Hy). exists y. split; [exact E|by right].
Qed.

(** The last node of a list, split off. *)
Lemma last_split p l : last_of p l = p /\ l = [] \/ exists k y, l = k ++ [y] /\ last_of p l = Some y.
Proof. destruct l as [|y k _] using rev_ind; [by left|right]. exists k, y. by rewrite last_of_snoc. Qed.

Lemma first_of_app l k q : first_of (l ++ k) q = first_of l (first_of k q).
Proof. by destruct l. Qed.

Lemma seg_app m l : forall p k q,
  seg m p (l ++ k) q <-> exists r, seg m p l r /\ seg m r k q.
Proof.
  induction l as [|x l IH]; intros p k q; cbn.
  - split; [by exists p|by intros (r & -> & H)].
  - split.
    + intros (-> & n & Hn & (r & H1 & H2)%IH). exists r. split; [|done]. split; [done|]. by exists n.
    + intros (r & (-> & n & Hn & H1) & H2). split; [done|]. exists n. split; [done|].
      apply IH. by exists r.
Qed.

Lemma seg_first m p l q : seg m p l q -> p = first_of l q.
Proof. destruct l; cbn; [done|by intros [-> _]]. Qed.

(** Only the [Next] fields of the nodes matter. *)
Lemma seg_frame m m' l : forall p q,
  (forall x, x ∈ l -> Next <$> nodes m' !! x = Next <$> nodes m !! x) ->
  seg m p l q -> seg m' p l q.
Proof.
  induction l as [|x l IH]; intros p q Hf; [done|]. cbn. intros (-> & n & Hn & Hs).
  split; [done|]. pose proof (Hf x ltac:(left)) as E. rewrite Hn in E.
  destruct (nodes m' !! x) as [n'|]; [|done]. injection E as E. exists n'. split; [done|].
  rewrite E. apply IH; [|done]. intros y Hy. apply Hf. by right.
Qed.

Lemma lst_unique m l : forall p l', lst m p l -> lst m p l' -> l = l'.
Proof.
  unfold lst. induction l as [|x l IH]; intros p [|y l']; cbn; try done.
  - intros -> [? _]. done.
  - intros [-> _]. done.
  - intros (-> & n & Hn & H1) ([= <-] & n' & Hn' & H2). rewrite Hn in Hn'. injection Hn' as <-.
    f_equal. by eapply IH.
Qed.

Lemma lst_NoDup m p l : lst m p l -> NoDup l.
Proof.
  revert p. induction l as [|x l IH]; intros p Hl; [constructor|].
  pose proof Hl as (-> & n & Hn & Hs). constructor; [|by eapply IH].
  intros (a & b & ->)%list_elem_of_split.
  assert (lst m (Some x) (x :: b)) as Hb.
  { apply seg_app in Hs as (r & _ & Hs). pose proof Hs as [-> _]. exact Hs. }
  pose proof (lst_unique _ _ _ _ Hl Hb) as E. apply (f_equal length) in E.
  cbn in E. rewrite length_app in E. cbn in E. lia.
Qed.

Lemma seg_nodes m p l q x : seg m p l q -> x ∈ l -> is_Some (nodes m !! x).
Proof.
  revert p. induction l as [|y l IH]; intros p; cbn; [by intros _ ?%elem_of_nil|].
  intros (_ & n & Hn & Hs) [->|Hx]%elem_of_cons; [by exists n|by eapply IH].
Qed.

Lemma lst_fuel m p l : lst m p l -> (length l < chain_fuel m)%nat.
Proof.
  intros Hl. unfold chain_fuel. pose proof (lst_NoDup _ _ _ Hl) as Hd.
  rewrite <- size_dom. apply Nat.lt_succ_r.
  rewrite <- (size_list_to_set (C := gset loc) l) by done.
  apply subseteq_size. intros x Hx%elem_of_list_to_set. apply elem_of_dom. by eapply seg_nodes.
Qed.

(** ** The loop *)

Lemma walk_found m stop l1 x n l2 : forall fuel prior p,
  seg m p (l1 ++ x :: l2) None -> (length l1 < fuel)%nat ->
  (forall y ny, y ∈ l1 -> nodes m !! y = Some ny -> stop y ny = false) ->
  nodes m !! x = Some n -> stop x n = true ->
  walk fuel m stop prior p = Some (last_of prior l1, Some x).
Proof.
  induction l1 as [|y l1 IH]; intros [|fuel] prior p Hs Hf Hno Hn Hyes; cbn [length] in Hf; try lia.
  - destruct Hs as (-> & n' & Hn' & _). cbn [walk]. unfold get_node. rewrite Hn. run. by rewrite Hyes.
  - destruct Hs as (-> & ny & Hy & Hs). cbn [walk]. unfold get_node. rewrite Hy. run.
    rewrite (Hno y ny) by (done || left). change (last_of prior (y :: l1)) with (last_of (Some y) l1).
    apply IH; [done|lia| |done|done]. intros z nz Hz. apply Hno. by right.
Qed.

Lemma walk_none m stop l : forall fuel prior p,
  lst m p l -> (length l < fuel)%nat ->
  (forall y ny, y ∈ l -> nodes m !! y = Some ny -> stop y ny = false) ->
  walk fuel m stop prior p = Some (last_of prior l, None).
Proof.
  induction l as [|y l IH]; intros [|fuel] prior p Hs Hf Hno; cbn [length] in Hf; try lia.
  - cbn in Hs. by rewrite Hs.
  - destruct Hs as (-> & ny & Hy & Hs). cbn [walk]. unfold get_node. rewrite Hy. run.
    rewrite (Hno y ny) by (done || left). change (last_of prior (y :: l)) with (last_of (Some y) l).
    apply IH; [done|lia|]. intros z nz Hz. apply Hno. by right.
Qed.

(** Looking for one object. *)
Lemma walk_this_in m this l1 l2 p : lst m p (l1 ++ this :: l2) ->
  walk (chain_fuel m) m (is_this this) None p = Some (last_of None l1, Some this).
Proof.
  intros Hl. pose proof (lst_NoDup _ _ _ Hl) as Hd. pose proof (lst_fuel _ _ _ Hl) as Hf.
  destruct (seg_nodes _ _ _ _ this Hl) as [n Hn]; [apply elem_of_app; right; left|].
  rewrite length_app in Hf. cbn in Hf.
  apply (walk_found m _ l1 this n l2); [done|lia| |done|unfold is_this; by rewrite bool_decide_true].
  intros y ny Hy _. unfold is_this. apply bool_decide_false. intros ->.
  apply list.NoDup_app in Hd as (_ & Hd & _). eapply Hd; [done|left].
Qed.

Lemma walk_this_out m this l p : lst m p l -> this ∉ l ->
  walk (chain_fuel m) m (is_this this) None p = Some (last_of None l, None).
Proof.
  intros Hl Hn. apply walk_none; [done|by eapply lst_fuel|].
  intros y ny Hy _. unfold is_this. apply bool_decide_false. by intros ->.
Qed.

(** The list without one object. *)
Definition without (this : loc) (l : list loc) : list loc := filter (fun x => x <> this) l.

Lemma without_out this l : this ∉ l -> without this l = l.
Proof.
  unfold without. induction l as [|x l IH]; intros Hn; [done|].
  rewrite filter_cons_True by (intros ->; apply Hn; left). f_equal. apply IH. intros H. apply Hn. by right.
Qed.

Lemma without_mid this l1 l2 : NoDup (l1 ++ this :: l2) -> without this (l1 ++ this :: l2) = l1 ++ l2.
Proof.
  intros (_ & Hd & [Hn _]%list.NoDup_cons)%list.NoDup_app. unfold without.
  rewrite list.filter_app, filter_cons_False by (intros E; by apply E).
  f_equal; apply without_out; [|done]. intros H. apply (Hd this H). left.
Qed.

(** Rewriting the [Next] field of one node. *)
Lemma set_next_some m x p : is_Some (nodes m !! x) -> exists m', set_next m x p = Some m' /\
  indexes m' = indexes m /\ (forall y, y <> x -> nodes m' !! y = nodes m !! y) /\
  exists n, nodes m !! x = Some n /\ nodes m' !! x = Some (with_next n p).
Proof.
  intros [n Hn]. unfold set_next, upd_node, get_node. rewrite Hn. run. eexists. split; [done|].
  split; [done|]. cbn. split; [intros y Hy; by rewrite lookup_insert_ne|].
  exists n. by rewrite lookup_insert_eq.
Qed.

Lemma seg_other m m' p l q x : (forall y, y <> x -> nodes m' !! y = nodes m !! y) -> x ∉ l ->
  seg m p l q -> seg m' p l q.
Proof. intros Hf Hx. apply seg_frame. intros y Hy. rewrite Hf; [done|]. by intros ->. Qed.

(** The last node of a segment is given another successor. *)
Lemma seg_redirect m m' p l x q q' : seg m p (l ++ [x]) q -> x ∉ l ->
  (forall y, y <> x -> nodes m' !! y = nodes m !! y) ->
  (exists n, nodes m' !! x = Some n /\ Next n = q') -> seg m' p (l ++ [x]) q'.
Proof.
  intros (r & H1 & (-> & n & _ & _))%seg_app Hx Hf (n' & Hn' & <-). apply seg_app.
  exists (Some x). split; [by eapply seg_other|]. split; [done|]. by exists n'.
Qed.

(** ** Unlinking a node *)
Lemma unlink_spec m p l1 this l2 : lst m p (l1 ++ this :: l2) ->
  exists n, nodes m !! this = Some n /\
  match last_of None l1 with
  | None => l1 = [] /\ lst m (Next n) l2
  | Some y => exists m', set_next m y (Next n) = Some m' /\ indexes m' = indexes m /\
      lst m' p (l1 ++ l2) /\ (forall z, z <> y -> nodes m' !! z = nodes m !! z)
  end.
Proof.
  intros Hl. pose proof (lst_NoDup _ _ _ Hl) as Hd.
  pose proof Hl as (r & H1 & (-> & n & Hn & H2))%seg_app. exists n. split; [done|].
  destruct l1 as [|y l1 _] using rev_ind; [done|]. rewrite last_of_snoc.
  rewrite <- app_assoc in Hd. apply list.NoDup_app in Hd as (_ & Hd1 & Hd2).
  cbn [app] in Hd1, Hd2. apply list.NoDup_cons in Hd2 as [Hy Hd2].
  destruct (set_next_some m y (Next n)) as (m' & E & Ei & Ho & ny & Hny & Hny').
  { eapply seg_nodes; [exact H1|]. apply elem_of_app. right. left. }
  exists m'. split_and!; [done|done| |done]. apply seg_app.
  exists (Next n). split.
  - eapply seg_redirect; [exact H1| |done|by exists (with_next ny (Next n))].
    intros Hin. eapply Hd1; [done|left].
  - eapply seg_other; [done| |done]. intros Hin. apply Hy. by right.
Qed.

Lemma getIndexed_spec m l : forall p i, lst m p l -> LinkedObject.getIndexed m p i = Some (l !! i).
Proof.
  induction l as [|x l IH]; intros p i Hl.
  - cbn in Hl. subst p. by destruct i.
  - destruct Hl as (-> & n & Hn & Hl). destruct i as [|i]; [done|].
    cbn [LinkedObject.getIndexed]. unfold get_node. rewrite Hn. run. by apply IH.
Qed.

Lemma count_loop_spec m l : forall fuel p c, lst m p l -> (length l < fuel)%nat -> u32 c = c ->
  LinkedObject.count_loop fuel m p c = Some (u32 (c + zlen l)).
Proof.
  induction l as [|x l IH]; intros [|fuel] p c Hl Hf Hc; cbn [length] in Hf; try lia.
  - cbn in Hl. subst p. cbn. by rewrite zlen_nil, Z.add_0_r, Hc.
  - destruct Hl as (-> & n & Hn & Hl). cbn [LinkedObject.count_loop]. unfold get_node. rewrite Hn. run.
    rewrite IH; [|done|lia|unfold u32; by rewrite Z.mod_mod].
    f_equal. rewrite zlen_cons. unfold u32. rewrite Z.add_mod_idemp_l by lia. f_equal. lia.
Qed.

Lemma count_spec m l p : lst m p l -> LinkedObject.count m p = Some (u32 (zlen l)).
Proof. intros Hl. apply (count_loop_spec m l _ p 0); [done|by apply lst_fuel with p|done]. Qed.

(** A root variable is a list: [enlist] puts an object in front, [delist]
    takes it out wherever it is (and does nothing for a stranger), [is_member]
    decides membership, [count] is the length modulo 2^32 and [getIndexed] the
    element at a position. *)
Theorem linked_list_ops (m : mem) (root : option loc) (l : list loc) : lst m root l ->
  (forall this, this ∉ l -> is_Some (nodes m !! this) -> exists m',
    LinkedObject.enlist m this root = Some (m', Some this) /\ lst m' (Some this) (this :: l)) /\
  (forall this, exists m' root', LinkedObject.delist m this root = Some (m', root') /\
    lst m' root' (without this l)) /\
  (forall this, LinkedObject.is_member m this root = Some (bool_decide (this ∈ l))) /\
  LinkedObject.count m root = Some (u32 (zlen l)) /\
  (forall i, LinkedObject.getIndexed m root i = Some (l !! i)).
Proof.
  intros Hl. split_and!.
  - intros this Hn Hs. unfold LinkedObject.enlist.
    destruct (set_next_some m this root Hs) as (m' & -> & _ & Ho & n & _ & Hn'). run.
    exists m'. split; [done|]. split; [done|]. exists (with_next n root). split; [done|].
    by eapply seg_other.
  - intros this. unfold LinkedObject.delist. destruct (decide (this ∈ l)) as [Hin|Hout].
    + pose proof (lst_NoDup _ _ _ Hl) as Hd. apply list_elem_of_split in Hin as (l1 & l2 & ->).
      rewrite (walk_this_in m this l1 l2 root Hl), without_mid by done. run.
      destruct (unlink_spec m root l1 this l2 Hl) as (n & Hn & Hu). unfold get_node. rewrite Hn. run.
      destruct (last_of None l1) as [y|].
      * destruct Hu as (m' & -> & _ & Hl' & _). run. by exists m', root.
      * destruct Hu as [-> Hl']. by exists m, (Next n).
    + rewrite (walk_this_out m this l root Hl Hout), without_out by done. run. by exists m, root.
  - intros this. unfold LinkedObject.is_member. destruct (decide (this ∈ l)) as [Hin|Hout].
    + rewrite bool_decide_true by done. apply list_elem_of_split in Hin as (l1 & l2 & ->).
      rewrite (walk_this_in m this l1 l2 root Hl). by run.
    + rewrite bool_decide_false by done. rewrite (walk_this_out m this l root Hl Hout). by run.
  - by apply count_spec.
  - intros i. by apply getIndexed_spec.
Qed.

(** ** Ordered lists *)

(** An index and the list it holds. *)
Definition ord (m : mem) (i : index) (l : list loc) : Prop :=
  lst m (head i) l /\ tail i = last_of None l.

Lemma ord_head m i l : ord m i l -> head i = first_of l None.
Proof. intros [H _]. by eapply seg_first. Qed.

(** A node is appended, with the nodes [k] that still follow it. *)
Lemma append_chain m i l this n k : ord m i l -> this ∉ l -> nodes m !! this = Some n ->
  lst m (Next n) k -> (forall x, x ∈ l -> x ∉ k) ->
  exists m' i', OrderedObject.enlistTail m this i = Some (m', i') /\ lst m' (head i') (l ++ this :: k) /\
    tail i' = Some this /\ indexes m' = indexes m /\ (forall x, x ∉ l -> nodes m' !! x = nodes m !! x).
Proof.
  intros Ho Hn Hnode Hk Hdis. pose proof (ord_head _ _ _ Ho) as Hh. destruct Ho as [Hl Ht].
  unfold OrderedObject.enlistTail. rewrite Hh, Ht. destruct l as [|x l].
  - cbn. eexists m, _. split; [done|]. split; [|done]. split; [done|]. by exists n.
  - destruct (last_of_cons None x l) as (y & Ey & Hy). cbn [first_of]. rewrite Ey.
    destruct (set_next_some m y (Some this)) as (m' & -> & Ei & Hoth & ny & Hny & Hny').
    { eapply seg_nodes; [exact Hl|done]. }
    run. eexists m', _. split; [done|].
    split; [|split; [done|split; [done|intros z Hz; apply Hoth; by intros ->]]].
    cbn [head]. rewrite Hh in Hl. cbn [first_of] in Hl.
    assert (exists k, x :: l = k ++ [y]) as (l' & El).
    { destruct l as [|z l _] using rev_ind.
      - cbn in Ey. injection Ey as <-. by exists [].
      - exists (x :: l). change (x :: l ++ [z]) with ((x :: l) ++ [z]) in Ey. rewrite last_of_snoc in Ey.
        injection Ey as <-. done. }
    rewrite El in *. pose proof (lst_NoDup _ _ _ Hl) as Hd.
    apply seg_app. exists (Some this). split.
    + eapply seg_redirect; [exact Hl| |done|by exists (with_next ny (Some this))].
      apply list.NoDup_app in Hd as (_ & Hd & _). intros Hin. eapply Hd; [done|left].
    + split; [done|]. exists n. split; [rewrite Hoth; [done|by intros ->]|].
      eapply seg_other; [exact Hoth|by apply Hdis|done].
Qed.

(** A node whose [Next] is empty is appended. *)
Lemma append_spec m i l this n : ord m i l -> this ∉ l -> nodes m !! this = Some n -> Next n = None ->
  exists m' i', OrderedObject.enlistTail m this i = Some (m', i') /\ ord m' i' (l ++ [this]).
Proof.
  intros Ho Hn Hnode Hnx. destruct (append_chain m i l this n [] Ho Hn Hnode) as (m' & i' & E & Hl & Ht & _).
  - by rewrite Hnx.
  - intros x _. apply not_elem_of_nil.
  - exists m', i'. split; [done|]. split; [done|]. by rewrite last_of_snoc.
Qed.

Lemma find_loop_spec m l : forall p k, lst m p l -> OrderedIndex.find_loop m p k = Some (l !! k).
Proof.
  induction l as [|x l IH]; intros p k Hl.
  - cbn in Hl. subst p. by destruct k.
  - destruct Hl as (-> & n & Hn & Hl). destruct k as [|k]; [done|].
    cbn [OrderedIndex.find_loop]. unfold get_node. rewrite Hn. run. by apply IH.
Qed.

Lemma prepend_spec m i l this : ord m i l -> this ∉ l -> is_Some (nodes m !! this) ->
  exists m' i', OrderedObject.enlistHead m this i = Some (m', i') /\ ord m' i' (this :: l) /\
    indexes m' = indexes m /\ (forall x, x <> this -> nodes m' !! x = nodes m !! x).
Proof.
  intros Ho Hn Hs. pose proof (ord_head _ _ _ Ho) as Hh. destruct Ho as [Hl Ht].
  unfold OrderedObject.enlistHead.
  destruct (set_next_some m this None Hs) as (m1 & -> & Ei & Hoth & n & _ & Hn'). run.
  rewrite Ht, Hh. destruct l as [|x l].
  + cbn. eexists m1, _. split; [done|]. split; [|done]. split; [|done]. split; [done|]. by exists (with_next n None).
  + destruct (last_of_cons None x l) as (y & Ey & _). rewrite Ey. cbn [first_of].
    destruct (set_next_some m1 this (Some x)) as (m2 & -> & Ei2 & Hoth2 & n2 & _ & Hn2).
    { by eexists. }
    run. eexists m2, _. split; [done|]. split; [|split; [congruence|]].
    2: { intros z Hz. by rewrite Hoth2, Hoth. }
    split; [|cbn in Ey |- *; done]. split; [done|]. exists (with_next n2 (Some x)). split; [done|].
    rewrite Hh in Hl. eapply (seg_other m1 m2); [done|done|]. by eapply seg_other.
Qed.

Lemma delist_spec m i l this : ord m i l ->
  exists m' i', OrderedObject.delist m this i = Some (m', i') /\ ord m' i' (without this l) /\
    indexes m' = indexes m /\ (forall z, z ∉ without this l -> nodes m' !! z = nodes m !! z).
Proof.
  intros [Hl Ht].
  unfold OrderedObject.delist. destruct (decide (this ∈ l)) as [Hin|Hout].
  + pose proof (lst_NoDup _ _ _ Hl) as Hd. apply list_elem_of_split in Hin as (l1 & l2 & ->).
    rewrite (walk_this_in m this l1 l2 _ Hl), without_mid by done. run.
    destruct (unlink_spec m _ l1 this l2 Hl) as (n & Hn & Hu). unfold get_node. rewrite Hn. run.
    assert (Htail : (if decide (tail i = Some this) then last_of None l1 else tail i) =
      last_of None (l1 ++ l2)).
    { rewrite Ht, !last_of_app. cbn [last_of foldl]. change (foldl _ (Some this) l2) with (last_of (Some this) l2).
      destruct l2 as [|z l2]; cbn; [by rewrite decide_True|].
      change (foldl (fun _ x => Some x) (Some z) l2) with (last_of None (z :: l2)).
      destruct (last_of_cons None z l2) as (y & Ey & Hy). rewrite Ey, decide_False; [done|].
      intros [= ->]. apply list.NoDup_app in Hd as (_ & _ & [Hn' _]%list.NoDup_cons). done. }
    rewrite Htail. destruct (last_split None l1) as [[-> ->]|(k & y & -> & ->)].
    * destruct Hu as [_ Hl']. run. by eexists m, _.
    * rewrite last_of_snoc in Hu. destruct Hu as (m' & -> & Ei & Hl' & Hoth). run. eexists m', _. split; [done|].
      split; [done|]. split; [done|]. intros z Hz. apply Hoth. intros ->. apply Hz.
      apply elem_of_app. left. apply elem_of_app. right. left.
  + rewrite (walk_this_out m this l _ Hl Hout), without_out by done. run. by exists m, i.
Qed.

(** C11.  An [OrderedIndex] is a queue: [enlist] (and [add]) append, [enlistHead]
    puts in front, [delist] takes out, [get] takes the first, and each keeps head
    and tail right; [count] and [find] (whose positions start at one) read it. *)
Theorem ordered_index_ops (m : mem) (i : index) (l : list loc) : ord m i l ->
  (forall this, this ∉ l -> is_Some (nodes m !! this) -> exists m' i',
    OrderedObject.enlist m this i = Some (m', i') /\ ord m' i' (l ++ [this])) /\
  (forall this, this ∉ l -> is_Some (nodes m !! this) -> exists m' i',
    OrderedObject.enlistHead m this i = Some (m', i') /\ ord m' i' (this :: l)) /\
  (forall this, exists m' i', OrderedObject.delist m this i = Some (m', i') /\
    ord m' i' (without this l)) /\
  (exists i', OrderedIndex.get m i = Some (i', first_of l None) /\ ord m i' (drop 1 l)) /\
  OrderedIndex.count m i = Some (u32 (zlen l)) /\
  (forall k, 1 <= k -> OrderedIndex.find m i k = Some (l !! Z.to_nat (k - 1))).
Proof.
  intros Ho. pose proof (ord_head _ _ _ Ho) as Hh. pose proof Ho as [Hl Ht]. split_and!.
  - intros this Hn Hs. unfold OrderedObject.enlist.
    destruct (set_next_some m this None Hs) as (m1 & -> & _ & Hoth & n & _ & Hn'). run.
    destruct (append_spec m1 i l this (with_next n None)) as (m' & i' & E & Ho'); [|done..|].
    { split; [|done]. by eapply seg_other. }
    by exists m', i'.
  - intros this Hn Hs. destruct (prepend_spec m i l this Ho Hn Hs) as (m' & i' & E & Ho' & _). by exists m', i'.
  - intros this. destruct (delist_spec m i l this Ho) as (m' & i' & E & Ho' & _). by exists m', i'.
  - unfold OrderedIndex.get. rewrite Hh. destruct l as [|x l]; [by exists i|].
    cbn [first_of]. rewrite Hh in Hl. destruct Hl as (_ & n & Hn & Hl). unfold get_node. rewrite Hn. run.
    eexists. split; [done|]. cbn [drop]. rewrite drop_0. split; [done|]. cbn [tail].
    apply seg_first in Hl as ->. destruct l as [|z l]; [done|]. cbn [first_of]. by rewrite Ht.
  - unfold OrderedIndex.count. by apply count_spec.
  - intros k _. unfold OrderedIndex.find. by apply find_loop_spec.
Qed.

(** A memory with three nodes in a list, a fourth one apart, and two indexes. *)
Definition plain (next prev root : option loc) : node := Node next prev root None None.

Definition sample : mem :=
  Mem (<[1%positive := plain (Some 2%positive) None None]>
      (<[2%positive := plain (Some 3%positive) None None]>
      (<[3%positive := plain None None None]> (<[4%positive := plain None None None]> ∅))))
    (<[9%positive := Index None None]> ∅).

Lemma sample_lst : lst sample (Some 1%positive) [1; 2; 3]%positive.
Proof. split; [done|]. eexists. split; [done|]. split; [done|]. eexists. split; [done|].
  split; [done|]. by eexists. Qed.

Lemma linked_list_ops_witness :
  (exists m', LinkedObject.enlist sample 4%positive (Some 1%positive) = Some (m', Some 4%positive) /\
    lst m' (Some 4%positive) [4; 1; 2; 3]%positive) /\
  (exists m' root', LinkedObject.delist sample 2%positive (Some 1%positive) = Some (m', root') /\
    lst m' root' (without 2%positive [1; 2; 3]%positive)) /\
  LinkedObject.count sample (Some 1%positive) = Some (u32 3).
Proof.
  pose proof (linked_list_ops sample (Some 1%positive) [1; 2; 3]%positive sample_lst)
    as (He & Hd & _ & Hc & _).
  split; [apply He|split; [apply Hd|exact Hc]].
  - intros H. repeat (apply elem_of_cons in H as [H|H]; [discriminate H|]). by apply elem_of_nil in H.
  - by eexists.
Defined.

Lemma ordered_index_ops_witness :
  exists m' i', OrderedObject.enlist sample 4%positive (Index (Some 1%positive) (Some 3%positive)) =
      Some (m', i') /\
    ord m' i' ([1%positive; 2%positive; 3%positive] ++ [4%positive]).
Proof.
  apply (ordered_index_ops sample (Index (Some 1%positive) (Some 3%positive))
    [1%positive; 2%positive; 3%positive]).
  - split; [exact sample_lst|reflexivity].
  - intros H. repeat (apply elem_of_cons in H as [H|H]; [discriminate H|]). by apply elem_of_nil in H.
  - by eexists.
Defined.

(** A retained object makes [purge] run forever. *)
Lemma purge_retained m l n fuel : nodes m !! l = Some n -> Next n = Some l ->
  LinkedObject.purge_loop fuel m (Some l) = None.
Proof.
  intros Hn Hr. induction fuel as [|f IH]; [done|]. cbn [LinkedObject.purge_loop].
  unfold get_node at 1. rewrite Hn. cbn [mbind option_bind]. unfold LinkedObject.release, get_node. rewrite Hn. run. rewrite Hr.
  rewrite decide_True by done. run. exact IH.
Qed.

(** ** Doubly linked lists *)

(** The nodes [l] between [p] and [q], all of root [r]. *)
Fixpoint dseg (m : mem) (r : loc) (p : option loc) (l : list loc) (q : option loc) : Prop :=
  match l with
  | [] => True
  | x :: l' =>
      (exists n, nodes m !! x = Some n /\ Root n = Some r /\ Prev n = p /\ Next n = first_of l' q) /\
      dseg m r (Some x) l' q
  end.

Definition dlist (m : mem) (r : loc) (l : list loc) : Prop :=
  indexes m !! r = Some (Index (first_of l None) (last_of None l)) /\
  dseg m r None l None /\ NoDup l.

Lemma dseg_app m r l : forall p k q,
  dseg m r p (l ++ k) q <-> dseg m r p l (first_of k q) /\ dseg m r (last_of p l) k q.
Proof.
  induction l as [|x l IH]; intros p k q; cbn [app dseg last_of foldl]; [tauto|].
  rewrite IH, first_of_app. tauto.
Qed.

Lemma dseg_frame m m' r l : forall p q,
  (forall x, x ∈ l -> nodes m' !! x = nodes m !! x) -> dseg m r p l q -> dseg m' r p l q.
Proof.
  induction l as [|x l IH]; intros p q Hf; [done|]. intros [(n & Hn & H) Hs]. split.
  - exists n. rewrite Hf by left. done.
  - apply IH; [|done]. intros y Hy. apply Hf. by right.
Qed.

(** Forward, a doubly linked list is a list. *)
Lemma dseg_lst m r l : forall p, dseg m r p l None -> lst m (first_of l None) l.
Proof.
  induction l as [|x l IH]; intros p; [done|]. intros [(n & Hn & _ & _ & E) Hs].
  split; [done|]. exists n. rewrite E. split; [done|]. by eapply IH.
Qed.

(** Another successor for the last node, another predecessor for the first. *)
Lemma dseg_last m m' r p l y q q' n : dseg m r p (l ++ [y]) q ->
  nodes m !! y = Some n -> nodes m' !! y = Some (with_next n q') ->
  (forall z, z ∈ l -> nodes m' !! z = nodes m !! z) -> dseg m' r p (l ++ [y]) q'.
Proof.
  intros [H1 [(ny & Hny & Hr & Hp & Hx) _]]%dseg_app Hn Hn' Ho. apply dseg_app. split.
  - by eapply dseg_frame.
  - split; [|done]. exists (with_next n q'). rewrite Hn in Hny. by injection Hny as <-.
Qed.

Lemma dseg_first m m' r p l y q p' n : dseg m r p (y :: l) q ->
  nodes m !! y = Some n -> nodes m' !! y = Some (with_prev n p') ->
  (forall z, z ∈ l -> nodes m' !! z = nodes m !! z) -> dseg m' r p' (y :: l) q.
Proof.
  intros [(ny & Hny & Hr & Hp & Hx) H1] Hn Hn' Ho. split.
  - exists (with_prev n p'). rewrite Hn in Hny. by injection Hny as <-.
  - by eapply dseg_frame.
Qed.

Lemma upd_node_some f m x n : nodes m !! x = Some n ->
  upd_node f m x = Some (put_node m x (f n)).
Proof. intros Hn. unfold upd_node, get_node. by rewrite Hn. Qed.

Lemma put_node_eq m x n : nodes (put_node m x n) !! x = Some n.
Proof. apply lookup_insert_eq. Qed.

Lemma put_node_ne m x n y : y <> x -> nodes (put_node m x n) !! y = nodes m !! y.
Proof. intros. cbn. by rewrite lookup_insert_ne. Qed.

(** The predecessor's side of taking a node out. *)
Lemma join_prev m r this l1 q t : indexes m !! r = Some (Index (first_of (l1 ++ [this]) None) t) ->
  dseg m r None l1 (Some this) -> NoDup (l1 ++ [this]) ->
  exists m1, (match last_of None l1 with
      | Some p => set_next m p q
      | None => Some (if decide (first_of (l1 ++ [this]) None = Some this)
                      then put_index m r (Index q t) else m)
      end) = Some m1 /\
    dseg m1 r None l1 q /\ indexes m1 !! r = Some (Index (first_of l1 q) t) /\
    (forall x, x ∉ l1 -> nodes m1 !! x = nodes m !! x) /\
    (forall k, k <> r -> indexes m1 !! k = indexes m !! k).
Proof.
  intros Hi Hs Hd. destruct (last_split None l1) as [[-> ->]|(k & y & -> & ->)].
  - cbn. rewrite decide_True by done. eexists. split; [done|]. cbn. rewrite lookup_insert_eq.
    split_and!; try done. intros k Hk. by rewrite lookup_insert_ne.
  - pose proof Hs as [_ [(n & Hn & _) _]]%dseg_app.
    unfold set_next. rewrite (upd_node_some _ m y n Hn).
    apply list.NoDup_app in Hd as (Hd & _ & _). apply list.NoDup_app in Hd as (_ & Hd & _).
    assert (y ∉ k) as Hy by (intros Hin; eapply Hd; [done|left]).
    eexists. split; [done|]. split_and!.
    + eapply (dseg_last m); [exact Hs|exact Hn|apply put_node_eq|].
      intros z Hz. apply put_node_ne. by intros ->.
    + cbn. rewrite Hi. do 2 f_equal. by destruct k.
    + intros x Hx. apply put_node_ne. intros ->. apply Hx, elem_of_app. right. left.
    + done.
Qed.

(** The successor's side. *)
Lemma join_next m r this h l1 l2 : indexes m !! r = Some (Index h (last_of None (l1 ++ this :: l2))) ->
  dseg m r (Some this) l2 None -> NoDup (l1 ++ this :: l2) ->
  exists m1, (i ← indexes m !! r;
      match first_of l2 None with
      | Some x => set_prev m x (last_of None l1)
      | None => Some (if decide (tail i = Some this)
                      then put_index m r (Index (head i) (last_of None l1)) else m)
      end) = Some m1 /\
    dseg m1 r (last_of None l1) l2 None /\ indexes m1 !! r = Some (Index h (last_of None (l1 ++ l2))) /\
    (forall x, x ∉ l2 -> nodes m1 !! x = nodes m !! x) /\
    (forall k, k <> r -> indexes m1 !! k = indexes m !! k).
Proof.
  intros Hi Hs Hd. rewrite Hi. run. rewrite !last_of_app in *. destruct l2 as [|x l2]; cbn [first_of].
  - cbn. rewrite decide_True by done. eexists. split; [done|]. cbn. rewrite lookup_insert_eq.
    split_and!; try done. intros k Hk. by rewrite lookup_insert_ne.
  - pose proof Hs as [(n & Hn & _) _]. unfold set_prev. rewrite (upd_node_some _ m x n Hn).
    apply list.NoDup_app in Hd as (_ & _ & [_ [Hx _]%list.NoDup_cons]%list.NoDup_cons).
    eexists. split; [done|]. split_and!.
    + eapply (dseg_first m); [exact Hs|exact Hn|apply put_node_eq|].
      intros z Hz. apply put_node_ne. by intros ->.
    + exact Hi.
    + intros z Hz. apply put_node_ne. intros ->. apply Hz. left.
    + done.
Qed.

(** The node as [delist] leaves it. *)
Definition detached (n : node) : Prop := Root n = None /\ Next n = None /\ Prev n = None.

Lemma ddelist_spec m r l1 this l2 : dlist m r (l1 ++ this :: l2) ->
  exists m' n', DLinkedObject.delist m this = Some m' /\ dlist m' r (l1 ++ l2) /\
    nodes m' !! this = Some n' /\ detached n' /\
    (forall x, x ∉ l1 ++ this :: l2 -> nodes m' !! x = nodes m !! x) /\
    (forall k, k <> r -> indexes m' !! k = indexes m !! k).
Proof.
  intros (Hi & Hs & Hd). pose proof Hs as [H1 [(n & Hn & Hr & Hp & Hx) H2]]%dseg_app.
  unfold DLinkedObject.delist, get_node, DLinkedObject.get_index. rewrite Hn. run.
  rewrite Hr, Hp, Hx, Hi. run. cbn [head tail].
  destruct (join_prev m r this l1 (first_of l2 None) (last_of None (l1 ++ this :: l2)))
    as (m1 & E1 & D1 & I1 & F1 & G1).
  { rewrite Hi. do 2 f_equal. by rewrite !first_of_app. }
  { exact H1. }
  { change (NoDup (l1 ++ [this] ++ l2)) in Hd. rewrite app_assoc in Hd. by apply list.NoDup_app in Hd as [Hd _]. }
  rewrite first_of_app in E1 |- *. cbn [first_of] in E1 |- *. rewrite E1. run.
  destruct (join_next m1 r this (first_of l1 (first_of l2 None)) l1 l2) as (m2 & E2 & D2 & I2 & F2 & G2).
  { exact I1. }
  { eapply dseg_frame; [|exact H2]. intros x Hin. apply F1. intros H.
    apply list.NoDup_app in Hd as (_ & Hd & _). eapply Hd; [done|by right]. }
  { done. }
  rewrite I1 in E2 |- *. run. cbn in E2. cbn. rewrite E2. run.
  apply list.NoDup_app in Hd as (Hd1 & Hd12 & [Ht2 Hd2]%list.NoDup_cons).
  assert (this ∉ l1) as Ht1 by (intros H; eapply Hd12; [done|left]).
  rewrite (upd_node_some _ m2 this n) by (by rewrite F2, F1). run.
  eexists _, _. split; [done|]. split; [|split; [apply put_node_eq|split; [done|]]].
  - split; [cbn; rewrite I2; by rewrite first_of_app|]. split.
    + apply dseg_app. split.
      * eapply dseg_frame; [|exact D1]. intros x Hin. rewrite put_node_ne by (by intros ->).
        rewrite F2; [done|]. intros H. eapply Hd12; [done|by right].
      * eapply dseg_frame; [|exact D2]. intros x Hin. rewrite put_node_ne by (by intros ->). done.
    + apply list.NoDup_app. split_and!; [done| |done]. intros x Hin H. eapply Hd12; [done|by right].
  - split.
    + intros x Hin. rewrite put_node_ne.
      * rewrite F2, F1; [done| |]; intros H; apply Hin, elem_of_app; [by left|right; by right].
      * intros ->. apply Hin, elem_of_app. right. left.
    + intros k Hk. cbn. by rewrite G2, G1.
Qed.

(** What another list does not touch, it keeps. *)
Lemma dlist_frame m m' r l : dlist m r l -> indexes m' !! r = indexes m !! r ->
  (forall x, x ∈ l -> nodes m' !! x = nodes m !! x) -> dlist m' r l.
Proof.
  intros (Hi & Hs & Hd) Ei En. split; [by rewrite Ei|]. split; [|done]. by eapply dseg_frame.
Qed.

Lemma ddelist_none m this n : nodes m !! this = Some n -> Root n = None ->
  DLinkedObject.delist m this = Some m.
Proof. intros Hn Hr. unfold DLinkedObject.delist, get_node. rewrite Hn. run. by rewrite Hr. Qed.

(** The second halves of [enlistTail] and [enlistHead]: what [delist] took out is
    put into the list of [r]. *)
Lemma attach_tail m m0 this r l n0 : DLinkedObject.delist m this = Some m0 ->
  nodes m0 !! this = Some n0 -> dlist m0 r l -> this ∉ l ->
  exists m', DLinkedObject.enlistTail m this r = Some m' /\ dlist m' r (l ++ [this]) /\
    (forall x, x ∉ l ++ [this] -> nodes m' !! x = nodes m0 !! x) /\
    (forall k, k <> r -> indexes m' !! k = indexes m0 !! k).
Proof.
  intros Ed Hn0 (Hi & Hs & Hd) Hout. unfold DLinkedObject.enlistTail, DLinkedObject.get_index. rewrite Ed. run.
  rewrite (upd_node_some _ m0 this n0 Hn0). run. cbn [indexes put_node]. rewrite Hi. run. cbn [head tail].
  assert (NoDup (l ++ [this])) as Hd'.
  { apply list.NoDup_app. split_and!; [done| |apply NoDup_singleton]. intros x Hx ->%list_elem_of_singleton. done. }
  destruct (last_split None l) as [[_ ->]|(k & y & -> & El)].
  - cbn. eexists. split; [done|]. split; [split_and!; [apply lookup_insert_eq| |done]|split].
    + split; [|done]. eexists. split; [apply lookup_insert_eq|done].
    + intros x Hx. cbn. rewrite lookup_insert_ne; [done|]. intros ->. apply Hx. left.
    + intros j Hj. cbn. by rewrite lookup_insert_ne.
  - destruct (first_of (k ++ [y]) None) as [h|] eqn:Eh; [|by destruct k]. rewrite El.
    unfold set_prev. erewrite upd_node_some by apply put_node_eq. run.
    pose proof Hs as [_ [(ny & Hny & _) _]]%dseg_app.
    assert (y <> this) as Hyt. { intros ->. apply Hout, elem_of_app. right. left. }
    unfold set_next. erewrite upd_node_some by (rewrite !put_node_ne by done; exact Hny). run.
    eexists. split; [done|]. split; [split_and!|split].
    + cbn. rewrite lookup_insert_eq. do 2 f_equal; [|by rewrite last_of_snoc].
      rewrite first_of_app. destruct k; cbn in Eh |- *; by rewrite Eh.
    + apply dseg_app. rewrite El. split.
      * cbn [first_of]. eapply (dseg_last m0); [exact Hs|exact Hny|apply lookup_insert_eq|].
        intros z Hz. cbn. rewrite !lookup_insert_ne; [done|..]; intros ->.
        -- apply Hout, elem_of_app. by left.
        -- apply Hout, elem_of_app. by left.
        -- apply list.NoDup_app in Hd as (_ & Hd & _). eapply Hd; [done|left].
      * split; [|done]. eexists. split; [cbn; rewrite lookup_insert_ne by done; apply lookup_insert_eq|done].
    + done.
    + intros x Hx. cbn. rewrite !lookup_insert_ne; [done|..]; intros ->; apply Hx; set_solver.
    + intros j Hj. cbn. by rewrite lookup_insert_ne.
Qed.

Lemma attach_head m m0 this r l n0 : DLinkedObject.delist m this = Some m0 ->
  nodes m0 !! this = Some n0 -> dlist m0 r l -> this ∉ l ->
  exists m', DLinkedObject.enlistHead m this r = Some m' /\ dlist m' r (this :: l) /\
    (forall x, x ∉ this :: l -> nodes m' !! x = nodes m0 !! x) /\
    (forall k, k <> r -> indexes m' !! k = indexes m0 !! k).
Proof.
  intros Ed Hn0 (Hi & Hs & Hd) Hout. unfold DLinkedObject.enlistHead, DLinkedObject.get_index. rewrite Ed. run.
  rewrite (upd_node_some _ m0 this n0 Hn0). run. cbn [indexes put_node]. rewrite Hi. run. cbn [head tail].
  assert (NoDup (this :: l)) as Hd' by by apply list.NoDup_cons.
  destruct l as [|y l].
  - cbn. eexists. split; [done|]. split; [split_and!; [apply lookup_insert_eq| |done]|split].
    + split; [|done]. eexists. split; [apply lookup_insert_eq|done].
    + intros x Hx. cbn. rewrite lookup_insert_ne; [done|]. intros ->. apply Hx. left.
    + intros j Hj. cbn. by rewrite lookup_insert_ne.
  - destruct (last_of_cons None y l) as (t & Et & _). rewrite Et. cbn [first_of].
    pose proof Hs as [(ny & Hny & _) _].
    assert (y <> this) as Hyt. { intros ->. apply Hout. left. }
    unfold set_next. erewrite upd_node_some by apply put_node_eq. run.
    unfold set_prev. erewrite upd_node_some by (rewrite !put_node_ne by done; exact Hny). run.
    eexists. split; [done|]. split; [split_and!|split].
    + cbn. rewrite lookup_insert_eq. by rewrite <- Et.
    + split.
      * eexists. split; [cbn; rewrite lookup_insert_ne by done; apply lookup_insert_eq|done].
      * eapply (dseg_first m0); [exact Hs|exact Hny|apply lookup_insert_eq|].
        intros z Hz. cbn. rewrite !lookup_insert_ne; [done|..]; intros ->.
        -- apply Hout. by right.
        -- apply Hout. by right.
        -- by apply list.NoDup_cons in Hd as [Hd _].
    + done.
    + intros x Hx. cbn. rewrite !lookup_insert_ne; [done|..]; intros ->; apply Hx; first [left|right; left].
    + intros j Hj. cbn. by rewrite lookup_insert_ne.
Qed.

(** C12.  Lists do not interfere: an object of one doubly linked list goes to the
    end or the front of another, to the end of its own, or is destroyed, and every
    list concerned stays a doubly linked list, of the nodes it must have. *)
Theorem dlinked_moves (m : mem) (r r' this : loc) (l k1 k2 : list loc) :
  dlist m r l -> dlist m r' (k1 ++ this :: k2) -> r <> r' ->
  (forall x, x ∈ l -> x ∉ k1 ++ this :: k2) ->
  (exists m', DLinkedObject.enlistTail m this r = Some m' /\
    dlist m' r (l ++ [this]) /\ dlist m' r' (k1 ++ k2)) /\
  (exists m', DLinkedObject.enlistHead m this r = Some m' /\
    dlist m' r (this :: l) /\ dlist m' r' (k1 ++ k2)) /\
  (exists m', DLinkedObject.enlist m this r' = Some m' /\
    dlist m' r' ((k1 ++ k2) ++ [this]) /\ dlist m' r l) /\
  (this <> r -> this <> r' -> exists m', DLinkedObject.destroy m this = Some m' /\ nodes m' !! this = None /\
    dlist m' r' (k1 ++ k2) /\ dlist m' r l).
Proof.
  intros Hl Hk Hr Hdis.
  destruct (ddelist_spec m r' k1 this k2 Hk) as (m0 & n0 & E0 & Hk0 & Hn0 & _ & Fn & Fi).
  assert (dlist m0 r l) as Hl0.
  { eapply dlist_frame; [exact Hl|by apply Fi|]. intros x Hx. by apply Fn, Hdis. }
  assert (this ∉ l) as Hout. { intros H. eapply Hdis; [exact H|]. apply elem_of_app. right. left. }
  assert (this ∉ k1 ++ k2) as Hout'.
  { destruct Hk as (_ & _ & (_ & H1 & H2)%list.NoDup_app). apply list.NoDup_cons in H2 as [H2 _].
    intros [H|H]%elem_of_app; [|done]. eapply H1; [exact H|left]. }
  assert (forall x, x ∈ k1 ++ k2 -> x ∉ l) as Hdis'.
  { intros x Hx Hxl. apply (Hdis x Hxl). apply elem_of_app in Hx as [Hx|Hx]; apply elem_of_app;
      [by left|right; by right]. }
  assert (forall x, x ∈ k1 ++ k2 -> x ∉ [this]) as Hx'.
  { intros x Hx ->%list_elem_of_singleton. done. }
  split_and!.
  - destruct (attach_tail m m0 this r l n0 E0 Hn0 Hl0 Hout) as (m' & E & Hd & Gn & Gi).
    exists m'. split_and!; [done..|]. eapply dlist_frame; [exact Hk0|by apply Gi|].
    intros x Hx. apply Gn. rewrite elem_of_app. intros [H|H]; [by eapply Hdis'|by eapply Hx'].
  - destruct (attach_head m m0 this r l n0 E0 Hn0 Hl0 Hout) as (m' & E & Hd & Gn & Gi).
    exists m'. split_and!; [done..|]. eapply dlist_frame; [exact Hk0|by apply Gi|].
    intros x Hx. apply Gn. intros [->|H]%elem_of_cons; [done|by eapply Hdis'].
  - destruct (attach_tail m m0 this r' (k1 ++ k2) n0 E0 Hn0 Hk0 Hout') as (m' & E & Hd & Gn & Gi).
    exists m'. split_and!; [done..|]. eapply dlist_frame; [exact Hl0|by apply Gi|].
    intros x Hx. apply Gn. rewrite elem_of_app. intros [H|H%list_elem_of_singleton]; [by eapply Hdis'|].
    by subst.
  - intros H1 H2. unfold DLinkedObject.destroy. rewrite E0. run. eexists. split; [done|].
    split; [apply lookup_delete_eq|].
    split; (eapply dlist_frame; [eassumption|cbn; by rewrite lookup_delete_ne|]); intros x Hx; cbn;
      rewrite lookup_delete_ne; [done| |done|]; intros ->; done.
Qed.

(** Two lists of two nodes, of the indexes 8 and 9. *)
Definition dsample : mem :=
  Mem (<[1%positive := Node (Some 2%positive) None (Some 8%positive) None None]>
      (<[2%positive := Node None (Some 1%positive) (Some 8%positive) None None]>
      (<[3%positive := Node (Some 4%positive) None (Some 9%positive) None None]>
      (<[4%positive := Node None (Some 3%positive) (Some 9%positive) None None]>
      (<[5%positive := Node None None None None None]> ∅)))))
    (<[8%positive := Index (Some 1%positive) (Some 2%positive)]>
    (<[9%positive := Index (Some 3%positive) (Some 4%positive)]> ∅)).

Lemma dsample_dlist : dlist dsample 8%positive [1%positive; 2%positive] /\
  dlist dsample 9%positive ([3%positive] ++ 4%positive :: []).
Proof.
  split; (split; [reflexivity|split; [|apply (bool_decide_unpack _); reflexivity]]);
    (split; [eexists; by split_and!|]); (split; [eexists; by split_and!|done]).
Qed.

Lemma dlinked_moves_witness :
  exists m', DLinkedObject.enlistTail dsample 4%positive 8%positive = Some m' /\
    dlist m' 8%positive ([1%positive; 2%positive] ++ [4%positive]) /\ dlist m' 9%positive ([3%positive] ++ []).
Proof.
  apply (dlinked_moves dsample 8%positive 9%positive 4%positive [1%positive; 2%positive] [3%positive] []).
  - apply dsample_dlist.
  - apply dsample_dlist.
  - discriminate.
  - intros x H. repeat (apply elem_of_cons in H as [->|H]; [apply (bool_decide_unpack _); reflexivity|]).
    by apply elem_of_nil in H.
Defined.

(** The nodes of [dlist m r (l1 ++ this :: l2)] that are not written stay. *)
Lemma dlist_split m r l1 this l2 : dlist m r (l1 ++ this :: l2) -> exists n,
  indexes m !! r = Some (Index (first_of (l1 ++ this :: l2) None) (last_of None (l1 ++ this :: l2))) /\
  nodes m !! this = Some n /\ Root n = Some r /\ Prev n = last_of None l1 /\ Next n = first_of l2 None /\
  dseg m r None l1 (Some this) /\ dseg m r (Some this) l2 None /\ (this ∉ l1) /\ (this ∉ l2) /\
  lst m (first_of (l1 ++ this :: l2) None) (l1 ++ this :: l2).
Proof.
  intros (Hi & Hs & Hd). pose proof (dseg_lst _ _ _ _ Hs) as Hl.
  apply dseg_app in Hs as [H1 [(n & Hn & Hr & Hp & Hx) H2]]. exists n.
  apply list.NoDup_app in Hd as (_ & Hd & [H _]%list.NoDup_cons). split_and!; try done.
  intros Hin. eapply Hd; [exact Hin|left].
Qed.

Lemma insertHead_spec m r l1 this l2 o no : dlist m r (l1 ++ this :: l2) ->
  nodes m !! o = Some no -> Root no = None -> o ∉ l1 ++ this :: l2 ->
  exists m', DLinkedObject.insertHead m this o = Some m' /\
    (l1 = [] -> dlist m' r (o :: this :: l2)) /\
    (l1 <> [] -> indexes m' = indexes m /\
      lst m' (first_of (l1 ++ this :: l2) None) (l1 ++ this :: l2)).
Proof.
  intros Hd Ho Hro Hout. destruct (dlist_split _ _ _ _ _ Hd) as (n & Hi & Hn & Hr & Hp & Hx & H1 & H2 & T1 & T2 & Hl).
  assert (o <> this) as Hne. { intros ->. apply Hout, elem_of_app. right. left. }
  unfold DLinkedObject.insertHead, get_node, DLinkedObject.get_index.
  rewrite (ddelist_none _ _ _ Ho Hro). run. rewrite Hn. run. rewrite Hr. run. rewrite Hi. run. rewrite Hp.
  unfold set_prev, set_next, set_root.
  destruct (last_split None l1) as [[-> ->]|(k & y & -> & ->)].
  - erewrite upd_node_some by exact Ho. run. do 2 (erewrite upd_node_some by apply put_node_eq; run).
    erewrite upd_node_some by (rewrite !put_node_ne by done; exact Hn).
    eexists. split; [done|]. split; [intros _|done]. split; [|split].
    + cbn. rewrite lookup_insert_eq. done.
    + split; [|split].
      * eexists. split; [cbn; rewrite lookup_insert_ne by done; apply lookup_insert_eq|done].
      * eexists. split; [apply lookup_insert_eq|done].
      * eapply dseg_frame; [|exact H2]. intros x Hin. cbn. rewrite !lookup_insert_ne; [done|..]; intros ->;
          try done; apply Hout; by right.
    + apply list.NoDup_cons. split; [done|apply Hd].
  - erewrite upd_node_some by exact Ho. run. do 3 (erewrite upd_node_some by apply put_node_eq; run).
    erewrite upd_node_some by (rewrite !put_node_ne by done; exact Hn).
    eexists. split; [done|]. split; [by destruct k|]. intros _. split; [done|].
    eapply seg_frame; [|exact Hl]. intros x Hin. cbn. destruct (decide (x = this)) as [->|Hxt].
    + rewrite lookup_insert_eq, Hn. done.
    + rewrite !lookup_insert_ne; [done|..]; intros ->; done.
Qed.

Lemma insertTail_spec m r l1 this l2 o no : dlist m r (l1 ++ this :: l2) ->
  nodes m !! o = Some no -> Root no = None -> o ∉ l1 ++ this :: l2 ->
  exists m', DLinkedObject.insertTail m this o = Some m' /\
    lst m' (first_of (l1 ++ this :: l2) None) (l1 ++ this :: o :: l2) /\
    (l2 = [] -> dlist m' r (l1 ++ [this; o])) /\
    (forall x, first_of l2 None = Some x -> Prev <$> nodes m' !! x = Some (Some this)).
Proof.
  intros Hd Ho Hro Hout. destruct (dlist_split _ _ _ _ _ Hd) as (n & Hi & Hn & Hr & Hp & Hx & H1 & H2 & T1 & T2 & Hl).
  assert (o <> this) as Hne. { intros ->. apply Hout, elem_of_app. right. left. }
  unfold DLinkedObject.insertTail, get_node, DLinkedObject.get_index.
  rewrite (ddelist_none _ _ _ Ho Hro). run. rewrite Hn. run. rewrite Hr. run. rewrite Hi. run. rewrite Hx.
  unfold set_prev, set_next, set_root.
  pose proof (lst_NoDup _ _ _ Hl) as HN.
  assert (forall m', nodes m' !! this = Some (with_next n (Some o)) ->
    (exists n', nodes m' !! o = Some n' /\ Next n' = first_of l2 None) ->
    (forall x, x ∈ l1 ++ l2 -> Next <$> nodes m' !! x = Next <$> nodes m !! x) ->
    lst m' (first_of (l1 ++ this :: l2) None) (l1 ++ this :: o :: l2)) as Hlst.
  { intros m' Ht (n' & Hn' & E') Hf.
    pose proof Hl as (q & Hl1 & (-> & n2 & Hn2 & Hl2))%seg_app. rewrite Hn in Hn2. injection Hn2 as <-.
    apply seg_app. exists (Some this). split.
    - eapply seg_frame; [|exact Hl1]. intros x Hin. apply Hf, elem_of_app. by left.
    - split; [done|]. eexists. split; [exact Ht|]. split; [done|]. exists n'. split; [done|].
      rewrite E', <- Hx. eapply seg_frame; [|exact Hl2]. intros x Hin. apply Hf, elem_of_app. by right. }
  assert (forall x, x ∈ l1 ++ l2 -> x <> this /\ x <> o) as Hxs.
  { intros x Hin. split; intros ->.
    - apply elem_of_app in Hin. tauto.
    - apply Hout, elem_of_app. apply elem_of_app in Hin as [Hin|Hin]; [by left|right; by right]. }
  destruct l2 as [|y l2]; cbn [first_of] in *.
  - erewrite upd_node_some by exact Ho. run. do 2 (erewrite upd_node_some by apply put_node_eq; run).
    erewrite upd_node_some by (rewrite !put_node_ne by done; exact Hn).
    eexists. split; [done|]. split; [|split; [intros _|done]].
    + apply Hlst; [apply put_node_eq| |].
      * eexists. rewrite put_node_ne by done. split; [apply put_node_eq|done].
      * intros x [Ht Hto]%Hxs. cbn. by rewrite !lookup_insert_ne.
    + split; [|split].
      * cbn. rewrite lookup_insert_eq, !first_of_app, last_of_app. done.
      * apply dseg_app. split.
        -- eapply dseg_frame; [|exact H1]. intros x Hin. destruct (Hxs x) as [Ht Hto].
           { apply elem_of_app. by left. } cbn. by rewrite !lookup_insert_ne.
        -- split; [|split; [|done]].
           ++ eexists. split; [apply put_node_eq|]. done.
           ++ eexists. split; [rewrite put_node_ne by done; apply put_node_eq|]. done.
      * change [this; o] with ([this] ++ [o]). rewrite app_assoc. apply list.NoDup_app.
        split; [done|split; [|apply NoDup_singleton]]. intros x Hin ->%list_elem_of_singleton. done.
  - erewrite upd_node_some by exact Ho. run. do 3 (erewrite upd_node_some by apply put_node_eq; run).
    erewrite upd_node_some by (rewrite !put_node_ne by done; exact Hn).
    pose proof H2 as [(ny & Hny & _ & Py & _) _].
    destruct (Hxs y) as [Hyt Hyo]. { apply elem_of_app. right. left. }
    eexists. split; [done|]. split; [|split; [done|]].
    + apply Hlst; [apply put_node_eq| |].
      * eexists. rewrite put_node_ne by done. split; [apply put_node_eq|done].
      * intros x [Ht Hto]%Hxs. cbn. by rewrite !lookup_insert_ne.
    + intros x [= <-]. cbn. rewrite !lookup_insert_ne, Hny by done. cbn. by rewrite Py.
Qed.

(** [insertHead] in front of the first node and [insertTail] behind the last
    give the doubly linked list with the new object.  Elsewhere [insertHead] leaves
    the forward chain and the index as they were, so that the new object cannot be
    reached from the head, and [insertTail] enters it in the forward chain while the
    node behind it still has this object as its predecessor. *)
Theorem dlinked_insert (m : mem) (r this o : loc) (l1 l2 : list loc) :
  dlist m r (l1 ++ this :: l2) -> o ∉ l1 ++ this :: l2 -> Root <$> nodes m !! o = Some None ->
  (exists m', DLinkedObject.insertHead m this o = Some m' /\
    (l1 = [] -> dlist m' r (o :: this :: l2)) /\
    (l1 <> [] -> indexes m' = indexes m /\
      lst m' (first_of (l1 ++ this :: l2) None) (l1 ++ this :: l2))) /\
  (exists m', DLinkedObject.insert m this o = Some m' /\
    lst m' (first_of (l1 ++ this :: l2) None) (l1 ++ this :: o :: l2) /\
    (l2 = [] -> dlist m' r (l1 ++ [this; o])) /\
    (forall x, first_of l2 None = Some x -> Prev <$> nodes m' !! x = Some (Some this))).
Proof.
  intros Hd Hout Ho. destruct (nodes m !! o) as [no|] eqn:En; [|done]. injection Ho as Ho. split.
  - by eapply insertHead_spec.
  - by eapply insertTail_spec.
Qed.

Lemma dlinked_insert_witness :
  (exists m', DLinkedObject.insertHead dsample 2%positive 5%positive = Some m' /\
    lst m' (Some 1%positive) [1%positive; 2%positive]) /\
  (exists m', DLinkedObject.insert dsample 2%positive 5%positive = Some m' /\
    dlist m' 8%positive [1%positive; 2%positive; 5%positive]).
Proof.
  destruct (dlinked_insert dsample 8%positive 2%positive 5%positive [1%positive] [])
    as [(m1 & E1 & _ & H1) (m2 & E2 & _ & H2 & _)].
  - apply dsample_dlist.
  - apply (bool_decide_unpack _). reflexivity.
  - reflexivity.
  - split; [exists m1; split; [exact E1|apply H1; discriminate]|exists m2; split; [exact E2|by apply H2]].
Defined.
