(* ===== verification/Named.v ===== *)
(** * Named objects and trees (corelib/linked.cpp)

    A [NamedObject] lies in one of the chains of a hash index, the array of its
    roots, under the hash of its name; a [NamedTree] node owns the chain of its
    children.  Names are compared through the collation of the C library, which
    clients see as the class [Collate]. *)

From stdpp Require Import gmap strings.
From S2P Require Import Prelude CLib Strings Linked.

(** [strcoll] of the C library: it tells names apart. *)
Class Collate := {
  strcoll : list Z -> list Z -> Z;
  strcoll_eq : forall a b, nonul a -> nonul b -> strcoll a b = 0 <-> a = b }.

(** Without [HAVE_STRCOLL] the sources call [strcmp]. *)
#[export] Instance collate_strcmp : Collate := {| strcoll := strcmp; strcoll_eq := strcmp_eq |}.

Module NamedObject.

Fixpoint keyindex_loop (id : list Z) (val : Z) : Z :=
  match id with
  | [] => val
  | c :: id' => keyindex_loop id' (Z.lxor (u32 (Z.shiftl val 1)) (Z.land c 31))
  end.

Definition keyindex (id : list Z) (max : Z) : Z := keyindex_loop id 0 mod max.

(** [clearId], of the destructor as well. *)
Definition clearId (m : mem) (this : loc) : option mem := set_id m this None.

(** The operations on a hash index. *)
Section with_collate.
Context `{Collate}.

(** [equal]: comparing an object that has no name is undefined. *)
Definition equal (n : node) (nid : list Z) : option bool :=
  i ← Id n; Some (bool_decide (strcoll i nid = 0)).

(** [while (node) { if (node->equal (id)) break; prior = node; node = node->getNext (); }] *)
Fixpoint seek (fuel : nat) (m : mem) (id : list Z) (prior cur : option loc)
    : option (option loc * option loc) :=
  match fuel with
  | O => None
  | S f =>
      match cur with
      | None => Some (prior, None)
      | Some l =>
          n ← get_node m l;
          b ← equal n id;
          if (b : bool) then Some (prior, cur) else seek f m id cur (Next n)
      end
  end.

(** [find (root, id)] *)
Definition find (m : mem) (root : option loc) (id : list Z) : option (option loc) :=
  snd <$> seek (chain_fuel m) m id None root.

(** [remove (&root, id)] *)
Definition remove_root (m : mem) (root : option loc) (id : list Z) : option (mem * option loc * option loc) :=
  '(prior, node) ← seek (chain_fuel m) m id None root;
  match node with
  | None => Some (m, root, None)
  | Some x =>
      n ← get_node m x;
      match prior with
      | None => Some (m, Next n, Some x)
      | Some p => m ← set_next m p (Next n); Some (m, root, Some x)
      end
  end.

(** The position of a name in the index. *)
Definition slot (id : list Z) (max : Z) : nat := Z.to_nat (if max <? 2 then 0 else keyindex id max).

Definition map (m : mem) (idx : list (option loc)) (id : list Z) (max : Z) : option (option loc) :=
  root ← idx !! slot id max; find m root id.

Definition remove (m : mem) (idx : list (option loc)) (id : list Z) (max : Z)
    : option (mem * list (option loc) * option loc) :=
  root ← idx !! slot id max;
  '(m, root, x) ← remove_root m root id;
  Some (m, <[slot id max := root]> idx, x).

(** [add]: an object of the same name is released; when it was the first of its
    chain, its successor takes the place and this object is in no chain. *)
Definition add (m : mem) (idx : list (option loc)) (this : loc) (nid : list Z) (max : Z)
    : option (mem * list (option loc)) :=
  m ← clearId m this;
  root ← idx !! slot nid max;
  '(prior, node) ← seek (chain_fuel m) m nid None root;
  '(m, idx) ← (match node with
    | Some x =>
        n ← get_node m x;
        '(m, idx) ← (match prior with
          | Some p => m ← set_next m p (Some this); m ← set_next m this (Next n); Some (m, idx)
          | None => Some (m, <[slot nid max := Next n]> idx)
          end);
        m ← LinkedObject.release m x; Some (m, idx)
    | None => m ← set_next m this root; Some (m, <[slot nid max := Some this]> idx)
    end);
  m ← set_id m this (Some nid); Some (m, idx).

(** [NamedObject (root, nid)] on an ordered index: a tail that is replaced is still the
    tail when this object is appended. *)
Definition make_ordered (m : mem) (this : loc) (root : index) (nid : list Z) : option (mem * index) :=
  let m := put_node m this (Node None None None None None) in
  '(prior, node) ← seek (chain_fuel m) m nid None (head root);
  '(m, root) ← (match node with
    | Some x =>
        n ← get_node m x;
        '(m, root) ← (match prior with
          | Some p => m ← set_next m p (Next n); Some (m, root)
          | None => Some (m, Index (Next n) (tail root))
          end);
        m ← LinkedObject.release m x; Some (m, root)
    | None => Some (m, root)
    end);
  m ← set_next m this None;
  m ← set_id m this (Some nid);
  let root := match head root with None => Index (Some this) (tail root) | Some _ => root end in
  match tail root with
  | None => Some (m, Index (head root) (Some this))
  | Some t => m ← set_next m t (Some this); Some (m, root)
  end.

(** [NamedObject (root, nid, max)] on a hash index *)
Definition make (m : mem) (idx : list (option loc)) (this : loc) (nid : list Z) (max : Z)
    : option (mem * list (option loc)) :=
  add (put_node m this (Node None None None None None)) idx this nid max.

End with_collate.

(** [while (key < max && !idx[key]) ++key]: the first root from [key] on. *)
Fixpoint first_root (idx : list (option loc)) : option loc :=
  match idx with
  | [] => None
  | Some l :: _ => Some l
  | None :: idx' => first_root idx'
  end.

(** [skip]: the object after [rec], the first one for NULL.  [idx] has [max]
    entries. *)
Definition skip (m : mem) (idx : list (option loc)) (rec : option loc) (max : Z) : option (option loc) :=
  match rec with
  | None => Some (first_root idx)
  | Some l =>
      n ← get_node m l;
      match Next n with
      | Some x => Some (Some x)
      | None => i ← Id n; Some (first_root (drop (Z.to_nat (keyindex i max + 1)) idx))
      end
  end.

Fixpoint index_loop (fuel : nat) (m : mem) (idx : list (option loc)) (node : option loc) (max : Z)
    : option (list loc) :=
  match fuel with
  | O => None
  | S f =>
      match node with
      | None => Some []
      | Some l => next ← skip m idx (Some l) max; cons l <$> index_loop f m idx next max
      end
  end.

(** [index]: all the objects of the index, in the order of [skip]. *)
Definition index (m : mem) (idx : list (option loc)) (max : Z) : option (list loc) :=
  first ← skip m idx None max; index_loop (chain_fuel m) m idx first max.

(** [purge]: an index of one chain is not purged. *)
Fixpoint purge_loop (m : mem) (roots : list (option loc)) : option mem :=
  match roots with
  | [] => Some m
  | root :: rest => m ← LinkedObject.purge m root; purge_loop m rest
  end.

Definition purge (m : mem) (idx : list (option loc)) (max : Z) : option mem :=
  purge_loop m (rev (take (Z.to_nat (if max <? 2 then 0 else max)) idx)).

Fixpoint count_loop (m : mem) (roots : list (option loc)) (c : Z) : option Z :=
  match roots with
  | [] => Some c
  | root :: rest => c ← LinkedObject.count_loop (chain_fuel m) m root c; count_loop m rest c
  end.

Definition count (m : mem) (idx : list (option loc)) (max : Z) : option Z :=
  count_loop m (rev (take (Z.to_nat (if max <? 2 then 1 else max)) idx)) 0.

End NamedObject.

Module NamedTree.

Definition child (m : mem) (l : loc) : option Linked.index := indexes m !! l.

(** [eq (node->Id, tid)]: a missing name is the empty one. *)
Definition eq_id (n : node) (tid : list Z) : bool := strcmp (default [] (Id n)) tid =? 0.

(** [NamedTree (nid)], a root without children. *)
Definition make (m : mem) (this : loc) (nid : option (list Z)) : mem :=
  put_index (put_node m this (Node None None None nid None)) this (Linked.Index None None).

(** A change of the [Child] index of [p]. *)
Definition on_child (m : mem) (p : loc)
    (op : mem -> Linked.index -> option (mem * Linked.index)) : option mem :=
  i ← child m p; '(m, i) ← op m i; Some (put_index m p i).

(** [NamedTree (p, nid)] *)
Definition make_child (m : mem) (this p : loc) (nid : list Z) : option mem :=
  m ← on_child (make m this None) p (fun m i => OrderedObject.enlistTail m this i);
  m ← set_id m this (Some nid);
  set_parent m this (Some p).

Definition is_leaf (m : mem) (l : loc) : option bool :=
  i ← child m l; Some (match head i with None => true | Some _ => false end).

Definition is_root (n : node) : bool := match Parent n with None => true | Some _ => false end.

Fixpoint getChild_loop (fuel : nat) (m : mem) (node : option loc) (tid : list Z) : option (option loc) :=
  match fuel with
  | O => None
  | S f =>
      match node with
      | None => Some None
      | Some l => n ← get_node m l; if eq_id n tid then Some (Some l) else getChild_loop f m (Next n) tid
      end
  end.

Definition getChild (m : mem) (this : loc) (tid : list Z) : option (option loc) :=
  i ← child m this; getChild_loop (chain_fuel m) m (head i) tid.

(** [if (Parent) delist (&Parent->Child)] *)
Definition leave (m : mem) (this : loc) : option mem :=
  n ← get_node m this;
  match Parent n with
  | None => Some m
  | Some p => on_child m p (fun m i => OrderedObject.delist m this i)
  end.

(** [relistTail]: [Next] keeps the old successor. *)
Definition relistTail (m : mem) (this : loc) (trunk : option loc) : option mem :=
  n ← get_node m this;
  if decide (Parent n = trunk) then Some m else
  m ← leave m this;
  m ← set_parent m this trunk;
  match trunk with
  | None => Some m
  | Some p => on_child m p (fun m i => OrderedObject.enlistTail m this i)
  end.

Definition relistHead (m : mem) (this : loc) (trunk : option loc) : option mem :=
  n ← get_node m this;
  if decide (Parent n = trunk) then Some m else
  m ← leave m this;
  m ← set_parent m this trunk;
  match trunk with
  | None => Some m
  | Some p => on_child m p (fun m i => OrderedObject.enlistHead m this i)
  end.

(** [path]: the leading dots climb, ... *)
Fixpoint climb (m : mem) (node : loc) (tid : list Z) : option (option (loc * list Z)) :=
  match tid with
  | 46 :: tid' =>
      n ← get_node m node;
      match Parent n with
      | None => Some None
      | Some p => climb m p tid'
      end
  | _ => Some (Some (node, tid))
  end.

(** ... and each name up to the next dot, read through a buffer of 65
    characters, names a child. *)
Fixpoint path_loop (fuel : nat) (m : mem) (node : option loc) (tid : list Z) : option (option loc) :=
  match fuel with
  | O => None
  | S f =>
      match node, tid with
      | None, _ => Some None
      | Some l, [] => Some (Some l)
      | Some l, _ =>
          b ← Str.set (replicate 65 0) 65 (Some (tid ++ [0]));
          buf ← cstr b;
          let buf := match strchr buf 46 with Some ep => take (Z.to_nat ep) buf | None => buf end in
          next ← getChild m l buf;
          path_loop f m next (match strchr tid 46 with Some np => drop (Z.to_nat (np + 1)) tid | None => [] end)
      end
  end.

Definition path (m : mem) (this : loc) (tid : list Z) : option (option loc) :=
  match tid with
  | [] => Some (Some this)
  | _ =>
      start ← climb m this tid;
      match start with
      | None => Some None
      | Some (node, rest) => path_loop (S (length rest)) m (Some node) rest
      end
  end.

Fixpoint getLeaf_loop (fuel : nat) (m : mem) (node : option loc) (tid : list Z) : option (option loc) :=
  match fuel with
  | O => None
  | S f =>
      match node with
      | None => Some None
      | Some l =>
          n ← get_node m l;
          leaf ← is_leaf m l;
          if leaf && eq_id n tid then Some (Some l) else getLeaf_loop f m (Next n) tid
      end
  end.

Definition getLeaf (m : mem) (this : loc) (tid : list Z) : option (option loc) :=
  i ← child m this; getLeaf_loop (chain_fuel m) m (head i) tid.

(** [leaf]: the first leaf of that name below, depth first. *)
Fixpoint leaf_loop (fuel : nat) (m : mem) (node : option loc) (tid : list Z) : option (option loc) :=
  match fuel with
  | O => None
  | S f =>
      match node with
      | None => Some None
      | Some l =>
          n ← get_node m l;
          i ← child m l;
          leaf ← is_leaf m l;
          if leaf && eq_id n tid then Some (Some l) else
          obj ← (if leaf then Some None else leaf_loop f m (head i) tid);
          match obj with
          | Some _ => Some obj
          | None => leaf_loop f m (Next n) tid
          end
      end
  end.

Definition leaf (m : mem) (this : loc) (tid : list Z) : option (option loc) :=
  i ← child m this; leaf_loop (chain_fuel m) m (head i) tid.

(** [find]: the first node of that name below that has children. *)
Fixpoint find_loop (fuel : nat) (m : mem) (node : option loc) (tid : list Z) : option (option loc) :=
  match fuel with
  | O => None
  | S f =>
      match node with
      | None => Some None
      | Some l =>
          n ← get_node m l;
          i ← child m l;
          leaf ← is_leaf m l;
          if (leaf : bool) then find_loop f m (Next n) tid else
          if eq_id n tid then Some (Some l) else
          obj ← find_loop f m (head i) tid;
          match obj with
          | Some _ => Some obj
          | None => find_loop f m (Next n) tid
          end
      end
  end.

Definition find (m : mem) (this : loc) (tid : list Z) : option (option loc) :=
  i ← child m this; find_loop (chain_fuel m) m (head i) tid.

Definition setId (m : mem) (this : loc) (nid : list Z) : option mem := set_id m this (Some nid).

Definition remove (m : mem) (this : loc) : option mem :=
  m ← leave m this; set_id m this None.

(** The loop of [purge], with [delete obj]: [~NamedTree] forgets the name, which
    is not freed, and purges, here of a node without parent. *)
Fixpoint purge_loop (fuel : nat) (m : mem) (node : option loc) : option mem :=
  match fuel with
  | O => None
  | S f =>
      match node with
      | None => Some m
      | Some obj =>
          m ← set_parent m obj None;
          n ← get_node m obj;
          m ← set_id m obj None;
          i ← child m obj;
          m ← leave m obj;
          m ← purge_loop f m (head i);
          m ← set_id m obj None;
          purge_loop f (free_node m obj) (Next n)
      end
  end.

Definition purge (m : mem) (this : loc) : option mem :=
  i ← child m this;
  m ← leave m this;
  m ← purge_loop (chain_fuel m) m (head i);
  set_id m this None.

(** [~NamedTree ()] and [delete] *)
Definition destroy (m : mem) (this : loc) : option mem :=
  m ← set_id m this None;
  m ← purge m this;
  Some (free_node m this).

End NamedTree.
