(* ===== verification/NamedLaws.v ===== *)
(** * Named objects as a dictionary, named trees as trees

    A hash index of named objects refines a finite map from names to objects; the
    searches of [NamedTree] read the forest of a node's descendants. *)

From stdpp Require Import gmap sets list.
From S2P Require Import Prelude CLib Linked LinkedLaws Named.

(** ** Chains of named objects *)

Definition name_of (m : mem) (x : loc) : option (list Z) := nodes m !! x ≫= Id.

(** [m'] differs from [m] in no name of [l]. *)
Lemma name_of_frame m m' x : nodes m' !! x = nodes m !! x -> name_of m' x = name_of m x.
Proof. unfold name_of. by intros ->. Qed.

(** A node stands at one place of a list without duplicates. *)
Lemma NoDup_split_eq (x : loc) l1 l2 k1 k2 : NoDup (l1 ++ x :: l2) -> l1 ++ x :: l2 = k1 ++ x :: k2 -> k1 = l1.
Proof.
  revert k1. induction l1 as [|y l1 IH]; intros [|z k1] Hd E; cbn in *; try done.
  - injection E as -> ->. apply list.NoDup_cons in Hd as [Hd _]. exfalso. apply Hd, elem_of_app. right. left.
  - injection E as <- E. apply list.NoDup_cons in Hd as [Hd _]. exfalso. apply Hd, elem_of_app. right. left.
  - injection E as <- E. f_equal. apply list.NoDup_cons in Hd as [_ Hd]. by apply IH.
Qed.

Section laws.
Context `{Collate}.

(** Every object of [l] has a name, of characters that are not zero. *)
Definition named (m : mem) (l : list loc) : Prop :=
  forall x, x ∈ l -> exists i, name_of m x = Some i /\ nonul i.

Lemma named_cons m x l : named m (x :: l) -> named m l.
Proof. intros Hn y Hy. apply Hn. by right. Qed.

(** [seek] finds the first object of that name. *)
Lemma seek_found m id l1 x l2 : forall fuel prior p, nonul id ->
  seg m p (l1 ++ x :: l2) None -> named m (l1 ++ x :: l2) -> name_of m x = Some id ->
  (forall y, y ∈ l1 -> name_of m y <> Some id) -> (length (l1 ++ x :: l2) < fuel)%nat ->
  NamedObject.seek fuel m id prior p = Some (last_of prior l1, Some x).
Proof.
  induction l1 as [|y l1 IH]; intros [|f] prior p Hid Hs Hnm Hx Hout Hf; try (cbn in Hf; lia);
    cbn [app] in Hs; destruct Hs as (-> & n & Hn & Hs); cbn [NamedObject.seek]; unfold get_node; rewrite Hn; run.
  - unfold name_of in Hx. rewrite Hn in Hx. cbn in Hx. unfold NamedObject.equal. rewrite Hx. run.
    rewrite bool_decide_true; [done|]. by apply strcoll_eq.
  - destruct (Hnm y) as (i & Hi & Hnz); [left|]. pose proof (Hout y ltac:(left)) as Hne. rewrite Hi in Hne.
    unfold name_of in Hi. rewrite Hn in Hi. cbn in Hi. unfold NamedObject.equal. rewrite Hi. run.
    rewrite bool_decide_false by (rewrite strcoll_eq by done; congruence).
    rewrite (IH f (Some y) (Next n)); [done|done|exact Hs|by eapply named_cons|done| |cbn in Hf; lia].
    intros z Hz. apply Hout. by right.
Qed.

Lemma seek_none m id l : forall fuel prior p, nonul id -> seg m p l None -> named m l ->
  (forall y, y ∈ l -> name_of m y <> Some id) -> (length l < fuel)%nat ->
  NamedObject.seek fuel m id prior p = Some (last_of prior l, None).
Proof.
  induction l as [|y l IH]; intros [|f] prior p Hid Hs Hnm Hout Hf; try (cbn in Hf; lia); cbn in Hs.
  - subst p. done.
  - destruct Hs as (-> & n & Hn & Hs). cbn [NamedObject.seek]. unfold get_node. rewrite Hn. run.
    destruct (Hnm y) as (i & Hi & Hnz); [left|]. pose proof (Hout y ltac:(left)) as Hne. rewrite Hi in Hne.
    unfold name_of in Hi. rewrite Hn in Hi. cbn in Hi. unfold NamedObject.equal. rewrite Hi. run.
    rewrite bool_decide_false by (rewrite strcoll_eq by done; congruence).
    rewrite (IH f (Some y) (Next n)); [done|done|exact Hs|by eapply named_cons| |cbn in Hf; lia].
    intros z Hz. apply Hout. by right.
Qed.

(** ** Hash indexes

    [table m idx max D chains]: the index [idx] of [max] roots holds the objects of
    the dictionary [D]; [chains k] are those of root [k]. *)
Record table (m : mem) (idx : list (option loc)) (max : Z) (D : gmap (list Z) loc)
    (chains : nat -> list loc) : Prop := {
  table_max : 2 <= max < 2 ^ 32;
  table_length : length idx = Z.to_nat max;
  table_chain : forall k root, idx !! k = Some root -> lst m root (chains k);
  table_named : forall k x, (k < Z.to_nat max)%nat -> x ∈ chains k ->
    exists i, name_of m x = Some i /\ nonul i /\ NamedObject.slot i max = k /\ D !! i = Some x;
  table_here : forall i x, D !! i = Some x -> name_of m x = Some i /\ x ∈ chains (NamedObject.slot i max) }.

Lemma slot_bound id max : 2 <= max -> (NamedObject.slot id max < Z.to_nat max)%nat.
Proof.
  intros Hm. unfold NamedObject.slot. destruct (Z.ltb_spec max 2); [lia|].
  unfold NamedObject.keyindex. pose proof (Z.mod_pos_bound (NamedObject.keyindex_loop id 0) max). lia.
Qed.

(** The chain of a name, and where the name is in it. *)
Lemma table_slot m idx max D chains id : table m idx max D chains -> nonul id ->
  exists root l, idx !! NamedObject.slot id max = Some root /\ chains (NamedObject.slot id max) = l /\
    lst m root l /\ named m l /\
    match D !! id with
    | None => forall y, y ∈ l -> name_of m y <> Some id
    | Some x => name_of m x = Some id /\ exists l1 l2, l = l1 ++ x :: l2 /\
        (forall y, y ∈ l1 -> name_of m y <> Some id)
    end.
Proof.
  intros [Hm Hlen Hc Hn Hh] Hid. set (k := NamedObject.slot id max).
  assert (k < Z.to_nat max)%nat as Hk by (apply slot_bound; lia).
  destruct (lookup_lt_is_Some_2 idx k) as [root Hr]; [by rewrite Hlen|].
  exists root, (chains k). split_and!; [done|done|by apply Hc| |].
  { intros x Hx. destruct (Hn k x Hk Hx) as (i & Hi & Hz & _). by exists i. }
  destruct (D !! id) as [x|] eqn:E.
  - destruct (Hh id x E) as [Ex Hx]. split; [done|].
    pose proof (lst_NoDup _ _ _ (Hc k root Hr)) as Hd.
    apply list_elem_of_split in Hx as (l1 & l2 & El). fold k in El. exists l1, l2. split; [done|].
    rewrite El in Hd. apply list.NoDup_app in Hd as (_ & Hd1 & _). intros y Hy Ey.
    destruct (Hn k y Hk) as (i & Hi & _ & _ & Hd'). { rewrite El. apply elem_of_app. by left. }
    assert (y = x) as -> by congruence. eapply Hd1; [exact Hy|left].
  - intros y Hy Ey. destruct (Hn k y Hk Hy) as (i & Hi & _ & _ & Hd). congruence.
Qed.

(** A search in the chain of a name. *)
Lemma table_seek m idx max D chains id root l : table m idx max D chains -> nonul id ->
  idx !! NamedObject.slot id max = Some root -> lst m root l -> named m l ->
  match D !! id with
  | None => forall y, y ∈ l -> name_of m y <> Some id
  | Some x => name_of m x = Some id /\ exists l1 l2, l = l1 ++ x :: l2 /\
      (forall y, y ∈ l1 -> name_of m y <> Some id)
  end ->
  exists prior, NamedObject.seek (chain_fuel m) m id None root = Some (prior, D !! id) /\
    forall x l1 l2, D !! id = Some x -> l = l1 ++ x :: l2 -> prior = last_of None l1.
Proof.
  intros Ht Hid Hr Hl Hnm Hc. pose proof (lst_fuel _ _ _ Hl) as Hf.
  destruct (D !! id) as [x|].
  - destruct Hc as (Hx & l1 & l2 & -> & Hne). exists (last_of None l1).
    split; [by eapply seek_found|]. intros x' k1 k2 [= <-] E. f_equal.
    pose proof (lst_NoDup _ _ _ Hl) as Hd. symmetry. by apply (NoDup_split_eq x l1 l2 k1 k2).
  - exists (last_of None l). split; [by eapply seek_none|done].
Qed.

(** One chain is replaced. *)
Lemma table_update m m' idx max D D' chains k root' l' : table m idx max D chains ->
  (k < Z.to_nat max)%nat ->
  (forall j x, j <> k -> (j < Z.to_nat max)%nat -> x ∈ chains j -> nodes m' !! x = nodes m !! x) ->
  lst m' root' l' ->
  (forall x, x ∈ l' -> exists i, name_of m' x = Some i /\ nonul i /\ NamedObject.slot i max = k /\ D' !! i = Some x) ->
  (forall i, NamedObject.slot i max <> k -> D' !! i = D !! i) ->
  (forall i x, NamedObject.slot i max = k -> D' !! i = Some x -> name_of m' x = Some i /\ x ∈ l') ->
  table m' (<[k := root']> idx) max D' (fun j => if decide (j = k) then l' else chains j).
Proof.
  intros [Hm Hlen Hc Hn Hh] Hk Hf Hl Hnm HD HD'. split; [done|by rewrite length_insert|..].
  - intros j root Hj. destruct (decide (j = k)) as [->|Hne].
    + rewrite list_lookup_insert_eq in Hj by lia. by injection Hj as <-.
    + rewrite list_lookup_insert_ne in Hj by done. eapply seg_frame; [|by eapply Hc].
      intros x Hx. rewrite (Hf j x); [done|done| |done]. rewrite <- Hlen. by eapply lookup_lt_Some.
  - intros j x Hj Hx. destruct (decide (j = k)) as [->|Hne]; [by apply Hnm|].
    destruct (Hn j x Hj Hx) as (i & Hi & Hz & Hs & Hd). exists i.
    rewrite (name_of_frame m) by by apply (Hf j). rewrite HD by congruence. done.
  - intros i x Hi. destruct (decide (NamedObject.slot i max = k)) as [Hs|Hne]; [by apply HD'|].
    rewrite HD in Hi by done. destruct (Hh i x Hi) as [E Hx].
    rewrite (name_of_frame m); [done|]. eapply Hf; [exact Hne| |exact Hx]. apply slot_bound. lia.
Qed.

Lemma set_next_name m x p m' y : set_next m x p = Some m' -> name_of m' y = name_of m y.
Proof.
  unfold set_next, upd_node, get_node, name_of. destruct (nodes m !! x) as [n|] eqn:Hn; [|done].
  intros [= <-]. cbn. destruct (decide (y = x)) as [->|Hy].
  - by rewrite lookup_insert_eq, Hn.
  - by rewrite lookup_insert_ne.
Qed.

(** What a chain of the table knows of its objects. *)
Lemma table_names m idx max D chains k l1 l2 : table m idx max D chains -> (k < Z.to_nat max)%nat ->
  chains k = l1 ++ l2 -> forall x, x ∈ l1 ++ l2 ->
  exists i, name_of m x = Some i /\ nonul i /\ NamedObject.slot i max = k /\ D !! i = Some x.
Proof. intros [] Hk E x Hx. apply (table_named0 k); [done|]. by rewrite E. Qed.

Lemma map_spec m idx max D chains id : table m idx max D chains -> nonul id ->
  NamedObject.map m idx id max = Some (D !! id).
Proof.
  intros Ht Hid. destruct (table_slot _ _ _ _ _ id Ht Hid) as (root & l & Hr & _ & Hl & Hnm & Hc).
  destruct (table_seek _ _ _ _ _ id root l Ht Hid Hr Hl Hnm Hc) as (prior & E & _).
  unfold NamedObject.map, NamedObject.find. rewrite Hr. run. by rewrite E.
Qed.

(** The chain of [id] without its object. *)
Lemma table_delete m m' idx max D chains id x l1 l2 root' : table m idx max D chains -> nonul id ->
  D !! id = Some x -> chains (NamedObject.slot id max) = l1 ++ x :: l2 ->
  (forall z, z ∉ l1 ++ x :: l2 -> nodes m' !! z = nodes m !! z) ->
  (forall z, z <> x -> name_of m' z = name_of m z) -> lst m' root' (l1 ++ l2) ->
  exists chains', table m' (<[NamedObject.slot id max := root']> idx) max (delete id D) chains' /\
    chains' (NamedObject.slot id max) = l1 ++ l2.
Proof.
  intros Ht Hid Hx Ec Hf Hnm Hl. pose proof Ht as [Hm Hlen Hc Hn Hh].
  set (k := NamedObject.slot id max) in *.
  assert (k < Z.to_nat max)%nat as Hk by (apply slot_bound; lia).
  destruct (lookup_lt_is_Some_2 idx k) as [root Hr]; [by rewrite Hlen|].
  assert (x ∉ l1 ++ l2) as Hout.
  { pose proof (lst_NoDup _ _ _ (Hc k root Hr)) as Hd. rewrite Ec in Hd.
    apply list.NoDup_app in Hd as (_ & Hd & [Hd' _]%list.NoDup_cons). intros [Hin|Hin]%elem_of_app; [|done].
    eapply Hd; [exact Hin|left]. }
  exists (fun j => if decide (j = k) then l1 ++ l2 else chains j).
  split; [|by rewrite decide_True]. eapply table_update; [exact Ht|done| |exact Hl|..].
  - intros j z Hj Hjm Hz. apply Hf. rewrite <- Ec. intros Hz'.
    destruct (Hn j z Hjm Hz) as (i & Ei & _ & Si & _). destruct (Hn k z Hk Hz') as (i' & Ei' & _ & Si' & _).
    congruence.
  - intros z Hz. assert (z <> x) as Hzx by (by intros ->). rewrite Hnm by done.
    destruct (Hn k z Hk) as (i & Ei & Zi & Si & Di).
    { rewrite Ec. apply elem_of_app. apply elem_of_app in Hz as [Hz|Hz]; [by left|right; by right]. }
    exists i. rewrite lookup_delete_ne; [done|]. intros ->. congruence.
  - intros i Hi. rewrite lookup_delete_ne; [done|]. by intros ->.
  - intros i z Hi [Hne Hz]%lookup_delete_Some. destruct (Hh i z Hz) as [Ei Hin].
    assert (z <> x) as Hzx. { intros ->. destruct (Hh id x Hx) as [Ex _]. congruence. }
    rewrite Hnm by done. split; [done|]. rewrite Hi, Ec in Hin.
    apply elem_of_app. apply elem_of_app in Hin as [Hin|Hin]; [by left|].
    apply elem_of_cons in Hin as [->|Hin]; [done|by right].
Qed.

Lemma remove_spec m idx max D chains id : table m idx max D chains -> nonul id ->
  exists m' idx' chains', NamedObject.remove m idx id max = Some (m', idx', D !! id) /\
    table m' idx' max (delete id D) chains'.
Proof.
  intros Ht Hid. destruct (table_slot _ _ _ _ _ id Ht Hid) as (root & l & Hr & Ec & Hl & Hnm & Hc).
  destruct (table_seek _ _ _ _ _ id root l Ht Hid Hr Hl Hnm Hc) as (prior & E & Hp).
  unfold NamedObject.remove, NamedObject.remove_root. rewrite Hr. run. rewrite E. run.
  destruct (D !! id) as [x|] eqn:Ed.
  - destruct Hc as (_ & l1 & l2 & -> & _). rewrite (Hp x l1 l2 eq_refl eq_refl).
    destruct (unlink_spec m root l1 x l2 Hl) as (n & Hn & Hu). unfold get_node. rewrite Hn. run.
    destruct (last_of None l1) as [y|] eqn:Ey.
    + destruct Hu as (m' & Em & _ & Hl' & Ho). rewrite Em. run.
      destruct (table_delete m m' idx max D chains id x l1 l2 root Ht Hid Ed Ec) as (c & Hc & _); [| |done|by eexists _, _, c].
      * intros z Hz. apply Ho. intros ->. apply Hz. apply elem_of_app. left.
        destruct (last_split None l1) as [[E' _]|(k & y' & -> & E')]; rewrite E' in Ey; [done|].
        injection Ey as ->. apply elem_of_app. right. left.
      * intros z _. by eapply set_next_name.
    + destruct Hu as [-> Hl'].
      destruct (table_delete m m idx max D chains id x [] l2 (Next n) Ht Hid Ed Ec) as (c & Hc & _);
        [done|done|done|by eexists _, _, c].
  - rewrite delete_id by done. run. exists m, idx, chains. by rewrite list_insert_id.
Qed.

Lemma table_frame m m' idx max D chains : table m idx max D chains ->
  (forall i x, D !! i = Some x -> nodes m' !! x = nodes m !! x) -> table m' idx max D chains.
Proof.
  intros [Hm Hlen Hc Hn Hh] Hf. split; [done|done|..].
  - intros k root Hk. eapply seg_frame; [|by eapply Hc]. intros x Hx.
    destruct (Hn k x) as (i & _ & _ & _ & Hi); [|done|by rewrite (Hf i x)].
    rewrite <- Hlen. by eapply lookup_lt_Some.
  - intros k x Hk Hx. destruct (Hn k x Hk Hx) as (i & Ei & Zi & Si & Hi). exists i.
    by rewrite (name_of_frame m) by by apply (Hf i).
  - intros i x Hi. rewrite (name_of_frame m) by by apply (Hf i). by apply Hh.
Qed.

(** An object of no chain, entered under [id] in the chain of that name. *)
Lemma table_enter m m' idx max D chains this id root' l' : table m idx max D chains -> nonul id ->
  (forall i, D !! i <> Some this) ->
  (forall z, z ∉ chains (NamedObject.slot id max) -> z <> this -> nodes m' !! z = nodes m !! z) ->
  (forall z, z ∈ l' <-> z = this \/ z ∈ chains (NamedObject.slot id max) /\ D !! id <> Some z) ->
  (forall z, z ∈ l' -> z <> this -> name_of m' z = name_of m z) ->
  name_of m' this = Some id -> lst m' root' l' ->
  exists chains', table m' (<[NamedObject.slot id max := root']> idx) max (<[id := this]> D) chains'.
Proof.
  intros Ht Hid Hthis Hf Hin Hnm Hname Hl. pose proof Ht as [Hm Hlen Hc Hn Hh].
  set (k := NamedObject.slot id max) in *.
  assert (k < Z.to_nat max)%nat as Hk by (apply slot_bound; lia).
  exists (fun j => if decide (j = k) then l' else chains j). eapply table_update; [exact Ht|done| |exact Hl|..].
  - intros j z Hj Hjm Hz. destruct (Hn j z Hjm Hz) as (i & Ei & _ & Si & Di). apply Hf.
    + intros Hz'. destruct (Hn k z Hk Hz') as (i' & Ei' & _ & Si' & _). congruence.
    + intros ->. by apply (Hthis i).
  - intros z Hz. destruct (decide (z = this)) as [->|Hne].
    { exists id. by rewrite lookup_insert_eq. }
    rewrite Hnm by done. apply Hin in Hz as [->|[Hz Hzx]]; [done|].
    destruct (Hn k z Hk Hz) as (i & Ei & Zi & Si & Di). exists i.
    rewrite lookup_insert_ne; [done|]. by intros <-.
  - intros i Hi. rewrite lookup_insert_ne; [done|]. by intros <-.
  - intros i z Hi [[<- <-]|[Hne Hz]]%lookup_insert_Some.
    { split; [done|]. apply Hin. by left. }
    destruct (Hh i z Hz) as [Ei Hzc]. rewrite Hi in Hzc.
    assert (D !! id <> Some z) as Hzx.
    { intros E. destruct (Hh id z E) as [E' _]. congruence. }
    assert (z ∈ l') as Hzl by (apply Hin; by right).
    rewrite Hnm; [done|done|]. intros ->. by apply (Hthis i).
Qed.

Lemma set_id_spec m x i n : nodes m !! x = Some n ->
  set_id m x i = Some (put_node m x (with_id n i)).
Proof. apply upd_node_some. Qed.

Lemma put_node_name m x n y : name_of (put_node m x n) y = if decide (y = x) then Id n else name_of m y.
Proof.
  unfold name_of. cbn. destruct (decide (y = x)) as [->|Hne].
  - by rewrite lookup_insert_eq.
  - by rewrite lookup_insert_ne.
Qed.

(** [add] of a new name. *)
Lemma add_new m idx max D chains this id : table m idx max D chains -> nonul id ->
  is_Some (nodes m !! this) -> (forall i, D !! i <> Some this) -> D !! id = None ->
  exists m' idx' chains', NamedObject.add m idx this id max = Some (m', idx') /\
    table m' idx' max (<[id := this]> D) chains'.
Proof.
  intros Ht Hid [n0 Hn0] Hthis HD. unfold NamedObject.add, NamedObject.clearId.
  rewrite (set_id_spec _ _ _ _ Hn0). run. set (m1 := put_node m this (with_id n0 None)).
  assert (table m1 idx max D chains) as Ht1.
  { eapply table_frame; [exact Ht|]. intros i x Hi. apply put_node_ne. intros ->. by apply (Hthis i). }
  destruct (table_slot _ _ _ _ _ id Ht1 Hid) as (root & l & Hr & Ec & Hl & Hnm & Hc).
  destruct (table_seek _ _ _ _ _ id root l Ht1 Hid Hr Hl Hnm Hc) as (prior & E & _).
  rewrite Hr. run. rewrite E, HD. run. unfold set_next. erewrite upd_node_some by apply put_node_eq. run.
  erewrite set_id_spec by apply put_node_eq. run.
  assert (this ∉ l) as Hout.
  { rewrite <- Ec. intros Hin. destruct Ht1 as [Hm _ _ Hn _].
    destruct (Hn _ _ ltac:(apply slot_bound; lia) Hin) as (i & _ & _ & _ & Hi). by apply (Hthis i). }
  match goal with |- context [Some (?m, _)] => set (m' := m) end.
  destruct (table_enter m1 m' idx max D chains this id (Some this) (this :: l)) as (c & Hc'); [done..| | | | | |].
  - intros z Hz Hne. unfold m', m1. by rewrite !put_node_ne.
  - intros z. rewrite Ec, elem_of_cons, HD. split; [intros [Hz|Hz]; [by left|by right]|tauto].
  - intros z Hz Hne. unfold m'. by rewrite !put_node_name, !decide_False.
  - unfold m'. by rewrite put_node_name, decide_True.
  - split; [done|]. eexists. split; [apply put_node_eq|]. cbn.
    eapply seg_other; [|exact Hout|exact Hl]. intros y Hy. unfold m'. by rewrite !put_node_ne.
  - by exists m', (<[NamedObject.slot id max := Some this]> idx), c.
Qed.

Lemma release_linked m x n l1 l2 p : lst m p (l1 ++ x :: l2) -> nodes m !! x = Some n ->
  forall m', nodes m' !! x = Some n -> LinkedObject.release m' x = Some (free_node m' x).
Proof.
  intros Hl Hn m' Hn'. unfold LinkedObject.release, get_node. rewrite Hn'. run.
  pose proof (lst_NoDup _ _ _ Hl) as (_ & _ & [Hx _]%list.NoDup_cons)%list.NoDup_app.
  apply seg_app in Hl as (q & _ & (-> & n' & Hn2 & Hl2)). rewrite Hn in Hn2. injection Hn2 as <-.
  rewrite decide_False; [done|]. intros E. apply Hx. rewrite E in Hl2.
  destruct l2 as [|y l2]; cbn in Hl2; [done|]. destruct Hl2 as [[= ->] _]. left.
Qed.

(** The chain when [this] takes the place of [x]. *)
Lemma lst_replace m m' p q k l2 x this n np nt : lst m p ((k ++ [q]) ++ x :: l2) ->
  nodes m !! x = Some n -> nodes m !! q = Some np -> this ∉ (k ++ [q]) ++ x :: l2 ->
  nodes m' !! q = Some (with_next np (Some this)) ->
  nodes m' !! this = Some nt -> Next nt = Next n ->
  (forall z, z ∈ k ++ l2 -> nodes m' !! z = nodes m !! z) ->
  lst m' p ((k ++ [q]) ++ this :: l2).
Proof.
  intros Hl Hx Hq Hout Hq' Ht Hnt Hf. apply seg_app in Hl as (r & Hl1 & (-> & n' & Hx' & Hl2)).
  rewrite Hx in Hx'. injection Hx' as <-. apply seg_app in Hl1 as (r & Hk & (-> & nq & Hnq & Hq2)).
  apply seg_app. exists (Some this). split.
  - apply seg_app. exists (Some q). split.
    + eapply seg_frame; [|exact Hk]. intros z Hz. rewrite Hf; [done|]. apply elem_of_app. by left.
    + split; [done|]. by eexists.
  - split; [done|]. exists nt. split; [done|]. rewrite Hnt. eapply seg_frame; [|exact Hl2].
    intros z Hz. rewrite Hf; [done|]. apply elem_of_app. by right.
Qed.

(** [add] of a name in use. *)
Lemma add_used m idx max D chains this id x : table m idx max D chains -> nonul id ->
  is_Some (nodes m !! this) -> (forall i, D !! i <> Some this) -> D !! id = Some x ->
  exists m' idx' chains', NamedObject.add m idx this id max = Some (m', idx') /\ nodes m' !! x = None /\
    table m' idx' max
      (if decide (idx !! NamedObject.slot id max = Some (Some x)) then delete id D else <[id := this]> D) chains'.
Proof.
  intros Ht Hid [n0 Hn0] Hthis HD. unfold NamedObject.add, NamedObject.clearId.
  rewrite (set_id_spec _ _ _ _ Hn0). run. set (m1 := put_node m this (with_id n0 None)).
  assert (table m1 idx max D chains) as Ht1.
  { eapply table_frame; [exact Ht|]. intros i y Hi. apply put_node_ne. intros ->. by apply (Hthis i). }
  destruct (table_slot _ _ _ _ _ id Ht1 Hid) as (root & l & Hr & Ec & Hl & Hnm & Hc).
  destruct (table_seek _ _ _ _ _ id root l Ht1 Hid Hr Hl Hnm Hc) as (prior & E & Hp).
  rewrite Hr. run. rewrite E, HD. run. rewrite HD in Hc. destruct Hc as (Hxn & l1 & l2 & -> & _).
  assert (this ∉ l1 ++ x :: l2) as Hout.
  { rewrite <- Ec. intros Hin. destruct Ht1 as [Hm _ _ Hn _].
    destruct (Hn _ _ ltac:(apply slot_bound; lia) Hin) as (i & _ & _ & _ & Hi). by apply (Hthis i). }
  assert (x <> this) as Hxt. { intros ->. by apply (Hthis id). }
  destruct (seg_nodes _ _ _ _ x Hl) as [n Hn]; [apply elem_of_app; right; left|].
  pose proof (release_linked _ _ _ _ _ _ Hl Hn) as Hrel.
  unfold get_node. rewrite Hn, (Hp x l1 l2 HD eq_refl). run.
  pose proof (lst_NoDup _ _ _ Hl) as Hd.
  destruct (last_split None l1) as [[-> ->]|(k & q & -> & ->)].
  - cbn [app] in *. assert (root = Some x) as -> by apply Hl. run. rewrite (Hrel m1 Hn). run.
    rewrite decide_True by done.
    assert (nodes (free_node m1 x) !! this = Some (with_id n0 None)) as Hn1.
    { cbn. rewrite lookup_delete_ne by done. apply lookup_insert_eq. }
    rewrite (set_id_spec _ _ _ _ Hn1). run.
    destruct Hl as (_ & n' & Hn' & Hl2). rewrite Hn in Hn'. injection Hn' as <-.
    apply list.NoDup_cons in Hd as [Hx2 Hd].
    destruct (table_delete m1 (free_node m1 x) idx max D chains id x [] l2 (Next n) Ht1 Hid HD Ec) as (c & Hc & _).
    + intros z Hz. cbn. rewrite lookup_delete_ne; [done|]. intros ->. apply Hz. left.
    + intros z Hz. unfold name_of. cbn. by rewrite lookup_delete_ne.
    + eapply seg_other; [|exact Hx2|exact Hl2]. intros y Hy. cbn. by rewrite lookup_delete_ne.
    + eexists _, _, c. split; [done|]. split.
      * rewrite put_node_ne by done. apply lookup_delete_eq.
      * eapply table_frame; [exact Hc|]. intros i z [_ Hz]%lookup_delete_Some. apply put_node_ne.
        intros ->. by apply (Hthis i).
  - assert (q ∈ (k ++ [q]) ++ x :: l2) as Hqin. { apply elem_of_app. left. apply elem_of_app. right. left. }
    assert (q <> this) as Hqt by by intros ->.
    destruct (seg_nodes _ _ _ _ q Hl Hqin) as [nq Hnq].
    apply list.NoDup_app in Hd as (Hd1 & Hd2 & [Hx2 _]%list.NoDup_cons).
    assert (q <> x) as Hqx. { intros ->. eapply Hd2; [apply elem_of_app; right; left|left]. }
    assert (x ∉ k) as Hxk. { intros Hin. eapply Hd2; [apply elem_of_app; by left|left]. }
    assert (q ∉ k) as Hqk. { intros Hin. apply list.NoDup_app in Hd1 as (_ & Hd1 & _). eapply Hd1; [exact Hin|left]. }
    assert (q ∉ l2) as Hql. { intros Hin. eapply (Hd2 q); [apply elem_of_app; right; left|by right]. }
    unfold set_next. rewrite (upd_node_some _ m1 q nq Hnq). run.
    rewrite (upd_node_some _ _ this (with_id n0 None)) by (rewrite put_node_ne by done; apply put_node_eq). run.
    match goal with |- context [LinkedObject.release ?m x] => set (m2 := m) end.
    rewrite (Hrel m2) by (unfold m2; by rewrite !put_node_ne). run.
    rewrite (set_id_spec _ _ _ (with_next (with_id n0 None) (Next n)))
      by (cbn; rewrite lookup_delete_ne by done; apply lookup_insert_eq). run.
    match goal with |- context [Some (?m, _)] => set (m' := m) end.
    assert (forall z, z <> q -> z <> this -> z <> x -> nodes m' !! z = nodes m1 !! z) as Hfr.
    { intros z H1 H2 H3. unfold m'. rewrite put_node_ne by done. cbn. rewrite lookup_delete_ne by done.
      by rewrite !lookup_insert_ne by done. }
    assert (nodes m' !! q = Some (with_next nq (Some this))) as Hq'.
    { unfold m'. rewrite put_node_ne by done. cbn. rewrite lookup_delete_ne by done.
      rewrite lookup_insert_ne by done. apply lookup_insert_eq. }
    rewrite decide_False.
    2: { intros [= ->]. destruct k as [|y k]; destruct Hl as ([= ->] & _); [done|]. apply Hxk. left. }
    assert (nodes m' !! x = None) as Hx'. { unfold m'. rewrite put_node_ne by done. apply lookup_delete_eq. }
    destruct (table_enter m1 m' idx max D chains this id root ((k ++ [q]) ++ this :: l2)) as (c & Hc');
      [done..| | | | | |].
    + intros z Hz Hne. rewrite Ec in Hz. apply Hfr; [by intros ->|done|]. intros ->. apply Hz, elem_of_app. right. left.
    + intros z. rewrite Ec, HD, !(elem_of_app (k ++ [q])), !elem_of_cons. split.
      * intros [Hz|[->|Hz]]; [right|by left|right]; (split; [tauto|intros [= <-]]); [|done].
        apply elem_of_app in Hz as [Hz|Hz%list_elem_of_singleton]; by subst.
      * intros [->|[[Hz|[->|Hz]] Hzx]]; [tauto|tauto|done|tauto].
    + intros z Hz Hne. destruct (decide (z = q)) as [->|Hzq]; [unfold name_of; by rewrite Hq', Hnq|].
      apply name_of_frame, Hfr; [done..|]. intros ->.
      apply elem_of_app in Hz as [[Hz|Hz%list_elem_of_singleton]%elem_of_app|[Hz|Hz]%elem_of_cons]; by subst.
    + unfold m'. by rewrite put_node_name, decide_True.
    + eapply (lst_replace m1); [exact Hl|exact Hn|exact Hnq|exact Hout|exact Hq'|apply put_node_eq|done|].
      intros z Hz. apply Hfr; intros ->; apply elem_of_app in Hz as [Hz|Hz]; try done; apply Hout, elem_of_app.
      * left. apply elem_of_app. by left.
      * right. by right.
    + exists m', (<[NamedObject.slot id max := root]> idx), c. split_and!; [|done..].
      by rewrite list_insert_id.
Qed.

(** The index stands for the dictionary [D]. *)
Definition dict (m : mem) (idx : list (option loc)) (max : Z) (D : gmap (list Z) loc) : Prop :=
  exists chains, table m idx max D chains.

(** C13.  A hash index of named objects is a finite map from names to objects: [map]
    looks a name up, [remove] takes its object out and returns it, [add] enters an
    object and frees the one that had the name.  There is one exception, in which
    [add] loses the new object: when the old one was the first of its chain. *)
Theorem named_dictionary (m : mem) (idx : list (option loc)) (max : Z) (D : gmap (list Z) loc) :
  dict m idx max D -> forall id, nonul id ->
  NamedObject.map m idx id max = Some (D !! id) /\
  (exists m' idx', NamedObject.remove m idx id max = Some (m', idx', D !! id) /\
    dict m' idx' max (delete id D)) /\
  (forall this, is_Some (nodes m !! this) -> (forall i, D !! i <> Some this) ->
    exists m' idx', NamedObject.add m idx this id max = Some (m', idx') /\
    match D !! id with
    | None => dict m' idx' max (<[id := this]> D)
    | Some x => nodes m' !! x = None /\
        dict m' idx' max (if decide (idx !! NamedObject.slot id max = Some (Some x))
                          then delete id D else <[id := this]> D)
    end).
Proof.
  intros [chains Ht] id Hid. split_and!.
  - by eapply map_spec.
  - destruct (remove_spec _ _ _ _ _ id Ht Hid) as (m' & idx' & c & E & Ht').
    exists m', idx'. split; [done|by exists c].
  - intros this Hs Hn. destruct (D !! id) as [x|] eqn:HD.
    + destruct (add_used _ _ _ _ _ this id x Ht Hid Hs Hn HD) as (m' & idx' & c & E & Hx & Ht').
      exists m', idx'. split_and!; [done..|by exists c].
    + destruct (add_new _ _ _ _ _ this id Ht Hid Hs Hn HD) as (m' & idx' & c & E & Ht').
      exists m', idx'. split; [done|by exists c].
Qed.

(** An index of NULL roots is the empty dictionary. *)
Lemma dict_empty m max : 2 <= max < 2 ^ 32 -> dict m (replicate (Z.to_nat max) None) max ∅.
Proof.
  intros Hm. exists (fun _ => []). split; [done|by rewrite length_replicate|..].
  - intros k root [-> _]%lookup_replicate. done.
  - intros k x _ Hx. by apply elem_of_nil in Hx.
  - intros i x Hx. by rewrite lookup_empty in Hx.
Qed.

End laws.

Lemma named_dictionary_witness :
  exists m' idx', NamedObject.add sample [None; None] 4%positive [117; 105; 100] 2 = Some (m', idx') /\
    dict m' idx' 2 (<[[117; 105; 100] := 4%positive]> ∅).
Proof.
  destruct (named_dictionary sample [None; None] 2 ∅ (dict_empty sample 2 ltac:(lia)) [117; 105; 100])
    as (_ & _ & Hadd).
  - apply (bool_decide_unpack _). reflexivity.
  - apply (Hadd 4%positive); [by eexists|]. intros i. rewrite lookup_empty. discriminate.
Defined.
