(* ===== verification/TreeLaws.v ===== *)
(** * The trees of [NamedTree]

    The descendants of a node as a forest, the searches as searches of that
    forest, and what moving a node from one parent to another does. *)

From stdpp Require Import gmap sets list.
From S2P Require Import Prelude CLib Strings Linked LinkedLaws Named.

(** A forest in first-child, next-sibling form. *)
Inductive forest :=
  | Nil
  | Tree (l : loc) (name : list Z) (kids next : forest).

(** The chain from [p] on, with the children of its nodes, is the forest [F]. *)
Fixpoint rep (m : mem) (p : option loc) (F : forest) : Prop :=
  match F with
  | Nil => p = None
  | Tree l name kids next => p = Some l /\ exists n i, nodes m !! l = Some n /\ indexes m !! l = Some i /\
      default [] (Id n) = name /\ nonul name /\ rep m (head i) kids /\ rep m (Next n) next
  end.

(** All nodes, depth first. *)
Fixpoint locs (F : forest) : list loc :=
  match F with Nil => [] | Tree l _ kids next => l :: locs kids ++ locs next end.

Definition is_nil (F : forest) : bool := match F with Nil => true | _ => false end.

(** The leaves and the inner nodes with their names, depth first. *)
Fixpoint leaves (F : forest) : list (list Z * loc) :=
  match F with
  | Nil => []
  | Tree l name kids next => (if is_nil kids then [(name, l)] else leaves kids) ++ leaves next
  end.

Fixpoint inner (F : forest) : list (list Z * loc) :=
  match F with
  | Nil => []
  | Tree l name kids next => (if is_nil kids then [] else (name, l) :: inner kids) ++ inner next
  end.

(** The nodes of the chain itself. *)
Fixpoint children (F : forest) : list (list Z * loc) :=
  match F with Nil => [] | Tree l name _ next => (name, l) :: children next end.

(** The node of the first entry with that name. *)
Definition first_named (tid : list Z) (ns : list (list Z * loc)) : option loc :=
  '(_, (_, l)) ← list_find (fun e => e.1 = tid) ns; Some l.

Lemma first_named_cons tid name l ns :
  first_named tid ((name, l) :: ns) = if decide (name = tid) then Some l else first_named tid ns.
Proof.
  unfold first_named. cbn. destruct (decide (name = tid)); [done|].
  destruct (list_find _ ns) as [[? []]|]; done.
Qed.

Lemma first_named_app tid ns ms : first_named tid (ns ++ ms) =
  match first_named tid ns with Some l => Some l | None => first_named tid ms end.
Proof.
  induction ns as [|[name l] ns IH]; [done|]. cbn [app]. rewrite !first_named_cons, IH.
  by destruct (decide _).
Qed.

Lemma eq_id_spec n tid : nonul (default [] (Id n)) -> nonul tid ->
  NamedTree.eq_id n tid = bool_decide (default [] (Id n) = tid).
Proof.
  intros H1 H2. unfold NamedTree.eq_id. apply Bool.eq_iff_eq_true.
  rewrite Z.eqb_eq, bool_decide_eq_true. by apply strcmp_eq.
Qed.

Lemma rep_head m p F : rep m p F -> (match p with None => true | Some _ => false end) = is_nil F.
Proof. destruct F; cbn; [by intros ->|by intros [-> _]]. Qed.

(** The depth of the recursion of the searches. *)
Fixpoint depth (F : forest) : nat :=
  match F with Nil => 1 | Tree _ _ kids next => S (Nat.max (depth kids) (depth next)) end.

Lemma depth_locs F : (depth F <= S (length (locs F)))%nat.
Proof. induction F as [|l name kids IH1 next IH2]; cbn; [lia|]. rewrite length_app. lia. Qed.

Lemma rep_nodes m F : forall p x, rep m p F -> x ∈ locs F -> is_Some (nodes m !! x).
Proof.
  induction F as [|l name kids IH1 next IH2]; intros p x; cbn; [by intros _ ?%elem_of_nil|].
  intros (_ & n & i & Hn & _ & _ & _ & H1 & H2) [->|[Hx|Hx]%elem_of_app]%elem_of_cons; [by exists n|..].
  - by eapply IH1.
  - by eapply IH2.
Qed.

(** [chain_fuel] is enough for a forest that is one: no node occurs twice. *)
Lemma rep_fuel m p F : rep m p F -> NoDup (locs F) -> (depth F <= chain_fuel m)%nat.
Proof.
  intros Hr Hd. pose proof (depth_locs F). unfold chain_fuel.
  assert (length (locs F) <= size (nodes m))%nat; [|lia].
  rewrite <- (size_list_to_set (C := gset loc)) by done. rewrite <- (size_dom (D := gset loc)).
  apply subseteq_size. intros x Hx%elem_of_list_to_set. apply elem_of_dom. by eapply rep_nodes.
Qed.

Section searches.
Context (m : mem) (tid : list Z) (Htid : nonul tid).

Lemma getChild_loop_spec F : forall fuel p, rep m p F -> (depth F <= fuel)%nat ->
  NamedTree.getChild_loop fuel m p tid = Some (first_named tid (children F)).
Proof.
  induction F as [|l name kids IH1 next IH2]; intros [|f] p Hr Hf; try (cbn in Hf; lia); cbn in Hr.
  - by subst.
  - destruct Hr as (-> & n & i & Hn & Hi & Hname & Hz & H1 & H2).
    cbn [NamedTree.getChild_loop children]. unfold get_node. rewrite Hn. run.
    rewrite eq_id_spec, Hname, first_named_cons by by rewrite ?Hname.
    case_bool_decide; [by rewrite decide_True|]. rewrite decide_False by done.
    apply IH2; [done|cbn in Hf; lia].
Qed.

Lemma leaf_loop_spec F : forall fuel p, rep m p F -> (depth F <= fuel)%nat ->
  NamedTree.leaf_loop fuel m p tid = Some (first_named tid (leaves F)).
Proof.
  induction F as [|l name kids IH1 next IH2]; intros [|f] p Hr Hf; try (cbn in Hf; lia); cbn in Hr.
  - by subst.
  - destruct Hr as (-> & n & i & Hn & Hi & Hname & Hz & H1 & H2). cbn in Hf.
    cbn [NamedTree.leaf_loop leaves]. unfold get_node, NamedTree.child, NamedTree.is_leaf. rewrite Hn, Hi. run.
    rewrite eq_id_spec, Hname by by rewrite ?Hname. unfold NamedTree.child. rewrite Hi. run.
    rewrite (rep_head _ _ _ H1), first_named_app.
    rewrite (IH2 f (Next n)) by (done || lia).
    destruct (is_nil kids); cbn [andb]; [rewrite first_named_cons|].
    + case_bool_decide; [by rewrite decide_True|]. rewrite decide_False by done. run. done.
    + rewrite (IH1 f (head i)) by (done || lia). run. by destruct (first_named tid (leaves kids)).
Qed.

Lemma find_below_spec F : forall fuel p, rep m p F -> (depth F <= fuel)%nat ->
  NamedTree.find_loop fuel m p tid = Some (first_named tid (inner F)).
Proof.
  induction F as [|l name kids IH1 next IH2]; intros [|f] p Hr Hf; try (cbn in Hf; lia); cbn in Hr.
  - by subst.
  - destruct Hr as (-> & n & i & Hn & Hi & Hname & Hz & H1 & H2). cbn in Hf.
    cbn [NamedTree.find_loop inner]. unfold get_node, NamedTree.child, NamedTree.is_leaf. rewrite Hn, Hi. run.
    rewrite eq_id_spec, Hname by by rewrite ?Hname. unfold NamedTree.child. rewrite Hi. run.
    rewrite (rep_head _ _ _ H1), first_named_app.
    rewrite (IH2 f (Next n)) by (done || lia).
    destruct (is_nil kids); [done|]. rewrite first_named_cons.
    case_bool_decide; [by rewrite decide_True|]. rewrite decide_False by done.
    rewrite (IH1 f (head i)) by (done || lia). run. by destruct (first_named tid (inner kids)).
Qed.

End searches.

(** ** Paths *)

(** A dotted path and its names. *)
Fixpoint join (ns : list (list Z)) : list Z :=
  match ns with
  | [] => []
  | [x] => x
  | x :: ns' => x ++ 46 :: join ns'
  end.

(** A name [path] can look for: not empty, no dot in it, at most 64 characters. *)
Definition path_name (x : list Z) : Prop := x <> [] /\ nonul x /\ (46 ∉ x) /\ zlen x <= 64.

#[export] Instance path_name_dec x : Decision (path_name x).
Proof. unfold path_name. apply _. Defined.

(** From child to child. *)
Fixpoint descend (m : mem) (node : option loc) (ns : list (list Z)) : option (option loc) :=
  match ns, node with
  | [], _ | _, None => Some node
  | x :: ns', Some l => next ← NamedTree.getChild m l x; descend m next ns'
  end.

(** The first name, as it is read through the buffer. *)
Lemma first_name x r : path_name x -> r = [] \/ (exists r', r = 46 :: r') ->
  let b := take 64 (x ++ r) in
  match strchr b 46 with Some ep => take (Z.to_nat ep) b | None => b end = x.
Proof.
  intros (_ & _ & Hx & Hlen) Hr. cbn zeta. assert (length x <= 64)%nat by (unfold zlen in Hlen; lia).
  destruct Hr as [->|[r' ->]].
  - rewrite app_nil_r, take_ge by done. by rewrite strchr_none.
  - rewrite take_app, (take_ge x) by done. destruct (64 - length x)%nat as [|k]; cbn [take].
    + rewrite app_nil_r. by rewrite strchr_none.
    + rewrite strchr_mid by done. unfold zlen. by rewrite Nat2Z.id, take_app_length.
Qed.

Lemma nonul_join ns : Forall path_name ns -> nonul (join ns).
Proof.
  induction 1 as [|x ns (_ & Hx & _) Hns IH]; [constructor|]. destruct ns as [|y ns]; [done|].
  apply nonul_app. split; [done|]. by constructor.
Qed.

Lemma join_cons x ns : exists r, join (x :: ns) = x ++ r /\
  (ns = [] /\ r = [] \/ ns <> [] /\ r = 46 :: join ns).
Proof.
  destruct ns as [|y ns]; [exists []|exists (46 :: join (y :: ns))].
  - by rewrite app_nil_r; auto.
  - auto.
Qed.

Lemma path_loop_spec m ns : forall fuel node, Forall path_name ns -> (length (join ns) < fuel)%nat ->
  NamedTree.path_loop fuel m node (join ns) = descend m node ns.
Proof.
  induction ns as [|x ns IH]; intros [|f] node Hns Hf; [lia|by destruct node|lia|].
  destruct node as [l|]; [|done].
  pose proof (nonul_join _ Hns) as Hnz. apply list.Forall_cons in Hns as [Hx Hns].
  destruct (join_cons x ns) as (r & Ej & Hr). rewrite Ej in *.
  destruct x as [|c x]; [by destruct Hx|]. cbn [NamedTree.path_loop descend app].
  change (c :: x ++ r) with ((c :: x) ++ r) in *. set (y := c :: x) in *.
  destruct (set_spec (replicate 65 0) 65 (Some ((y ++ r) ++ [0])) (y ++ r)) as (b & Eb & _).
  { unfold zlen. rewrite length_replicate. lia. } { by apply cstr_app. }
  change (c :: (x ++ r) ++ [0]) with ((y ++ r) ++ [0]).
  change (Z.to_nat (65 - 1)) with 64%nat in Eb. rewrite Eb. run.
  rewrite (cstr_app (take 64 (y ++ r)) b) by (by apply Forall_take). run.
  rewrite (first_name y r Hx) by (destruct Hr as [[_ ->]|[_ ->]]; eauto).
  destruct (NamedTree.getChild m l y) as [next|]; [|done]. run.
  destruct Hx as (_ & _ & Hdot & _). destruct Hr as [[-> ->]|[_ ->]].
  - rewrite app_nil_r in *. rewrite strchr_none by done. apply (IH f next Hns).
    cbn in Hf |- *. lia.
  - rewrite strchr_mid by done. replace (Z.to_nat (zlen y + 1)) with (length y + 1)%nat by (unfold zlen; lia).
    rewrite <- drop_drop, drop_app_length. cbn [drop]. rewrite drop_0. apply IH; [done|].
    rewrite length_app in Hf. cbn in Hf. lia.
Qed.

(** The [k]th ancestor. *)
Fixpoint ancestor (m : mem) (k : nat) (l : loc) : option (option loc) :=
  match k with
  | O => Some (Some l)
  | S k' => n ← get_node m l; match Parent n with None => Some None | Some p => ancestor m k' p end
  end.

Lemma climb_spec m k : forall l tid, (forall r, tid <> 46 :: r) ->
  NamedTree.climb m l (replicate k 46 ++ tid) =
  (a ← ancestor m k l; Some (match a with None => None | Some l => Some (l, tid) end)).
Proof.
  induction k as [|k IH]; intros l tid Ht; cbn [replicate app ancestor].
  - run. destruct tid as [|c tid]; [done|]. cbn. destruct (decide (c = 46)) as [->|Hc]; [by destruct (Ht tid)|].
    destruct c as [|c|c]; [done| |done]. by do 6 (destruct c as [c|c|]; try done).
  - cbn [NamedTree.climb]. destruct (get_node m l) as [n|]; [|done]. run.
    destruct (Parent n) as [p|]; [by apply IH|done].
Qed.

(** [path] climbs one generation for each leading dot and then goes from
    child to child by the names between the dots. *)
Theorem named_tree_path (m : mem) (this : loc) (k : nat) (ns : list (list Z)) : Forall path_name ns ->
  NamedTree.path m this (replicate k 46 ++ join ns) =
  (a ← ancestor m k this; match a with None => Some None | Some l => descend m (Some l) ns end).
Proof.
  intros Hns. assert (forall r, join ns <> 46 :: r) as Hdot.
  { destruct ns as [|x ns]; [done|]. destruct (join_cons x ns) as (r & -> & _).
    apply list.Forall_cons in Hns as [(Hx & _ & Hd & _) _]. destruct x as [|c x]; [done|].
    intros r' [= -> _]. apply Hd. left. }
  destruct (replicate k 46 ++ join ns) as [|c t] eqn:E.
  - apply app_nil in E as [Ek Ej]. destruct k; [|done]. destruct ns as [|x ns]; [done|].
    destruct (join_cons x ns) as (r & Er & _). rewrite Ej in Er. apply list.Forall_cons in Hns as [(Hx & _) _].
    by destruct x.
  - unfold NamedTree.path. rewrite <- E, climb_spec by done.
    destruct (ancestor m k this) as [[a|]|]; [|done|done]. run. rewrite path_loop_spec; [done|done|lia].
Qed.

(** The children that are leaves. *)
Fixpoint leaf_children (F : forest) : list (list Z * loc) :=
  match F with
  | Nil => []
  | Tree l name kids next => if is_nil kids then (name, l) :: leaf_children next else leaf_children next
  end.

Lemma getLeaf_loop_spec m tid F : nonul tid -> forall fuel p, rep m p F -> (depth F <= fuel)%nat ->
  NamedTree.getLeaf_loop fuel m p tid = Some (first_named tid (leaf_children F)).
Proof.
  intros Htid. induction F as [|l name kids IH1 next IH2]; intros [|f] p Hr Hf; try (cbn in Hf; lia); cbn in Hr.
  - by subst.
  - destruct Hr as (-> & n & i & Hn & Hi & Hname & Hz & H1 & H2). cbn in Hf.
    cbn [NamedTree.getLeaf_loop leaf_children]. unfold get_node, NamedTree.is_leaf, NamedTree.child.
    rewrite Hn, Hi. run. rewrite (rep_head _ _ _ H1). rewrite eq_id_spec, Hname by by rewrite ?Hname.
    rewrite (IH2 f (Next n)) by (done || lia).
    destruct (is_nil kids); cbn [andb]; [|done]. rewrite first_named_cons.
    case_bool_decide; [by rewrite decide_True|by rewrite decide_False].
Qed.

(** C14.  The searches below a node that owns a forest end and read it: [getChild]
    and [getLeaf] look at the children, [leaf] at all leaves and [find] at all nodes
    that have children, depth first; each returns the first node of that name. *)
Theorem named_tree_search (m : mem) (this : loc) (i : index) (F : forest) (tid : list Z) :
  indexes m !! this = Some i -> rep m (head i) F -> NoDup (locs F) -> nonul tid ->
  NamedTree.getChild m this tid = Some (first_named tid (children F)) /\
  NamedTree.getLeaf m this tid = Some (first_named tid (leaf_children F)) /\
  NamedTree.leaf m this tid = Some (first_named tid (leaves F)) /\
  NamedTree.find m this tid = Some (first_named tid (inner F)).
Proof.
  intros Hi Hr Hd Ht. pose proof (rep_fuel _ _ _ Hr Hd) as Hf.
  unfold NamedTree.getChild, NamedTree.getLeaf, NamedTree.leaf, NamedTree.find, NamedTree.child.
  rewrite Hi. run. split_and!.
  - by apply getChild_loop_spec.
  - by apply getLeaf_loop_spec.
  - by apply leaf_loop_spec.
  - by apply find_below_spec.
Qed.

(** Node 1 has the children "a", with a child "b", and "c". *)
Definition family : mem :=
  Mem (<[1%positive := Node None None None (Some [114]) None]>
      (<[2%positive := Node (Some 4%positive) None None (Some [97]) (Some 1%positive)]>
      (<[3%positive := Node None None None (Some [98]) (Some 2%positive)]>
      (<[4%positive := Node None None None (Some [99]) (Some 1%positive)]> ∅))))
    (<[1%positive := Index (Some 2%positive) (Some 4%positive)]>
    (<[2%positive := Index (Some 3%positive) (Some 3%positive)]>
    (<[3%positive := Index None None]> (<[4%positive := Index None None]> ∅)))).

Ltac rep_node :=
  split; [reflexivity|eexists _, _; split; [reflexivity|split; [reflexivity|split; [reflexivity|
    split; [apply (bool_decide_unpack _); reflexivity|split]]]]].

Lemma named_tree_search_witness : NamedTree.leaf family 1%positive [98] = Some (Some 3%positive).
Proof.
  apply (named_tree_search family 1%positive (Index (Some 2%positive) (Some 4%positive))
    (Tree 2%positive [97] (Tree 3%positive [98] Nil Nil) (Tree 4%positive [99] Nil Nil)) [98]).
  - reflexivity.
  - repeat rep_node; reflexivity.
  - apply (bool_decide_unpack _). reflexivity.
  - apply (bool_decide_unpack _). reflexivity.
Defined.

Lemma named_tree_path_witness :
  NamedTree.path family 3%positive (replicate 2 46 ++ join [[97]; [98]]) = Some (Some 3%positive).
Proof.
  rewrite (named_tree_path family 3%positive 2 [[97]; [98]]); [reflexivity|].
  apply (bool_decide_unpack _). reflexivity.
Defined.

(** ** Moving nodes *)

(** The children of [p], in a row. *)
Definition kids (m : mem) (p : loc) (l : list loc) : Prop :=
  exists i, indexes m !! p = Some i /\ ord m i l.

(** An index is written, nodes outside [l] may change. *)
Lemma kids_frame m m' p l : kids m p l -> indexes m' !! p = indexes m !! p ->
  (forall x, x ∈ l -> Next <$> nodes m' !! x = Next <$> nodes m !! x) -> kids m' p l.
Proof.
  intros (i & Hi & Hl & Ht) Ei En. exists i. split; [by rewrite Ei|]. split; [|done]. by eapply seg_frame.
Qed.

Lemma seg_put_index m p i h l q : seg m h l q -> seg (put_index m p i) h l q.
Proof. by apply seg_frame. Qed.

Lemma kids_intro m p i l : ord m i l -> kids (put_index m p i) p l.
Proof.
  intros [Hl Ht]. exists i. split; [apply lookup_insert_eq|]. split; [by apply seg_put_index|done].
Qed.

Lemma set_parent_next m x n p y : nodes m !! x = Some n ->
  Next <$> nodes (put_node m x (with_parent n p)) !! y = Next <$> nodes m !! y.
Proof.
  intros Hn. cbn. destruct (decide (y = x)) as [->|Hy]; [by rewrite lookup_insert_eq, Hn|].
  by rewrite lookup_insert_ne.
Qed.

(** [this] leaves its parent and gets another one: what both [relist]s begin with. *)
Lemma relist_leave m this p q l1 l2 l n : nodes m !! this = Some n -> Parent n = Some p ->
  kids m p (l1 ++ this :: l2) -> kids m q l -> p <> q ->
  (forall x, x ∈ l -> x ∉ l1 ++ this :: l2) ->
  exists m', (m ← NamedTree.leave m this; set_parent m this (Some q)) = Some m' /\
    nodes m' !! this = Some (with_parent n (Some q)) /\ kids m' p (l1 ++ l2) /\ kids m' q l /\
    lst m' (Next n) l2.
Proof.
  intros Hn Hp (i & Hi & Ho) Hq Hpq Hdis. unfold NamedTree.leave, NamedTree.on_child, NamedTree.child, get_node.
  rewrite Hn. run. rewrite Hp, Hi. run. pose proof (lst_NoDup _ _ _ (proj1 Ho)) as Hd.
  destruct (delist_spec m i (l1 ++ this :: l2) this Ho) as (m1 & i1 & -> & Ho1 & Ei & En). run.
  rewrite without_mid in Ho1, En by done.
  assert (this ∉ l1 ++ l2) as Hout.
  { apply list.NoDup_app in Hd as (_ & Hd & [H _]%list.NoDup_cons). intros [Hin|Hin]%elem_of_app; [|done].
    eapply Hd; [exact Hin|left]. }
  assert (nodes (put_index m1 p i1) !! this = Some n) as Hn1 by (cbn; by rewrite En).
  unfold set_parent. rewrite (upd_node_some _ _ _ _ Hn1).
  match goal with |- context [Some ?m = Some _] => set (m2 := m) end.
  assert (forall x, Next <$> nodes m2 !! x = Next <$> nodes m1 !! x) as En2.
  { intros x. etransitivity; [by apply set_parent_next|done]. }
  assert (lst m2 (head i1) (l1 ++ l2)) as Hl2.
  { eapply seg_frame; [|exact (proj1 Ho1)]. intros x _. apply En2. }
  exists m2. split; [done|]. split; [apply put_node_eq|]. split_and!.
  - exists i1. split; [cbn; by rewrite lookup_insert_eq|]. split; [done|apply Ho1].
  - apply (kids_frame m); [done|cbn; by rewrite lookup_insert_ne, Ei|].
    intros x Hx. rewrite En2, En; [done|].
    intros Hx'. apply (Hdis x Hx). rewrite elem_of_app, elem_of_cons. rewrite elem_of_app in Hx'. tauto.
  - destruct Ho as [Hl _]. apply seg_app in Hl as (r & _ & (-> & n' & Hn' & Hl)).
    rewrite Hn in Hn'. injection Hn' as <-. apply seg_first in Hl as ->.
    apply seg_app in Hl2 as (r & _ & Hl2). by rewrite <- (seg_first _ _ _ _ Hl2).
Qed.

(** Linking leaves the parents as they are. *)
Lemma set_next_parent m x p m' y : set_next m x p = Some m' ->
  Parent <$> nodes m' !! y = Parent <$> nodes m !! y.
Proof.
  unfold set_next, upd_node, get_node. destruct (nodes m !! x) as [n|] eqn:Hn; [|done].
  intros [= <-]. cbn. destruct (decide (y = x)) as [->|Hy]; [by rewrite lookup_insert_eq, Hn|].
  by rewrite lookup_insert_ne.
Qed.

Lemma enlistHead_parent m this i m' i' y : OrderedObject.enlistHead m this i = Some (m', i') ->
  Parent <$> nodes m' !! y = Parent <$> nodes m !! y.
Proof.
  unfold OrderedObject.enlistHead. destruct (set_next m this None) as [m1|] eqn:E1; [|done]. run.
  rewrite <- (set_next_parent _ _ _ _ y E1). destruct (tail i) as [t|]; [|by intros [= <- _]].
  destruct (head i) as [h|]; [|by intros [= <- _]].
  destruct (set_next m1 this (Some h)) as [m2|] eqn:E2; [|done]. run. intros [= <- _].
  by eapply set_next_parent.
Qed.

(** [relistHead] moves a node, whatever its place among the children of its
    parent, to the front of the children of another one.  [relistTail] does not
    clear the link to the next sibling: it moves a last child to the end of the
    children of the other node, but any other child brings its later siblings along,
    which are then in the chains of both parents. *)
Theorem named_tree_relist (m : mem) (this p q : loc) (l1 l2 l : list loc) :
  Parent <$> nodes m !! this = Some (Some p) -> kids m p (l1 ++ this :: l2) -> kids m q l -> p <> q ->
  (forall x, x ∈ l -> x ∉ l1 ++ this :: l2) ->
  (exists m', NamedTree.relistHead m this (Some q) = Some m' /\
    Parent <$> nodes m' !! this = Some (Some q) /\ kids m' p (l1 ++ l2) /\ kids m' q (this :: l)) /\
  (exists m', NamedTree.relistTail m this (Some q) = Some m' /\
    Parent <$> nodes m' !! this = Some (Some q) /\ kids m' p (l1 ++ l2) /\
    (l2 = [] -> kids m' q (l ++ [this])) /\
    exists i, indexes m' !! q = Some i /\ lst m' (head i) (l ++ this :: l2) /\ tail i = Some this).
Proof.
  intros Hpar Hk Hq Hpq Hdis. destruct (nodes m !! this) as [n|] eqn:Hn; [|done]. injection Hpar as Hpar.
  destruct (relist_leave m this p q l1 l2 l n Hn Hpar Hk Hq Hpq Hdis) as (m1 & E1 & Hn1 & Hp1 & Hq1 & Hl2).
  unfold NamedTree.relistHead, NamedTree.relistTail, get_node. rewrite Hn. run.
  rewrite Hpar, !decide_False by congruence.
  destruct (NamedTree.leave m this) as [m0|]; [|done]. cbn in E1. run. rewrite E1. run.
  unfold NamedTree.on_child, NamedTree.child. pose proof Hq1 as (i & Hi & Ho). rewrite Hi. run.
  assert (this ∉ l ++ l1 ++ l2) as Hout.
  { destruct Hk as (ip & _ & Hl & _). apply lst_NoDup, list.NoDup_app in Hl as (_ & Hd & [Hd' _]%list.NoDup_cons).
    intros [Hin|[Hin|Hin]%elem_of_app]%elem_of_app; [|by eapply Hd; [exact Hin|left]|done].
    apply (Hdis this Hin), elem_of_app. right. left. }
  rewrite !not_elem_of_app in Hout. destruct Hout as (Ht0 & Ht1 & Ht2).
  assert (forall x, x ∈ l1 ++ l2 -> x ∉ this :: l) as Hdis'.
  { intros x Hx [->|Hxl]%elem_of_cons; [apply elem_of_app in Hx; tauto|]. apply (Hdis x Hxl).
    rewrite elem_of_app, elem_of_cons. rewrite elem_of_app in Hx. tauto. }
  split.
  - destruct (prepend_spec m1 i l this Ho Ht0) as (m2 & i2 & E2 & Ho2 & Ei & En); [by eexists|]. rewrite E2. run.
    eexists. split; [done|]. split_and!.
    + cbn. rewrite (enlistHead_parent _ _ _ _ _ this E2), Hn1. done.
    + apply (kids_frame m1); [done|cbn; by rewrite lookup_insert_ne, Ei|].
      intros x Hx. cbn. rewrite En; [done|]. intros ->. eapply Hdis'; [exact Hx|left].
    + by apply kids_intro.
  - destruct (append_chain m1 i l this _ l2 Ho Ht0 Hn1 Hl2) as (m2 & i2 & -> & Hl' & Ht' & Ei & En).
    { intros x Hx Hx2. apply (Hdis x Hx). rewrite elem_of_app, elem_of_cons. tauto. }
    run. eexists. split; [done|]. split_and!.
    + cbn. by rewrite En, Hn1.
    + apply (kids_frame m1); [done|cbn; by rewrite lookup_insert_ne, Ei|].
      intros x Hx. cbn. rewrite En; [done|]. intros Hxl. eapply Hdis'; [exact Hx|by right].
    + intros ->. apply kids_intro. split; [done|]. by rewrite last_of_snoc.
    + exists i2. split; [cbn; by rewrite lookup_insert_eq|]. split; [by apply seg_put_index|done].
Qed.

Lemma named_tree_relist_witness :
  exists m', NamedTree.relistTail family 4%positive (Some 2%positive) = Some m' /\
    kids m' 1%positive [2%positive] /\ kids m' 2%positive [3%positive; 4%positive].
Proof.
  destruct (named_tree_relist family 4%positive 1%positive 2%positive [2%positive] [] [3%positive])
    as [_ (m' & E & _ & Hp & Hq & _)].
  - reflexivity.
  - eexists. split; [reflexivity|]. split; [|reflexivity]. split; [done|]. eexists. split; [reflexivity|].
    split; [done|]. by eexists.
  - eexists. split; [reflexivity|]. split; [|reflexivity]. split; [done|]. by eexists.
  - discriminate.
  - intros x ->%list_elem_of_singleton. apply (bool_decide_unpack _). reflexivity.
  - exists m'. split; [exact E|split; [exact Hp|by apply Hq]].
Defined.
