(* ===== verification/Condition.v ===== *)
(** * Conditional access, semaphores and barriers (corelib/condition.cpp)

    Each object is a monitor: its counters are read and written with the mutex
    held only.  A call is cut at the points where the mutex is given up (a wait,
    the end), and a step of the system runs one thread from one such point to the
    next.  [ConditionalAccess::modify] returns with the mutex, which [commit] gives
    back, so that between the two no other thread makes a step.

    Of the threads library the model takes what POSIX documents: a signal wakes a
    thread that waits, when there is one, a broadcast all of them; a thread that is
    woken goes on when it has the mutex again; a wait may end without a signal. *)

From stdpp Require Import list.
From S2P Require Import Prelude.

(** What a critical section does to the threads that wait. *)
Inductive wakeup := NoWake | Signal | Broadcast.

Module ConditionalAccess.

Record monitor := Monitor { waiting : Z; pending : Z; sharing : Z }.

(** [modify]: the test of the loop, after [lock] or after a wait. *)
Definition modify_test (s : monitor) : monitor * bool :=
  if sharing s =? 0 then (s, true)
  else (Monitor (waiting s) (u32 (pending s + 1)) (sharing s), false).

Definition modify_wake (s : monitor) : monitor * bool :=
  modify_test (Monitor (waiting s) (u32 (pending s - 1)) (sharing s)).

Definition commit (s : monitor) : wakeup :=
  if negb (pending s =? 0) then Signal else if negb (waiting s =? 0) then Broadcast else NoWake.

(** [access]: likewise; without a limit on sharing. *)
Definition access_test (s : monitor) : monitor * bool :=
  if pending s =? 0 then (Monitor (waiting s) (pending s) (u32 (sharing s + 1)), true)
  else (Monitor (u32 (waiting s + 1)) (pending s) (sharing s), false).

Definition access_wake (s : monitor) : monitor * bool :=
  access_test (Monitor (u32 (waiting s - 1)) (pending s) (sharing s)).

Definition release (s : monitor) : monitor * wakeup :=
  let s := Monitor (waiting s) (pending s) (u32 (sharing s - 1)) in
  (s, if negb (pending s =? 0) && (sharing s =? 0) then Signal
      else if negb (waiting s =? 0) && (pending s =? 0) then Broadcast else NoWake).

(** Where a thread is: outside, waiting for [bcast] or woken from there, between
    [access] and [release], waiting for [cond] or woken, between [modify] and
    [commit]. *)
Inductive pc := Idle | AccWait | AccWoken | Reading | ModWait | ModWoken | Writing.

#[export] Instance pc_eq_dec : EqDecision pc.
Proof. solve_decision. Defined.

(** The mutex is free between steps but for the thread in [owner]. *)
Record system := System { mon : monitor; pcs : list pc; owner : option nat }.

Definition init (threads : nat) : system := System (Monitor 0 0 0) (replicate threads Idle) None.

(** The steps of thread [i]; [w] is the thread a signal wakes. *)
Inductive event :=
  | Access (i : nat) | Modify (i : nat) | Resume (i : nat) | Spurious (i : nat)
  | Release (i w : nat) | Commit (i w : nat).

Definition awake (p : pc) : pc := match p with AccWait => AccWoken | p => p end.

Definition wake (k : wakeup) (w : nat) (l : list pc) : option (list pc) :=
  match k with
  | NoWake => Some l
  | Broadcast => Some (map awake l)
  | Signal =>
      if decide (ModWait ∈ l) then
        if decide (l !! w = Some ModWait) then Some (<[w := ModWoken]> l) else None
      else Some l
  end.

Definition enter_access (s : system) (i : nat) (r : monitor * bool) : system :=
  System r.1 (<[i := if r.2 then Reading else AccWait]> (pcs s)) (owner s).

Definition enter_modify (s : system) (i : nat) (r : monitor * bool) : system :=
  if r.2 then System r.1 (<[i := Writing]> (pcs s)) (Some i)
  else System r.1 (<[i := ModWait]> (pcs s)) (owner s).

Definition exec (s : system) (e : event) : option system :=
  match e, owner s with
  | Spurious i, _ =>
      match pcs s !! i with
      | Some AccWait => Some (System (mon s) (<[i := AccWoken]> (pcs s)) (owner s))
      | Some ModWait => Some (System (mon s) (<[i := ModWoken]> (pcs s)) (owner s))
      | _ => None
      end
  | Access i, None =>
      match pcs s !! i with Some Idle => Some (enter_access s i (access_test (mon s))) | _ => None end
  | Modify i, None =>
      match pcs s !! i with Some Idle => Some (enter_modify s i (modify_test (mon s))) | _ => None end
  | Resume i, None =>
      match pcs s !! i with
      | Some AccWoken => Some (enter_access s i (access_wake (mon s)))
      | Some ModWoken => Some (enter_modify s i (modify_wake (mon s)))
      | _ => None
      end
  | Release i w, None =>
      match pcs s !! i with
      | Some Reading =>
          let '(m, k) := release (mon s) in
          l ← wake k w (<[i := Idle]> (pcs s)); Some (System m l None)
      | _ => None
      end
  | Commit i w, Some o =>
      match decide (o = i), pcs s !! i with
      | left _, Some Writing =>
          l ← wake (commit (mon s)) w (<[i := Idle]> (pcs s)); Some (System (mon s) l None)
      | _, _ => None
      end
  | _, _ => None
  end.

Inductive reachable (threads : nat) : system -> Prop :=
  | reach_init : reachable threads (init threads)
  | reach_step s e s' : reachable threads s -> exec s e = Some s' -> reachable threads s'.

End ConditionalAccess.

Module Semaphore.

Record monitor := Monitor { count : Z; waits : Z; used : Z }.

(** [Semaphore (limit)] and [Semaphore (limit, avail)] *)
Definition make (limit : Z) : monitor := Monitor limit 0 0.
Definition make_avail (limit avail : Z) : monitor := Monitor limit 0 (u32 (limit - avail)).

Definition block (s : monitor) : monitor := Monitor (count s) (u32 (waits s + 1)) (used s).
Definition unblock (s : monitor) : monitor := Monitor (count s) (u32 (waits s - 1)) (used s).

Definition take (s : monitor) : monitor :=
  if count s =? 0 then s else Monitor (count s) (waits s) (u32 (used s + 1)).

(** [wait (void)] tests once: what is behind its wait takes a place whatever
    [used] is then.  The flag tells whether the call has come to its end. *)
Definition wait_enter (s : monitor) : monitor * bool :=
  if count s <=? used s then (block s, false) else (take s, true).

Definition wait_wake (s : monitor) : monitor * bool := (take (unblock s), true).

(** [wait (timeout)] tests again, unless the wait has timed out ([ok] false) or
    the semaphore has been disabled. *)
Definition timed_enter (s : monitor) : monitor * bool := wait_enter s.

Definition timed_wake (s : monitor) (ok : bool) : monitor * bool :=
  let s := unblock s in
  if count s =? 0 then (s, true)
  else if ok then timed_enter s
  else (s, true).

Definition release (s : monitor) : monitor * wakeup :=
  let s := if used s =? 0 then s else Monitor (count s) (waits s) (u32 (used s - 1)) in
  (s, if waits s =? 0 then NoWake else if count s =? 0 then Broadcast else Signal).

(** [set]: the number of signals, each sent in a critical section of its own. *)
Definition set (s : monitor) (value : Z) : monitor * Z :=
  let s := Monitor value (waits s) (used s) in
  if (count s <=? used s) || (waits s =? 0) then (s, 0)
  else (s, Z.min (u32 (count s - used s)) (waits s)).

(** Where a thread is: outside, in [wait (void)], in [wait (timeout)], woken from
    the one or the other, holding a place. *)
Inductive pc := Out | Wait | Woken | TimedWait | TimedWoken | Held.

#[export] Instance pc_eq_dec : EqDecision pc.
Proof. solve_decision. Defined.

Record system := System { mon : monitor; pcs : list pc }.

Definition init (limit : Z) (threads : nat) : system := System (make limit) (replicate threads Out).

(** The steps of thread [i]: the calls, going on after a signal or a time out, a
    wake up without a signal, [release], after which a signal goes to thread [w]. *)
Inductive event :=
  | EnterWait (i : nat) | EnterTimed (i : nat) | Resume (i : nat) | Expire (i : nat)
  | Spurious (i : nat) | Release (i w : nat).

Definition awake (p : pc) : pc :=
  match p with Wait => Woken | TimedWait => TimedWoken | p => p end.

Definition waits_at (p : option pc) : bool :=
  match p with Some Wait | Some TimedWait => true | _ => false end.

Definition wake (k : wakeup) (w : nat) (l : list pc) : option (list pc) :=
  match k with
  | NoWake => Some l
  | Broadcast => Some (map awake l)
  | Signal =>
      if decide (Wait ∈ l \/ TimedWait ∈ l) then
        match l !! w with
        | Some Wait => Some (<[w := Woken]> l)
        | Some TimedWait => Some (<[w := TimedWoken]> l)
        | _ => None
        end
      else Some l
  end.

(** The place taken, or nothing when the semaphore is disabled. *)
Definition settle (s : system) (i : nat) (wait : pc) (r : monitor * bool) : system :=
  System r.1 (<[i := if r.2 then Held else wait]> (pcs s)).

Definition exec (s : system) (e : event) : option system :=
  match e with
  | EnterWait i =>
      match pcs s !! i with Some Out => Some (settle s i Wait (wait_enter (mon s))) | _ => None end
  | EnterTimed i =>
      match pcs s !! i with Some Out => Some (settle s i TimedWait (timed_enter (mon s))) | _ => None end
  | Resume i =>
      match pcs s !! i with
      | Some Woken => Some (settle s i Wait (wait_wake (mon s)))
      | Some TimedWoken => Some (settle s i TimedWait (timed_wake (mon s) true))
      | _ => None
      end
  | Expire i =>
      match pcs s !! i with
      | Some TimedWait => Some (System (timed_wake (mon s) false).1 (<[i := Out]> (pcs s)))
      | _ => None
      end
  | Spurious i =>
      match pcs s !! i with
      | Some Wait => Some (System (mon s) (<[i := Woken]> (pcs s)))
      | Some TimedWait => Some (System (mon s) (<[i := TimedWoken]> (pcs s)))
      | _ => None
      end
  | Release i w =>
      match pcs s !! i with
      | Some Held =>
          let '(m, k) := release (mon s) in
          l ← wake k w (<[i := Out]> (pcs s)); Some (System m l)
      | _ => None
      end
  end.

Fixpoint play (s : system) (es : list event) : option system :=
  match es with [] => Some s | e :: es => s ← exec s e; play s es end.

End Semaphore.

Module Barrier.

Record monitor := Monitor { count : Z; waits : Z }.

(** [Barrier (limit)]; the destructor releases who waits. *)
Definition make (limit : Z) : monitor := Monitor limit 0.
Definition destroy (s : monitor) : wakeup := if waits s =? 0 then NoWake else Broadcast.

(** What [set] and [inc] do when enough threads wait. *)
Definition enough (s : monitor) : monitor * wakeup :=
  if count s <=? waits s then (Monitor (count s) 0, Broadcast) else (s, NoWake).

Definition set (s : monitor) (limit : Z) : monitor * wakeup := enough (Monitor limit (waits s)).
Definition inc (s : monitor) : monitor * wakeup := enough (Monitor (u32 (count s + 1)) (waits s)).
Definition dec (s : monitor) : monitor :=
  if count s =? 0 then s else Monitor (u32 (count s - 1)) (waits s).

(** The operators return the new limit. *)
Definition increment (s : monitor) : monitor * wakeup * Z :=
  let r := inc s in (r, count r.1).
Definition decrement (s : monitor) : monitor * Z := let r := dec s in (r, count r).

(** [wait], with and without a time out: the flag tells whether the thread passes
    at once; otherwise it waits once, and [waits] is left as it is whatever ends
    the wait. *)
Definition wait (s : monitor) : monitor * wakeup * bool :=
  if count s =? 0 then (s, NoWake, true)
  else
    let s := Monitor (count s) (u32 (waits s + 1)) in
    if count s <=? waits s then (Monitor (count s) 0, Broadcast, true) else (s, NoWake, false).

End Barrier.

Module ConditionalLock.

(** A context of [ConditionalLock] says how often a thread has the lock.  They are
    kept for the life of the lock; [contexts] has them in the order in which they
    were made, the chain of the source starts with the last one. *)
Record context := Context { thread : nat; count : Z }.

Record monitor := Monitor { waiting : Z; pending : Z; sharing : Z; contexts : list context }.

Definition make : monitor := Monitor 0 0 0 [].

Definition with_contexts (s : monitor) (l : list context) : monitor :=
  Monitor (waiting s) (pending s) (sharing s) l.
Definition with_sharing (s : monitor) (n : Z) : monitor :=
  Monitor (waiting s) (pending s) (u32 n) (contexts s).
Definition with_pending (s : monitor) (n : Z) : monitor :=
  Monitor (waiting s) (u32 n) (sharing s) (contexts s).
Definition with_waiting (s : monitor) (n : Z) : monitor :=
  Monitor (u32 n) (pending s) (sharing s) (contexts s).

(** The loop of [getContext] from the context [i - 1] down: the one in use by the
    thread, or else the last free one. *)
Fixpoint context_loop (l : list context) (tid : nat) (slot : option nat) (i : nat) : nat + option nat :=
  match i with
  | O => inr slot
  | S j =>
      match l !! j with
      | None => inr slot
      | Some cp =>
          if negb (count cp =? 0) && bool_decide (thread cp = tid) then inl j
          else context_loop l tid (if count cp =? 0 then Some j else slot) j
      end
  end.

Definition getContext (s : monitor) (tid : nat) : monitor * nat :=
  match context_loop (contexts s) tid None (length (contexts s)) with
  | inl j => (s, j)
  | inr (Some j) =>
      (with_contexts s (alter (fun cp => Context tid (count cp)) j (contexts s)), j)
  | inr None => (with_contexts s (contexts s ++ [Context tid 0]), length (contexts s))
  end.

(** The count of the context [c]. *)
Definition held (s : monitor) (c : nat) : Z := default 0 (count <$> contexts s !! c).

Definition set_held (s : monitor) (c : nat) (n : Z) : monitor :=
  with_contexts s (alter (fun cp => Context (thread cp) (u32 n)) c (contexts s)).

(** [modify]: the loop, then the context is counted, which until then is free for
    other threads to take unless the thread shared the lock before. *)
Definition modify_test (s : monitor) (c : nat) : monitor * bool :=
  if sharing s =? 0 then (set_held s c (held s c + 1), true)
  else (with_pending s (pending s + 1), false).

Definition modify_wake (s : monitor) (c : nat) : monitor * bool :=
  modify_test (with_pending s (pending s - 1)) c.

Definition modify (s : monitor) (tid : nat) : monitor * nat * bool :=
  let '(s, c) := getContext s tid in
  let '(s, b) := modify_test (with_sharing s (sharing s - held s c)) c in (s, c, b).

Definition wakeup_of (s : monitor) : wakeup :=
  if negb (pending s =? 0) then Signal else if negb (waiting s =? 0) then Broadcast else NoWake.

Definition commit (s : monitor) (tid : nat) : monitor * wakeup :=
  let '(s, c) := getContext s tid in
  let s := set_held s c (held s c - 1) in
  if negb (held s c =? 0) then (with_sharing s (sharing s + held s c), NoWake)
  else (s, wakeup_of s).

Definition release (s : monitor) (tid : nat) : monitor * wakeup :=
  let '(s, c) := getContext s tid in
  let s := with_sharing s (sharing s - 1) in
  let s := set_held s c (held s c - 1) in
  (s, if negb (pending s =? 0) && (sharing s =? 0) then Signal
      else if negb (waiting s =? 0) && (pending s =? 0) then Broadcast else NoWake).

(** [access]: a thread that has the lock already does not wait for writers. *)
Definition access_test (s : monitor) (c : nat) : monitor * bool :=
  if (held s c <? 2) && negb (pending s =? 0) then (with_waiting s (waiting s + 1), false)
  else (with_sharing s (sharing s + 1), true).

Definition access_wake (s : monitor) (c : nat) : monitor * bool :=
  access_test (with_waiting s (waiting s - 1)) c.

Definition access (s : monitor) (tid : nat) : monitor * nat * bool :=
  let '(s, c) := getContext s tid in
  let '(s, b) := access_test (set_held s c (held s c + 1)) c in (s, c, b).

(** [exclusive] and [share]: from shared to exclusive use and back. *)
Definition exclusive_test (s : monitor) : monitor * bool :=
  if sharing s =? 0 then (s, true) else (with_pending s (pending s + 1), false).

Definition exclusive_wake (s : monitor) : monitor * bool := exclusive_test (with_pending s (pending s - 1)).

Definition exclusive (s : monitor) (tid : nat) : monitor * bool :=
  let '(s, c) := getContext s tid in exclusive_test (with_sharing s (sharing s - held s c)).

Definition share (s : monitor) (tid : nat) : monitor :=
  let '(s, c) := getContext s tid in with_sharing s (sharing s + held s c).

End ConditionalLock.
