(* ===== verification/ConditionLaws.v ===== *)
(** * Mutual exclusion and progress of the condition based locks *)

From stdpp Require Import list.
From S2P Require Import Prelude Condition.

(** ** Counting threads *)

Section count.
Context {A : Type} `{EqDecision A}.

Definition one (b : bool) : Z := if b then 1 else 0.

(** The threads that stand at [x]. *)
Fixpoint cnt (x : A) (l : list A) : Z :=
  match l with [] => 0 | y :: l => one (bool_decide (y = x)) + cnt x l end.

Lemma cnt_nonneg x l : 0 <= cnt x l <= zlen l.
Proof.
  induction l as [|y l IH]; cbn; [done|]. unfold zlen in *. cbn [length].
  destruct (bool_decide (y = x)); cbn; lia.
Qed.

Lemma cnt_insert x l i a b : l !! i = Some a ->
  cnt x (<[i := b]> l) = cnt x l - one (bool_decide (a = x)) + one (bool_decide (b = x)).
Proof.
  revert i. induction l as [|y l IH]; intros [|i] Hi; cbn in *; try done.
  - injection Hi as ->. lia.
  - rewrite IH by done. lia.
Qed.

Lemma cnt_pos x l : 0 < cnt x l <-> x ∈ l.
Proof.
  induction l as [|y l IH]; cbn; [rewrite elem_of_nil; lia|].
  rewrite elem_of_cons, <- IH. pose proof (cnt_nonneg x l).
  destruct (bool_decide_reflect (y = x)) as [->|Hne]; cbn; [split; [by left|lia]|].
  split; [right; lia|]. intros [->|?]; [done|lia].
Qed.

Lemma cnt_lookup x l i : l !! i = Some x -> 0 < cnt x l.
Proof. intros Hi. apply cnt_pos. by eapply list_elem_of_lookup_2. Qed.

(** One thread at [x]: it is the only one. *)
Lemma cnt_one x l i j : cnt x l <= 1 -> l !! i = Some x -> l !! j = Some x -> i = j.
Proof.
  revert i j. induction l as [|y l IH]; intros [|i] [|j] Hc Hi Hj; cbn in *; try done;
    pose proof (cnt_nonneg x l).
  - injection Hi as ->. rewrite bool_decide_true in Hc by done. cbn in Hc.
    pose proof (cnt_lookup _ _ _ Hj). lia.
  - injection Hj as ->. rewrite bool_decide_true in Hc by done. cbn in Hc.
    pose proof (cnt_lookup _ _ _ Hi). lia.
  - f_equal. apply IH; [|done..]. destruct (bool_decide (y = x)); cbn in Hc; lia.
Qed.

End count.

(** Decides the comparisons of constructors and counts. *)
Ltac counts :=
  repeat first [rewrite bool_decide_true by done | rewrite bool_decide_false by done];
  repeat match goal with
  | H : context [bool_decide ?P] |- _ =>
      first [rewrite (bool_decide_true P) in H by done | rewrite (bool_decide_false P) in H by done]
  end; cbn [one] in *; try lia.

Module Access.
Import ConditionalAccess.

Lemma cnt_awake x l : cnt x (map awake l) =
  match x with
  | AccWait => 0
  | AccWoken => cnt AccWoken l + cnt AccWait l
  | x => cnt x l
  end.
Proof.
  induction l as [|y l IH]; [by destruct x|]. cbn [map cnt]. rewrite IH.
  destruct x, y; cbn [awake cnt]; counts.
Qed.

(** The counters count the threads; the mutex is held by the writer; a waiting
    writer has somebody to wait for, and so has a waiting reader. *)
Record inv (s : system) : Prop := {
  inv_small : zlen (pcs s) < 2 ^ 32;
  inv_waiting : waiting (mon s) = cnt AccWait (pcs s) + cnt AccWoken (pcs s);
  inv_pending : pending (mon s) = cnt ModWait (pcs s) + cnt ModWoken (pcs s);
  inv_sharing : sharing (mon s) = cnt Reading (pcs s);
  inv_owner : forall i, owner s = Some i -> pcs s !! i = Some Writing;
  inv_writers : cnt Writing (pcs s) = match owner s with Some _ => 1 | None => 0 end;
  inv_exclusive : cnt Writing (pcs s) = 0 \/ cnt Reading (pcs s) = 0;
  inv_modify : 0 < cnt ModWait (pcs s) ->
    0 < cnt Reading (pcs s) + cnt Writing (pcs s) + cnt ModWoken (pcs s);
  inv_access : 0 < cnt AccWait (pcs s) ->
    0 < cnt ModWait (pcs s) + cnt ModWoken (pcs s) + cnt Writing (pcs s) }.

(** All threads are somewhere. *)
Lemma cnt_total l : cnt Idle l + cnt AccWait l + cnt AccWoken l + cnt Reading l + cnt ModWait l +
  cnt ModWoken l + cnt Writing l = zlen l.
Proof. induction l as [|y l IH]; [done|]. unfold zlen in *. cbn [cnt length]. destruct y; counts. Qed.

Lemma inv_init n : Z.of_nat n < 2 ^ 32 -> inv (init n).
Proof.
  intros Hn. assert (forall x, x <> Idle -> cnt x (replicate n Idle) = 0) as Hc.
  { intros x Hx. induction n as [|n IH]; [done|]. cbn. rewrite IH by lia. by rewrite bool_decide_false by congruence. }
  split; cbn; rewrite ?Hc by done; try done; try lia. unfold zlen. by rewrite length_replicate.
Qed.

Lemma inv_free s : inv s -> owner s = None -> cnt Writing (pcs s) = 0.
Proof. intros [] Ho. by rewrite inv_writers0, Ho. Qed.

(** The bounds of the counts, and what [i] standing at [p] says. *)
Ltac facts s :=
  pose proof (cnt_total (pcs s));
  pose proof (cnt_nonneg Idle (pcs s)); pose proof (cnt_nonneg AccWait (pcs s));
  pose proof (cnt_nonneg AccWoken (pcs s)); pose proof (cnt_nonneg Reading (pcs s));
  pose proof (cnt_nonneg ModWait (pcs s)); pose proof (cnt_nonneg ModWoken (pcs s));
  pose proof (cnt_nonneg Writing (pcs s));
  repeat match goal with H : pcs s !! _ = Some _ |- _ => pose proof (cnt_lookup _ _ _ H); revert H end; intros.

Lemma zlen_insert {A} (l : list A) i x : zlen (<[i := x]> l) = zlen l.
Proof. unfold zlen. by rewrite length_insert. Qed.

Lemma lookup_other (l : list pc) i j p q : l !! i = Some p -> l !! j = Some q -> p <> q ->
  forall x, <[i := x]> l !! j = Some q.
Proof. intros Hi Hj Hne x. rewrite list_lookup_insert_ne; [done|]. congruence. Qed.

(** Closes the counting goals of the invariant after thread [i] has moved. *)
Ltac recount H := cbn in *; rewrite ?(cnt_insert _ _ _ _ _ H), ?zlen_insert; counts.

Lemma access_inv s i p m : inv s -> owner s = None -> pcs s !! i = Some p ->
  p = Idle /\ m = mon s \/ p = AccWoken /\ m = Monitor (u32 (waiting (mon s) - 1)) (pending (mon s)) (sharing (mon s)) ->
  inv (enter_access s i (access_test m)).
Proof.
  intros Hs Ho Hi Hp. pose proof (inv_free s Hs Ho). destruct Hs. facts s.
  assert (waiting m = cnt AccWait (pcs s) + cnt AccWoken (pcs s) - one (bool_decide (p = AccWoken)) /\
    pending m = pending (mon s) /\ sharing m = sharing (mon s)) as (Ew & Ep & Es).
  { destruct Hp as [[-> ->]|[-> ->]]; cbn [waiting pending sharing]; counts. rewrite u32_id; lia. }
  unfold enter_access, access_test. rewrite Ep. destruct (Z.eqb_spec (pending (mon s)) 0) as [E|E].
  - destruct Hp as [[-> _]|[-> _]]; split; recount Hi; rewrite ?Ho in *; try done; rewrite ?u32_id; try lia.
  - destruct Hp as [[-> _]|[-> _]]; split; recount Hi; rewrite ?Ho in *; try done; rewrite ?u32_id; try lia.
Qed.

Lemma modify_inv s i p m : inv s -> owner s = None -> pcs s !! i = Some p ->
  p = Idle /\ m = mon s \/ p = ModWoken /\ m = Monitor (waiting (mon s)) (u32 (pending (mon s) - 1)) (sharing (mon s)) ->
  inv (enter_modify s i (modify_test m)).
Proof.
  intros Hs Ho Hi Hp. pose proof (inv_free s Hs Ho). destruct Hs. facts s.
  assert (pending m = cnt ModWait (pcs s) + cnt ModWoken (pcs s) - one (bool_decide (p = ModWoken)) /\
    waiting m = waiting (mon s) /\ sharing m = sharing (mon s)) as (Ep & Ew & Es).
  { destruct Hp as [[-> ->]|[-> ->]]; cbn [waiting pending sharing]; counts. rewrite u32_id; lia. }
  assert (i < length (pcs s))%nat by by eapply lookup_lt_Some.
  unfold enter_modify, modify_test. rewrite Es. destruct (Z.eqb_spec (sharing (mon s)) 0) as [E|E]; cbn [fst snd].
  - destruct Hp as [[-> _]|[-> _]]; split; recount Hi; rewrite ?Ho in *; try done;
      intros j [= <-]; by apply list_lookup_insert_eq.
  - destruct Hp as [[-> _]|[-> _]]; split; recount Hi; rewrite ?Ho in *; try done; rewrite ?u32_id; try lia.
Qed.

(** What a wake up does to the counts. *)
Lemma wake_counts k w l l' : wake k w l = Some l' ->
  zlen l' = zlen l /\
  (forall x, x = Idle \/ x = Reading \/ x = Writing -> cnt x l' = cnt x l) /\
  match k with
  | NoWake => cnt AccWait l' = cnt AccWait l /\ cnt AccWoken l' = cnt AccWoken l /\
      cnt ModWait l' = cnt ModWait l /\ cnt ModWoken l' = cnt ModWoken l
  | Broadcast => cnt AccWait l' = 0 /\ cnt AccWoken l' = cnt AccWoken l + cnt AccWait l /\
      cnt ModWait l' = cnt ModWait l /\ cnt ModWoken l' = cnt ModWoken l
  | Signal => cnt AccWait l' = cnt AccWait l /\ cnt AccWoken l' = cnt AccWoken l /\
      (cnt ModWait l = 0 /\ cnt ModWait l' = 0 /\ cnt ModWoken l' = cnt ModWoken l \/
       cnt ModWait l' = cnt ModWait l - 1 /\ cnt ModWoken l' = cnt ModWoken l + 1)
  end.
Proof.
  destruct k; cbn [wake].
  - by intros [= <-].
  - destruct (decide (ModWait ∈ l)) as [Hin|Hin].
    + destruct (decide (l !! w = Some ModWait)) as [Hw|]; [|done]. intros [= <-].
      split; [apply zlen_insert|]. rewrite !(cnt_insert _ _ _ _ _ Hw). split_and!; [|counts..|right; split; counts].
      intros x [-> | [-> | ->]]; rewrite (cnt_insert _ _ _ _ _ Hw); counts.
    + intros [= <-]. split_and!; try done. left.
      pose proof (cnt_nonneg ModWait l). rewrite <- cnt_pos in Hin. lia.
  - intros [= <-]. rewrite !cnt_awake. split_and!; try done; [unfold zlen; by rewrite length_map|].
    intros x [-> | [-> | ->]]; apply cnt_awake.
Qed.

(** The counts of the other places after [release] or [commit] of a thread. *)
Ltac wakes Hi Hk :=
  apply wake_counts in Hk as (Hz & Hx & Hk);
  pose proof (Hx Idle ltac:(tauto)); pose proof (Hx Reading ltac:(tauto)); pose proof (Hx Writing ltac:(tauto));
  rewrite ?(cnt_insert _ _ _ _ _ Hi), zlen_insert in *; counts.

Lemma release_inv s i w l m k : inv s -> owner s = None -> pcs s !! i = Some Reading ->
  release (mon s) = (m, k) -> wake k w (<[i := Idle]> (pcs s)) = Some l -> inv (System m l None).
Proof.
  intros Hs Ho Hi Hr Hk. pose proof (inv_free s Hs Ho). destruct Hs. facts s. unfold release in Hr.
  cbn in Hr. injection Hr as <- Ek. rewrite u32_id in * by lia.
  destruct (Z.eqb_spec (pending (mon s)) 0); destruct (Z.eqb_spec (sharing (mon s) - 1) 0);
    destruct (Z.eqb_spec (waiting (mon s)) 0); cbn in Ek; subst k; wakes Hi Hk;
    split; cbn [mon pcs owner waiting pending sharing]; counts; done.
Qed.

Lemma commit_inv s i w l : inv s -> owner s = Some i -> pcs s !! i = Some Writing ->
  wake (commit (mon s)) w (<[i := Idle]> (pcs s)) = Some l -> inv (System (mon s) l None).
Proof.
  intros Hs Ho Hi Hk. destruct Hs. facts s. rewrite Ho in *. unfold commit in Hk.
  destruct (Z.eqb_spec (pending (mon s)) 0); destruct (Z.eqb_spec (waiting (mon s)) 0);
    cbn [negb] in Hk; wakes Hi Hk; split; cbn [mon pcs owner waiting pending sharing]; counts; done.
Qed.

Lemma spurious_inv s i p : inv s -> pcs s !! i = Some p -> p = AccWait \/ p = ModWait ->
  inv (System (mon s) (<[i := if bool_decide (p = AccWait) then AccWoken else ModWoken]> (pcs s)) (owner s)).
Proof.
  intros Hs Hi Hp. destruct Hs. facts s. destruct Hp as [-> | ->]; counts;
    split; cbn [mon pcs owner waiting pending sharing]; rewrite ?(cnt_insert _ _ _ _ _ Hi), ?zlen_insert;
    try done; counts; intros j Hj; eapply lookup_other; [exact Hi|by apply inv_owner0|done|exact Hi|by apply inv_owner0|done].
Qed.

Lemma exec_inv s e s' : inv s -> exec s e = Some s' -> inv s'.
Proof.
  intros Hs He. destruct e as [i|i|i|i|i w|i w]; cbn [exec] in He;
    destruct (owner s) as [o|] eqn:Ho; try done.
  - destruct (pcs s !! i) as [[]|] eqn:Hi; try done. injection He as <-. eapply access_inv; eauto.
  - destruct (pcs s !! i) as [[]|] eqn:Hi; try done. injection He as <-. eapply modify_inv; eauto.
  - destruct (pcs s !! i) as [[]|] eqn:Hi; try done; injection He as <-.
    + eapply access_inv; eauto.
    + eapply modify_inv; eauto.
  - destruct (pcs s !! i) as [[]|] eqn:Hi; try done; injection He as <-; rewrite <- Ho.
    + by apply (spurious_inv s i AccWait); [..|left].
    + by apply (spurious_inv s i ModWait); [..|right].
  - destruct (pcs s !! i) as [[]|] eqn:Hi; try done; injection He as <-; rewrite <- Ho.
    + by apply (spurious_inv s i AccWait); [..|left].
    + by apply (spurious_inv s i ModWait); [..|right].
  - destruct (pcs s !! i) as [[]|] eqn:Hi; try done.
    destruct (release (mon s)) as [m k] eqn:Hr. destruct (wake _ _ _) as [l|] eqn:Hw; [|done].
    injection He as <-. eapply release_inv; eauto.
  - destruct (decide (o = i)) as [->|]; [|done]. destruct (pcs s !! i) as [[]|] eqn:Hi; try done.
    destruct (wake _ _ _) as [l|] eqn:Hw; [|done]. injection He as <-. eapply commit_inv; eauto.
Qed.

Lemma reachable_inv n s : Z.of_nat n < 2 ^ 32 -> reachable n s -> inv s.
Proof. intros Hn. induction 1; [by apply inv_init|by eapply exec_inv]. Qed.

(** C15.  While a thread is between [modify] and [commit], no other one is, and none
    is between [access] and [release]; [sharing] is the number of the latter. *)
Theorem access_exclusive (n : nat) (s : system) : Z.of_nat n < 2 ^ 32 -> reachable n s ->
  sharing (mon s) = cnt Reading (pcs s) /\
  forall i, pcs s !! i = Some Writing ->
    owner s = Some i /\ forall j, j <> i -> pcs s !! j <> Some Writing /\ pcs s !! j <> Some Reading.
Proof.
  intros Hn Hr. pose proof (reachable_inv n s Hn Hr) as []. split; [done|]. intros i Hi.
  pose proof (cnt_lookup _ _ _ Hi). destruct (owner s) as [o|] eqn:Ho; [|lia].
  assert (o = i) as ->. { eapply (cnt_one Writing (pcs s)); [lia|by apply inv_owner0|done]. }
  split; [done|]. intros j Hj. split; intros E.
  - apply Hj. eapply (cnt_one Writing (pcs s)); [lia|done|done].
  - pose proof (cnt_lookup _ _ _ E). lia.
Qed.

(** A step that a thread which is inside, or has been woken, makes on its own. *)
Definition internal (e : event) : Prop :=
  match e with Resume _ | Release _ _ | Commit _ _ => True | _ => False end.

(** A wake up is possible for some thread. *)
Lemma wake_some k l : exists w l', wake k w l = Some l'.
Proof.
  destruct k; cbn [wake]; [by exists 0%nat, l| |by exists 0%nat, (map awake l)].
  destruct (decide (ModWait ∈ l)) as [Hin|]; [|by exists 0%nat, l].
  apply list_elem_of_lookup in Hin as [w Hw]. exists w. rewrite decide_True by done. by eexists.
Qed.

Lemma cnt_find x (l : list pc) : 0 < cnt x l -> exists i, l !! i = Some x.
Proof. by rewrite cnt_pos, list_elem_of_lookup. Qed.

(** C16.  No wake up is lost: whenever some thread waits, in [access] or in [modify],
    there is a thread that holds the lock and can give it back, or one that has been
    woken and can go on. *)
Theorem access_progress (n : nat) (s : system) (i : nat) : Z.of_nat n < 2 ^ 32 -> reachable n s ->
  pcs s !! i = Some AccWait \/ pcs s !! i = Some ModWait ->
  exists e s', internal e /\ exec s e = Some s'.
Proof.
  intros Hn Hr Hi. pose proof (reachable_inv n s Hn Hr) as Hs. pose proof Hs as []. facts s.
  destruct (owner s) as [o|] eqn:Ho.
  - pose proof (inv_owner0 o eq_refl) as Hw. destruct (wake_some (commit (mon s)) (<[o := Idle]> (pcs s))) as (w & l & El).
    exists (Commit o w), (System (mon s) l None). split; [done|]. cbn [exec].
    by rewrite Ho, decide_True, Hw, El by done.
  - assert (0 < cnt Reading (pcs s) \/ 0 < cnt ModWoken (pcs s)) as [Hc|Hc].
    { destruct Hi as [Hi|Hi]; pose proof (cnt_lookup _ _ _ Hi); lia. }
    + apply cnt_find in Hc as [j Hj]. destruct (release (mon s)) as [m k] eqn:Er.
      destruct (wake_some k (<[j := Idle]> (pcs s))) as (w & l & El).
      exists (Release j w), (System m l None). split; [done|]. cbn [exec]. by rewrite Ho, Hj, Er, El.
    + apply cnt_find in Hc as [j Hj]. exists (Resume j). eexists. split; [done|]. cbn [exec]. by rewrite Ho, Hj.
Qed.

(** A reader, a writer that waits for it, and a reader that waits for the writer. *)
Definition scene : list event := [Access 0; Modify 1; Access 2].

Fixpoint play (s : system) (es : list event) : option system :=
  match es with [] => Some s | e :: es => s ← exec s e; play s es end.

Lemma play_reachable n es : forall s s', reachable n s -> play s es = Some s' -> reachable n s'.
Proof.
  induction es as [|e es IH]; intros s s' Hr; cbn; [by intros [= <-]|].
  destruct (exec s e) as [s1|] eqn:E; [|done]. cbn. apply IH. by eapply reach_step.
Qed.

Definition waiting_scene : system :=
  System (Monitor 1 1 1) [Reading; ModWait; AccWait] None.

Lemma waiting_reachable : reachable 3 waiting_scene.
Proof. apply (play_reachable 3 scene (init 3)); [constructor|reflexivity]. Qed.

Lemma access_progress_witness : exists e s', internal e /\ exec waiting_scene e = Some s'.
Proof.
  apply (access_progress 3 waiting_scene 1); [lia|apply waiting_reachable|right; reflexivity].
Defined.

Definition writing_scene : system := System (Monitor 0 0 0) [Idle; Writing] (Some 1%nat).

Lemma access_exclusive_witness : owner writing_scene = Some 1%nat.
Proof.
  apply (access_exclusive 2 writing_scene).
  - lia.
  - apply (play_reachable 2 [Modify 1] (init 2)); [constructor|reflexivity].
  - reflexivity.
Defined.

End Access.

Module Semaphores.
Import Semaphore.

(** No thread is in [wait (void)]. *)
Definition timed_only (l : list pc) : Prop := cnt Wait l = 0 /\ cnt Woken l = 0.

Record inv (c : Z) (s : system) : Prop := {
  inv_small : zlen (pcs s) < 2 ^ 32;
  inv_count : count (mon s) = c;
  inv_used : used (mon s) = cnt Held (pcs s);
  inv_waits : waits (mon s) =
    cnt Wait (pcs s) + cnt Woken (pcs s) + cnt TimedWait (pcs s) + cnt TimedWoken (pcs s) }.

Lemma sem_cnt_total l : cnt Out l + cnt Wait l + cnt Woken l + cnt TimedWait l + cnt TimedWoken l +
  cnt Held l = zlen l.
Proof. induction l as [|y l IH]; [done|]. unfold zlen in *. cbn [cnt length]. destruct y; counts. Qed.

Lemma sem_inv_init c n : Z.of_nat n < 2 ^ 32 -> inv c (init c n) /\ timed_only (pcs (init c n)).
Proof.
  intros Hn. assert (forall x, x <> Out -> cnt x (replicate n Out) = 0) as Hc.
  { intros x Hx. induction n as [|n IH]; [done|]. cbn. rewrite IH by lia. by rewrite bool_decide_false by congruence. }
  split; split; cbn; rewrite ?Hc by done; try done. unfold zlen. by rewrite length_replicate.
Qed.

Ltac facts s :=
  pose proof (sem_cnt_total (pcs s)); pose proof (cnt_nonneg Out (pcs s));
  pose proof (cnt_nonneg Wait (pcs s)); pose proof (cnt_nonneg Woken (pcs s));
  pose proof (cnt_nonneg TimedWait (pcs s)); pose proof (cnt_nonneg TimedWoken (pcs s));
  pose proof (cnt_nonneg Held (pcs s));
  repeat match goal with H : pcs s !! _ = Some _ |- _ => pose proof (cnt_lookup _ _ _ H); revert H end; intros.

(** A wake up moves threads within the waits of either kind. *)
Lemma sem_wake_counts k w l l' : wake k w l = Some l' ->
  zlen l' = zlen l /\ cnt Held l' = cnt Held l /\
  cnt Wait l' + cnt Woken l' = cnt Wait l + cnt Woken l /\
  cnt TimedWait l' + cnt TimedWoken l' = cnt TimedWait l + cnt TimedWoken l.
Proof.
  destruct k; cbn [wake].
  - by intros [= <-].
  - destruct (decide _); [|by intros [= <-]].
    destruct (l !! w) as [[]|] eqn:Hw; try done; intros [= <-];
      rewrite Access.zlen_insert, !(cnt_insert _ _ _ _ _ Hw); split_and!; counts.
  - intros [= <-]. split; [unfold zlen; by rewrite length_map|].
    induction l as [|y l IH]; [done|]. cbn [map cnt]. destruct y; cbn [awake]; counts.
Qed.

(** The call of a thread at [p], which counts as waiting or not, goes to [wait], a
    place of the same kind, or gets a place. *)
Lemma settle_inv c s i p wait m (b : bool) : inv c s -> 0 < c -> pcs s !! i = Some p -> p <> Held ->
  wait = Wait \/ wait = TimedWait -> count m = c ->
  waits m = waits (mon s) + (if b then 0 else 1) - match p with Out => 0 | _ => 1 end ->
  used m = used (mon s) + one b ->
  inv c (settle s i wait (m, b)).
Proof.
  intros [] Hc0 Hi Hp Hw Hc Hwt Hu. unfold settle. cbn [fst snd].
  split; cbn [mon pcs]; rewrite ?Access.zlen_insert, ?(cnt_insert _ _ _ _ _ Hi); [done|done|..];
    destruct p, b; try done; destruct Hw as [-> | ->]; counts.
Qed.


(** The counters of a call that begins, from a state where [u] of them wait. *)
Lemma enter_counts s : 0 <= waits s < 2 ^ 32 - 1 -> 0 <= used s < 2 ^ 32 - 1 -> 0 < count s ->
  exists m (b : bool), wait_enter s = (m, b) /\ count m = count s /\
    waits m = waits s + (if b then 0 else 1) /\ used m = used s + one b /\ (b = true -> used s < count s).
Proof.
  intros Hw Hu Hc. unfold wait_enter, block, take. destruct (Z.leb_spec (count s) (used s)).
  - eexists _, false. split; [done|]. cbn. rewrite u32_id; [|lia]. split_and!; try lia; done.
  - destruct (Z.eqb_spec (count s) 0); [lia|]. eexists _, true. split; [done|]. cbn.
    rewrite u32_id; [|lia]. split_and!; lia.
Qed.

Lemma sem_exec_inv c s e s' : 0 < c -> inv c s -> exec s e = Some s' -> inv c s'.
Proof.
  intros Hc Hs He. pose proof Hs as []. facts s. destruct e as [i|i|i|i|i|i w]; cbn [exec] in He.
  - destruct (pcs s !! i) as [[]|] eqn:Hi; try done. injection He as <-. facts s.
    destruct (enter_counts (mon s)) as (m & b & -> & E1 & E2 & E3 & _); [lia..|].
    eapply settle_inv; try done; [by left|by destruct b; cbn in *; lia|by destruct b; cbn in *; lia].
  - destruct (pcs s !! i) as [[]|] eqn:Hi; try done. injection He as <-. facts s. unfold timed_enter.
    destruct (enter_counts (mon s)) as (m & b & -> & E1 & E2 & E3 & _); [lia..|].
    eapply settle_inv; try done; [by right|by destruct b; cbn in *; lia|by destruct b; cbn in *; lia].
  - destruct (pcs s !! i) as [[]|] eqn:Hi; try done; injection He as <-; facts s.
    + unfold wait_wake, take, unblock. cbn [count waits used]. destruct (Z.eqb_spec (count (mon s)) 0); [lia|].
      eapply settle_inv; try done; [by left|cbn; rewrite u32_id; lia|cbn; rewrite u32_id; lia].
    + unfold timed_wake, timed_enter. cbn [count unblock]. destruct (Z.eqb_spec (count (mon s)) 0); [lia|].
      assert (waits (unblock (mon s)) = waits (mon s) - 1) as Eu by (cbn; apply u32_id; lia).
      destruct (enter_counts (unblock (mon s))) as (m & b & -> & E1 & E2 & E3 & _); [rewrite Eu; cbn; lia|cbn; lia..|].
      eapply settle_inv; try done; [by right|by destruct b; cbn in *; lia|by destruct b; cbn in *; lia].
  - destruct (pcs s !! i) as [[]|] eqn:Hi; try done; injection He as <-; facts s.
    unfold timed_wake. cbn [count unblock]. destruct (Z.eqb_spec (count (mon s)) 0); [lia|].
    split; cbn [mon pcs fst count waits used unblock];
      rewrite ?Access.zlen_insert, ?(cnt_insert _ _ _ _ _ Hi), ?u32_id by lia; counts.
  - destruct (pcs s !! i) as [[]|] eqn:Hi; try done; injection He as <-;
      split; cbn [mon pcs]; rewrite ?Access.zlen_insert, ?(cnt_insert _ _ _ _ _ Hi); counts.
  - destruct (pcs s !! i) as [[]|] eqn:Hi; try done. facts s.
    destruct (release (mon s)) as [m k] eqn:Er. destruct (wake _ _ _) as [l|] eqn:Hw; [|done]. injection He as <-.
    apply sem_wake_counts in Hw as (E1 & E2 & E3 & E4).
    rewrite ?Access.zlen_insert, ?(cnt_insert _ _ _ _ _ Hi) in *. unfold release in Er.
    destruct (Z.eqb_spec (used (mon s)) 0); [lia|]. injection Er as <- _.
    split; cbn [mon pcs count waits used]; counts. rewrite u32_id; counts.
Qed.

(** Every call is one of [wait (timeout)] and of [release]. *)
Definition timed (e : event) : Prop := match e with EnterWait _ => False | _ => True end.

#[export] Instance timed_dec e : Decision (timed e).
Proof. destruct e; cbn; apply _. Defined.

Lemma timed_settle c s i p (wait : pc) m (b : bool) : inv c s -> timed_only (pcs s) -> pcs s !! i = Some p ->
  p <> Wait -> p <> Woken -> wait = TimedWait -> used m = used (mon s) + one b ->
  used (mon s) <= c -> (b = true -> used (mon s) < c) ->
  timed_only (pcs (settle s i wait (m, b))) /\ used (mon (settle s i wait (m, b))) <= c.
Proof.
  intros [] [H1 H2] Hi Hp1 Hp2 -> Hu Hle Hb. unfold settle, timed_only. cbn [fst snd mon pcs].
  rewrite !(cnt_insert _ _ _ _ _ Hi). destruct b; cbn [one] in *; repeat split; counts;
    try (specialize (Hb eq_refl); lia); destruct p; counts; done.
Qed.

Lemma exec_timed c s e s' : 0 < c -> inv c s -> timed_only (pcs s) -> used (mon s) <= c -> timed e ->
  exec s e = Some s' -> timed_only (pcs s') /\ used (mon s') <= c.
Proof.
  intros Hc Hs Ht Hle Hte He. pose proof Hs as []. pose proof Ht as [T1 T2]. facts s.
  destruct e as [i|i|i|i|i|i w]; cbn [exec] in He; [done|..].
  - destruct (pcs s !! i) as [[]|] eqn:Hi; try done. injection He as <-. facts s. unfold timed_enter.
    destruct (enter_counts (mon s)) as (m & b & -> & E1 & E2 & E3 & E4); [lia..|].
    eapply timed_settle; try done. intros Hb. specialize (E4 Hb). lia.
  - destruct (pcs s !! i) as [[]|] eqn:Hi; try done; injection He as <-; facts s; [lia|].
    unfold timed_wake, timed_enter. cbn [count unblock]. destruct (Z.eqb_spec (count (mon s)) 0); [lia|].
    assert (waits (unblock (mon s)) = waits (mon s) - 1) as Eu by (cbn; apply u32_id; lia).
    destruct (enter_counts (unblock (mon s))) as (m & b & -> & E1 & E2 & E3 & E4); [rewrite Eu; cbn; lia|cbn; lia..|].
    eapply timed_settle; try done. intros Hb. specialize (E4 Hb). cbn in E4. lia.
  - destruct (pcs s !! i) as [[]|] eqn:Hi; try done; injection He as <-. unfold timed_wake. cbn [count unblock].
    destruct (Z.eqb_spec (count (mon s)) 0); [lia|]. cbn [fst mon pcs used unblock]. split; [|lia].
    split; rewrite (cnt_insert _ _ _ _ _ Hi); counts.
  - destruct (pcs s !! i) as [[]|] eqn:Hi; try done; injection He as <-; facts s; [lia|]. split; [|cbn; lia].
    split; cbn [pcs]; rewrite (cnt_insert _ _ _ _ _ Hi); counts.
  - destruct (pcs s !! i) as [[]|] eqn:Hi; try done. facts s.
    destruct (release (mon s)) as [m k] eqn:Er. destruct (wake _ _ _) as [l|] eqn:Hw; [|done]. injection He as <-.
    apply sem_wake_counts in Hw as (_ & _ & E3 & _). rewrite ?(cnt_insert _ _ _ _ _ Hi) in *.
    pose proof (cnt_nonneg Wait l). pose proof (cnt_nonneg Woken l).
    unfold release in Er. destruct (Z.eqb_spec (used (mon s)) 0); [lia|]. injection Er as <- _.
    split; [split|]; cbn [mon pcs used]; counts. rewrite u32_id; lia.
Qed.

Lemma play_inv c es : forall s s', 0 < c -> inv c s -> play s es = Some s' ->
  inv c s' /\ (timed_only (pcs s) -> used (mon s) <= c -> Forall timed es -> used (mon s') <= c).
Proof.
  induction es as [|e es IH]; intros s s' Hc Hs; cbn; [by intros [= <-]|].
  destruct (exec s e) as [s1|] eqn:E; [|done]. cbn. intros Hp. pose proof (sem_exec_inv c s e s1 Hc Hs E) as Hs1.
  destruct (IH s1 s' Hc Hs1 Hp) as [Hs' Ht']. split; [done|]. intros Ht Hle [He Hes]%list.Forall_cons.
  destruct (exec_timed c s e s1) as [Ht1 Hle1]; try done. by apply Ht'.
Qed.

(** C17.  In every run of threads that wait for a semaphore and release it, [used] is
    the number of threads that hold a place and [waits] the number of those that
    wait; when all wait with a time out, no more hold a place than the limit. *)
Theorem semaphore_limit (limit : Z) (n : nat) (es : list event) (s : system) :
  0 < limit -> Z.of_nat n < 2 ^ 32 -> play (init limit n) es = Some s ->
  used (mon s) = cnt Held (pcs s) /\
  waits (mon s) = cnt Wait (pcs s) + cnt Woken (pcs s) + cnt TimedWait (pcs s) + cnt TimedWoken (pcs s) /\
  (Forall timed es -> cnt Held (pcs s) <= limit).
Proof.
  intros Hl Hn Hp. destruct (sem_inv_init limit n Hn) as [Hi Ht].
  destruct (play_inv limit es _ s Hl Hi Hp) as [[] Hle]. split_and!; [done..|].
  intros He. rewrite <- inv_used0. apply Hle; [done|cbn; lia|done].
Qed.

(** [wait (void)] does not test again: a thread that is woken takes a place that
    another one has taken in the meantime. *)
Lemma semaphore_overrun : exists s,
  play (init 1 3) [EnterWait 0; EnterWait 1; Release 0 1; EnterWait 2; Resume 1] = Some s /\
  count (mon s) = 1 /\ used (mon s) = 2 /\ cnt Held (pcs s) = 2.
Proof. eexists. split; [reflexivity|]. split_and!; reflexivity. Qed.

Lemma semaphore_limit_witness : exists s,
  play (init 1 3) [EnterTimed 0; EnterTimed 1; Release 0 1; EnterTimed 2; Resume 1] = Some s /\
  cnt Held (pcs s) <= 1.
Proof.
  eexists. split; [reflexivity|].
  eapply (semaphore_limit 1 3 [EnterTimed 0; EnterTimed 1; Release 0 1; EnterTimed 2; Resume 1]).
  - lia.
  - lia.
  - reflexivity.
  - apply (bool_decide_unpack _). reflexivity.
Defined.

End Semaphores.

Module Barriers.
Import Barrier.

(** A limit of [limit]: so many threads arrive, one after the other. *)
Fixpoint arrive (s : monitor) (n : nat) : monitor * list (wakeup * bool) :=
  match n with
  | O => (s, [])
  | S n => let '(s, k, b) := wait s in let '(s, r) := arrive s n in (s, (k, b) :: r)
  end.

Lemma arrive_S s n : arrive s (S n) =
  (let '(s1, k, b) := wait s in let '(s2, r) := arrive s1 n in (s2, (k, b) :: r)).
Proof. done. Qed.

(** All but the last of them wait, the last one wakes them and passes, and the
    barrier is as before. *)
Lemma barrier_round limit : 0 < limit < 2 ^ 32 ->
  arrive (make limit) (Z.to_nat limit) =
    (make limit, replicate (Z.to_nat limit - 1) (NoWake, false) ++ [(Broadcast, true)]).
Proof.
  intros Hl. assert (forall k w, w + Z.of_nat (S k) = limit -> 0 <= w ->
    arrive (Monitor limit w) (S k) = (make limit, replicate k (NoWake, false) ++ [(Broadcast, true)])) as H.
  { induction k as [|k IH]; intros w Hw Hw0; rewrite arrive_S; unfold wait; cbn [count waits];
      (destruct (Z.eqb_spec limit 0); [lia|]); rewrite u32_id by lia.
    - destruct (Z.leb_spec limit (w + 1)); [done|lia].
    - destruct (Z.leb_spec limit (w + 1)); [lia|]. by rewrite IH by lia. }
  specialize (H (Nat.pred (Z.to_nat limit)) 0). rewrite Nat.succ_pred in H by lia.
  rewrite Nat.sub_1_r. apply H; lia.
Qed.

(** [dec] to zero wakes nobody, and nobody who arrives later does. *)
Lemma barrier_dec_stuck s : count s = 1 -> count (dec s) = 0 /\ wait (dec s) = (dec s, NoWake, true).
Proof. intros E. unfold dec. rewrite E. split; [done|]. unfold wait. by destruct s. Qed.

End Barriers.

Module Locks.
Import ConditionalLock.

(** A thread that shares the lock, and no other one wants it: it may share again,
    use it exclusively, share, and release, and ends where it began. *)
Lemma lock_nested n tid : 0 < n < 2 ^ 32 - 1 ->
  let s := Monitor 0 0 n [Context tid n] in
  let '(s1, c, b1) := access s tid in
  let '(s2, b2) := exclusive s1 tid in
  b1 = true /\ b2 = true /\ sharing s2 = 0 /\ release (share s2 tid) tid = (s, NoWake).
Proof.
  intros Hn.
  assert (forall w p sh k, 0 < k -> getContext (Monitor w p sh [Context tid k]) tid =
    (Monitor w p sh [Context tid k], 0%nat)) as Hg.
  { intros w p sh k Hk. unfold getContext. cbn. destruct (Z.eqb_spec k 0); [lia|]. cbn.
    by rewrite bool_decide_true. }
  cbn zeta. unfold access, exclusive, share, release. rewrite Hg by lia.
  unfold access_test, set_held, held, with_contexts, with_sharing, exclusive_test.
  cbn [waiting pending sharing contexts count thread lookup list_lookup alter list_alter fmap option_fmap option_map default].
  rewrite andb_false_r. cbn. rewrite (u32_id (n + 1)) by lia. rewrite Hg by lia. cbn.
  rewrite Z.sub_diag. change (u32 0) with 0. cbn. rewrite Hg by lia. cbn.
  rewrite Z.add_0_l, (u32_id (n + 1)) by lia. rewrite Hg by lia. cbn.
  split_and!; try done. by rewrite Z.add_simpl_r, u32_id by lia.
Qed.

(** [modify] does not count its context while it waits: thread 2 takes the context
    of thread 1, which later commits through another one and leaves [sharing] at
    the largest number although nobody shares the lock. *)
Lemma lock_context_reused :
  let '(s, _, reading) := access make 0 in
  let '(s, c1, writing) := modify s 1 in
  let '(s, c2, reading2) := access s 2 in
  let '(s, k) := release s 0 in
  let '(s, writing') := modify_wake s c1 in
  let '(s, k') := commit s 1 in
  reading = true /\ writing = false /\ c1 = c2 /\ reading2 = false /\ k = Signal /\ writing' = true /\
  k' = NoWake /\ sharing s = 2 ^ 32 - 1.
Proof. vm_compute. repeat split. Qed.

End Locks.
