(* ===== verification/Memory.v ===== *)
(** * Paged memory (corelib/memory.cpp, inc/ucommon/memory.h)

    A [memalloc] hands out the memory of pages one piece after the other and frees
    the pages together.  Addresses are integers; a page is known by its base
    address and the number of bytes in use, its header of [sizeof (page_t)] bytes
    included.  Where the base addresses come from is left to [malloc], a parameter
    with its documented behaviour (class [PageSource]).  Pointers have 8 bytes. *)

From stdpp Require Import list.
From S2P Require Import Prelude CLib.

Definition sizeof_ptr : Z := 8.
Definition sizeof_page : Z := 16.

(** The exceptions of the pager. *)
Inductive error :=
  | PagerExhausted | BadAlloc | LargerThanPagesize | OutsideRange | NoMembers | NoRoot.

Module memalloc.

Record page_t := Page { base : Z; used : Z }.

(** [page] is the chain of pages, the newest first. *)
Record t := Mk { pagesize : Z; align : Z; count : Z; limit : Z; page : list page_t }.

(** The constructor, on a system whose pages have [paging] bytes. *)
Definition round_page (ps paging : Z) : Z :=
  if ps =? 0 then paging
  else if paging <? ps then u64 ((u64 (ps + paging - 1)) / paging * paging)
  else ps.

Definition make (ps paging : Z) : t :=
  let ps := round_page ps paging in
  let align := if paging <=? ps then sizeof_ptr else 0 in
  Mk ps (match align with 2 | 4 | 8 | 16 => align | _ => 0 end) 0 0 [].

(** The copy has the same page size and no pages. *)
Definition copy (c : t) : t := Mk (pagesize c) (align c) 0 0 [].

(** [purge] frees all pages. *)
Definition purge (s : t) : t := Mk (pagesize s) (align s) 0 (limit s) [].

(** [assign] moves the pages: the new state of both. *)
Definition assign (s source : t) : t * t :=
  (Mk (pagesize source) (align source) (count source) (limit source) (page source),
   Mk (pagesize source) (align source) 0 (limit source) []).

Definition pages (s : t) : Z := count s.
Definition max (s : t) : Z := limit s.
Definition size (s : t) : Z := pagesize s.

(** [utilization]: in percent; [None] is a division by zero, which a single page of
    less than 100 bytes leads to. *)
Definition utilization (s : t) : option Z :=
  let alloc := u64 (pagesize s * zlen (page s)) in
  let used := foldr (fun p n => u64 (used p + n)) 0 (page s) in
  if used =? 0 then Some 0
  else if alloc / 100 =? 0 then None
  else Some (u32 (used / (alloc / 100))).

(** [pager]: [addr] is what the allocation of the page returns. *)
Definition pager (s : t) (addr : option Z) : error + t :=
  if negb (limit s =? 0) && (limit s <=? count s) then inl PagerExhausted
  else
    match addr with
    | None => inl BadAlloc
    | Some a =>
        let skew := a mod sizeof_ptr in
        let p := Page a (if skew =? 0 then sizeof_page else u32 (sizeof_page + (sizeof_ptr - skew))) in
        inr (Mk (pagesize s) (align s) (u32 (count s + 1)) (limit s) (p :: page s))
    end.

(** The loop that rounds [size] up to the size of a pointer: at most seven steps. *)
Fixpoint pad (fuel : nat) (size : Z) : Z :=
  match fuel with
  | O => size
  | S f => if size mod sizeof_ptr =? 0 then size else pad f (u64 (size + 1))
  end.

(** The first page with room, counted from the newest. *)
Fixpoint fit (pagesize size : Z) (l : list page_t) : option nat :=
  match l with
  | [] => None
  | p :: l => if size <=? u64 (pagesize - used p) then Some O else S <$> fit pagesize size l
  end.

(** The end of [_alloc]: a piece of page [i]. *)
Definition take (s : t) (i : nat) (size : Z) : option (t * Z) :=
  p ← page s !! i;
  Some (Mk (pagesize s) (align s) (count s) (limit s)
          (<[i := Page (base p) (u32 (used p + size))]> (page s)),
        base p + used p).

Definition _alloc (s : t) (size : Z) (addr : option Z) : option (error + (t * Z)) :=
  if u64 (pagesize s - sizeof_page) <? size then Some (inl LargerThanPagesize)
  else
    let size := pad 7 size in
    match fit (pagesize s) size (page s) with
    | Some i => inr <$> take s i size
    | None =>
        match pager s addr with
        | inl e => Some (inl e)
        | inr s => inr <$> take s O size
        end
    end.

End memalloc.

(** The memory [malloc] gives for a page that starts with the pages of a pager: it
    is aligned for every type and does not overlap with the others. *)
Class PageSource := {
  new_page : memalloc.t -> option Z;
  new_page_aligned : forall s a, new_page s = Some a -> a mod sizeof_ptr = 0;
  new_page_apart : forall s a p, new_page s = Some a -> p ∈ memalloc.page s ->
    a + memalloc.pagesize s <= memalloc.base p \/ memalloc.base p + memalloc.pagesize s <= a }.

Section pool.
Context `{PageSource}.

(** A piece of memory from the pager. *)
Definition alloc (s : memalloc.t) (size : Z) : option (error + (memalloc.t * Z)) :=
  memalloc._alloc s size (new_page s).

(** Requests one after the other, with the pieces they got; [None] is undefined
    behaviour, an exception ends the run. *)
Fixpoint requests (s : memalloc.t) (sizes : list Z) : option (error + (memalloc.t * list (Z * Z))) :=
  match sizes with
  | [] => Some (inr (s, []))
  | n :: sizes =>
      r ← alloc s n;
      match r with
      | inl e => Some (inl e)
      | inr (s, a) =>
          r ← requests s sizes;
          Some (match r with inl e => inl e | inr (s, l) => inr (s, (a, n) :: l) end)
      end
  end.

End pool.

(** A call ends with a result or an exception; [None] is undefined behaviour. *)
Definition res (A : Type) : Type := option (error + A).

Definition ret {A} (a : A) : res A := Some (inr a).
Definition throw {A} (e : error) : res A := Some (inl e).

Definition rbind {A B} (r : res A) (f : A -> res B) : res B :=
  match r with
  | None => None
  | Some (inl e) => Some (inl e)
  | Some (inr a) => f a
  end.

(** A read of memory the program relies on. *)
Definition need {A} (o : option A) : res A := inr <$> o.

Declare Scope pager_scope.
Notation "x <~ y ; z" := (rbind y (fun x => z))
  (at level 20, y at level 100, z at level 200, only parsing) : pager_scope.
Notation "' x <~ y ; z" := (rbind y (fun x => z))
  (at level 20, x pattern, y at level 100, z at level 200, only parsing) : pager_scope.
