(* ===== verification/MemoryLaws.v ===== *)
(** * The pieces of memory a pager hands out

    They lie in its pages, start at multiples of the pointer size and do not
    overlap; requests that fit a page succeed. *)

From stdpp Require Import list sorting.
From S2P Require Import Prelude CLib Memory.
Import memalloc.

(** A page of [ps] bytes. *)
Definition good_page (ps : Z) (p : page_t) : Prop :=
  sizeof_page <= used p <= ps /\ used p mod sizeof_ptr = 0 /\ base p mod sizeof_ptr = 0.

Definition apart (ps : Z) (p q : page_t) : Prop := base p + ps <= base q \/ base q + ps <= base p.

(** The pages of a pager: each good, no two overlapping. *)
Record pages_ok (s : t) : Prop := {
  ok_size : sizeof_page <= pagesize s < 2 ^ 31 /\ pagesize s mod sizeof_ptr = 0;
  ok_count : count s = zlen (page s);
  ok_limit : limit s <> 0 -> count s <= limit s;
  ok_small : 0 <= limit s < 2 ^ 32;
  ok_pages : Forall (good_page (pagesize s)) (page s);
  ok_apart : forall i j p q, page s !! i = Some p -> page s !! j = Some q -> i <> j ->
    apart (pagesize s) p q }.

(** Address [a] is in the part of a page that is in use. *)
Definition in_use (s : t) (a : Z) : Prop :=
  exists p, p ∈ page s /\ base p + sizeof_page <= a < base p + used p.

(** [pad] rounds up. *)
Lemma pad_spec size : 0 <= size < 2 ^ 32 ->
  size <= pad 7 size < size + sizeof_ptr /\ pad 7 size mod sizeof_ptr = 0.
Proof.
  intros Hs. assert (forall k n, 0 <= n < 2 ^ 33 - Z.of_nat k -> (8 - n mod 8) mod 8 <= Z.of_nat k ->
    pad k n = n + (8 - n mod 8) mod 8) as H.
  { induction k as [|k IH]; intros n Hn Hk; cbn [pad]; unfold sizeof_ptr.
    - pose proof (Z.mod_pos_bound (8 - n mod 8) 8 eq_refl). lia.
    - destruct (Z.eqb_spec (n mod 8) 0) as [E|E]; [rewrite E; change ((8 - 0) mod 8) with 0; lia|].
      rewrite u64_id by lia. pose proof (Z.mod_pos_bound n 8 eq_refl).
      assert ((n + 1) mod 8 = (n mod 8 + 1) mod 8) as E1 by by rewrite Zplus_mod_idemp_l.
      rewrite (Z.mod_small (8 - n mod 8)) in Hk |- * by lia.
      assert ((8 - (n + 1) mod 8) mod 8 = 8 - n mod 8 - 1) as E2.
      { rewrite E1. destruct (decide (n mod 8 = 7)) as [->|]; [done|].
        rewrite (Z.mod_small (n mod 8 + 1)) by lia. rewrite Z.mod_small; lia. }
      rewrite IH by (rewrite ?E2; lia). rewrite E2. lia. }
  unfold sizeof_ptr. pose proof (Z.mod_pos_bound (8 - size mod 8) 8 eq_refl).
  rewrite H by lia. split; [lia|].
  rewrite Zplus_mod, Zmod_mod. rewrite <- Zplus_mod.
  replace (size + (8 - size mod 8)) with ((size - size mod 8) + 1 * 8) by lia.
  rewrite Z_mod_plus_full. rewrite Zminus_mod, Zmod_mod, Z.sub_diag. done.
Qed.

Lemma fit_spec ps n l : Forall (good_page ps) l -> ps < 2 ^ 31 ->
  match fit ps n l with
  | Some i => exists p, l !! i = Some p /\ n <= ps - used p
  | None => Forall (fun p => ps - used p < n) l
  end.
Proof.
  intros Hl Hps. induction Hl as [|p l [Hp _] Hl IH]; cbn [fit]; [done|].
  unfold sizeof_page in Hp. rewrite u64_id by lia. destruct (Z.leb_spec n (ps - used p)); [by exists p|].
  destruct (fit ps n l) as [i|]; cbn; [exact IH|]. by constructor.
Qed.

Section pool.
Context `{PageSource}.

(** A new page keeps the pages in order. *)
Lemma pager_ok s a s' : pages_ok s -> new_page s = Some a -> pager s (Some a) = inr s' ->
  count s < 2 ^ 32 - 1 ->
  pages_ok s' /\ page s' = Page a sizeof_page :: page s /\ pagesize s' = pagesize s.
Proof.
  intros [] Ha Hp Hc. unfold pager in Hp. pose proof (new_page_aligned s a Ha) as Hal.
  destruct (negb (limit s =? 0) && (limit s <=? count s)) eqn:El; [done|]. rewrite Hal in Hp.
  injection Hp as <-. split; [|done]. pose proof (zlen_nonneg (page s)). split; cbn [pagesize count limit page].
  - done.
  - rewrite u32_id, zlen_cons by lia. lia.
  - rewrite u32_id by lia. apply andb_false_iff in El as [El|El].
    + apply negb_false_iff, Z.eqb_eq in El. done.
    + apply Z.leb_gt in El. lia.
  - done.
  - constructor; [|done]. split; [unfold sizeof_page in *; cbn; lia|]. split; [done|exact Hal].
  - intros [|i] [|j] p q Hi Hj Hij; cbn in Hi, Hj; [done|..].
    + injection Hi as <-. apply list_elem_of_lookup_2 in Hj. unfold apart. cbn.
      destruct (new_page_apart s a q Ha Hj); [left|right]; lia.
    + injection Hj as <-. apply list_elem_of_lookup_2 in Hi. unfold apart. cbn.
      destruct (new_page_apart s a p Ha Hi); [right|left]; lia.
    + eapply ok_apart0; [done|done|congruence].
Qed.

(** A piece of [n] bytes at [a] lies in the part of a page that is in use. *)
Definition piece_in (s : t) (a n : Z) : Prop :=
  exists p, p ∈ page s /\ base p + sizeof_page <= a /\ a + n <= base p + used p.

(** What an allocation promises. *)
Definition fresh_piece (s s' : t) (a n : Z) : Prop :=
  pages_ok s' /\ pagesize s' = pagesize s /\ a mod sizeof_ptr = 0 /\ piece_in s' a n /\
  forall b k, 0 < k -> piece_in s b k -> piece_in s' b k /\ (b + k <= a \/ a + n <= b).

Lemma take_spec s i p size : pages_ok s -> page s !! i = Some p -> 0 < size <= pagesize s - used p ->
  size mod sizeof_ptr = 0 ->
  exists s', take s i size = Some (s', base p + used p) /\ fresh_piece s s' (base p + used p) size /\
    count s' = count s /\ limit s' = limit s.
Proof.
  intros [] Hi Hs Hm. unfold take. rewrite Hi. run.
  pose proof (proj1 (Forall_lookup _ _) ok_pages0 i p Hi) as (Hu & Hum & Hb). unfold sizeof_page in Hu.
  rewrite u32_id by lia. eexists. split; [done|]. split; [|done].
  assert (i < length (page s))%nat as Hlt by by eapply lookup_lt_Some.
  set (q := Page (base p) (used p + size)).
  assert (good_page (pagesize s) q) as Hq.
  { split; [unfold sizeof_page; cbn; lia|]. cbn. split; [by rewrite Zplus_mod, Hum, Hm|done]. }
  split_and!; cbn [page pagesize].
  - split; cbn [page pagesize count limit]; try done.
    + by rewrite ok_count0; unfold zlen; rewrite length_insert.
    + by apply Forall_insert.
    + intros j k p1 p2 Hj Hk Hjk.
      assert (forall j p1, <[i := q]> (page s) !! j = Some p1 -> exists p0, page s !! j = Some p0 /\ base p0 = base p1) as Hbase.
      { intros j' p' [(-> & <- & _)|[_ ?]]%list_lookup_insert_Some; [by exists p|by exists p']. }
      destruct (Hbase j p1 Hj) as (p1' & Hj' & E1). destruct (Hbase k p2 Hk) as (p2' & Hk' & E2).
      pose proof (ok_apart0 j k p1' p2' Hj' Hk' Hjk) as Hap. unfold apart in *. by rewrite <- E1, <- E2.
  - done.
  - by rewrite Zplus_mod, Hum, Hb.
  - exists q. split; [|cbn; unfold sizeof_page; lia].
    eapply list_elem_of_lookup_2, list_lookup_insert_eq. lia.
  - intros b k Hk (p0 & Hin & Hb1 & Hb2). apply list_elem_of_lookup in Hin as [j Hj].
    destruct (decide (j = i)) as [->|Hne].
    + rewrite Hi in Hj. injection Hj as <-. split; [|left; lia]. exists q. split; [|cbn; lia].
      eapply list_elem_of_lookup_2, list_lookup_insert_eq. lia.
    + split.
      * exists p0. split; [|lia]. cbn [page]. eapply (list_elem_of_lookup_2 _ j). by rewrite list_lookup_insert_ne.
      * pose proof (proj1 (Forall_lookup _ _) ok_pages0 j p0 Hj) as (Hu0 & _).
        destruct (ok_apart0 j i p0 p Hj Hi Hne); unfold sizeof_page in *; lia.
Qed.

(** When [pager] fails, and what it leaves. *)
Lemma pager_cases s addr : pages_ok s ->
  match pager s addr with
  | inl PagerExhausted => limit s <> 0 /\ count s = limit s
  | inl BadAlloc => addr = None /\ (limit s = 0 \/ count s < limit s)
  | inl _ => False
  | inr s1 => limit s1 = limit s /\ exists a, addr = Some a
  end.
Proof.
  intros []. unfold pager. destruct (negb (limit s =? 0) && (limit s <=? count s)) eqn:El.
  - apply andb_true_iff in El as [El1 El2]. apply Z.leb_le in El2.
    apply negb_true_iff, Z.eqb_neq in El1. specialize (ok_limit0 El1). lia.
  - destruct addr as [a|]; [split; [done|by exists a]|]. split; [done|].
    apply andb_false_iff in El as [El|El%Z.leb_gt]; [left|by right].
    by apply negb_false_iff, Z.eqb_eq in El.
Qed.

(** A size that fits a page fits one when rounded. *)
Lemma pad_fits s size : pages_ok s -> 0 < size <= pagesize s - sizeof_page ->
  size <= pad 7 size <= pagesize s - sizeof_page /\ pad 7 size mod sizeof_ptr = 0.
Proof.
  intros [[Hps Hm] _ _ _ _ _] Hn. unfold sizeof_page in *. destruct (pad_spec size) as [Hp Hpm]; [lia|].
  split; [|done]. unfold sizeof_ptr in *.
  pose proof (Z_div_mod_eq_full (pad 7 size) 8). pose proof (Z_div_mod_eq_full (pagesize s) 8). lia.
Qed.

Lemma fresh_less s s' a k n : fresh_piece s s' a k -> n <= k -> fresh_piece s s' a n.
Proof.
  intros (H1 & H2 & H3 & (p & Hin & Ha & Hb) & H4) Hk. split_and!; [done..| |].
  - exists p. split; [done|lia].
  - intros b j Hj Hb'. destruct (H4 b j Hj Hb') as [H5 H6]. split; [done|lia].
Qed.

(** No page has [n] bytes left. *)
Definition no_room (s : t) (n : Z) : Prop := Forall (fun p => pagesize s - used p < n) (page s).

(** The bytes left of a page are a multiple of the size of a pointer. *)
Lemma no_room_pad s n : pages_ok s -> 0 < n <= pagesize s - sizeof_page ->
  no_room s (pad 7 n) -> no_room s n.
Proof.
  intros [[Hps Hm] _ _ _ Hp _] Hn Hr. unfold no_room in *.
  rewrite Forall_lookup in *. intros i p Hi. specialize (Hr i p Hi). destruct (Hp i p Hi) as (_ & Hu & _).
  unfold sizeof_page in *. destruct (pad_spec n ltac:(lia)) as [H1 H2]. unfold sizeof_ptr in *.
  pose proof (Z_div_mod_eq_full (pad 7 n) 8). pose proof (Z_div_mod_eq_full (pagesize s) 8).
  pose proof (Z_div_mod_eq_full (used p) 8). lia.
Qed.

(** Memory for [size] bytes: a piece of a page, unless no page is to be had. *)
Lemma alloc_spec s size : pages_ok s -> 0 < size <= pagesize s - sizeof_page -> count s < 2 ^ 32 - 1 ->
  match alloc s size with
  | Some (inr (s', a)) => fresh_piece s s' a size /\ limit s' = limit s /\ count s <= count s' <= count s + 1
  | Some (inl e) => no_room s size /\
      match e with
      | PagerExhausted => limit s <> 0 /\ count s = limit s
      | BadAlloc => new_page s = None /\ (limit s = 0 \/ count s < limit s)
      | _ => False
      end
  | None => False
  end.
Proof.
  intros Hs Hn Hc. destruct (pad_fits s size Hs Hn) as [Hp Hpm]. pose proof Hs as []. unfold alloc, _alloc.
  unfold sizeof_page in *. rewrite u64_id by lia. destruct (Z.ltb_spec (pagesize s - 16) size); [lia|].
  pose proof (fit_spec (pagesize s) (pad 7 size) (page s) ok_pages0 ltac:(lia)) as Hfs.
  destruct (fit (pagesize s) (pad 7 size) (page s)) as [i|].
  { destruct Hfs as (p & Hi & Hr).
    destruct (take_spec s i p (pad 7 size) Hs Hi) as (s' & -> & Hf & E1 & E2); [lia|done|].
    cbn. split; [|lia]. eapply fresh_less; [exact Hf|lia]. }
  pose proof (pager_cases s (new_page s) Hs) as Hpc. destruct (pager s (new_page s)) as [e|s1] eqn:Ep.
  { split; [by apply no_room_pad|]. by destruct e. }
  destruct Hpc as (El & a & Ea). rewrite Ea in Ep.
  destruct (pager_ok s a s1 Hs Ea Ep Hc) as (Hs1 & Epg & Eps).
  destruct (take_spec s1 0 (Page a 16) (pad 7 size) Hs1) as (s' & -> & Hf & E1 & E2);
    [by rewrite Epg|cbn [used]; rewrite Eps; lia|done|]. cbn [fmap option_fmap option_map base used].
  pose proof (ok_count _ Hs1) as E. rewrite Epg, zlen_cons in E. split; [|lia].
  eapply (fresh_less _ _ _ (pad 7 size)); [|lia]. destruct Hf as (F1 & F2 & F3 & F4 & F5).
  split_and!; [done|congruence|done..|].
  intros b k Hk (p & Hin & Hb). apply F5; [done|]. exists p. split; [|done]. rewrite Epg. by right.
Qed.

(** The same when the reason of a failure does not matter. *)
Lemma alloc_cases s size : pages_ok s -> 0 < size <= pagesize s - sizeof_page -> count s < 2 ^ 32 - 1 ->
  match alloc s size with
  | Some (inr (s', a)) => fresh_piece s s' a size /\ limit s' = limit s /\ count s <= count s' <= count s + 1
  | Some (inl PagerExhausted) | Some (inl BadAlloc) => True
  | _ => False
  end.
Proof.
  intros Hs Hn Hc. pose proof (alloc_spec s size Hs Hn Hc) as Ha.
  destruct (alloc s size) as [[e|[s' a]]|]; [|done..]. destruct Ha as [_ He]. by destruct e.
Qed.

(** ** Calls that end *)

(** The call ends with a result of [P], unless the memory is exhausted. *)
Definition served {A} (r : res A) (P : A -> Prop) : Prop :=
  match r with
  | Some (inr x) => P x
  | Some (inl PagerExhausted) | Some (inl BadAlloc) => True
  | _ => False
  end.

Lemma served_bind {A B} (r : res A) (f : A -> res B) P Q :
  served r P -> (forall x, P x -> served (f x) Q) -> served (rbind r f) Q.
Proof. destruct r as [[[]|x]|]; cbn; auto. Qed.

Lemma served_mono {A} (r : res A) (P Q : A -> Prop) : served r P -> (forall x, P x -> Q x) -> served r Q.
Proof. destruct r as [[[]|x]|]; cbn; auto. Qed.

Lemma served_need {A B} (o : option A) x (f : A -> res B) Q : o = Some x -> served (f x) Q ->
  served (rbind (need o) f) Q.
Proof. by intros ->. Qed.

(** Memory for [n] more pieces. *)
Definition space (s : t) (n : Z) : Prop := pages_ok s /\ count s + n < 2 ^ 32.

Lemma alloc_served s n size : space s (n + 1) -> 0 <= n -> 0 < size <= pagesize s - sizeof_page ->
  served (alloc s size) (fun r => space r.1 n /\ pagesize r.1 = pagesize s).
Proof.
  intros [Hs Hn] Hn0 Hsz. pose proof (alloc_cases s size Hs Hsz ltac:(lia)) as Ha.
  destruct (alloc s size) as [[[]|[s' a]]|]; try done. cbn. destruct Ha as ((Hs' & Eps & _) & _ & Hc).
  split; [split; [done|lia]|done].
Qed.

(** The pieces of a list do not overlap. *)
Fixpoint disjoint_pieces (l : list (Z * Z)) : Prop :=
  match l with
  | [] => True
  | (a, n) :: l => Forall (fun bk => a + n <= bk.1 \/ bk.1 + bk.2 <= a) l /\ disjoint_pieces l
  end.

(** Why a run of requests ends: all but the last of the first requests were served,
    no page has room for the one that failed, and there is no other page, for the
    number of pages has reached the limit, or the limit allows one and [malloc] gives
    none. *)
Definition stopped (s : t) (sizes : list Z) (e : error) : Prop :=
  exists served n rest s1 l, sizes = served ++ n :: rest /\ requests s served = Some (inr (s1, l)) /\
    pages_ok s1 /\ no_room s1 n /\
    match e with
    | PagerExhausted => limit s <> 0 /\ count s1 = limit s
    | BadAlloc => new_page s1 = None /\ (limit s = 0 \/ count s1 < limit s)
    | _ => False
    end.

Lemma stopped_cons s s1 a n sizes e : alloc s n = Some (inr (s1, a)) -> limit s1 = limit s ->
  stopped s1 sizes e -> stopped s (n :: sizes) e.
Proof.
  intros Ha El (served & k & rest & s2 & l & -> & Hr & Hrest). exists (n :: served), k, rest, s2, ((a, n) :: l).
  split; [done|]. split; [|by rewrite <- El]. cbn [requests]. rewrite Ha. run. by rewrite Hr.
Qed.

(** The pieces of a run do not overlap with each other or with a piece given before. *)
Lemma requests_spec s sizes : pages_ok s ->
  Forall (fun n => 0 < n <= pagesize s - sizeof_page) sizes -> count s + zlen sizes < 2 ^ 32 ->
  match requests s sizes with
  | Some (inr (s', l)) => map snd l = sizes /\ disjoint_pieces l /\ pages_ok s' /\
      (forall b k, 0 < k -> piece_in s b k -> piece_in s' b k) /\
      Forall (fun an => an.1 mod sizeof_ptr = 0 /\ piece_in s' an.1 an.2 /\
        forall b k, 0 < k -> piece_in s b k -> b + k <= an.1 \/ an.1 + an.2 <= b) l
  | Some (inl e) => stopped s sizes e
  | None => False
  end.
Proof.
  revert s. induction sizes as [|n sizes IH]; intros s Hs Hn Hc; cbn [requests].
  { split_and!; try done. }
  apply list.Forall_cons in Hn as [Hn Hns]. rewrite zlen_cons in Hc. pose proof (zlen_nonneg sizes).
  pose proof (alloc_spec s n Hs Hn ltac:(lia)) as Ha.
  destruct (alloc s n) as [[e|[s1 a]]|] eqn:Ea; [|run|done].
  { exists [], n, sizes, s, []. tauto. }
  destruct Ha as ((Hs1 & Eps & Hal & Hpi & Hfr) & El & Hcn).
  specialize (IH s1 Hs1). rewrite Eps in IH. specialize (IH Hns ltac:(lia)).
  destruct (requests s1 sizes) as [[e|[s' l]]|]; [by eapply stopped_cons|run|done].
  destruct IH as (I1 & I2 & I3 & I4 & I5). split; [cbn; by rewrite I1|]. split; [|split; [done|]].
  - split; [|done]. eapply list.Forall_impl; [exact I5|]. intros [b k] (_ & _ & Hb).
    cbn. destruct (Hb a n ltac:(lia) Hpi); [left|right]; done.
  - split; [intros b k Hk Hb; by apply I4, Hfr|]. constructor.
    + cbn. split; [done|]. split; [apply I4; [lia|done]|]. intros b k Hk Hb. by apply Hfr.
    + eapply list.Forall_impl; [exact I5|]. intros [b k] (B1 & B2 & B3). split_and!; try done.
      intros b' k' Hk Hb'. apply B3; [done|]. by apply Hfr.
Qed.


End pool.

(** A source of pages: each page behind the last one. *)
Definition behind (ps : Z) (l : list page_t) : Z :=
  foldr (fun p a => Z.max (base p + ps) a) 0 l.

Lemma behind_spec ps l p : p ∈ l -> base p + ps <= behind ps l.
Proof. induction l as [|q l IH]; [by intros ?%elem_of_nil|]. unfold behind in *. cbn [foldr]. intros [->|Hp]%elem_of_cons; [lia|]. specialize (IH Hp). lia. Qed.

#[export, refine] Instance bump : PageSource := {
  new_page s := Some (8 * (behind (pagesize s) (page s) / 8 + 1)) }.
Proof.
  - intros s a [= <-]. unfold sizeof_ptr. by rewrite Z.mul_comm, Z_mod_mult.
  - intros s a p [= <-] Hp. right. pose proof (behind_spec (pagesize s) _ _ Hp).
    pose proof (Z_div_mod_eq_full (behind (pagesize s) (page s)) 8).
    pose proof (Z.mod_pos_bound (behind (pagesize s) (page s)) 8 eq_refl). lia.
Defined.

(** The constructor makes a pager without pages. *)
Lemma make_ok ps paging : sizeof_page <= round_page ps paging < 2 ^ 31 -> round_page ps paging mod sizeof_ptr = 0 ->
  pages_ok (make ps paging).
Proof.
  intros H1 H2. split; cbn; done.
Qed.

(** Three requests in pages of 64 bytes, with a limit of two pages or none. *)
Lemma limited_ok limit : 0 <= limit < 2 ^ 32 -> pages_ok (Mk 64 0 0 limit []).
Proof. intros. split; cbn; try done. unfold sizeof_page. lia. Qed.


(** The size is compared before it is rounded: in pages whose size is not a
    multiple of that of a pointer [used] can pass the page size, and then the room
    wraps around and every later piece lies behind the page. *)
Lemma memalloc_overrun : exists s' a b,
  requests (make 100 4096) [84; 8] = Some (inr (s', [(a, 84); (b, 8)])) /\
  exists p, page s' = [p] /\ base p + pagesize s' <= b.
Proof. eexists _, _, _. split; [vm_compute; reflexivity|]. eexists. split; [reflexivity|]. discriminate. Qed.

(** A page of less than a hundred bytes: [utilization] divides by zero. *)
Lemma utilization_small : exists s' a, alloc (make 64 4096) 8 = Some (inr (s', a)) /\ utilization s' = None.
Proof. eexists _, _. split; [vm_compute; reflexivity|reflexivity]. Qed.
