(* ===== verification/Pager.v ===== *)
(** * Paged lists (StringPager and ObjectPager of corelib/memory.cpp)

    The members and the texts of a pager lie in the pieces of memory it has from
    its [memalloc]; [nodes] and [texts] are what is stored there, by address.  The
    list is the chain from [root]; [last] is kept for [add], and [index] is the
    array [list] has made, until the next change. *)

From stdpp Require Import gmap sorting.
From S2P Require Import Prelude CLib Strings Memory.

#[local] Open Scope pager_scope.

(** [qsort] of the C library with a comparison of texts: the texts in ascending
    order, each with its address. *)
Class TextSort := {
  collate : list Z -> list Z -> Z;
  qsort : list (Z * list Z) -> list (Z * list Z);
  qsort_perm : forall l, Permutation (qsort l) l;
  qsort_sorted : forall l, StronglySorted (fun x y => collate x.2 y.2 <= 0) (qsort l) }.

(** [find (prior, text)] of [split]: [strstr] or its variant without case. *)
Definition INSENSITIVE : Z := 1.

Definition strcasestr (s t : list Z) : option Z := strstr (map tolower s) (map tolower t).

Module StringPager.

Record member := Member { Next : option Z; text : Z }.

Definition sizeof_member : Z := 24.

Record t := Mk {
  pool : memalloc.t; nodes : gmap Z member; texts : gmap Z (list Z);
  members : Z; root : option Z; last : option Z; index : option (list Z) }.

Definition make (size paging : Z) : t := Mk (memalloc.make size paging) ∅ ∅ 0 None None None.

(** [assign]: the new state of both. *)
Definition assign (s source : t) : t * t :=
  let '(p, q) := memalloc.assign (pool s) (pool source) in
  (Mk p (nodes source) (texts source) (members source) (root source) (last source) (index source),
   Mk q ∅ ∅ 0 None None None).

(** The pages are freed, and what lay in them with them. *)
Definition clear (s : t) : t := Mk (memalloc.purge (pool s)) ∅ ∅ 0 None None None.

Definition set_node (s : t) (a : Z) (m : member) : t :=
  Mk (pool s) (<[a := m]> (nodes s)) (texts s) (members s) (root s) (last s) (index s).

Definition set_list (s : t) (n : Z) (r l : option Z) : t :=
  Mk (pool s) (nodes s) (texts s) n r l None.

(** The text a member points to. *)
Definition text_of (s : t) (m : member) : option (list Z) := texts s !! text m.

Section pager.
Context `{PageSource}.

Definition new_member (s : t) : res (t * Z) :=
  '(p, a) <~ alloc (pool s) sizeof_member;
  ret (Mk p (nodes s) (texts s) (members s) (root s) (last s) (index s), a).

(** A copy of a text. *)
Definition new_text (s : t) (str : list Z) : res (t * Z) :=
  '(p, a) <~ alloc (pool s) (zlen str + 1);
  ret (Mk p (nodes s) (<[a := str]> (texts s)) (members s) (root s) (last s) (index s), a).

(** [add]; NULL is the empty text. *)
Definition add (s : t) (str : option (list Z)) : res t :=
  let str := default [] str in
  '(s, mem) <~ new_member s;
  '(s, a) <~ new_text s str;
  s <~ (if negb (members s =? 0) then
          l <~ need (last s);
          m <~ need (nodes (set_node s mem (Member None a)) !! l);
          ret (set_list (set_node (set_node s mem (Member None a)) l (Member (Some mem) (text m)))
                 (members s) (root s) (last s))
        else ret (set_list (set_node s mem (Member (root s) a)) (members s) (Some mem) (last s)));
  ret (set_list s (u32 (members s + 1)) (root s) (Some mem)).

Definition push (s : t) (str : option (list Z)) : res t :=
  let str := default [] str in
  '(s, mem) <~ new_member s;
  '(s, a) <~ new_text s str;
  let s := set_node s mem (Member (root s) a) in
  ret (set_list s (u32 (members s + 1)) (Some mem)
         (match last s with None => Some mem | l => l end)).

Definition pull (s : t) : res (t * list Z) :=
  if members s =? 0 then throw NoMembers
  else
    r <~ need (root s);
    m <~ need (nodes s !! r);
    result <~ need (text_of s m);
    let n := u32 (members s - 1) in
    ret (if n =? 0 then set_list s n None None else set_list s n (Next m) (last s), result).

(** The member in front of the last one, found from [np] on. *)
Fixpoint before (fuel : nat) (s : t) (l : Z) (np : option Z) : res (option Z) :=
  match fuel with
  | O => None
  | S f =>
      match np with
      | None => ret None
      | Some a =>
          m <~ need (nodes s !! a);
          if decide (Next m = Some l) then ret (Some a) else before f s l (Next m)
      end
  end.

Definition pop (s : t) : res (t * option (list Z)) :=
  match root s with
  | None => throw NoRoot
  | Some r =>
      if decide (root s = last s) then
        m <~ need (nodes s !! r);
        out <~ need (text_of s m);
        ret (set_list s 0 None None, Some out)
      else
        let s := set_list s (members s) (root s) (last s) in
        match last s with
        | None => ret (s, None)
        | Some l =>
            np <~ before (S (size (nodes s))) s l (root s);
            match np with
            | None => ret (s, None)
            | Some a =>
                ml <~ need (nodes s !! l);
                out <~ need (text_of s ml);
                m <~ need (nodes s !! a);
                ret (set_list (set_node s a (Member None (text m))) (u32 (members s - 1)) (root s) (Some a),
                     Some out)
            end
        end
  end.

(** [ind] times [list.next ()] *)
Fixpoint advance (s : t) (ind : nat) (l : option Z) : res (option Z) :=
  match ind with
  | O => ret l
  | S k => a <~ need l; m <~ need (nodes s !! a); advance s k (Next m)
  end.

Definition get (s : t) (ind : Z) : res (list Z) :=
  if members s <=? ind then throw OutsideRange
  else
    l <~ advance s (Z.to_nat ind) (root s);
    a <~ need l; m <~ need (nodes s !! a); need (text_of s m).

(** [set (ind, text)]: the steps to the member are those of an index out of range,
    so that one in range sets the first text. *)
Definition set (s : t) (ind : Z) (str : list Z) : res t :=
  l <~ (if members s <=? ind then advance s (Z.to_nat ind) (root s) else ret (root s));
  '(s, a) <~ new_text s str;
  l <~ need l;
  m <~ need (nodes s !! l);
  ret (set_node s l (Member (Next m) a)).

(** The texts of an array, up to its NULL. *)
Fixpoint add_all (s : t) (l : list (list Z)) : res t :=
  match l with [] => ret s | x :: l => s <~ add s (Some x); add_all s l end.

Fixpoint push_all (s : t) (l : list (list Z)) : res t :=
  match l with [] => ret s | x :: l => s <~ push s (Some x); push_all s l end.

Definition set_all (s : t) (l : list (list Z)) : res t := add_all (clear s) l.

(** The members of the chain from [mp] on, with their texts. *)
Fixpoint chain (fuel : nat) (s : t) (mp : option Z) : res (list (Z * list Z)) :=
  match fuel with
  | O => None
  | S f =>
      match mp with
      | None => ret []
      | Some a =>
          m <~ need (nodes s !! a);
          str <~ need (text_of s m);
          rest <~ chain f s (Next m);
          ret ((a, str) :: rest)
      end
  end.

Definition all (s : t) : res (list (Z * list Z)) := chain (S (size (nodes s))) s (root s).

(** [while (pos) list[--pos]->enlist (&root)] *)
Fixpoint relink (s : t) (r : option Z) (l : list Z) : res (t * option Z) :=
  match l with
  | [] => ret (s, r)
  | a :: l => m <~ need (nodes s !! a); relink (set_node s a (Member r (text m))) (Some a) l
  end.

(** [sort]: [last] is left as it was. *)
Definition sort `{TextSort} (s : t) : res t :=
  if members s =? 0 then ret s
  else
    l <~ all s;
    '(s, r) <~ relink s None (rev (map fst (qsort (firstn (Z.to_nat (members s)) l))));
    ret (set_list s (members s) r (last s)).

(** [list ()]: the addresses of the texts; the array is made once. *)
Definition list_ (s : t) : res (t * list Z) :=
  match index s with
  | Some l => ret (s, l)
  | None =>
      '(p, _) <~ alloc (pool s) (u64 (8 * (members s + 1)));
      l <~ all s;
      let l := map (fun '(a, _) => match nodes s !! a with Some m => text m | None => 0 end) l in
      ret (Mk p (nodes s) (texts s) (members s) (root s) (last s) (Some l), l)
  end.

(** [token]: every result of [String::token] is added. *)
Fixpoint token_loop (fuel : nat) (s : t) (tmp : list Z) (lastp : option Z) (clist quote eol : list Z)
    (count : Z) : res (t * Z) :=
  match fuel with
  | O => None
  | S f =>
      '(tmp, lastp, result) <~ need (Str.token tmp 0 lastp clist quote eol);
      match result with
      | None => ret (s, count)
      | Some p =>
          str <~ need (cstr (drop (Z.to_nat p) tmp));
          s <~ add s (Some str);
          token_loop f s tmp lastp clist quote eol (u32 (count + 1))
      end
  end.

Definition token (s : t) (str clist quote eol : list Z) : res (t * Z) :=
  match str with
  | [] => ret (s, 0)
  | _ => token_loop (S (length str)) s (str ++ [0]) None clist quote eol 0
  end.

(** [split]: the pieces of [prior] between the matches of [text]. *)
Fixpoint split_loop (fuel : nat) (find : list Z -> option Z) (tcl : Z) (s : t) (prior : list Z)
    (found : bool) (count : Z) : res (t * Z) :=
  match fuel with
  | O => None
  | S f =>
      match prior with
      | [] => ret (s, count)
      | _ =>
          match find prior with
          | None => if found then s <~ add s (Some prior); ret (s, u32 (count + 1)) else ret (s, count)
          | Some k =>
              if 0 <? k then
                s <~ add s (Some (take (Z.to_nat k) prior));
                split_loop f find tcl s (drop (Z.to_nat (k + tcl)) prior) true (u32 (count + 1))
              else split_loop f find tcl s (drop (Z.to_nat (k + tcl)) prior) true count
          end
      end
  end.

Definition split (s : t) (txt str : list Z) (flags : Z) : res (t * Z) :=
  let find := if Z.land flags 1 =? INSENSITIVE then fun p => strcasestr p txt else fun p => strstr p txt in
  match txt, str with
  | [], _ | _, [] => ret (s, 0)
  | _, _ => split_loop (S (length str)) find (zlen txt) s str false 0
  end.

(** [join]: the characters of the string returned. *)
Fixpoint join_loop (l : list (list Z)) (middle suffix : list Z) : list Z :=
  match l with
  | [] => []
  | [x] => x ++ suffix
  | x :: l => x ++ middle ++ join_loop l middle suffix
  end.

Definition join (s : t) (prefix middle suffix : list Z) : res (list Z) :=
  if members s =? 0 then ret []
  else l <~ all s; ret (prefix ++ join_loop (map snd l) middle suffix).

End pager.

End StringPager.

Module ObjectPager.

Record member := Member { Next : option Z; mem : Z }.

Definition sizeof_member : Z := 24.

Record t := Mk {
  pool : memalloc.t; nodes : gmap Z member; members : Z; root : option Z; typesize : Z;
  last : option Z; index : option (list Z) }.

Definition make (objsize size paging : Z) : t := Mk (memalloc.make size paging) ∅ 0 None objsize None None.

Definition assign (s source : t) : t * t :=
  let '(p, q) := memalloc.assign (pool s) (pool source) in
  (Mk p (nodes source) (members source) (root source) (typesize source) (last source) (index source),
   Mk q ∅ 0 None (typesize source) None None).

Definition clear (s : t) : t := Mk (memalloc.purge (pool s)) ∅ 0 None (typesize s) None None.

Definition set_node (s : t) (a : Z) (m : member) : t :=
  Mk (pool s) (<[a := m]> (nodes s)) (members s) (root s) (typesize s) (last s) (index s).

Definition set_list (s : t) (n : Z) (r l : option Z) : t :=
  Mk (pool s) (nodes s) n r (typesize s) l None.

Definition set_pool (s : t) (p : memalloc.t) : t :=
  Mk p (nodes s) (members s) (root s) (typesize s) (last s) (index s).

Section pager.
Context `{PageSource}.

(** [node->mem = memalloc::_alloc (typesize)]: the object of a new member. *)
Definition new_object (s : t) (a : Z) : res (t * Z) :=
  '(p, o) <~ alloc (pool s) (typesize s);
  m <~ need (nodes s !! a);
  ret (set_node (set_pool s p) a (Member (Next m) o), o).

Definition add (s : t) : res (t * Z) :=
  '(p, a) <~ alloc (pool s) sizeof_member;
  let s := set_list (set_pool s p) (members s) (root s) (last s) in
  s <~ (if negb (members s =? 0) then
          l <~ need (last s);
          let s := set_node s a (Member None 0) in
          m <~ need (nodes s !! l);
          ret (set_list (set_node s l (Member (Some a) (mem m))) (members s) (root s) (Some a))
        else ret (set_list (set_node s a (Member (root s) 0)) (members s) (Some a) (Some a)));
  new_object (set_list s (u32 (members s + 1)) (root s) (last s)) a.

Definition push (s : t) : res (t * Z) :=
  '(p, a) <~ alloc (pool s) sizeof_member;
  let s := set_node (set_pool s p) a (Member (root s) 0) in
  let s := set_list s (u32 (members s + 1)) (Some a) (match last s with None => Some a | l => l end) in
  new_object s a.

(** [invalid] is NULL for every request that cannot be met. *)
Definition pull (s : t) : res (t * option Z) :=
  if members s =? 0 then ret (s, None)
  else
    r <~ need (root s);
    m <~ need (nodes s !! r);
    let n := u32 (members s - 1) in
    ret (if n =? 0 then set_list s n None None else set_list s n (Next m) (last s), Some (mem m)).

Fixpoint before (fuel : nat) (s : t) (l : Z) (np : option Z) : res (option Z) :=
  match fuel with
  | O => None
  | S f =>
      match np with
      | None => ret None
      | Some a => m <~ need (nodes s !! a); if decide (Next m = Some l) then ret (Some a) else before f s l (Next m)
      end
  end.

Definition pop (s : t) : res (t * option Z) :=
  match root s with
  | None => ret (s, None)
  | Some r =>
      let s := set_list s (members s) (root s) (last s) in
      if decide (root s = last s) then
        m <~ need (nodes s !! r); ret (set_list s 0 None None, Some (mem m))
      else
        match last s with
        | None => ret (s, None)
        | Some l =>
            np <~ before (S (size (nodes s))) s l (root s);
            match np with
            | None => ret (s, None)
            | Some a =>
                ml <~ need (nodes s !! l);
                m <~ need (nodes s !! a);
                ret (set_list (set_node s a (Member None (mem m))) (u32 (members s - 1)) (root s) (Some a),
                     Some (mem ml))
            end
        end
  end.

Fixpoint advance (s : t) (ind : nat) (l : option Z) : res (option Z) :=
  match ind with
  | O => ret l
  | S k => a <~ need l; m <~ need (nodes s !! a); advance s k (Next m)
  end.

Definition get (s : t) (ind : Z) : res (option Z) :=
  if members s <=? ind then ret None
  else
    l <~ advance s (Z.to_nat ind) (root s);
    a <~ need l; m <~ need (nodes s !! a); ret (Some (mem m)).

Fixpoint chain (fuel : nat) (s : t) (mp : option Z) : res (list Z) :=
  match fuel with
  | O => None
  | S f =>
      match mp with
      | None => ret []
      | Some a => m <~ need (nodes s !! a); rest <~ chain f s (Next m); ret (mem m :: rest)
      end
  end.

Definition list_ (s : t) : res (t * list Z) :=
  match index s with
  | Some l => ret (s, l)
  | None =>
      '(p, _) <~ alloc (pool s) (u64 (8 * (members s + 1)));
      l <~ chain (S (size (nodes s))) s (root s);
      ret (Mk p (nodes s) (members s) (root s) (typesize s) (last s) (Some l), l)
  end.

End pager.

End ObjectPager.
