(* ===== verification/PagerLaws.v ===== *)
(** * A StringPager is a list of texts *)

From stdpp Require Import gmap sorting strings.
From S2P Require Import Prelude CLib Strings Memory MemoryLaws Pager.
Import StringPager.

#[local] Open Scope pager_scope.

(** ** The list behind the links *)

(** From [p] on, the members and their texts. *)
Fixpoint holds (s : t) (p : option Z) (l : list (Z * list Z)) : Prop :=
  match l with
  | [] => p = None
  | (a, str) :: l => p = Some a /\ exists m, nodes s !! a = Some m /\ text_of s m = Some str /\ holds s (Next m) l
  end.

Definition last_addr (l : list (Z * list Z)) : option Z := fst <$> list.last l.

Record ok (s : t) (l : list (Z * list Z)) : Prop := {
  ok_pool : pages_ok (pool s);
  ok_nodes : forall a m, nodes s !! a = Some m -> piece_in (pool s) a sizeof_member;
  ok_texts : forall a str, texts s !! a = Some str -> piece_in (pool s) a (zlen str + 1);
  ok_holds : holds s (root s) l;
  ok_nodup : NoDup (map fst l);
  ok_members : members s = zlen l }.

(** The pager shows the texts [ts], and knows its last member. *)
Definition shows (s : t) (ts : list (list Z)) : Prop :=
  exists l, ok s l /\ last s = last_addr l /\ map snd l = ts.

(** Memory and counters have room for one more member. *)
Definition room (s : t) : Prop :=
  memalloc.count (pool s) < 2 ^ 32 - 2 /\ members s < 2 ^ 32 - 1 /\
  sizeof_member <= memalloc.pagesize (pool s) - sizeof_page.

Definition fits (s : t) (str : list Z) : Prop := zlen str + 1 <= memalloc.pagesize (pool s) - sizeof_page.

(** At most two pages more. *)
Definition grows (s s' : t) : Prop :=
  memalloc.pagesize (pool s') = memalloc.pagesize (pool s) /\
  memalloc.count (pool s') <= memalloc.count (pool s) + 2.

(** Only the nodes of the list and the texts they point to matter. *)
Lemma holds_frame s s' l : forall p,
  (forall a, a ∈ map fst l -> nodes s' !! a = nodes s !! a) ->
  (forall a str, texts s !! a = Some str -> texts s' !! a = Some str) ->
  holds s p l -> holds s' p l.
Proof.
  induction l as [|[a str] l IH]; intros p Hn Ht; [done|]. intros (-> & m & Hm & Hs & Hl).
  split; [done|]. exists m. rewrite Hn by left. split; [done|]. split; [by apply Ht|].
  apply IH; [|done|done]. intros b Hb. apply Hn. by right.
Qed.

(** The link behind [y] is set to [q]. *)
Lemma holds_redirect s s' k y sy k1 q k2 m : forall p, holds s p (k ++ (y, sy) :: k1) ->
  nodes s !! y = Some m -> nodes s' !! y = Some (Member q (text m)) ->
  (forall a, a ∈ map fst k -> nodes s' !! a = nodes s !! a) ->
  (forall a str, texts s !! a = Some str -> texts s' !! a = Some str) ->
  holds s' q k2 -> holds s' p (k ++ (y, sy) :: k2).
Proof.
  induction k as [|[a str] k IH]; intros p; cbn [app holds].
  - intros (-> & m' & Hm' & Hs & _) Hm Hy _ Ht Hk. rewrite Hm in Hm'. injection Hm' as <-.
    split; [done|]. eexists. split; [done|]. split; [by apply Ht|done].
  - intros (-> & m' & Hm' & Hs & Hl) Hm Hy Hn Ht Hk. split; [done|]. exists m'.
    rewrite Hn by left. split; [done|]. split; [by apply Ht|]. apply IH; try done.
    intros b Hb. apply Hn. by right.
Qed.

(** A member of the list. *)
Lemma holds_at s k y sy r : forall p, holds s p (k ++ (y, sy) :: r) ->
  exists m, nodes s !! y = Some m /\ text_of s m = Some sy.
Proof.
  induction k as [|[a str] k IH]; intros p; cbn.
  - intros (_ & m & Hm & Ht & _). by exists m.
  - intros (_ & m & _ & _ & Hl). by eapply IH.
Qed.

Lemma holds_nodes s l : forall p a, holds s p l -> a ∈ map fst l -> is_Some (nodes s !! a).
Proof.
  induction l as [|[b str] l IH]; intros p a; cbn; [by intros _ ?%elem_of_nil|].
  intros (_ & m & Hm & _ & Hl) [->|Ha]%elem_of_cons; [by exists m|by eapply IH].
Qed.

Section pager.
Context `{PageSource}.

Lemma new_member_spec s l : ok s l -> room s ->
  served (new_member s) (fun r => let '(s', a) := r in
    ok s' l /\ nodes s !! a = None /\ piece_in (pool s') a sizeof_member /\
    nodes s' = nodes s /\ texts s' = texts s /\ root s' = root s /\ last s' = last s /\ members s' = members s /\
    memalloc.pagesize (pool s') = memalloc.pagesize (pool s) /\
    memalloc.count (pool s') <= memalloc.count (pool s) + 1).
Proof.
  intros [] (Hc & Hm & Hsz). unfold new_member, sizeof_member in *.
  pose proof (alloc_cases (pool s) 24 ok_pool0 ltac:(lia) ltac:(lia)) as Ha.
  destruct (alloc (pool s) 24) as [[[]|[p a]]|]; try done. cbn.
  destruct Ha as ((Hp & Eps & _ & Hin & Hfr) & _ & Hcn).
  split; [|split_and!; try done; [|lia]].
  - split; cbn; try done.
    + intros b x Hb. eapply Hfr; [done|by eapply ok_nodes0].
    + intros b x Hb. eapply Hfr; [|by eapply ok_texts0]. pose proof (zlen_nonneg x). lia.
    + by eapply holds_frame; [..|exact ok_holds0].
  - destruct (nodes s !! a) as [m|] eqn:E; [|done]. apply ok_nodes0 in E.
    destruct (Hfr a 24 eq_refl E) as [_ Hd]. lia.
Qed.

Lemma new_text_spec s l str : ok s l -> memalloc.count (pool s) < 2 ^ 32 - 1 -> fits s str ->
  served (new_text s str) (fun r => let '(s', a) := r in
    ok s' l /\ texts s' !! a = Some str /\ (forall b x, texts s !! b = Some x -> texts s' !! b = Some x) /\
    nodes s' = nodes s /\ root s' = root s /\ last s' = last s /\ members s' = members s /\
    memalloc.pagesize (pool s') = memalloc.pagesize (pool s) /\
    memalloc.count (pool s') <= memalloc.count (pool s) + 1 /\
    forall b k, 0 < k -> piece_in (pool s) b k -> piece_in (pool s') b k).
Proof.
  intros [] Hc Hf. unfold fits in Hf. pose proof (zlen_nonneg str).
  pose proof (alloc_cases (pool s) (zlen str + 1) ok_pool0 ltac:(lia) ltac:(lia)) as Ha. unfold new_text.
  destruct (alloc (pool s) (zlen str + 1)) as [[[]|[p a]]|]; try done. cbn.
  destruct Ha as ((Hp & Eps & _ & Hin & Hfr) & _ & Hcn).
  assert (forall b x, texts s !! b = Some x -> b <> a) as Hne.
  { intros b x Hb ->. apply ok_texts0 in Hb. pose proof (zlen_nonneg x).
    destruct (Hfr a (zlen x + 1) ltac:(lia) Hb) as [_ Hd]. lia. }
  assert (forall b x, texts s !! b = Some x -> <[a := str]> (texts s) !! b = Some x) as Hgrow.
  { intros b x Hb. rewrite lookup_insert_ne; [done|]. intros <-. by eapply Hne. }
  split; [|split_and!; try done; [apply lookup_insert_eq|lia|intros b k Hk Hb; by apply Hfr]].
  split; cbn; try done.
  - intros b x Hb. eapply Hfr; [done|by eapply ok_nodes0].
  - intros b x [[<- <-]|[_ Hb]]%lookup_insert_Some; [done|]. pose proof (zlen_nonneg x).
    apply Hfr; [lia|by apply ok_texts0].
  - by eapply holds_frame; [..|exact ok_holds0].
Qed.

(** A new member and its text, with what they leave as it was. *)
Lemma new_both_spec s l str : ok s l -> room s -> fits s str ->
  served ('(s, mem) <~ new_member s; '(s, a) <~ new_text s str; ret (s, mem, a)) (fun r => let '(s', mem, a) := r in
    ok s' l /\ nodes s !! mem = None /\ piece_in (pool s') mem sizeof_member /\ texts s' !! a = Some str /\
    nodes s' = nodes s /\ root s' = root s /\ last s' = last s /\ members s' = members s /\ grows s s').
Proof.
  intros Hs Hr Hf. eapply served_bind; [by eapply new_member_spec|].
  intros [s1 mem] (H1 & H2 & H3 & H4 & _ & H5 & H6 & H7 & H8 & H9).
  eapply served_bind; [eapply (new_text_spec s1 l str H1)|].
  - destruct Hr as (? & _). lia.
  - unfold fits. by rewrite H8.
  - intros [s2 a] (G1 & G2 & _ & G4 & G5 & G6 & G7 & G8 & Gc & G9). cbn. unfold sizeof_member in *.
    split_and!; try done; try congruence; [by apply G9|]. split; [congruence|lia].
Qed.

Lemma served_both {A} s str (f : t -> Z -> Z -> res A) Q :
  served ('(s, mem) <~ new_member s; '(s, a) <~ new_text s str; ret (s, mem, a))
    (fun r => let '(s', mem, a) := r in served (f s' mem a) Q) ->
  served ('(s, mem) <~ new_member s; '(s, a) <~ new_text s str; f s mem a) Q.
Proof.
  destruct (new_member s) as [[[]|[s1 mem]]|]; cbn; try done.
  destruct (new_text s1 str) as [[[]|[s2 a]]|]; cbn; done.
Qed.

(** A changed list: members that were there or lie in a piece of memory. *)
Lemma ok_change s s' l l' : ok s l -> pool s' = pool s -> texts s' = texts s ->
  (forall a, is_Some (nodes s' !! a) -> is_Some (nodes s !! a) \/ piece_in (pool s) a sizeof_member) ->
  holds s' (root s') l' -> NoDup (map fst l') -> members s' = zlen l' -> ok s' l'.
Proof.
  intros [] Ep Et En Hh Hd Hm. split; rewrite ?Ep; try done.
  - intros a m Ha. destruct (En a (mk_is_Some _ _ Ha)) as [[m' Hm']|]; [by eapply ok_nodes0|done].
  - intros a str. rewrite Et. apply ok_texts0.
Qed.

Lemma last_addr_snoc k y sy : last_addr (k ++ [(y, sy)]) = Some y.
Proof. unfold last_addr. by rewrite last_snoc. Qed.

(** A list is empty or has a last member. *)
Lemma snoc_cases (l : list (Z * list Z)) : l = [] \/ exists k y sy, l = k ++ [(y, sy)].
Proof. destruct l as [|[y sy] k _] using rev_ind; [by left|right]. by exists k, y, sy. Qed.

Lemma add_spec s l str : ok s l -> last s = last_addr l -> room s -> fits s str ->
  served (add s (Some str)) (fun s' => exists a, ok s' (l ++ [(a, str)]) /\
    last s' = last_addr (l ++ [(a, str)]) /\ grows s s').
Proof.
  intros Hs Hlast Hr Hf. unfold add. cbn [default]. apply served_both.
  eapply served_mono; [by apply new_both_spec|]. intros [[s1 mem] a] (H1 & H2 & H3 & H4 & H5 & H6 & H7 & H8 & Hg).
  pose proof H1 as []. destruct Hr as (_ & Hm & _). rewrite <- H8 in Hm.
  assert (mem ∉ map fst l) as Hout.
  { intros Hin. destruct (holds_nodes s1 l _ _ ok_holds0 Hin) as [m E]. congruence. }
  destruct (snoc_cases l) as [->|(k & y & sy & ->)].
  - rewrite ok_members0. cbn. exists mem. split; [|done]. cbn in ok_holds0.
    eapply ok_change; [exact H1|done|done| | | |].
    + cbn. intros b [m [[<- _]|[_ Hb]]%lookup_insert_Some]; [by right|left; by exists m].
    + cbn. split; [done|]. eexists. rewrite lookup_insert_eq. split; [done|]. by rewrite ok_holds0.
    + apply NoDup_singleton.
    + done.
  - rewrite last_addr_snoc in Hlast. rewrite <- H7 in Hlast.
    destruct (holds_at _ _ _ _ _ _ ok_holds0) as (m & Hy & _).
    assert (y <> mem) as Hne. { intros ->. apply Hout. rewrite map_app. apply elem_of_app. right. left. }
    rewrite ok_members0. destruct (Z.eqb_spec (zlen (k ++ [(y, sy)])) 0) as [E|_].
    { rewrite zlen_app in E. change (zlen [(y, sy)]) with 1 in E. pose proof (zlen_nonneg k). lia. }
    cbn [negb]. rewrite Hlast. cbn. rewrite lookup_insert_ne, Hy by done. cbn. exists mem. split; [|by rewrite last_addr_snoc]. rewrite <- app_assoc. cbn [app].
    eapply ok_change; [exact H1|done|done| | | |].
    + cbn. intros b [m' [[<- _]|[_ [[<- _]|[_ Hb]]%lookup_insert_Some]]%lookup_insert_Some];
        [left; by exists m|by right|left; by exists m'].
    + cbn [root set_list set_node]. eapply holds_redirect; [exact ok_holds0|exact Hy|apply lookup_insert_eq| |done|].
      * intros b Hb. cbn. rewrite !lookup_insert_ne; [done|..]; intros ->.
        -- apply Hout. rewrite map_app. apply elem_of_app. by left.
        -- rewrite map_app in ok_nodup0. apply list.NoDup_app in ok_nodup0 as (_ & Hd & _).
           eapply Hd; [exact Hb|left].
      * split; [done|]. eexists. split; [cbn; rewrite lookup_insert_ne by done; apply lookup_insert_eq|]. done.
    + change (k ++ [(y, sy); (mem, str)]) with (k ++ [(y, sy)] ++ [(mem, str)]). rewrite app_assoc, map_app.
      apply list.NoDup_app. split_and!; [done| |apply NoDup_singleton].
      intros b Hb ->%list_elem_of_singleton. done.
    + cbn. rewrite ok_members0 in Hm. rewrite !zlen_app in *. change (zlen [(y, sy)]) with 1 in *.
      change (zlen [(y, sy); (mem, str)]) with 2. pose proof (zlen_nonneg k). rewrite u32_id; lia.
Qed.

Lemma push_spec s l str : ok s l -> last s = last_addr l -> room s -> fits s str ->
  served (push s (Some str)) (fun s' => exists a, ok s' ((a, str) :: l) /\
    last s' = last_addr ((a, str) :: l) /\ grows s s').
Proof.
  intros Hs Hlast Hr Hf. unfold push. cbn [default]. apply served_both.
  eapply served_mono; [by apply new_both_spec|]. intros [[s1 mem] a] (H1 & H2 & H3 & H4 & H5 & H6 & H7 & H8 & Hg).
  pose proof H1 as []. destruct Hr as (_ & Hm & _). rewrite <- H8 in Hm.
  assert (mem ∉ map fst l) as Hout.
  { intros Hin. destruct (holds_nodes s1 l _ _ ok_holds0 Hin) as [m E]. congruence. }
  cbn. exists mem. split.
  - eapply ok_change; [exact H1|done|done| | | |].
    + cbn. intros b [m [[<- _]|[_ Hb]]%lookup_insert_Some]; [by right|left; by exists m].
    + cbn. split; [done|]. eexists. rewrite lookup_insert_eq. split; [done|]. split; [done|].
      eapply holds_frame; [| |exact ok_holds0]; [|done]. intros b Hb. cbn. rewrite lookup_insert_ne; [done|].
      by intros ->.
    + cbn. by apply list.NoDup_cons.
    + cbn. rewrite zlen_cons, ok_members0 in *. pose proof (zlen_nonneg l). rewrite u32_id; lia.
  - split; [|exact Hg]. rewrite H7, Hlast. unfold last_addr. rewrite last_cons. by destruct (list.last l) as [[]|].
Qed.

Lemma pull_spec s l : ok s l -> last s = last_addr l -> members s < 2 ^ 32 ->
  match l with
  | [] => pull s = throw NoMembers
  | (a, str) :: l' => exists s', pull s = ret (s', str) /\ ok s' l' /\ last s' = last_addr l'
  end.
Proof.
  intros Hs Hlast Hm. pose proof Hs as []. unfold pull. rewrite ok_members0.
  destruct l as [|[a str] l]; [done|]. rewrite zlen_cons in *. pose proof (zlen_nonneg l).
  destruct (Z.eqb_spec (zlen l + 1) 0); [lia|]. destruct ok_holds0 as (Er & m & Hn & Ht & Hl).
  rewrite Er. cbn. rewrite Hn. cbn. rewrite Ht. cbn. rewrite Z.add_simpl_r, u32_id by lia.
  cbn in ok_nodup0. apply list.NoDup_cons in ok_nodup0 as [_ Hd].
  eexists. split; [done|]. destruct (Z.eqb_spec (zlen l) 0) as [E|E].
  - destruct l; [|rewrite zlen_cons in E; pose proof (zlen_nonneg l); lia]. split; [|done].
    eapply ok_change; [exact Hs|done|done|by left|done|constructor|done].
  - split.
    + eapply ok_change; [exact Hs|done|done|by left| |done|done]. eapply holds_frame; [..|exact Hl]; done.
    + cbn. rewrite Hlast. unfold last_addr. rewrite last_cons. destruct (list.last l) eqn:E'; [done|].
      by apply last_None in E' as ->.
Qed.

Lemma before_spec s y k : forall fuel p l, NoDup (k ++ [y]) -> holds s p l -> map fst l = k ++ [y] ->
  (S (length k) < fuel)%nat -> before fuel s y p = ret (list.last k).
Proof.
  induction k as [|a k IH]; intros [|f] p l Hd Hl El Hf; try (cbn in Hf; lia);
    (destruct l as [|[b str] l]; [done|]); cbn in El; injection El as -> El;
    destruct Hl as (-> & m & Hm & _ & Hl); cbn [before need]; rewrite Hm; cbn [need rbind fmap option_fmap option_map].
  - apply map_eq_nil in El as ->. cbn in Hl. rewrite Hl. rewrite decide_False by done.
    destruct f; [cbn in Hf; lia|done].
  - cbn in Hd. apply list.NoDup_cons in Hd as [Ha Hd]. rewrite last_cons.
    destruct k as [|c k].
    + destruct l as [|[c sc] l]; [done|]. injection El as -> El. destruct Hl as (-> & _). by rewrite decide_True.
    + pose proof Hl as Hl'. destruct l as [|[c' sc] l]; [done|]. injection El as -> El.
      destruct Hl as (E & Hl). rewrite E, decide_False.
      * rewrite <- E, (IH f (Next m) ((c, sc) :: l)); [|done|done|cbn; by rewrite El|cbn in *; lia].
        destruct (list.last (c :: k)) eqn:Ek; [done|]. by apply last_None in Ek.
      * intros [= ->]. cbn in Hd. apply list.NoDup_cons in Hd as [Hc _]. apply Hc, elem_of_app. right. left.
Qed.

Lemma holds_size s p l : holds s p l -> NoDup (map fst l) -> (length l <= size (nodes s))%nat.
Proof.
  intros Hl Hd. rewrite <- (length_map fst l), <- (size_list_to_set (C := gset Z)) by done.
  rewrite <- (size_dom (D := gset Z)). apply subseteq_size. intros a Ha%elem_of_list_to_set.
  apply elem_of_dom. by eapply holds_nodes.
Qed.

Lemma pop_spec s l : ok s l -> last s = last_addr l -> members s < 2 ^ 32 ->
  match list.last l with
  | None => pop s = throw NoRoot
  | Some (_, str) => exists s', pop s = ret (s', Some str) /\ ok s' (removelast l) /\ last s' = last_addr (removelast l)
  end.
Proof.
  intros Hs Hlast Hm. pose proof Hs as []. unfold pop.
  destruct (snoc_cases l) as [->|(k & y & sy & ->)]; [by rewrite ok_holds0|].
  rewrite last_snoc, removelast_last. rewrite last_addr_snoc in Hlast. rewrite Hlast.
  destruct (holds_at _ _ _ _ _ _ ok_holds0) as (my & Hy & Hty).
  rewrite map_app in ok_nodup0. pose proof (zlen_nonneg k).
  destruct k as [|[a str] k].
  - cbn in ok_holds0. destruct ok_holds0 as (-> & _). cbn [app]. rewrite decide_True by done.
    rewrite Hy. cbn. rewrite Hty. cbn. eexists. split; [done|]. split; [|done].
    eapply ok_change; [exact Hs|done|done|by left|done|constructor|done].
  - pose proof ok_holds0 as (Er & _). cbn [app] in Er. rewrite Er. rewrite decide_False.
    2: { intros [= ->]. cbn in ok_nodup0. apply list.NoDup_cons in ok_nodup0 as [Hn _]. apply Hn, elem_of_app. right. left. }
    destruct (snoc_cases ((a, str) :: k)) as [|(k' & x & sx & Ek)]; [done|]. rewrite Ek in *.
    cbn [set_list set_node nodes root last members]. 
    erewrite (before_spec _ y (map fst (k' ++ [(x, sx)])) _ _ ((k' ++ [(x, sx)]) ++ [(y, sy)])).
    2: exact ok_nodup0. 2: { eapply holds_frame; [..|rewrite <- Er; exact ok_holds0]; done. }
    2: by rewrite map_app.
    2: { pose proof (holds_size _ _ _ ok_holds0) as Hsz. rewrite map_app in Hsz. specialize (Hsz ok_nodup0).
         rewrite length_app in Hsz. cbn in Hsz. rewrite length_map. lia. }
    rewrite map_app. cbn [map fst]. rewrite last_snoc. cbn. rewrite Hy. cbn. change (text_of _ my) with (text_of s my). rewrite Hty. cbn.
    pose proof ok_holds0 as Hx. rewrite <- app_assoc in Hx. apply holds_at in Hx as (mx & Hx & _).
    rewrite Hx. cbn. eexists. split; [done|]. split; [|by rewrite last_addr_snoc].
    rewrite map_app in ok_nodup0. apply list.NoDup_app in ok_nodup0 as (Hd1 & _ & _).
    eapply ok_change; [exact Hs|done|done| | |by rewrite map_app|].
    + cbn. intros b [m [[<- _]|[_ Hb]]%lookup_insert_Some]; left; by eexists.
    + cbn [root set_list set_node]. rewrite <- app_assoc in ok_holds0. cbn [app] in ok_holds0.
      rewrite <- Er. eapply holds_redirect; [exact ok_holds0|exact Hx|apply lookup_insert_eq| |done|done].
      intros b Hb. cbn. rewrite lookup_insert_ne; [done|]. intros ->. 
      apply list.NoDup_app in Hd1 as (_ & Hd & _). eapply Hd; [exact Hb|left].
    + cbn. rewrite ok_members0, zlen_app. change (zlen [(y, sy)]) with 1. pose proof (zlen_nonneg (k' ++ [(x, sx)])).
      rewrite ok_members0, zlen_app in Hm. change (zlen [(y, sy)]) with 1 in Hm. rewrite u32_id; lia.
Qed.

Lemma advance_spec s l : forall n p, holds s p l -> (n <= length l)%nat ->
  exists q, advance s n p = ret q /\ holds s q (drop n l).
Proof.
  induction l as [|[a str] l IH]; intros [|n] p Hl Hn; try (cbn in Hn; lia); try (by exists p).
  destruct Hl as (-> & m & Hm & _ & Hl). cbn. rewrite Hm. cbn. apply IH; [done|cbn in Hn; lia].
Qed.

Lemma get_spec s l ind : ok s l -> 0 <= ind ->
  get s ind = match l !! Z.to_nat ind with Some (_, str) => ret str | None => throw OutsideRange end.
Proof.
  intros [] Hi. unfold get. rewrite ok_members0. unfold zlen. destruct (Z.leb_spec (Z.of_nat (length l)) ind).
  - by rewrite lookup_ge_None_2 by lia.
  - destruct (advance_spec s l (Z.to_nat ind) (root s) ok_holds0) as (q & -> & Hq); [lia|]. cbn.
    destruct (lookup_lt_is_Some_2 l (Z.to_nat ind)) as [[a str] E]; [lia|]. rewrite E.
    rewrite (drop_S l (a, str)) in Hq by done. destruct Hq as (-> & m & Hm & Ht & _). cbn. rewrite Hm. cbn. by rewrite Ht.
Qed.

(** [set] stores in the first member, whichever is asked for. *)
Lemma set_text_spec s l ind str : ok s l -> 0 <= ind < members s -> memalloc.count (pool s) < 2 ^ 32 - 1 -> fits s str ->
  served (set s ind str) (fun s' => last s' = last s /\
    match l with [] => False | (a, _) :: l' => ok s' ((a, str) :: l') end).
Proof.
  intros Hs Hi Hc Hf. unfold set. destruct (Z.leb_spec (members s) ind); [lia|].
  cbn [rbind ret]. eapply served_bind; [by eapply new_text_spec|].
  intros [s1 b] (H1 & H2 & H3 & H4 & H5 & H6 & H7 & _). pose proof H1 as [].
  destruct l as [|[a old] l]; [rewrite H7 in ok_members0; cbn in ok_members0; change (zlen []) with 0 in *; lia|].
  destruct ok_holds0 as (E & m & Hm & _ & Hl). rewrite <- H5, E. cbn. rewrite Hm. cbn. split; [done|].
  cbn in ok_nodup0. eapply ok_change; [exact H1|done|done| | |done|done].
  - cbn. intros x [m' [[<- _]|[_ Hx]]%lookup_insert_Some]; left; by eexists.
  - cbn. split; [done|]. eexists. rewrite lookup_insert_eq. split; [done|]. split; [done|]. cbn.
    eapply holds_frame; [| |exact Hl]; [|done]. intros x Hx. cbn. rewrite lookup_insert_ne; [done|].
    intros ->. by apply list.NoDup_cons in ok_nodup0 as [? _].
Qed.

Lemma chain_spec s l : forall fuel p, holds s p l -> (length l < fuel)%nat -> chain fuel s p = ret l.
Proof.
  induction l as [|[a str] l IH]; intros [|f] p Hl Hf; try (cbn in Hf; lia); cbn in Hl.
  - by subst.
  - destruct Hl as (-> & m & Hm & Ht & Hl). cbn [chain need]. rewrite Hm. cbn. rewrite Ht. cbn.
    rewrite (IH f (Next m)); [done|done|cbn in Hf; lia].
Qed.

Lemma all_spec s l : ok s l -> all s = ret l.
Proof.
  intros []. apply chain_spec; [done|]. pose proof (holds_size _ _ _ ok_holds0 ok_nodup0). lia.
Qed.

Lemma clear_spec s l : ok s l -> ok (clear s) [] /\ last (clear s) = None.
Proof.
  intros [[] _ _ _ _ _]. split; [|done]. split; cbn; try done; [|constructor]. split; cbn; try done; lia.
Qed.

Lemma holds_in s l : forall p a str, holds s p l -> (a, str) ∈ l ->
  exists m, nodes s !! a = Some m /\ text_of s m = Some str.
Proof. intros p a str Hl (k & r & ->)%list_elem_of_split. by eapply holds_at. Qed.

(** What [relink] leaves alone. *)
Definition same_memory (s s' : t) : Prop :=
  pool s' = pool s /\ texts s' = texts s /\ last s' = last s /\ members s' = members s /\
  forall a, is_Some (nodes s' !! a) -> is_Some (nodes s !! a).

Lemma relink_spec l : forall s r k, NoDup (map fst l ++ map fst k) -> holds s r k ->
  (forall a str, (a, str) ∈ l -> exists m, nodes s !! a = Some m /\ text_of s m = Some str) ->
  exists s' r', relink s r (map fst l) = ret (s', r') /\ holds s' r' (rev l ++ k) /\ same_memory s s'.
Proof.
  induction l as [|[a str] l IH]; intros s r k Hd Hk Hl; [by exists s, r|].
  cbn in Hd. apply list.NoDup_cons in Hd as [Ha Hd]. destruct (Hl a str) as (m & Hm & Ht); [left|].
  cbn [map fst relink]. rewrite Hm. cbn [need rbind fmap option_fmap option_map].
  rewrite elem_of_app in Ha.
  destruct (IH (set_node s a (Member r (text m))) (Some a) ((a, str) :: k)) as (s' & r' & E & Hh & E1 & E2 & E3 & E4 & E5).
  - cbn. apply list.NoDup_app in Hd as (Hd1 & Hd2 & Hd3). apply list.NoDup_app. split_and!; [done| |].
    + intros b Hb [->|Hb']%elem_of_cons; [tauto|by eapply Hd2].
    + apply list.NoDup_cons. tauto.
  - split; [done|]. eexists. split; [apply lookup_insert_eq|]. split; [done|]. cbn.
    eapply holds_frame; [| |exact Hk]; [|done]. intros b Hb. cbn. rewrite lookup_insert_ne; [done|].
    intros ->. tauto.
  - intros b sb Hb. destruct (Hl b sb) as (m' & Hm' & Ht'); [by right|]. exists m'. split; [|done].
    cbn. rewrite lookup_insert_ne; [done|]. intros <-. apply Ha. left. apply list_elem_of_fmap. by exists (a, sb).
  - exists s', r'. split; [done|]. cbn [rev]. rewrite <- app_assoc. split; [done|]. split_and!; try done.
    intros b Hb. destruct (E5 b Hb) as [m' Hm']. cbn in Hm'.
    apply lookup_insert_Some in Hm' as [[<- _]|[_ Hm']]; by eexists.
Qed.

(** The texts of a sorted pager. *)
Lemma sort_spec `{TextSort} s l : ok s l ->
  exists s' q, sort s = ret s' /\ ok s' q /\ last s' = last s /\ Permutation q l /\
    StronglySorted (fun x y => collate x.2 y.2 <= 0) q.
Proof.
  intros Hs. pose proof Hs as []. unfold sort. destruct (Z.eqb_spec (members s) 0) as [E|E].
  { rewrite ok_members0 in E. destruct l; [|rewrite zlen_cons in E; pose proof (zlen_nonneg l); lia].
    exists s, []. split_and!; try done. constructor. }
  rewrite (all_spec s l Hs). cbn [rbind ret].
  rewrite firstn_all2 by (rewrite ok_members0; unfold zlen; lia).
  pose proof (qsort_perm l) as Hp. rewrite <- map_rev.
  destruct (relink_spec (rev (qsort l)) s None []) as (s' & r & E' & Hh & E1 & E2 & E3 & E4 & E5).
  - rewrite app_nil_r, map_rev. apply NoDup_Permutation_proper with (map fst l); [|done].
    rewrite <- Permutation_rev. by apply Permutation_map.
  - done.
  - intros a str Ha. eapply holds_in; [exact ok_holds0|]. rewrite <- Hp. by rewrite <- Permutation_rev in Ha.
  - rewrite E'. cbn. rewrite rev_involutive, app_nil_r in Hh. eexists _, (qsort l). split; [done|].
    split; [|split_and!; [done|done|apply qsort_sorted]].
    eapply ok_change; [exact Hs|done|done| | | |].
    + cbn. intros a Ha. left. by apply E5.
    + eapply holds_frame; [..|exact Hh]; done.
    + apply NoDup_Permutation_proper with (map fst l); [by apply Permutation_map|done].
    + cbn. rewrite E4, ok_members0. unfold zlen. by rewrite Hp.
Qed.

(** Room for [n] more members. *)
Definition room_for (s : t) (n : Z) : Prop :=
  memalloc.count (pool s) + 2 * n < 2 ^ 32 /\ members s + n < 2 ^ 32 /\
  sizeof_member <= memalloc.pagesize (pool s) - sizeof_page.

Lemma room_one s n : room_for s n -> 1 <= n -> room s.
Proof. unfold room_for, room. lia. Qed.

Lemma room_next s s' n : room_for s (n + 1) -> grows s s' -> members s' = members s + 1 -> room_for s' n.
Proof. unfold room_for, grows. lia. Qed.

(** The texts [String::token] finds are added in their order. *)
Lemma token_loop_spec ts clist quote eol : forall fuel s l tmp tok c, ok s l -> last s = last_addr l ->
  Str.tokens fuel tmp tok clist quote eol = Some ts -> room_for s (zlen ts) -> Forall (fits s) ts ->
  served (token_loop fuel s tmp tok clist quote eol c) (fun r => let '(s', n) := r in
    exists l', ok s' (l ++ l') /\ last s' = last_addr (l ++ l') /\ map snd l' = ts /\
      (0 <= c -> c + zlen ts < 2 ^ 32 -> n = c + zlen ts)).
Proof.
  induction ts as [|x ts IH]; intros [|f] s l tmp tok c Hs Hlast Ht Hr Hf; try done;
    cbn [Str.tokens token_loop] in *;
    destruct (Str.token tmp 0 tok clist quote eol) as [[[tmp' tok'] [q|]]|]; try done; cbn in Ht |- *.
  - destruct (cstr _); [|done]. cbn in Ht. by destruct (Str.tokens _ _ _ _ _ _).
  - exists []. rewrite app_nil_r. split_and!; try done. change (zlen []) with 0. lia.
  - destruct (cstr (drop (Z.to_nat q) tmp')) as [y|]; [|done]. cbn in Ht |- *.
    destruct (Str.tokens f tmp' tok' clist quote eol) as [ys|] eqn:Et; [|done]. injection Ht as -> ->.
    apply list.Forall_cons in Hf as [Hfx Hf]. rewrite zlen_cons in Hr |- *. pose proof (zlen_nonneg ts).
    pose proof (room_one s (zlen ts + 1) Hr ltac:(lia)) as Hr1.
    eapply served_bind; [by apply (add_spec s l)|]. intros s1 (a & H1 & H2 & Hg).
    assert (members s1 = members s + 1) as Hm.
    { rewrite (ok_members _ _ H1), (ok_members _ _ Hs), zlen_app. done. }
    eapply served_mono; [eapply (IH f s1 _ tmp' tok' (u32 (c + 1)) H1 H2 Et)|].
    + by eapply room_next.
    + eapply list.Forall_impl; [exact Hf|]. intros z. unfold fits. by rewrite (proj1 Hg).
    + intros [s' n] (l' & G1 & G2 & G3 & G4). exists ((a, x) :: l').
      change ((a, x) :: l') with ([(a, x)] ++ l'). rewrite app_assoc. split_and!; [done|done|cbn; by rewrite G3|].
      intros Hc1 Hc2. rewrite u32_id in G4 by lia. rewrite G4; lia.
Qed.

Lemma token_spec s l str clist : ok s l -> last s = last_addr l -> nonul str -> nonul clist ->
  room_for s (zlen (fields clist str)) -> Forall (fits s) (fields clist str) ->
  served (token s str clist [] []) (fun r => let '(s', n) := r in
    exists l', ok s' (l ++ l') /\ last s' = last_addr (l ++ l') /\ map snd l' = fields clist str /\
      n = zlen (fields clist str)).
Proof.
  intros Hs Hlast Hstr Hcl Hr Hf. unfold token. destruct str as [|c str].
  - cbn. exists []. by rewrite app_nil_r.
  - eapply served_mono; [eapply token_loop_spec; try done|].
    + apply tokens_fields; [done|done|lia].
    + intros [s' n] (l' & H1 & H2 & H3 & H4). exists l'. split_and!; try done.
      rewrite H4; [lia|lia|]. destruct Hr as (_ & Hr & _). rewrite (ok_members _ _ Hs) in Hr.
      pose proof (zlen_nonneg l). lia.
Qed.

(** ** The list of texts *)

(** A [StringPager] is a list of texts: [add] and [push] put a text at its ends,
    [pull] and [pop] take the first and the last one, or throw when there is none,
    [get] reads by position and throws outside the list, and [clear] empties it.  A call
    that needs memory is served unless there is none. *)
Theorem pager_list (s : t) (ts : list (list Z)) : shows s ts -> room s ->
  (forall str, fits s str -> served (add s (Some str)) (fun s' => shows s' (ts ++ [str])) /\
    served (push s (Some str)) (fun s' => shows s' (str :: ts))) /\
  (match ts with
   | [] => pull s = throw NoMembers
   | str :: ts' => exists s', pull s = ret (s', str) /\ shows s' ts'
   end) /\
  (match list.last ts with
   | None => pop s = throw NoRoot
   | Some str => exists s', pop s = ret (s', Some str) /\ shows s' (removelast ts)
   end) /\
  (forall i, 0 <= i -> get s i = match ts !! Z.to_nat i with Some str => ret str | None => throw OutsideRange end) /\
  shows (clear s) [].
Proof.
  intros (l & Hs & Hlast & <-) Hr. assert (members s < 2 ^ 32) as Hm by (unfold room in Hr; lia). split_and!.
  - intros str Hf. split.
    + eapply served_mono; [by apply (add_spec s l)|]. intros s' (a & H1 & H2 & _).
      exists (l ++ [(a, str)]). by rewrite map_app.
    + eapply served_mono; [by apply (push_spec s l)|]. intros s' (a & H1 & H2 & _). by exists ((a, str) :: l).
  - pose proof (pull_spec s l Hs Hlast Hm) as Hp. destruct l as [|[a str] l]; [done|].
    destruct Hp as (s' & E & H1 & H2). exists s'. split; [done|]. by exists l.
  - pose proof (pop_spec s l Hs Hlast Hm) as Hp. destruct (snoc_cases l) as [->|(k & y & sy & ->)]; [done|].
    rewrite last_snoc, removelast_last in Hp. rewrite map_app. cbn [map snd]. rewrite last_snoc, removelast_last.
    destruct Hp as (s' & E & H1 & H2). exists s'. split; [done|]. by exists k.
  - intros i Hi. rewrite (get_spec s l i Hs Hi), list_lookup_fmap. by destruct (l !! Z.to_nat i) as [[]|].
  - exists []. destruct (clear_spec s l Hs) as [H1 H2]. done.
Qed.

(** [add] of an array: the texts of an array, in their order. *)
Lemma add_all_spec l : forall s ts, shows s ts -> room_for s (zlen l) -> Forall (fits s) l ->
  served (add_all s l) (fun s' => shows s' (ts ++ l)).
Proof.
  induction l as [|x l IH]; intros s ts Hs Hr Hf; cbn [add_all]; [by rewrite app_nil_r|].
  destruct Hs as (k & Hk & Hlast & <-). rewrite zlen_cons in Hr. pose proof (zlen_nonneg l).
  apply list.Forall_cons in Hf as [Hx Hf]. pose proof (room_one s _ Hr ltac:(lia)) as Hr1.
  eapply served_bind; [by apply (add_spec s k)|]. intros s1 (a & H1 & H2 & Hg).
  replace (map snd k ++ x :: l) with (map snd (k ++ [(a, x)]) ++ l) by (rewrite map_app; cbn; by rewrite <- app_assoc).
  apply IH; [by exists (k ++ [(a, x)])| |].
  - replace (zlen l) with ((zlen l + 1) - 1) by lia. unfold room_for, grows in *.
    rewrite (ok_members _ _ H1), zlen_app. rewrite (ok_members _ _ Hk) in Hr. change (zlen [(a, x)]) with 1. lia.
  - eapply list.Forall_impl; [exact Hf|]. intros z. unfold fits. by rewrite (proj1 Hg).
Qed.

(** [sort] leaves the same texts, each in front of those [collate] puts behind
    it: the chain from the root holds a sorted permutation, so that [get] and [join]
    read it in order. *)
Theorem pager_sort `{TextSort} (s : t) (ts : list (list Z)) : shows s ts ->
  exists s' ts', sort s = ret s' /\ Permutation ts' ts /\
    StronglySorted (fun x y => collate x y <= 0) ts' /\
    (forall i, 0 <= i -> get s' i = match ts' !! Z.to_nat i with Some str => ret str | None => throw OutsideRange end) /\
    exists l, all s' = ret l /\ map snd l = ts'.
Proof.
  intros (l & Hs & _ & <-). destruct (sort_spec s l Hs) as (s' & q & E & Hq & _ & Hp & Hsort).
  exists s', (map snd q). split; [done|]. split; [by rewrite Hp|]. split_and!.
  - clear -Hsort. induction Hsort as [|x q Hq IH Hx]; constructor; [done|].
    apply List.Forall_map. done.
  - intros i Hi. rewrite (get_spec s' q i Hq Hi), list_lookup_fmap. by destruct (q !! Z.to_nat i) as [[]|].
  - exists q. split; [by apply all_spec|done].
Qed.

(** A word that [token] gives back. *)
Definition word (c : Z) (w : list Z) : Prop := w <> [] /\ nonul w /\ Forall (fun x => x <> c) w.

Lemma word_out c w : word c w -> Forall (fun x => in_set [c] x = false) w.
Proof.
  intros (_ & Hn & Hc). apply Forall_forall. intros x Hx.
  pose proof (proj1 (Forall_forall _ _) Hn x Hx). pose proof (proj1 (Forall_forall _ _) Hc x Hx).
  destruct (in_set [c] x) eqn:E; [|done]. apply in_set_spec in E as [?|E]; [done|].
  apply list_elem_of_singleton in E. done.
Qed.

Lemma fields_join c ts : Forall (word c) ts -> fields [c] (join_loop ts [c] []) = ts.
Proof.
  induction 1 as [|w ts Hw Hts IH]; [done|]. pose proof (word_out c w Hw) as Ho.
  destruct w as [|x w]; [by destruct Hw|]. destruct ts as [|y ts].
  - cbn [join_loop]. rewrite app_nil_r. by apply fields_last.
  - change (join_loop ((x :: w) :: y :: ts) [c] []) with ((x :: w) ++ c :: join_loop (y :: ts) [c] []).
    rewrite fields_word, IH; [done|done|]. apply in_set_spec. right. left.
Qed.

Lemma join_nonul c ts : c <> 0 -> Forall (word c) ts -> nonul (join_loop ts [c] []).
Proof.
  intros Hc. induction 1 as [|w ts (_ & Hw & _) Hts IH]; [constructor|]. destruct ts as [|y ts].
  - cbn [join_loop]. by rewrite app_nil_r.
  - apply Forall_app. split; [done|]. by constructor.
Qed.

(** C19.  [join] and [token] undo each other: the words a pager holds, joined by a
    separator, are the words [token] adds to another pager when it is given the
    joined text and the separator, and it counts them. *)
Theorem pager_join_token (s s2 : t) (ts ts2 : list (list Z)) (c : Z) : shows s ts -> shows s2 ts2 ->
  c <> 0 -> Forall (word c) ts -> room_for s2 (zlen ts) -> Forall (fits s2) ts ->
  exists str, join s [] [c] [] = ret str /\
    served (token s2 str [c] [] []) (fun r => shows r.1 (ts2 ++ ts) /\ r.2 = zlen ts).
Proof.
  intros (l & Hs & _ & <-) (l2 & Hs2 & Hlast2 & <-) Hc Hw Hr Hf.
  exists (join_loop (map snd l) [c] []). split.
  - unfold join. destruct (Z.eqb_spec (members s) 0) as [E|E]; [|by rewrite (all_spec s l Hs)].
    rewrite (ok_members _ _ Hs) in E. destruct l; [done|]. rewrite zlen_cons in E. pose proof (zlen_nonneg l). lia.
  - pose proof (fields_join c _ Hw) as Efl.
    pose proof (token_spec s2 l2 (join_loop (map snd l) [c] []) [c] Hs2 Hlast2) as Ht. rewrite Efl in Ht.
    eapply served_mono; [apply Ht; [by apply join_nonul|by repeat constructor|done|done]|].
    intros [s' n] (l' & H1 & H2 & H3 & H4). cbn. split; [|done].
    exists (l2 ++ l'). split; [done|]. split; [done|]. by rewrite map_app, H3.
Qed.

End pager.

(** ** Concrete pagers *)

Lemma make_shows size paging : sizeof_page <= memalloc.round_page size paging < 2 ^ 31 ->
  memalloc.round_page size paging mod sizeof_ptr = 0 -> shows (make size paging) [].
Proof.
  intros H1 H2. exists []. split; [|done]. split; try done. apply NoDup_nil_2.
Qed.

(** A pager made of an array of texts. *)
Definition made (l : list (list Z)) : t :=
  match add_all (make 256 4096) l with Some (inr s) => s | _ => make 256 4096 end.

Lemma made_shows l : zlen l < 100 -> Forall (fun str => zlen str < 200) l ->
  match add_all (make 256 4096) l with Some (inr _) => True | _ => False end -> shows (made l) l.
Proof.
  intros Hl Hf Hr. unfold made.
  assert (served (add_all (make 256 4096) l) (fun s' => shows s' ([] ++ l))) as Hs.
  { apply add_all_spec.
    - apply make_shows; [split; [discriminate|reflexivity]|reflexivity].
    - unfold room_for. cbn. split_and!; [lia|lia|discriminate].
    - eapply list.Forall_impl; [exact Hf|]. intros str Hstr. unfold fits, sizeof_page. cbn in *. lia. }
  by destruct (add_all (make 256 4096) l) as [[]|].
Qed.

Definition abc : list (list Z) := [bytes "one"; bytes "two"; bytes "three"].

Lemma abc_shows : shows (made abc) abc.
Proof. apply made_shows; [reflexivity|repeat constructor|exact I]. Qed.

Lemma pager_list_witness : room (made abc) /\ get (made abc) 1 = ret (bytes "two") /\
  exists s', pop (made abc) = ret (s', Some (bytes "three")) /\ shows s' [bytes "one"; bytes "two"].
Proof.
  assert (room (made abc)) as Hr by (vm_compute; repeat split; discriminate).
  destruct (pager_list (made abc) abc abc_shows Hr) as (_ & _ & Hpop & Hget & _).
  split; [exact Hr|]. split; [exact (Hget 1 ltac:(lia))|exact Hpop].
Defined.

(** Texts in the order of their characters. *)
Fixpoint lex_leb (a b : list Z) : bool :=
  match a, b with
  | [], _ => true
  | _, [] => false
  | x :: a, y :: b => if x <? y then true else if y <? x then false else lex_leb a b
  end.

Lemma lex_total a : forall b, lex_leb a b = true \/ lex_leb b a = true.
Proof.
  induction a as [|x a IH]; intros [|y b]; cbn; auto.
  destruct (Z.ltb_spec x y), (Z.ltb_spec y x); auto; lia.
Qed.

Lemma lex_trans a : forall b c, lex_leb a b = true -> lex_leb b c = true -> lex_leb a c = true.
Proof.
  induction a as [|x a IH]; intros [|y b] [|z c]; cbn; try done.
  destruct (Z.ltb_spec x y), (Z.ltb_spec y x), (Z.ltb_spec y z), (Z.ltb_spec z y), (Z.ltb_spec x z), (Z.ltb_spec z x);
    try done; try lia. apply IH.
Qed.

Definition lex_le (x y : Z * list Z) : Prop := lex_leb x.2 y.2 = true.

#[export] Instance lex_le_dec : RelDecision lex_le.
Proof. intros x y. unfold lex_le. apply _. Defined.

#[export, refine] Instance lex_sort : TextSort := {
  collate a b := if lex_leb a b then if lex_leb b a then 0 else -1 else 1;
  qsort := merge_sort lex_le }.
Proof.
  - intros l. apply merge_sort_Permutation.
  - intros l. assert (StronglySorted lex_le (merge_sort lex_le l)) as Hl.
    { apply StronglySorted_merge_sort.
      - intros x y z. apply lex_trans.
      - intros x y. apply lex_total. }
    induction Hl as [|x l' Hl IH Hx]; constructor; [done|].
    eapply list.Forall_impl; [exact Hx|]. unfold lex_le. intros y ->. by destruct (lex_leb y.2 x.2).
Defined.

Lemma pager_sort_witness : exists s' ts', sort (made abc) = ret s' /\ Permutation ts' abc /\
  StronglySorted (fun x y => collate x y <= 0) ts'.
Proof.
  destruct (pager_sort (made abc) abc abc_shows) as (s' & ts' & H1 & H2 & H3 & _). exists s', ts'. split; [exact H1|split; [exact H2|exact H3]].
Defined.

Lemma pager_join_token_witness : exists str, join (made abc) [] [44] [] = ret str /\
  served (token (made []) str [44] [] []) (fun r => shows r.1 abc /\ r.2 = 3).
Proof.
  apply (pager_join_token (made abc) (made []) abc [] 44 abc_shows).
  - apply made_shows; [reflexivity|constructor|exact I].
  - discriminate.
  - repeat constructor; discriminate.
  - vm_compute. repeat split; discriminate.
  - repeat constructor; discriminate.
Defined.

(** [sort] does not set [last]: a text added later is linked behind the member that
    was the last one, and what follows that one is lost. *)
Lemma sort_add_loses : exists s s' l, sort (made abc) = ret s /\ add s (Some (bytes "four")) = ret s' /\
  all s' = ret l /\ map snd l = [bytes "one"; bytes "three"; bytes "four"] /\ members s' = 4.
Proof. eexists _, _, _. split; [vm_compute; reflexivity|]. split; [vm_compute; reflexivity|]. split; [vm_compute; reflexivity|]. split; reflexivity. Qed.

(** [set] stores in the first member. *)
Lemma set_first : exists s', set (made abc) 2 (bytes "x") = ret s' /\
  get s' 0 = ret (bytes "x") /\ get s' 2 = ret (bytes "three").
Proof. eexists. split; [vm_compute; reflexivity|]. split; reflexivity. Qed.

(** The array of [list] stays as it was when [set] stores a text. *)
Lemma set_index_stale : exists s1 s2 i, list_ (made abc) = ret (s1, i) /\
  set s1 0 (bytes "x") = ret s2 /\ list_ s2 = ret (s2, i) /\
  get s2 0 = ret (bytes "x") /\ texts s2 !! hd 0 i = Some (bytes "one").
Proof.
  eexists _, _, _. split; [vm_compute; reflexivity|]. split; [vm_compute; reflexivity|]. repeat split.
Qed.
