(* ===== verification/Xml.v ===== *)
(** * The XML stream parser (commoncpp/xml.cpp, inc/commoncpp/xml.h)

    [XMLParser] is a state machine over the characters of a document with one
    buffer, whose bytes are those of an earlier text until they are written; a
    call of one of the virtual functions is an [event] with the texts it is given.
    The handlers of the events do not touch the parser.  A step answers with the
    new parser, the events and whether the parser goes on; [None] is undefined
    behaviour, such as an access outside the buffer.  The counters of open
    elements stay far below 2^31. *)

From stdpp Require Import strings.
From S2P Require Import Prelude CLib.

Module XMLParser.

Inductive event :=
  | StartDocument | EndDocument
  | StartElement (name : list Z) (attr : list (list Z))
  | EndElement (name : list Z)
  | Characters (text : list Z)
  | Comment (text : list Z).

Inductive mode := TAG | CDATA | COMMENT | DTD | AMP | NONE | END.

#[export] Instance mode_eq_dec : EqDecision mode.
Proof. solve_decision. Defined.

(** [bufsize] is the length of [buffer]. *)
Record t := Mk { ecount : Z; dcount : Z; state : mode; buffer : list Z; bufpos : Z }.

(** The constructor: [mem] is what [new] leaves in the buffer. *)
Definition make (mem : list Z) : t := Mk 0 0 NONE mem 0.

Definition with_state (s : t) (m : mode) : t := Mk (ecount s) (dcount s) m (buffer s) (bufpos s).
Definition with_pos (s : t) (p : Z) : t := Mk (ecount s) (dcount s) (state s) (buffer s) p.
Definition with_buffer (s : t) (b : list Z) : t := Mk (ecount s) (dcount s) (state s) b (bufpos s).
Definition with_ecount (s : t) (n : Z) : t := Mk n (dcount s) (state s) (buffer s) (bufpos s).
Definition with_dcount (s : t) (n : Z) : t := Mk (ecount s) n (state s) (buffer s) (bufpos s).

Definition isElement (c : Z) : bool :=
  isalnum c || (c =? 58) || (c =? 45) || (c =? 46) || (c =? 95).

(** [if(ecount) characters (buffer, bufpos)] *)
Definition chars_event (s : t) : list event :=
  if ecount s =? 0 then [] else [Characters (take (Z.to_nat (bufpos s)) (buffer s))].

(** [buffer[bufpos++] = c] *)
Definition store (s : t) (c : Z) : option t :=
  b ← wr (buffer s) (bufpos s) c; Some (with_pos (with_buffer s b) (bufpos s + 1)).

Definition putBuffer (s : t) (c : Z) : option (t * list event) :=
  s ← store s c;
  Some (if zlen (buffer s) <=? bufpos s then (with_pos s 0, chars_event s) else (s, [])).

Definition clearBuffer (s : t) : t * list event :=
  (with_pos s 0, if bufpos s =? 0 then [] else chars_event s).

(** [strncmp (b, lit, strlen (lit)) == 0], and [strcmp (b, lit) == 0] for a literal
    with its terminator: the comparison ends at the first difference. *)
Fixpoint same (b lit : list Z) : option bool :=
  match lit, b with
  | [], _ => Some true
  | _ :: _, [] => None
  | c :: lit, x :: b => if x =? c then same b lit else Some false
  end.

Definition same_at (b : list Z) (off : Z) (lit : list Z) : option bool :=
  if off <? 0 then None else same (drop (Z.to_nat off) b) lit.

(** [c && r], where [r] reads the buffer *)
Definition test (c : bool) (r : option bool) : option bool := if c then r else Some false.

(** [strchr] in a block: the scan ends at the character or at the terminator. *)
Fixpoint scan (b : list Z) (c : Z) : option (option Z) :=
  match b with
  | [] => None
  | x :: b => if x =? c then Some (Some 0) else if x =? 0 then Some None
              else o ← scan b c; Some (option_map Z.succ o)
  end.

(** [cp = atoi (..)]; a number out of range is cut as [strtol] does. *)
Definition char_code (s : list Z) : Z := u8 (Z.max (- 2 ^ 63) (Z.min (2 ^ 63 - 1) (atol s))).

(** The character an entity stands for. *)
Definition entity (name : list Z) : option Z :=
  match name with
  | 35 :: digits => Some (char_code digits)
  | _ =>
      if decide (name = bytes "amp") then Some 38
      else if decide (name = bytes "lt") then Some 60
      else if decide (name = bytes "gt") then Some 62
      else if decide (name = bytes "apos") then Some 96
      else if decide (name = bytes "quot") then Some 34
      else None
  end.

(** ** Tags *)

(** The loop over the name of an end tag: whether [len] is zero when it ends. *)
Fixpoint close_loop (fuel : nat) (b : list Z) (len data : Z) : option bool :=
  match fuel with
  | O => None
  | S f =>
      let len := u64 (len - 1) in
      if len =? 0 then Some true
      else c ← rd b (data + 1); if isElement c then close_loop f b len (data + 1) else Some false
  end.

(** [while(len < bufpos && isElement(buffer[len])) ++len;] *)
Fixpoint elem_end (fuel : nat) (b : list Z) (pos len : Z) : option Z :=
  match fuel with
  | O => None
  | S f =>
      if len <? pos then
        c ← rd b len; if isElement c then elem_end f b pos (len + 1) else Some len
      else Some len
  end.

(** The white space in front of an attribute is cleared; [false]: another
    character. *)
Fixpoint skip_gap (fuel : nat) (b : list Z) (pos len : Z) : option (list Z * Z * bool) :=
  match fuel with
  | O => None
  | S f =>
      c ← rd b len;
      if negb (isElement c) && (len <? pos) then
        if isspace c then b ← wr b len 0; skip_gap f b pos (len + 1) else Some (b, len, false)
      else Some (b, len, true)
  end.

(** What [attrib] points to: a place in the buffer, or the empty literal. *)
Inductive ptr := At (off : Z) | Empty.

(** [attrib[attr++] = p], an array of 128 *)
Definition push (attrib : list ptr) (p : ptr) : option (list ptr) :=
  if zlen attrib <? 128 then Some (attrib ++ [p]) else None.

(** The loop over the attributes; no list is [return false]. *)
Fixpoint attr_loop (fuel : nat) (b : list Z) (pos len : Z) (attrib : list ptr)
    : option (list Z * option (list ptr)) :=
  match fuel with
  | O => None
  | S f =>
      '(b, len, ok) ← skip_gap (S (length b)) b pos len;
      if negb ok then Some (b, None)
      else if len =? pos then Some (b, Some attrib)
      else
        attrib ← push attrib (At len);
        len ← elem_end (S (length b)) b pos len;
        if len =? pos then Some (b, None)
        else
          c ← rd b len;
          if negb (c =? 61) then Some (b, None)
          else
            b ← wr b len 0;
            let len := len + 1 in
            if len =? pos then attrib ← push attrib Empty; Some (b, Some attrib)
            else
              c ← rd b len;
              if isspace c then attrib ← push attrib Empty; attr_loop f b pos len attrib
              else if (c =? 39) || (c =? 34) then
                ep ← scan (drop (Z.to_nat (len + 1)) b) c;
                match ep with
                | None => Some (b, None)
                | Some k =>
                    attrib ← push attrib (At (len + 1));
                    b ← wr b (len + 1 + k) 0;
                    attr_loop f b pos (len + 1 + k + 1) attrib
                end
              else if negb (isElement c) then Some (b, None)
              else
                attrib ← push attrib (At 0);
                len ← elem_end (S (length b)) b pos len;
                if len =? pos then b ← wr b len 0; Some (b, Some attrib)
                else attr_loop f b pos len attrib
  end.

Definition resolve (b : list Z) (p : ptr) : option (list Z) :=
  match p with At off => cstr (drop (Z.to_nat off) b) | Empty => Some [] end.

(** [startElement (buffer, attrib)] *)
Definition start_event (b : list Z) (attrib : list ptr) : option event :=
  name ← cstr b; attr ← mapM (resolve b) attrib; Some (StartElement name attr).

(** The end of an element: the label [ending], and the end tag. *)
Definition end_element (s : t) (off : Z) : option (t * list event) :=
  name ← cstr (drop (Z.to_nat off) (buffer s));
  let s := with_ecount (with_pos s 0) (ecount s - 1) in
  Some (if ecount s =? 0 then (with_state s END, [EndElement name; EndDocument])
        else (s, [EndElement name])).

(** An element starts, and ends at once when its tag ends in a slash. *)
Definition start_element (s : t) (attrib : list ptr) (ends : bool) : option (t * list event) :=
  let doc := if ecount s =? 0 then [StartDocument] else [] in
  let s := with_ecount s (ecount s + 1) in
  e ← start_event (buffer s) attrib;
  if ends then '(s, ev) ← end_element s 0; Some (s, doc ++ e :: ev)
  else Some (with_pos s 0, doc ++ [e]).

(** The tag of an element, its slash taken off ([ends]). *)
Definition start_tag (s : t) (ends : bool) : option (t * list event * bool) :=
  len ← elem_end (S (length (buffer s))) (buffer s) (bufpos s) 0;
  if len =? bufpos s then
    b ← wr (buffer s) (bufpos s) 0;
    '(s, ev) ← start_element (with_buffer s b) [] ends;
    Some (s, ev, true)
  else
    '(b, attrib) ← attr_loop (S (length (buffer s))) (buffer s) (bufpos s) len [];
    match attrib with
    | None =>
        Some (with_ecount (with_buffer s b) (ecount s + 1),
              if ecount s =? 0 then [StartDocument] else [], false)
    | Some attrib =>
        if 126 <? zlen attrib then None
        else '(s, ev) ← start_element (with_buffer s b) attrib ends; Some (s, ev, true)
    end.

Definition parseTag (s : t) : option (t * list event * bool) :=
  c ← rd (buffer s) 0;
  if c =? 47 then
    ok ← close_loop (S (length (buffer s))) (buffer s) (bufpos s) 0;
    if negb ok then Some (s, [], false)
    else
      b ← wr (buffer s) (bufpos s) 0;
      '(s, ev) ← end_element (with_buffer s b) 1;
      Some (s, ev, 0 <=? ecount s)
  else if c =? 33 then Some (with_pos s 0, [], true)
  else if c =? 63 then Some (with_pos s 0, [], true)
  else if negb (isElement c) then Some (s, [], false)
  else
    c ← rd (buffer s) (u32 (bufpos s - 1));
    if c =? 47 then start_tag (with_pos s (bufpos s - 1)) true else start_tag s false.

(** ** The state machine *)

Definition amp_step (s : t) (ch : Z) : option (t * list event * bool) :=
  if ((bufpos s =? 0) && (ch =? 35)) || isElement ch then
    s ← store s ch; Some (s, [], true)
  else if negb (ch =? 59) then Some (s, [], false)
  else
    b ← wr (buffer s) (bufpos s) 0;
    name ← cstr b;
    match entity name with
    | None => Some (with_buffer s b, [], false)
    | Some cp => Some (with_state (with_pos (with_buffer s b) 0) NONE, [Characters [cp]], true)
    end.

Definition go (r : t * list event) : t * list event * bool := (r, true).

Definition tag_step (s : t) (ch : Z) : option (t * list event * bool) :=
  if ch =? 62 then parseTag (with_state s NONE)
  else
    cdata ← test ((ch =? 91) && (bufpos s =? 7)) (same_at (buffer s) 0 (bytes "![CDATA"));
    if (cdata : bool) then Some (with_state s CDATA, [], true)
    else
      com ← test ((ch =? 45) && (bufpos s =? 2)) (same_at (buffer s) 0 (bytes "!-"));
      if (com : bool) then Some (with_pos (with_state s COMMENT) 0, [], true)
      else
        dtd ← test (ch =? 91) (same_at (buffer s) 0 (bytes "!DOCTYPE "));
        if (dtd : bool) then Some (with_pos (with_state s DTD) 0, [], true)
        else go <$> putBuffer s ch.

(** [comment (buffer, bufpos)] *)
Definition comment_event (s : t) : event := Comment (take (Z.to_nat (bufpos s)) (buffer s)).

Definition comment_step (s : t) (ch : Z) : option (t * list event * bool) :=
  close ← test ((ch =? 62) && (2 <=? bufpos s)) (same_at (buffer s) (bufpos s - 2) (bytes "--"));
  if (close : bool) then
    let s := with_pos s (bufpos s - 2) in
    Some (with_state (with_pos s 0) NONE, if bufpos s =? 0 then [] else [comment_event s], true)
  else
    s ← store s ch;
    Some (if bufpos s =? zlen (buffer s) then (with_pos s 0, [comment_event s], true) else (s, [], true)).

(** The end mark is looked for with [eq], which compares up to the terminator. *)
Definition cdata_step (s : t) (ch : Z) : option (t * list event * bool) :=
  '(s, ev) ← putBuffer s ch;
  close ← test (2 <? bufpos s) (same_at (buffer s) (bufpos s - 3) (bytes "]]>" ++ [0]));
  if (close : bool) then
    let '(s, ev') := clearBuffer (with_state (with_pos s (bufpos s - 3)) NONE) in
    Some (s, ev ++ ev', true)
  else Some (s, ev, true).

Definition dtd_step (s : t) (ch : Z) : t :=
  if ch =? 60 then with_dcount s (dcount s + 1)
  else if (ch =? 62) && negb (dcount s =? 0) then with_dcount s (dcount s - 1)
  else if ch =? 62 then with_state s NONE
  else s.

Definition text_step (s : t) (ch : Z) : option (t * list event * bool) :=
  if ch =? 60 then
    let '(s, ev) := clearBuffer s in Some (with_state s TAG, ev, true)
  else if negb (ecount s =? 0) && (ch =? 38) then
    let '(s, ev) := clearBuffer s in Some (with_state s AMP, ev, true)
  else if negb (ecount s =? 0) then go <$> putBuffer s ch
  else Some (s, [], true).

(** The switch of [partial]; that of [parse] is not reached in state [END]. *)
Definition step (s : t) (ch : Z) : option (t * list event * bool) :=
  match state s with
  | AMP => amp_step s ch
  | TAG => tag_step s ch
  | COMMENT => comment_step s ch
  | CDATA => cdata_step s ch
  | DTD => Some (dtd_step s ch, [], true)
  | NONE | END => text_step s ch
  end.

Fixpoint partial_loop (s : t) (data : list Z) : option (t * list event * bool) :=
  match data with
  | [] => Some (s, [], true)
  | ch :: data =>
      '(s, ev, ok) ← step s ch;
      if (ok : bool) then '(s, ev', ok) ← partial_loop s data; Some (s, ev ++ ev', ok)
      else Some (s, ev, false)
  end.

Definition partial (s : t) (data : list Z) : option (t * list event * bool) :=
  partial_loop (if decide (state s = END) then with_state s NONE else s) data.

Fixpoint parse_loop (s : t) (data : list Z) : option (t * list event * bool) :=
  match data with
  | [] => Some (s, [], false)
  | ch :: data =>
      '(s, ev, ok) ← step s ch;
      if negb ok then Some (s, ev, false)
      else if decide (state s = END) then Some (s, ev, true)
      else '(s, ev', ok) ← parse_loop s data; Some (s, ev ++ ev', ok)
  end.

(** [parse]: of a file, by the characters up to its end, and of a text. *)
Definition parse_file (s : t) (data : list Z) : option (t * list event * bool) :=
  parse_loop (Mk 0 0 NONE (buffer s) 0) data.

Definition parse (s : t) (buf : list Z) : option (t * list event * bool) :=
  data ← cstr buf; parse_file s data.

Definition end_ (s : t) : bool := if decide (state s = END) then true else false.

End XMLParser.
