(* ===== verification/XmlLaws.v ===== *)
(** * What the XML parser reports

    A document written in the usual way is reported as the events it stands for,
    whatever the size of the buffer, as long as each tag and each comment fits in
    it, and however the text is cut into pieces. *)

From stdpp Require Import strings.
From S2P Require Import Prelude CLib Xml.
Import XMLParser.

(** ** Documents *)

(** Text characters, elements with contents, elements whose tag ends in a slash
    and comments, each with what follows it. *)
Inductive content :=
  | Done
  | Char (c : Z) (rest : content)
  | Elem (name : list Z) (attr : list (list Z * list Z)) (body rest : content)
  | Leaf (name : list Z) (attr : list (list Z * list Z)) (rest : content)
  | Note (text : list Z) (rest : content).

Definition escape (c : Z) : list Z :=
  if c =? 38 then bytes "&amp;" else if c =? 60 then bytes "&lt;" else if c =? 62 then bytes "&gt;"
  else if c =? 34 then bytes "&quot;" else [c].

Definition attr_text (nv : list Z * list Z) : list Z := 32 :: nv.1 ++ 61 :: 34 :: nv.2 ++ [34].

Definition attrs_text (attr : list (list Z * list Z)) : list Z := concat (map attr_text attr).

Fixpoint print (d : content) : list Z :=
  match d with
  | Done => []
  | Char c rest => escape c ++ print rest
  | Elem name attr body rest =>
      60 :: (name ++ attrs_text attr) ++ 62 :: print body ++ 60 :: (47 :: name) ++ 62 :: print rest
  | Leaf name attr rest => 60 :: (name ++ attrs_text attr ++ [47]) ++ 62 :: print rest
  | Note text rest => 60 :: 33 :: 45 :: 45 :: text ++ 45 :: 45 :: 62 :: print rest
  end.

(** Events with the texts cut into characters. *)
Inductive item :=
  | IStartDocument | IEndDocument
  | IStart (name : list Z) (attr : list (list Z)) | IEnd (name : list Z)
  | IChar (c : Z) | IComment (text : list Z).

Definition flat (e : event) : list item :=
  match e with
  | StartDocument => [IStartDocument]
  | EndDocument => [IEndDocument]
  | StartElement name attr => [IStart name attr]
  | EndElement name => [IEnd name]
  | Characters text => map IChar text
  | Comment text => [IComment text]
  end.

Definition flats (ev : list event) : list item := concat (map flat ev).

Definition attr_list (attr : list (list Z * list Z)) : list (list Z) :=
  concat (map (fun nv => [nv.1; nv.2]) attr).

Definition comment_items (text : list Z) : list item :=
  match text with [] => [] | _ => [IComment text] end.

Fixpoint items (d : content) : list item :=
  match d with
  | Done => []
  | Char c rest => IChar c :: items rest
  | Elem name attr body rest =>
      IStart name (attr_list attr) :: items body ++ IEnd name :: items rest
  | Leaf name attr rest => IStart name (attr_list attr) :: IEnd name :: items rest
  | Note text rest => comment_items text ++ items rest
  end.

(** A name, and an attribute's value. *)
Definition is_name (w : list Z) : Prop := w <> [] /\ Forall (fun c => isElement c = true) w.
Definition is_value (w : list Z) : Prop := Forall (fun c => c <> 0 /\ c <> 34 /\ c <> 62) w.

Definition good_attr (nv : list Z * list Z) : Prop := is_name nv.1 /\ is_value nv.2.

(** The text of a comment: no end mark in it. *)
Definition is_note (w : list Z) : Prop := forall p r, w = p ++ 62 :: r -> forall q, p <> q ++ [45; 45].

(** Documents whose tags and comments fit in a buffer of [size] bytes. *)
Fixpoint fits (size : Z) (d : content) : Prop :=
  match d with
  | Done => True
  | Char c rest => fits size rest
  | Elem name attr body rest =>
      is_name name /\ Forall good_attr attr /\ zlen attr <= 63 /\ zlen (name ++ attrs_text attr) < size /\
      1 + zlen name < size /\ fits size body /\ fits size rest
  | Leaf name attr rest =>
      is_name name /\ Forall good_attr attr /\ zlen attr <= 63 /\ zlen (name ++ attrs_text attr) + 1 < size /\
      fits size rest
  | Note text rest => is_note text /\ zlen text + 2 < size /\ fits size rest
  end.

(** ** Runs *)

(** The parser goes through [l], with the items it reports, and does not end. *)
Inductive runs : t -> list Z -> t -> list item -> Prop :=
  | runs_nil s : runs s [] s []
  | runs_cons s c s1 ev l s2 it : step s c = Some (s1, ev, true) -> state s1 <> END ->
      runs s1 l s2 it -> runs s (c :: l) s2 (flats ev ++ it).

Lemma runs_one s c s1 ev : step s c = Some (s1, ev, true) -> state s1 <> END -> runs s [c] s1 (flats ev).
Proof. intros H1 H2. rewrite <- (app_nil_r (flats ev)). eapply runs_cons; [done|done|constructor]. Qed.

Lemma runs_app s l s1 it k s2 jt : runs s l s1 it -> runs s1 k s2 jt -> runs s (l ++ k) s2 (it ++ jt).
Proof.
  induction 1 as [|s c s' ev l s1 it Hst He Hr IH]; intros Hk; [done|].
  cbn. rewrite <- app_assoc. eapply runs_cons; [done|done|by apply IH].
Qed.

(** One step in front, without an event. *)
Lemma runs_step s c s1 l s2 it : step s c = Some (s1, [], true) -> state s1 <> END -> runs s1 l s2 it ->
  runs s (c :: l) s2 it.
Proof. intros. by apply (runs_cons s c s1 [] l s2 it). Qed.

Lemma flats_app ev ev' : flats (ev ++ ev') = flats ev ++ flats ev'.
Proof. unfold flats. by rewrite map_app, concat_app. Qed.

Lemma runs_parse s l s1 it rest : runs s l s1 it ->
  match parse_loop s1 rest with
  | Some (s2, ev, ok) => exists ev', parse_loop s (l ++ rest) = Some (s2, ev', ok) /\ flats ev' = it ++ flats ev
  | None => parse_loop s (l ++ rest) = None
  end.
Proof.
  induction 1 as [s|s c s1 ev l s2 it Hst He Hr IH].
  - cbn. destruct (parse_loop s rest) as [[[s2 ev] ok]|]; [by exists ev|done].
  - cbn [app parse_loop]. rewrite Hst. run. rewrite decide_False by done. cbn [negb].
    destruct (parse_loop s2 rest) as [[[s3 ev3] ok3]|]; [|by rewrite IH].
    destruct IH as (ev' & -> & E). run. exists (ev ++ ev'). by rewrite flats_app, E, app_assoc.
Qed.

(** ** Characters *)

Lemma store_char e d m pre x r c :
  store (Mk e d m (pre ++ x :: r) (zlen pre)) c = Some (Mk e d m ((pre ++ [c]) ++ r) (zlen (pre ++ [c]))).
Proof.
  unfold store. cbn [buffer bufpos]. rewrite wr_app_r by done. run. unfold with_pos, with_buffer. cbn.
  by rewrite zlen_app, <- app_assoc.
Qed.

Lemma put_inside e d m pre x y r c : putBuffer (Mk e d m (pre ++ x :: y :: r) (zlen pre)) c =
  Some (Mk e d m ((pre ++ [c]) ++ y :: r) (zlen (pre ++ [c])), []).
Proof.
  unfold putBuffer. rewrite store_char. run. cbn [buffer bufpos]. rewrite !zlen_app, !zlen_cons, zlen_nil.
  pose proof (zlen_nonneg r). uc_cases; done.
Qed.

(** In front of a comment or a declaration only. *)
Lemma same_other f pre lit : f <> 33 -> same_at (f :: pre) 0 (33 :: lit) = Some false.
Proof. intros Hf. change (same_at (f :: pre) 0 (33 :: lit)) with (same (f :: pre) (33 :: lit)). cbn [same]. by destruct (Z.eqb_spec f 33). Qed.

Lemma no_mark c k n pre st lit : 0 < n -> match pre with [] => True | f :: _ => f <> 33 end ->
  test ((c =? k) && (zlen pre =? n)) (same_at (pre ++ st) 0 (33 :: lit)) = Some false.
Proof.
  intros Hn Hp. unfold test. destruct pre as [|f pre].
  - rewrite zlen_nil. destruct (Z.eqb_spec 0 n); [lia|]. by rewrite andb_false_r.
  - destruct (_ && _); [by apply same_other|done].
Qed.

Lemma tag_char e d pre x y r c : c <> 62 -> match pre with [] => c <> 91 | f :: _ => f <> 33 end ->
  step (Mk e d TAG (pre ++ x :: y :: r) (zlen pre)) c =
  Some (Mk e d TAG ((pre ++ [c]) ++ y :: r) (zlen (pre ++ [c])), [], true).
Proof.
  intros Hc Hp. unfold step. cbn [state]. unfold tag_step. cbn [buffer bufpos].
  destruct (Z.eqb_spec c 62); [done|].
  assert (match pre with [] => True | f :: _ => f <> 33 end) as Hf by by destruct pre.
  change (bytes "![CDATA") with (33 :: bytes "[CDATA"). change (bytes "!-") with (33 :: bytes "-").
  change (bytes "!DOCTYPE ") with (33 :: bytes "DOCTYPE "). rewrite no_mark by done. run. rewrite no_mark by done. run.
  assert (test (c =? 91) (same_at (pre ++ x :: y :: r) 0 (33 :: bytes "DOCTYPE ")) = Some false) as ->.
  { unfold test. destruct (Z.eqb_spec c 91); [|done]. destruct pre as [|f pre]; [done|by apply same_other]. }
  run. by rewrite put_inside.
Qed.

(** Characters that one after the other go into the buffer: [ok] is what a
    character needs, given those before it. *)
Lemma fill_text e d m (ok : list Z -> Z -> Prop) w : m <> END ->
  (forall pre x y r c, ok pre c -> step (Mk e d m (pre ++ x :: y :: r) (zlen pre)) c =
     Some (Mk e d m ((pre ++ [c]) ++ y :: r) (zlen (pre ++ [c])), [], true)) ->
  forall pre st, zlen w < zlen st -> (forall p c q, w = p ++ c :: q -> ok (pre ++ p) c) ->
  exists st', zlen st' = zlen st - zlen w /\
    runs (Mk e d m (pre ++ st) (zlen pre)) w (Mk e d m ((pre ++ w) ++ st') (zlen (pre ++ w))) [].
Proof.
  intros Hm Hstep. induction w as [|c w IH]; intros pre st Hl Hw.
  { exists st. rewrite app_nil_r, zlen_nil. split; [lia|constructor]. }
  rewrite zlen_cons in Hl |- *. pose proof (zlen_nonneg w).
  destruct st as [|x [|y st]]; rewrite ?zlen_cons, ?zlen_nil in Hl; [lia|lia|].
  destruct (IH (pre ++ [c]) (y :: st)) as (st' & E & Hr); [rewrite zlen_cons; lia| |].
  { intros p c' q ->. rewrite <- app_assoc. by apply (Hw (c :: p) c' q). }
  exists st'. rewrite zlen_cons in E. rewrite !zlen_cons. split; [lia|].
  rewrite (cons_middle c pre w), app_assoc.
  eapply runs_step; [apply Hstep|done|exact Hr]. rewrite <- (app_nil_r pre). by eapply Hw.
Qed.

(** The text of a tag goes into the buffer. *)
Lemma tag_text e d f w st : zlen (f :: w) < zlen st -> Forall (fun c => c <> 62) (f :: w) -> f <> 33 -> f <> 91 ->
  exists st', zlen st' = zlen st - zlen (f :: w) /\
    runs (Mk e d TAG st 0) (f :: w) (Mk e d TAG ((f :: w) ++ st') (zlen (f :: w))) [].
Proof.
  intros Hl Hw H1 H2. apply (fill_text e d TAG (fun pre c => c <> 62 /\
    match pre with [] => c <> 91 | f :: _ => f <> 33 end) (f :: w) ltac:(done)) with (pre := []); [|done|].
  - intros pre x y r c [Hc Hp]. by apply tag_char.
  - intros p c q E. cbn [app]. split.
    + rewrite E in Hw. by apply Forall_app in Hw as [_ [? _]%list.Forall_cons].
    + destruct p; injection E as <- _; done.
Qed.

(** ** Scans of a tag *)

Lemma elem_end_spec w p r pos : forall fuel, (length w < fuel)%nat -> Forall (fun c => isElement c = true) w ->
  (pos = zlen (p ++ w) \/ zlen (p ++ w) < pos /\ match r with [] => False | c :: _ => isElement c = false end) ->
  elem_end fuel (p ++ w ++ r) pos (zlen p) = Some (zlen (p ++ w)).
Proof.
  revert p. induction w as [|c w IH]; intros p [|f] Hf Hw Hpos; try (cbn in Hf; lia); cbn [elem_end].
  - rewrite app_nil_r in *. cbn [app]. destruct Hpos as [->|[Hp Hr]]; [by rewrite Z.ltb_irrefl|].
    destruct (Z.ltb_spec (zlen p) pos); [|lia]. rewrite rd_app_r by done. destruct r as [|c r]; [done|]. cbn. run.
    by rewrite Hr.
  - apply list.Forall_cons in Hw as [Hc Hw]. cbn [app].
    rewrite (cons_middle c p w), app_assoc in Hpos |- *. pose proof (zlen_nonneg w) as Hz.
    assert (zlen p < pos) as Hlt.
    { rewrite !zlen_app, !zlen_cons, zlen_nil in Hpos. lia. }
    destruct (Z.ltb_spec (zlen p) pos); [|lia]. rewrite rd_app_r by done. cbn. run. rewrite Hc.
    replace (zlen p + 1) with (zlen (p ++ [c])) by (rewrite zlen_app; done).
    rewrite (cons_middle c p (w ++ r)), app_assoc. apply IH; [cbn in Hf; lia|done|done].
Qed.

Lemma close_spec w p r : forall fuel, (length w < fuel)%nat -> Forall (fun c => isElement c = true) w ->
  zlen w < 2 ^ 32 -> close_loop fuel (p ++ w ++ r) (zlen w + 1) (zlen p - 1) = Some true.
Proof.
  revert p. induction w as [|c w IH]; intros p [|f] Hf Hw Hl; try (cbn in Hf; lia); cbn [close_loop].
  - done.
  - apply list.Forall_cons in Hw as [Hc Hw]. rewrite zlen_cons in Hl |- *. pose proof (zlen_nonneg w).
    rewrite u64_id by lia. destruct (Z.eqb_spec (zlen w + 1 + 1 - 1) 0); [lia|].
    replace (zlen p - 1 + 1) with (zlen p) by lia. cbn [app]. rewrite rd_app_r by done. cbn. run. rewrite Hc.
    rewrite (cons_middle c p (w ++ r)), app_assoc.
    replace (zlen p) with (zlen (p ++ [c]) - 1) by (rewrite zlen_app; change (zlen [c]) with 1; lia).
    replace (zlen w + 1 + 1 - 1) with (zlen w + 1) by lia. apply IH; [cbn in Hf; lia|done|lia].
Qed.

Lemma scan_spec w r c : Forall (fun x => x <> 0 /\ x <> c) w -> scan (w ++ c :: r) c = Some (Some (zlen w)).
Proof.
  induction 1 as [|x w [H0 Hc] Hw IH]; cbn [app scan]; [by rewrite Z.eqb_refl|].
  destruct (Z.eqb_spec x c); [done|]. destruct (Z.eqb_spec x 0); [done|]. rewrite IH. cbn.
  by rewrite zlen_cons.
Qed.

Lemma elem_nonul w : Forall (fun c => isElement c = true) w -> nonul w.
Proof. intros H. eapply list.Forall_impl; [exact H|]. by intros c Hc ->. Qed.

Lemma elem_other w k : Forall (fun c => isElement c = true) w -> isElement k = false -> Forall (fun c => c <> k) w.
Proof. intros H Hk. eapply list.Forall_impl; [exact H|]. cbn. intros c Hc ->. congruence. Qed.

Lemma skip_space p c r pos : forall fuel, zlen p < pos -> isElement c = true -> (1 < fuel)%nat ->
  skip_gap fuel (p ++ 32 :: c :: r) pos (zlen p) = Some ((p ++ [0]) ++ c :: r, zlen (p ++ [0]), true).
Proof.
  intros [|[|f]] Hp Hc Hf; [lia|lia|]. cbn [skip_gap]. rewrite rd_app_r by done. cbn [lookup list_lookup]. run.
  change (isElement 32) with false. destruct (Z.ltb_spec (zlen p) pos); [|lia]. cbn [negb andb].
  change (isspace 32) with true. cbv iota. rewrite wr_app_r by done. run.
  replace (zlen p + 1) with (zlen (p ++ [0])) by (rewrite zlen_app; done).
  rewrite (cons_middle 0 p (c :: r)), app_assoc, rd_app_r by done. cbn [lookup list_lookup]. run. by rewrite Hc.
Qed.

Lemma skip_none p x r fuel : (0 < fuel)%nat -> skip_gap fuel (p ++ x :: r) (zlen p) (zlen p) = Some (p ++ x :: r, zlen p, true).
Proof.
  intros Hf. destruct fuel as [|f]; [lia|]. cbn [skip_gap]. rewrite rd_app_r by done. cbn [lookup list_lookup]. run.
  by rewrite Z.ltb_irrefl, andb_false_r.
Qed.

(** ** Attributes *)

(** What is left of an attribute in the buffer, and where its parts start. *)
Definition cleared (nv : list Z * list Z) : list Z := 0 :: nv.1 ++ 0 :: 34 :: nv.2 ++ [0].

Definition cleareds (attr : list (list Z * list Z)) : list Z := concat (map cleared attr).

Fixpoint ptrs (off : Z) (attr : list (list Z * list Z)) : list ptr :=
  match attr with
  | [] => []
  | nv :: attr =>
      At (off + 1) :: At (off + 1 + zlen nv.1 + 2) :: ptrs (off + zlen (cleared nv)) attr
  end.

Lemma cleared_len nv : zlen (cleared nv) = zlen nv.1 + zlen nv.2 + 4.
Proof. unfold cleared. autorewrite with zlen. lia. Qed.

Lemma attr_text_len nv : zlen (attr_text nv) = zlen nv.1 + zlen nv.2 + 4.
Proof. unfold attr_text. autorewrite with zlen. lia. Qed.

Lemma attrs_text_cons nv attr : attrs_text (nv :: attr) = attr_text nv ++ attrs_text attr.
Proof. done. Qed.

Lemma cleareds_cons nv attr : cleareds (nv :: attr) = cleared nv ++ cleareds attr.
Proof. done. Qed.

Lemma push_ok acc p : zlen acc < 128 -> push acc p = Some (acc ++ [p]).
Proof. intros H. unfold push. by destruct (Z.ltb_spec (zlen acc) 128); [|lia]. Qed.

Lemma cleareds_length attr : length (cleareds attr) = length (attrs_text attr).
Proof.
  induction attr as [|y l IH]; [done|]. rewrite cleareds_cons, attrs_text_cons, !length_app, IH.
  pose proof (cleared_len y). pose proof (attr_text_len y). unfold zlen in *. lia.
Qed.

Lemma attrs_text_length attr : (length attr <= length (attrs_text attr))%nat.
Proof.
  induction attr as [|y l IH]; [done|]. rewrite attrs_text_cons, length_app.
  pose proof (attr_text_len y). pose proof (zlen_nonneg y.1). pose proof (zlen_nonneg y.2). unfold zlen in *. cbn. lia.
Qed.

Lemma ptrs_len attr : forall off, zlen (ptrs off attr) = 2 * zlen attr.
Proof. induction attr as [|y l IH]; intros off; [done|]. cbn [ptrs]. rewrite !zlen_cons, IH. lia. Qed.

(** One attribute. *)
Lemma attr_step f p n v r pos acc : is_name n -> is_value v -> zlen acc < 127 ->
  zlen (p ++ attr_text (n, v)) <= pos ->
  attr_loop (S f) (p ++ attr_text (n, v) ++ r) pos (zlen p) acc =
  attr_loop f ((p ++ cleared (n, v)) ++ r) pos (zlen (p ++ cleared (n, v)))
    ((acc ++ [At (zlen p + 1)]) ++ [At (zlen p + 1 + zlen n + 2)]).
Proof.
  intros [Hn He] Hv Ha Hpos. rewrite zlen_app, attr_text_len in Hpos. cbn [fst snd] in Hpos.
  match goal with |- _ = ?R => set (rhs := R) end.
  unfold attr_text. cbn [fst snd app]. rewrite <- !app_assoc. cbn [app]. rewrite <- app_assoc. cbn [app].
  pose proof (zlen_nonneg v). destruct n as [|c n]; [done|]. rewrite zlen_cons in Hpos. pose proof (zlen_nonneg n).
  pose proof (proj1 (proj1 (list.Forall_cons _ _ _) He)) as Hc. cbn [attr_loop].
  change ((c :: n) ++ 61 :: 34 :: v ++ 34 :: r) with (c :: n ++ 61 :: 34 :: v ++ 34 :: r).
  rewrite skip_space by (done || lia || (rewrite !length_app; cbn; lia)). run. cbn [negb].
  destruct (Z.eqb_spec (zlen (p ++ [0])) pos) as [E|_]; [rewrite zlen_app in E; change (zlen [0]) with 1 in E; lia|].
  rewrite push_ok by lia. run.
  change (c :: n ++ 61 :: 34 :: v ++ 34 :: r) with ((c :: n) ++ 61 :: 34 :: v ++ 34 :: r).
  set (w := c :: n) in *. set (p1 := p ++ [0]).
  assert (zlen p1 = zlen p + 1) as E1 by (unfold p1; by rewrite zlen_app).
  assert (zlen w = zlen n + 1) as Ew by apply zlen_cons.
  rewrite elem_end_spec; [|rewrite !length_app; lia|done|right; rewrite zlen_app; split; [lia|done]]. run.
  destruct (Z.eqb_spec (zlen (p1 ++ w)) pos) as [E|_]; [rewrite zlen_app in E; lia|].
  rewrite app_assoc, rd_app_r by done. cbn [lookup list_lookup]. run. change (61 =? 61) with true. cbn [negb].
  rewrite wr_app_r by done. run.
  set (p3 := (p1 ++ w) ++ [0]). assert (zlen p3 = zlen (p1 ++ w) + 1) as E3 by (unfold p3; by rewrite zlen_app).
  rewrite <- E3, (cons_middle 0 (p1 ++ w) (34 :: v ++ 34 :: r)), app_assoc. fold p3.
  assert (zlen (p1 ++ w) = zlen p + zlen n + 2) as E2 by (rewrite zlen_app; lia).
  destruct (Z.eqb_spec (zlen p3) pos) as [E|_]; [lia|].
  rewrite rd_app_r by done. cbn [lookup list_lookup]. run. change (isspace 34) with false. cbv iota.
  change (34 =? 39) with false. change (34 =? 34) with true. cbn [orb]. cbv iota.
  set (p4 := p3 ++ [34]). assert (zlen p4 = zlen p3 + 1) as E4 by (unfold p4; by rewrite zlen_app).
  rewrite <- E4, (cons_middle 34 p3 (v ++ 34 :: r)), app_assoc. fold p4. rewrite zlen_to_nat, drop_app_length.
  rewrite scan_spec by (eapply list.Forall_impl; [exact Hv|cbn; tauto]). run.
  rewrite push_ok by (rewrite zlen_app; change (zlen [At (zlen p1)]) with 1; lia). run.
  rewrite (app_assoc p4 v), wr_app_r by (by rewrite zlen_app). run.
  subst rhs. assert (p ++ cleared (w, v) = (p4 ++ v) ++ [0]) as ->.
  { unfold p4, p3, p1, cleared. cbn [fst snd]. by rewrite <- !app_assoc. }
  rewrite (cons_middle 0 (p4 ++ v) r), app_assoc.
  f_equal; [rewrite !zlen_app; change (zlen [0]) with 1; lia|].
  f_equal; [do 2 f_equal; f_equal; lia|]. f_equal. f_equal. lia.
Qed.

Lemma attr_loop_spec attr : forall f p x st acc, (length attr < f)%nat -> Forall good_attr attr ->
  zlen acc + 2 * zlen attr <= 126 ->
  attr_loop f (p ++ attrs_text attr ++ x :: st) (zlen (p ++ attrs_text attr)) (zlen p) acc =
  Some (p ++ cleareds attr ++ x :: st, Some (acc ++ ptrs (zlen p) attr)).
Proof.
  induction attr as [|[n v] attr IH]; intros [|f] p x st acc Hf Ha Hl; try (cbn in Hf; lia).
  - cbn [attr_loop]. rewrite app_nil_r. cbn [app attrs_text map concat]. rewrite skip_none by lia. run. cbn [negb].
    by rewrite Z.eqb_refl, app_nil_r.
  - apply list.Forall_cons in Ha as [[Hn Hv] Ha]. rewrite zlen_cons in Hl. pose proof (zlen_nonneg attr).
    rewrite attrs_text_cons, <- (app_assoc (attr_text (n, v))), attr_step; [|done|done|lia|].
    2: { rewrite !zlen_app. pose proof (zlen_nonneg (attrs_text attr)). lia. }
    replace (zlen (p ++ attr_text (n, v) ++ attrs_text attr)) with (zlen ((p ++ cleared (n, v)) ++ attrs_text attr))
      by (rewrite !zlen_app, cleared_len, attr_text_len; lia).
    rewrite IH; [|cbn in Hf; lia|done|rewrite !zlen_app; change (zlen [_]) with 1 in *; cbn; unfold zlen in *; cbn; lia].
    rewrite cleareds_cons, <- !app_assoc. cbn [app ptrs fst snd]. by rewrite (zlen_app p).
Qed.

Lemma resolve_ptrs attr : forall p st, Forall good_attr attr ->
  mapM (resolve (p ++ cleareds attr ++ st)) (ptrs (zlen p) attr) = Some (attr_list attr).
Proof.
  induction attr as [|[n v] attr IH]; intros p st Ha; [done|].
  apply list.Forall_cons in Ha as [[[_ Hn] Hv] Ha]. cbn [ptrs mapM fst snd].
  rewrite cleareds_cons, <- app_assoc. cbn [fst snd] in Hn, Hv.
  assert (forall q u k, p ++ cleared (n, v) ++ cleareds attr ++ st = q ++ u ++ 0 :: k -> nonul u ->
    resolve (p ++ cleared (n, v) ++ cleareds attr ++ st) (At (zlen q)) = Some u) as Hr.
  { intros q u k -> Hu. unfold resolve. rewrite zlen_to_nat, drop_app_length. by apply cstr_app. }
  replace (zlen p + 1) with (zlen (p ++ [0])) by (by rewrite zlen_app).
  replace (zlen (p ++ [0]) + zlen n + 2) with (zlen (p ++ 0 :: n ++ [0; 34]))
    by (autorewrite with zlen; change (zlen (@nil Z)) with 0; lia).
  rewrite (Hr (p ++ [0]) n (34 :: v ++ 0 :: cleareds attr ++ st)); [|unfold cleared; cbn [fst snd]; by apps|by apply elem_nonul].
  run. rewrite (Hr (p ++ 0 :: n ++ [0; 34]) v (cleareds attr ++ st));
    [|unfold cleared; cbn [fst snd]; by apps|eapply list.Forall_impl; [exact Hv|cbn; tauto]].
  run. rewrite (app_assoc p), <- (zlen_app p), IH by done. done.
Qed.

(** ** Tags *)

Definition doc_event (n : Z) : list event := if n =? 0 then [StartDocument] else [].

(** After the end of an element, [n] are open. *)
Definition after_end (n d : Z) (b : list Z) : t := Mk n d (if n =? 0 then END else NONE) b 0.

Definition end_events (n : Z) (name : list Z) : list event :=
  EndElement name :: if n =? 0 then [EndDocument] else [].

Lemma end_element_spec n d b pos off name r : drop (Z.to_nat off) b = name ++ 0 :: r -> nonul name ->
  end_element (Mk n d NONE b pos) off = Some (after_end (n - 1) d b, end_events (n - 1) name).
Proof.
  intros E Hn. unfold end_element. cbn [buffer]. rewrite E, cstr_app by done. run.
  unfold after_end, end_events, with_state, with_ecount, with_pos. cbn. by destruct (Z.eqb_spec (n - 1) 0).
Qed.

Lemma start_element_spec n d b pos attrib ends name attr r : b = name ++ 0 :: r -> nonul name ->
  mapM (resolve b) attrib = Some attr ->
  start_element (Mk n d NONE b pos) attrib ends =
  Some (if ends : bool then after_end n d b else Mk (n + 1) d NONE b 0,
        doc_event n ++ StartElement name attr :: (if ends then end_events n name else [])).
Proof.
  intros Eb Hn Ha. unfold start_element, start_event. unfold with_ecount. cbn [buffer ecount dcount state bufpos].
  rewrite Ha. rewrite Eb at 1. rewrite cstr_app by done. run. fold (doc_event n). destruct ends; [|done].
  erewrite end_element_spec; [|exact Eb|done]. run. by replace (n + 1 - 1) with n by lia.
Qed.

Lemma start_tag_spec n d name attr x st ends : is_name name -> Forall good_attr attr -> zlen attr <= 63 ->
  let b := name ++ attrs_text attr ++ x :: st in
  exists b', length b' = length b /\
    start_tag (Mk n d NONE b (zlen (name ++ attrs_text attr))) ends =
    Some (if ends : bool then after_end n d b' else Mk (n + 1) d NONE b' 0,
          doc_event n ++ StartElement name (attr_list attr) :: (if ends then end_events n name else []), true).
Proof.
  intros [Hne Hn] Ha Hl b. unfold start_tag. cbn [buffer bufpos]. pose proof (elem_nonul _ Hn) as Hnn.
  destruct attr as [|nv attr].
  - subst b. cbn [attrs_text map concat app]. rewrite app_nil_r.
    pose proof (elem_end_spec name [] (x :: st) (zlen name) (S (length (name ++ x :: st)))) as He.
    cbn [app] in He. change (zlen []) with 0 in He. rewrite He; [|rewrite length_app; lia|done|by left]. run.
    rewrite Z.eqb_refl, wr_app_r by done. run. exists (name ++ 0 :: st). split; [by rewrite !length_app|].
    unfold with_buffer. cbn [ecount dcount state bufpos]. by erewrite start_element_spec.
  - pose proof (elem_end_spec name [] (attrs_text (nv :: attr) ++ x :: st) (zlen (name ++ attrs_text (nv :: attr)))
      (S (length b))) as He.
    cbn [app] in He. change (zlen []) with 0 in He. fold b in He.
    assert (zlen name < zlen (name ++ attrs_text (nv :: attr))) as Hlt.
    { rewrite attrs_text_cons, !zlen_app, attr_text_len. pose proof (zlen_nonneg nv.1). pose proof (zlen_nonneg nv.2).
      pose proof (zlen_nonneg (attrs_text attr)). lia. }
    rewrite He; [|unfold b; rewrite !length_app; lia|done|right; split; [done|by rewrite attrs_text_cons]]. run.
    destruct (Z.eqb_spec (zlen name) (zlen (name ++ attrs_text (nv :: attr)))); [lia|].
    pose proof (attr_loop_spec (nv :: attr) (S (length b)) name x st []) as Hal. fold b in Hal.
    rewrite Hal; [|pose proof (attrs_text_length (nv :: attr)); unfold b; rewrite !length_app; lia|done|change (zlen []) with 0; lia].
    run. cbn [app]. rewrite ptrs_len. destruct (Z.ltb_spec 126 (2 * zlen (nv :: attr))); [lia|].
    unfold with_buffer. cbn [ecount dcount state bufpos]. set (b' := name ++ cleareds (nv :: attr) ++ x :: st).
    exists b'. split.
    + unfold b, b'. by rewrite !length_app, cleareds_length.
    + erewrite start_element_spec; [|unfold b'; rewrite cleareds_cons; unfold cleared; cbn [app]; reflexivity|done|].
      2: by apply resolve_ptrs. done.
Qed.

(** ** States between tags *)

(** The parser reads text, [n] elements are open, and the characters [pend] have
    not been reported yet. *)
Definition reading (size n d : Z) (s : t) (pend : list Z) : Prop :=
  exists x st, s = Mk n d NONE (pend ++ x :: st) (zlen pend) /\ zlen (pend ++ x :: st) = size.

Lemma reading_start size n d b : zlen b = size -> 0 < size -> reading size n d (Mk n d NONE b 0) [].
Proof. intros Hb Hs. destruct b as [|x st]; [rewrite zlen_nil in Hb; lia|]. by exists x, st. Qed.

Lemma chars_pending n d pend st : n <> 0 ->
  flats (chars_event (Mk n d NONE (pend ++ st) (zlen pend))) = map IChar pend.
Proof.
  intros Hn. unfold chars_event. cbn [ecount buffer bufpos]. destruct (Z.eqb_spec n 0); [done|].
  rewrite zlen_to_nat, take_app_length. unfold flats. cbn. by rewrite app_nil_r.
Qed.

Lemma clear_pending size n d s pend : reading size n d s pend -> n <> 0 \/ pend = [] ->
  exists b ev, clearBuffer s = (Mk n d NONE b 0, ev) /\ zlen b = size /\ flats ev = map IChar pend.
Proof.
  intros (x & st & -> & Hs) Hn. unfold clearBuffer. cbn [bufpos]. eexists _, _. split; [done|]. split; [done|].
  destruct (Z.eqb_spec (zlen pend) 0) as [E|E].
  - destruct pend; [done|]. rewrite zlen_cons in E. pose proof (zlen_nonneg pend). lia.
  - destruct Hn as [Hn| ->]; [|done]. by apply chars_pending.
Qed.

Lemma text_char size n d s pend c : reading size n d s pend -> n <> 0 -> c <> 60 -> c <> 38 ->
  exists s1 ev pend', step s c = Some (s1, ev, true) /\ reading size n d s1 pend' /\
    flats ev ++ map IChar pend' = map IChar (pend ++ [c]).
Proof.
  intros (x & st & -> & Hs) Hn H1 H2. unfold step. cbn [state]. unfold text_step. cbn [ecount].
  destruct (Z.eqb_spec c 60); [done|]. destruct (Z.eqb_spec n 0); [done|]. destruct (Z.eqb_spec c 38); [done|]. cbn [negb andb].
  destruct st as [|y st].
  - unfold putBuffer. rewrite store_char. run. cbn [buffer bufpos]. rewrite app_nil_r.
    destruct (Z.leb_spec (zlen (pend ++ [c])) (zlen (pend ++ [c]))); [|lia].
    eexists _, _, []. split; [done|]. rewrite zlen_app in Hs. change (zlen [x]) with 1 in Hs. split.
    + apply reading_start; [cbn [buffer]; rewrite zlen_app; exact Hs|pose proof (zlen_nonneg pend); lia].
    + pose proof (chars_pending n d (pend ++ [c]) [] ltac:(done)) as Hp. rewrite app_nil_r in Hp. by rewrite Hp, app_nil_r.
  - rewrite put_inside. eexists _, [], _. split; [done|]. split; [|done]. exists y, st. split; [done|].
    revert Hs. autorewrite with zlen. change (zlen [c]) with 1. lia.
Qed.

(** A tag begins. *)
Lemma open_tag size n d s pend : reading size n d s pend -> n <> 0 \/ pend = [] ->
  exists b ev, step s 60 = Some (Mk n d TAG b 0, ev, true) /\ zlen b = size /\ flats ev = map IChar pend.
Proof.
  intros Hr Hn. destruct (clear_pending size n d s pend Hr Hn) as (b & ev & E & Hb & Hev). exists b, ev.
  split; [|done]. destruct Hr as (x & st & -> & _). unfold step. cbn [state]. unfold text_step.
  change (60 =? 60) with true. cbv iota. by rewrite E.
Qed.

(** The entities [print] uses. *)
Lemma entity_runs size n d s pend name cp : reading size n d s pend -> n <> 0 -> 6 <= size ->
  Forall (fun c => isElement c = true) name -> 0 < zlen name < 5 -> entity name = Some cp ->
  exists s', runs s (38 :: name ++ [59]) s' (map IChar pend ++ [IChar cp]) /\ reading size n d s' [].
Proof.
  intros Hr Hn Hsz He Hl Hcp.
  destruct (clear_pending size n d s pend Hr (or_introl Hn)) as (b & ev & E & Hb & Hev).
  assert (step s 38 = Some (Mk n d AMP b 0, ev, true)) as Hst.
  { destruct Hr as (x & st & -> & _). unfold step. cbn [state]. unfold text_step. cbn [ecount].
    destruct (Z.eqb_spec n 0); [done|]. change (38 =? 60) with false. change (38 =? 38) with true. cbn [negb andb].
    cbv iota. by rewrite E. }
  destruct (fill_text n d AMP (fun _ c => isElement c = true) name ltac:(done)) with (pre := @nil Z) (st := b)
    as (st & Hst' & Hrun); [|lia| |].
  { intros pre x y r c Hc. unfold step. cbn [state]. unfold amp_step. rewrite Hc, orb_true_r. by rewrite store_char. }
  { intros p c q ->. by apply Forall_app in He as [_ [? _]%list.Forall_cons]. }
  cbn [app] in Hrun. change (zlen []) with 0 in Hrun. destruct st as [|x st]; [rewrite zlen_nil in Hst'; lia|].
  exists (Mk n d NONE (name ++ 0 :: st) 0). rewrite zlen_cons in Hst'. split.
  - rewrite <- Hev. eapply (runs_cons s 38); [exact Hst|done|]. rewrite <- (app_nil_l [IChar cp]).
    eapply runs_app; [exact Hrun|]. apply (runs_one _ 59 _ [Characters [cp]]); [|done].
    unfold step. cbn [state]. unfold amp_step. cbn [bufpos buffer]. change (59 =? 35) with false.
    change (isElement 59) with false. rewrite andb_false_r. cbn [orb]. change (59 =? 59) with true. cbn [negb].
    rewrite wr_app_r by done. run. rewrite cstr_app by (by apply elem_nonul). run. by rewrite Hcp.
  - apply reading_start; [|lia]. rewrite zlen_app, zlen_cons. lia.
Qed.

Lemma escape_runs size n d s pend c : reading size n d s pend -> n <> 0 -> 6 <= size ->
  exists s' it pend', runs s (escape c) s' it /\ reading size n d s' pend' /\
    it ++ map IChar pend' = map IChar pend ++ [IChar c].
Proof.
  intros Hr Hn Hs. unfold escape.
  assert (forall name cp, Forall (fun c => isElement c = true) name -> 0 < zlen name < 5 -> entity name = Some cp ->
    exists s' it pend', runs s (38 :: name ++ [59]) s' it /\ reading size n d s' pend' /\
      it ++ map IChar pend' = map IChar pend ++ [IChar cp]) as Hent.
  { intros name cp H1 H2 H3. destruct (entity_runs size n d s pend name cp) as (s' & Hrun & Hr'); try done.
    exists s', (map IChar pend ++ [IChar cp]), []. split; [done|]. split; [done|]. by rewrite app_nil_r. }
  destruct (Z.eqb_spec c 38) as [->|H38]; [apply (Hent (bytes "amp")); [repeat constructor|split; reflexivity|reflexivity]|].
  destruct (Z.eqb_spec c 60) as [->|H60]; [apply (Hent (bytes "lt")); [repeat constructor|split; reflexivity|reflexivity]|].
  destruct (Z.eqb_spec c 62) as [->|H62]; [apply (Hent (bytes "gt")); [repeat constructor|split; reflexivity|reflexivity]|].
  destruct (Z.eqb_spec c 34) as [->|H34]; [apply (Hent (bytes "quot")); [repeat constructor|split; reflexivity|reflexivity]|].
  destruct (text_char size n d s pend c) as (s1 & ev & pend' & E & Hr' & Hev); try done.
  exists s1, (flats ev), pend'. split; [apply runs_one; [done|]|split; [done|by rewrite Hev, map_app]].
  by destruct Hr' as (x & st & -> & _).
Qed.

(** ** Tags and comments between the texts *)

Lemma last_char name attr : is_name name -> exists p l, name ++ attrs_text attr = p ++ [l] /\ l <> 47.
Proof.
  intros [Hne Hn]. destruct attr as [|nv attr] using rev_ind.
  - rewrite app_nil_r. destruct name as [|l p] using rev_ind; [done|]. exists p, l. split; [done|].
    apply Forall_app in Hn as [_ [Hl _]%list.Forall_cons]. by intros ->.
  - clear IHattr. exists (name ++ attrs_text attr ++ 32 :: nv.1 ++ 61 :: 34 :: nv.2), 34. split; [|done].
    unfold attrs_text. rewrite map_app, concat_app. cbn. unfold attr_text. by apps.
Qed.

Lemma name_first f name : is_name (f :: name) -> isElement f = true /\ f <> 47 /\ f <> 33 /\ f <> 63 /\ f <> 91.
Proof. intros [_ [Hf _]%list.Forall_cons]. split; [done|]. by split_and!; intros ->. Qed.

Lemma value_tag v : is_value v -> Forall (fun c => c <> 62) v.
Proof. intros H. eapply list.Forall_impl; [exact H|cbn; tauto]. Qed.

Lemma attrs_tag attr : Forall good_attr attr -> Forall (fun c => c <> 62) (attrs_text attr).
Proof.
  induction 1 as [|[n v] attr [[_ Hn] Hv] Ha IH]; [constructor|]. rewrite attrs_text_cons. apply Forall_app. split; [|done].
  unfold attr_text. cbn [fst snd] in *. constructor; [done|]. apply Forall_app. split; [by apply elem_other|].
  constructor; [done|]. constructor; [done|]. apply Forall_app. split; [by apply value_tag|by repeat constructor].
Qed.

(** From the bracket to the end of the text of a tag. *)
Lemma tag_runs size n d s pend f w : reading size n d s pend -> n <> 0 \/ pend = [] ->
  zlen (f :: w) < size -> Forall (fun c => c <> 62) (f :: w) -> f <> 33 -> f <> 91 ->
  exists x st, zlen ((f :: w) ++ x :: st) = size /\
    runs s (60 :: f :: w) (Mk n d TAG ((f :: w) ++ x :: st) (zlen (f :: w))) (map IChar pend).
Proof.
  intros Hr Hn Hl Hw H1 H2. destruct (open_tag size n d s pend Hr Hn) as (b & ev & E & Hb & <-).
  destruct (tag_text n d f w b) as (st & Hst & Hrun); [lia|done..|].
  destruct st as [|x st]; [rewrite zlen_nil in Hst; lia|]. exists x, st. split.
  - rewrite zlen_app. lia.
  - rewrite <- (app_nil_r (flats ev)). eapply runs_cons; [exact E|done|exact Hrun].
Qed.

Lemma step_close n d b pos : step (Mk n d TAG b pos) 62 = parseTag (Mk n d NONE b pos).
Proof. done. Qed.

(** The tag of an element, with or without a slash at its end. *)
Definition slash (ends : bool) : list Z := if ends then [47] else [].

Definition tag_of (name : list Z) (attr : list (list Z * list Z)) (ends : bool) : list Z :=
  (name ++ attrs_text attr) ++ slash ends.

Definition after_start (n d : Z) (ends : bool) (b : list Z) : t :=
  if ends then after_end n d b else Mk (n + 1) d NONE b 0.

Definition start_events (n : Z) (name : list Z) (attr : list (list Z * list Z)) (ends : bool) : list event :=
  doc_event n ++ StartElement name (attr_list attr) :: (if ends then end_events n name else []).

Lemma parse_start n d name attr ends x st : is_name name -> Forall good_attr attr -> zlen attr <= 63 ->
  zlen (tag_of name attr ends) < 2 ^ 32 ->
  exists b', zlen b' = zlen (tag_of name attr ends ++ x :: st) /\
    parseTag (Mk n d NONE (tag_of name attr ends ++ x :: st) (zlen (tag_of name attr ends))) =
    Some (after_start n d ends b', start_events n name attr ends, true).
Proof.
  intros Hname Ha Hl Hs. destruct (last_char name attr Hname) as (p & l & El & Hl47).
  unfold parseTag. cbn [buffer bufpos].
  assert (exists f w, tag_of name attr ends = f :: w /\ isElement f = true /\ f <> 47 /\ f <> 33 /\ f <> 63)
    as (f & w & Ef & Hf & H47 & H33 & H63).
  { destruct name as [|f name]; [by destruct Hname|]. apply name_first in Hname as (? & ? & ? & ? & ?).
    by exists f, ((name ++ attrs_text attr) ++ slash ends). }
  assert (rd (tag_of name attr ends ++ x :: st) 0 = Some f) as -> by (by rewrite Ef). run.
  destruct (Z.eqb_spec f 47); [done|]. destruct (Z.eqb_spec f 33); [done|]. destruct (Z.eqb_spec f 63); [done|].
  rewrite Hf. cbn [negb]. pose proof (zlen_nonneg w). rewrite Ef, zlen_cons in Hs.
  assert (zlen (tag_of name attr ends) = zlen w + 1) as Ew by by rewrite Ef, zlen_cons.
  rewrite u32_id by lia. unfold tag_of in *. set (w0 := name ++ attrs_text attr) in *. destruct ends; cbn [slash] in *.
  - assert (zlen (w0 ++ [47]) = zlen w0 + 1) as -> by by rewrite zlen_app.
    replace (zlen w0 + 1 - 1) with (zlen w0) by lia. rewrite <- (app_assoc w0). cbn [app].
    rewrite rd_app_r by done. cbn [lookup list_lookup]. run. change (47 =? 47) with true. cbv iota.
    unfold with_pos. cbn [ecount dcount state buffer bufpos].
    replace (zlen w0 + 1 - 1) with (zlen w0) by lia.
    destruct (start_tag_spec n d name attr 47 (x :: st) true Hname Ha Hl) as (b' & Hb & Est).
    rewrite (app_assoc name (attrs_text attr)) in Hb, Est. fold w0 in Hb, Est. rewrite Est.
    exists b'. split; [|done]. unfold zlen. by rewrite Hb.
  - rewrite app_nil_r in *. assert (rd (w0 ++ x :: st) (zlen w0 - 1) = Some l) as ->.
    { rewrite El, <- app_assoc, rd_app_r; [done|]. rewrite zlen_app. change (zlen [l]) with 1. lia. }
    run. destruct (Z.eqb_spec l 47); [done|].
    destruct (start_tag_spec n d name attr x st false Hname Ha Hl) as (b' & Hb & Est).
    rewrite (app_assoc name (attrs_text attr)) in Hb, Est. fold w0 in Hb, Est. rewrite Est.
    exists b'. split; [|done]. unfold zlen. by rewrite Hb.
Qed.

Lemma start_flats n name attr ends : flats (start_events n name attr ends) =
  flats (doc_event n) ++ IStart name (attr_list attr) ::
    (if ends then IEnd name :: (if n =? 0 then [IEndDocument] else []) else []).
Proof.
  unfold start_events. rewrite flats_app. f_equal. destruct ends; [|done]. unfold end_events. by destruct (n =? 0).
Qed.

Lemma tag_shape name attr ends : is_name name -> Forall good_attr attr ->
  exists f w, tag_of name attr ends = f :: w /\ Forall (fun c => c <> 62) (f :: w) /\ f <> 33 /\ f <> 91.
Proof.
  intros Hname Ha. unfold tag_of. destruct name as [|f name]; [by destruct Hname|].
  destruct (name_first f name Hname) as (_ & _ & H33 & _ & H91). eexists f, _. split; [done|]. split; [|done].
  change (Forall (fun c => c <> 62) (((f :: name) ++ attrs_text attr) ++ slash ends)). apply Forall_app. split; [|by destruct ends; repeat constructor].
  apply Forall_app. split; [|by apply attrs_tag]. apply elem_other; [apply Hname|done].
Qed.

Lemma start_runs size n d s pend name attr (ends : bool) : reading size n d s pend -> n <> 0 \/ pend = [] ->
  is_name name -> Forall good_attr attr -> zlen attr <= 63 -> size < 2 ^ 32 ->
  zlen (tag_of name attr ends) < size -> (if ends then n <> 0 else True) ->
  exists s', runs s (60 :: tag_of name attr ends ++ [62]) s' (map IChar pend ++ flats (start_events n name attr ends)) /\
    reading size (if ends then n else n + 1) d s' [].
Proof.
  intros Hr Hn Hname Ha Hl Hs Hsz He.
  destruct (tag_shape name attr ends Hname Ha) as (f & w & Ef & Hw & H33 & H91). pose proof Hsz as Hsz'. rewrite Ef in Hsz'.
  destruct (tag_runs size n d s pend f w) as (x & st & Eb & Hrun); [done..|].
  rewrite <- Ef in Eb, Hrun. destruct (parse_start n d name attr ends x st) as (b' & Hb & Hp); [done|done|done|lia|].
  exists (after_start n d ends b'). pose proof (zlen_nonneg (tag_of name attr ends)). split.
  - change (60 :: ?l ++ [62]) with ((60 :: l) ++ [62]). eapply runs_app; [exact Hrun|].
    apply runs_one; [by rewrite step_close|]. unfold after_start, after_end. destruct ends; [|done]. by destruct (Z.eqb_spec n 0).
  - unfold after_start, after_end. destruct ends; [destruct (Z.eqb_spec n 0); [done|]|]; (apply reading_start; [congruence|lia]).
Qed.

(** The end tag, up to its last character. *)
Lemma end_runs size n d s pend name : reading size n d s pend -> 1 <= n -> is_name name -> size < 2 ^ 32 ->
  1 + zlen name < size ->
  exists s1 b', runs s (60 :: 47 :: name) s1 (map IChar pend) /\ zlen b' = size /\
    step s1 62 = Some (after_end (n - 1) d b', end_events (n - 1) name, true).
Proof.
  intros Hr Hn [Hne Hname] Hs Hsz. pose proof (zlen_nonneg name).
  destruct (tag_runs size n d s pend 47 name) as (x & st & Eb & Hrun); [done|left; lia|rewrite zlen_cons; lia| |done|done|].
  { constructor; [done|]. by apply elem_other. }
  eexists _, (47 :: name ++ 0 :: st). split; [exact Hrun|]. split.
  { rewrite <- Eb. cbn [app]. by rewrite !zlen_cons, !zlen_app, !zlen_cons. }
  rewrite step_close. unfold parseTag. cbn [buffer bufpos app]. rewrite rd_cons_0. run. change (47 =? 47) with true. cbv iota.
  pose proof (close_spec name [47] (x :: st) (S (length (47 :: name ++ x :: st)))) as Hc.
  change (zlen [47] - 1) with 0 in Hc. rewrite zlen_cons. cbn [app] in Hc. rewrite Hc; [|cbn; rewrite length_app; lia|done|lia].
  run. cbn [negb]. rewrite (app_comm_cons name (x :: st) 47), wr_app_r by (by rewrite zlen_cons). run.
  unfold with_buffer. cbn [ecount dcount state bufpos].
  rewrite (end_element_spec n d _ _ 1 name st) by (done || by apply elem_nonul). run.
  unfold after_end. cbn [ecount app]. by destruct (Z.leb_spec 0 (n - 1)); [|lia].
Qed.

(** A comment: only its end mark leaves it. *)
Lemma comment_char n d pre x y r c : (c = 62 -> forall q, pre <> q ++ [45; 45]) ->
  step (Mk n d COMMENT (pre ++ x :: y :: r) (zlen pre)) c =
  Some (Mk n d COMMENT ((pre ++ [c]) ++ y :: r) (zlen (pre ++ [c])), [], true).
Proof.
  intros Hc. unfold step. cbn [state]. unfold comment_step. cbn [bufpos buffer].
  assert (test ((c =? 62) && (2 <=? zlen pre)) (same_at (pre ++ x :: y :: r) (zlen pre - 2) (bytes "--")) = Some false) as ->.
  { unfold test. destruct (Z.eqb_spec c 62) as [E62|]; [|done]. destruct (Z.leb_spec 2 (zlen pre)); [|done]. cbn [andb].
    specialize (Hc E62). destruct pre as [|u2 pre _] using rev_ind; [rewrite zlen_nil in *; lia|].
    destruct pre as [|u1 pre _] using rev_ind; [change (zlen ([] ++ [u2])) with 1 in *; lia|].
    unfold same_at. rewrite <- !app_assoc, zlen_app. change (zlen ([u1] ++ [u2])) with 2.
    pose proof (zlen_nonneg pre). destruct (Z.ltb_spec (zlen pre + 2 - 2) 0); [lia|].
    replace (zlen pre + 2 - 2) with (zlen pre) by lia. rewrite zlen_to_nat, drop_app_length.
    change (bytes "--") with [45; 45]. cbn [app same].
    destruct (Z.eqb_spec u1 45) as [->|]; [|done]. destruct (Z.eqb_spec u2 45) as [->|]; [|done].
    exfalso. apply (Hc pre). by rewrite <- app_assoc. }
  run. rewrite store_char. run. cbn [bufpos buffer].
  destruct (Z.eqb_spec (zlen (pre ++ [c])) (zlen ((pre ++ [c]) ++ y :: r))) as [E0|]; [|done].
  rewrite (zlen_app (pre ++ [c])), (zlen_cons y) in E0. pose proof (zlen_nonneg r). lia.
Qed.

Lemma note_ok text p q : is_note text -> text ++ [45; 45] = p ++ 62 :: q -> forall k, p <> k ++ [45; 45].
Proof.
  intros Ht E. apply (Ht p (drop (S (length p)) text)).
  assert ((text ++ [45; 45]) !! length p = Some 62) as Hl by (by rewrite E, list_lookup_middle).
  apply lookup_app_Some in Hl as [Hl|[_ Hl]]; [|by destruct (length p - length text)%nat as [|[|]]].
  rewrite <- (take_drop_middle text (length p) 62 Hl) at 1. f_equal. pose proof (lookup_lt_Some _ _ _ Hl).
  transitivity (take (length p) (text ++ [45; 45])); [rewrite take_app_le by lia; done|].
  rewrite E. apply take_app_length.
Qed.

Lemma same_nil b : same b [] = Some true.
Proof. by destruct b. Qed.

Lemma note_open n d b0 b1 b2 b :
  runs (Mk n d TAG (b0 :: b1 :: b2 :: b) 0) [33; 45; 45] (Mk n d COMMENT (33 :: 45 :: b2 :: b) 0) [].
Proof.
  eapply runs_step; [exact (tag_char n d [] b0 b1 (b2 :: b) 33 ltac:(done) ltac:(done))|done|].
  eapply runs_step.
  - unfold step. cbn [state]. unfold tag_step. cbn [buffer bufpos].
    change (test ((45 =? 91) && (zlen ([] ++ [33]) =? 7)) ?r) with (Some false). run.
    change (test ((45 =? 45) && (zlen ([] ++ [33]) =? 2)) ?r) with (Some false). run.
    change (test (45 =? 91) ?r) with (Some false). run. change (45 =? 62) with false. cbv iota.
    rewrite put_inside. reflexivity.
  - done.
  - eapply runs_step; [reflexivity|done|constructor].
Qed.

Lemma note_runs size n d s pend text : reading size n d s pend -> n <> 0 \/ pend = [] -> is_note text ->
  zlen text + 2 < size ->
  exists s', runs s (60 :: 33 :: 45 :: 45 :: text ++ [45; 45; 62]) s' (map IChar pend ++ comment_items text) /\
    reading size n d s' [].
Proof.
  intros Hr Hn Ht Hsz. pose proof (zlen_nonneg text).
  destruct (open_tag size n d s pend Hr Hn) as (b & ev & E & Hb & <-).
  destruct b as [|b0 [|b1 [|b2 b]]]; rewrite ?zlen_cons, ?zlen_nil in Hb; [lia..|].
  destruct (fill_text n d COMMENT (fun pre c => c = 62 -> forall q, pre <> q ++ [45; 45]) (text ++ [45; 45]) ltac:(done))
    with (pre := @nil Z) (st := 33 :: 45 :: b2 :: b) as (st & Hst & Hrun).
  { intros. by apply comment_char. }
  { rewrite zlen_app, !zlen_cons, zlen_nil. lia. }
  { intros p c q Ep -> k. by eapply note_ok. }
  rewrite zlen_app, !zlen_cons, zlen_nil in Hst.
  exists (Mk n d NONE ((text ++ [45; 45]) ++ st) 0). split.
  - assert (comment_items text = flats (if zlen text =? 0 then [] else [Comment text])) as Eit.
    { destruct text; [done|]. rewrite zlen_cons. destruct (Z.eqb_spec (zlen text + 1) 0); [pose proof (zlen_nonneg text); lia|done]. }
    eapply runs_cons; [exact E|done|].
    eapply (runs_app _ [33; 45; 45] _ [] (text ++ [45; 45; 62]) _ (comment_items text)); [apply note_open|].
    change [45; 45; 62] with ([45; 45] ++ [62]). rewrite app_assoc, Eit.
    eapply (runs_app _ (text ++ [45; 45]) _ []); [exact Hrun|].
    apply runs_one; [|done]. unfold step. cbn [state app]. unfold comment_step. cbn [buffer bufpos].
    rewrite zlen_app. change (zlen [45; 45]) with 2. change (62 =? 62) with true.
    destruct (Z.leb_spec 2 (zlen text + 2)); [|lia]. replace (zlen text + 2 - 2) with (zlen text) by lia. cbn [andb test].
    unfold same_at. destruct (Z.ltb_spec (zlen text) 0); [lia|]. rewrite <- app_assoc, zlen_to_nat, drop_app_length.
    change (same ([45; 45] ++ st) (bytes "--")) with (same st []). rewrite same_nil. run. unfold comment_event, with_pos, with_state.
    cbn [ecount dcount state buffer bufpos]. by rewrite zlen_to_nat, take_app_length.
  - apply reading_start; [|lia]. rewrite !zlen_app. change (zlen [45; 45]) with 2. lia.
Qed.

(** ** Documents *)

(** The text of a document inside an element. *)
Lemma content_runs size d : size < 2 ^ 32 -> 6 <= size -> forall c n s pend, reading size n d s pend -> 1 <= n ->
  fits size c ->
  exists s' it pend', runs s (print c) s' it /\ reading size n d s' pend' /\
    it ++ map IChar pend' = map IChar pend ++ items c.
Proof.
  intros Hs H6 c. induction c as [|c rest IH|name attr body IHb rest IH|name attr rest IH|text rest IH];
    intros n s pend Hr Hn Hf; cbn [print items fits] in *.
  - exists s, [], pend. rewrite app_nil_r. split; [constructor|done].
  - destruct (escape_runs size n d s pend c) as (s1 & i1 & p1 & H1 & Hr1 & E1); [done|lia|done|].
    destruct (IH n s1 p1 Hr1 Hn Hf) as (s2 & i2 & p2 & H2 & Hr2 & E2).
    exists s2, (i1 ++ i2), p2. split; [by eapply runs_app|]. split; [done|].
    rewrite <- app_assoc, E2, app_assoc, E1. by apps.
  - destruct Hf as (Hname & Ha & Hl & Hsz & Hsz' & Hfb & Hfr).
    destruct (start_runs size n d s pend name attr false) as (s1 & H1 & Hr1); [done|left; lia|done|done|done|done| |done|].
    { unfold tag_of. cbn [slash]. by rewrite app_nil_r. }
    destruct (IHb (n + 1) s1 [] Hr1 ltac:(lia) Hfb) as (s2 & i2 & p2 & H2 & Hr2 & E2).
    destruct (end_runs size (n + 1) d s2 p2 name) as (s3 & b & H3 & Hb & Hst); [done|lia|done|done|done|].
    replace (n + 1 - 1) with n in Hst by lia.
    destruct (IH n (Mk n d NONE b 0) []) as (s4 & i4 & p4 & H4 & Hr4 & E4); [apply reading_start; [done|lia]|done|done|].
    unfold after_end, end_events in Hst. rewrite start_flats in H1.
    unfold doc_event in H1. destruct (Z.eqb_spec n 0); [lia|].
    unfold tag_of in H1. cbn [slash flats map concat app] in H1. rewrite app_nil_r in H1.
    exists s4, ((map IChar pend ++ [IStart name (attr_list attr)]) ++ i2 ++ map IChar p2 ++ [IEnd name] ++ i4), p4.
    split; [|split; [done|]].
    + replace (60 :: (name ++ attrs_text attr) ++ 62 :: print body ++ 60 :: (47 :: name) ++ 62 :: print rest)
        with ((60 :: (name ++ attrs_text attr) ++ [62]) ++ print body ++ (60 :: 47 :: name) ++ [62] ++ print rest)
        by (by apps).
      eapply runs_app; [exact H1|]. eapply runs_app; [exact H2|]. eapply runs_app; [exact H3|].
      eapply runs_app; [|exact H4]. by apply (runs_one s3 62 _ [EndElement name]).
    + cbn in E2, E4. apps. rewrite E4, (app_assoc i2), E2. by apps.
  - destruct Hf as (Hname & Ha & Hl & Hsz & Hfr).
    destruct (start_runs size n d s pend name attr true) as (s1 & H1 & Hr1); [done|left; lia|done|done|done|done| |lia|].
    { unfold tag_of. cbn [slash]. rewrite zlen_app. exact Hsz. }
    destruct (IH n s1 [] Hr1 Hn Hfr) as (s2 & i2 & p2 & H2 & Hr2 & E2).
    rewrite start_flats in H1. unfold doc_event in H1. destruct (Z.eqb_spec n 0); [lia|].
    cbn [flats map concat app] in H1, E2. unfold tag_of in H1. cbn [slash] in H1.
    exists s2, ((map IChar pend ++ [IStart name (attr_list attr); IEnd name]) ++ i2), p2. split; [|split; [done|]].
    + replace (60 :: (name ++ attrs_text attr ++ [47]) ++ 62 :: print rest)
        with ((60 :: ((name ++ attrs_text attr) ++ [47]) ++ [62]) ++ print rest) by (by apps).
      by eapply runs_app.
    + rewrite <- app_assoc, E2. by apps.
  - destruct Hf as (Ht & Hsz & Hfr).
    destruct (note_runs size n d s pend text) as (s1 & H1 & Hr1); [done|left; lia|done|done|].
    destruct (IH n s1 [] Hr1 Hn Hfr) as (s2 & i2 & p2 & H2 & Hr2 & E2).
    exists s2, ((map IChar pend ++ comment_items text) ++ i2), p2. split; [|split; [done|]].
    + replace (60 :: 33 :: 45 :: 45 :: text ++ 45 :: 45 :: 62 :: print rest)
        with ((60 :: 33 :: 45 :: 45 :: text ++ [45; 45; 62]) ++ print rest) by (by apps).
      by eapply runs_app.
    + cbn in E2. rewrite <- app_assoc, E2. by apps.
Qed.

(** In front of the root element other characters are ignored. *)
Lemma lead_runs d b lead : Forall (fun c => c <> 60) lead -> runs (Mk 0 d NONE b 0) lead (Mk 0 d NONE b 0) [].
Proof.
  induction 1 as [|c lead Hc Hl IH]; [constructor|]. apply (runs_step _ _ (Mk 0 d NONE b 0)); [|done|exact IH].
  unfold step. cbn [state]. unfold text_step. destruct (Z.eqb_spec c 60); [done|reflexivity].
Qed.

(** C20.  Round trip: a document written with [print] behind other characters, in a
    buffer that every tag and comment fits into, is parsed to its end, and what is
    reported is the document: its start and end, each element with its attributes,
    each character of its texts with the entities resolved, each comment, in order.
    Neither the bytes in the buffer nor where a long text is cut matter. *)
Theorem xml_roundtrip (mem lead rest name : list Z) (attr : list (list Z * list Z)) (body : content) :
  6 <= zlen mem < 2 ^ 32 -> Forall (fun c => c <> 60) lead -> fits (zlen mem) (Elem name attr body Done) ->
  exists s ev, parse_file (make mem) (lead ++ print (Elem name attr body Done) ++ rest) = Some (s, ev, true) /\
    end_ s = true /\ flats ev = IStartDocument :: items (Elem name attr body Done) ++ [IEndDocument].
Proof.
  intros [H6 Hs] Hlead (Hname & Ha & Hl & Hsz & Hsz' & Hfb & _). cbn [print items]. set (size := zlen mem) in *.
  destruct (start_runs size 0 0 (Mk 0 0 NONE mem 0) [] name attr false) as (s1 & H1 & Hr1);
    [apply reading_start; [done|lia]|by right|done|done|done|done| |done|].
  { unfold tag_of. cbn [slash]. by rewrite app_nil_r. }
  destruct (content_runs size 0 Hs H6 body 1 s1 [] Hr1 ltac:(lia) Hfb) as (s2 & i2 & p2 & H2 & Hr2 & E2).
  destruct (end_runs size 1 0 s2 p2 name Hr2 ltac:(lia) Hname Hs Hsz') as (s3 & b & H3 & Hb & Hst).
  change (1 - 1) with 0 in Hst. unfold after_end, end_events in Hst. cbn [Z.eqb] in Hst.
  rewrite start_flats in H1. unfold doc_event in H1. change (0 =? 0) with true in H1, Hst.
  unfold tag_of in H1. cbn [slash flats map concat app flat] in H1. rewrite app_nil_r in H1.
  pose proof (runs_app _ _ _ _ _ _ _ (lead_runs 0 mem lead Hlead)
    (runs_app _ _ _ _ _ _ _ H1 (runs_app _ _ _ _ _ _ _ H2 H3))) as Hrun.
  apply (runs_parse _ _ _ _ (62 :: rest)) in Hrun. cbn [parse_loop] in Hrun. rewrite Hst in Hrun.
  rewrite bind_Some in Hrun. cbn [negb] in Hrun. rewrite decide_True in Hrun by done.
  destruct Hrun as (ev & Ep & Ev). exists (Mk 0 0 END b 0), ev. split; [|split; [done|]].
  - rewrite <- Ep. unfold parse_file. cbn [make buffer]. f_equal. by apps.
  - rewrite Ev. cbn in E2 |- *. apps. rewrite (app_assoc i2), E2. by apps.
Qed.

Definition sample_body : content :=
  Char 120 (Char 60 (Note (bytes "k") (Leaf (bytes "b") [(bytes "p", bytes "1")] (Char 38 Done)))).

Lemma xml_roundtrip_witness : exists s ev,
  parse_file (make (replicate 20 97))
    (bytes " " ++ print (Elem (bytes "a") [(bytes "k", bytes "v w")] sample_body Done) ++ []) = Some (s, ev, true) /\
  end_ s = true /\
  flats ev = IStartDocument :: items (Elem (bytes "a") [(bytes "k", bytes "v w")] sample_body Done) ++ [IEndDocument].
Proof.
  apply (xml_roundtrip (replicate 20 97) (bytes " ") [] (bytes "a") [(bytes "k", bytes "v w")] sample_body).
  - split; [discriminate|reflexivity].
  - repeat constructor; discriminate.
  - cbn. unfold good_attr, is_name, is_value. cbn.
    repeat match goal with
    | |- _ /\ _ => split
    | |- Forall _ _ => constructor
    | |- _ <> _ => discriminate
    | |- is_note _ => intros p r E q ->; destruct q as [|? [|? [|? ?]]]; discriminate E
    end; try reflexivity; try discriminate; exact I.
Defined.

(** ** Pieces *)

(** At the end of a document the parser starts anew with the next piece; the state
    behaves like that between two documents. *)
Definition norm (s : t) : t := if decide (state s = END) then with_state s NONE else s.

Lemma norm_id s : state s <> END -> norm s = s.
Proof. intros H. unfold norm. by rewrite decide_False. Qed.

Lemma norm_state s : state (norm s) <> END.
Proof. unfold norm. by case_decide. Qed.

(** Equal up to [END]. *)
Definition alike (r r' : option (t * list event * bool)) : Prop :=
  match r, r' with
  | Some (s, ev, ok), Some (s', ev', ok') => norm s = norm s' /\ ev = ev' /\ ok = ok'
  | None, None => True
  | _, _ => False
  end.

#[export] Instance alike_equiv : Equivalence alike.
Proof.
  split.
  - intros [[[s ev] ok]|]; cbn; auto.
  - intros [[[s ev] ok]|] [[[s' ev'] ok']|]; cbn; try done. by intros (-> & -> & ->).
  - intros [[[s ev] ok]|] [[[s1 ev1] ok1]|] [[[s2 ev2] ok2]|]; cbn; try done. by intros (-> & -> & ->).
Qed.

Lemma step_norm s c : alike (step (norm s) c) (step s c).
Proof.
  unfold norm. case_decide as E; [|reflexivity]. destruct s as [n d m b p]. cbn in E. subst m.
  unfold with_state. cbn [ecount dcount state buffer bufpos]. unfold step. cbn [state]. unfold text_step. cbn [ecount].
  destruct (c =? 60); [by cbn|]. destruct (negb (n =? 0) && (c =? 38)); [by cbn|].
  destruct (negb (n =? 0)); [|by cbn]. unfold putBuffer, store. cbn [buffer bufpos].
  destruct (wr b p c) as [b'|]; [|done]. run. unfold with_pos, with_buffer. cbn.
  by destruct (zlen b' <=? p + 1).
Qed.

Lemma loop_norm data : forall s, alike (partial_loop (norm s) data) (partial_loop s data).
Proof.
  induction data as [|c data IH]; intros s; cbn [partial_loop].
  - cbn. rewrite norm_id by apply norm_state. done.
  - pose proof (step_norm s c) as Hs.
    destruct (step (norm s) c) as [[[s1 ev1] ok1]|], (step s c) as [[[s2 ev2] ok2]|]; try done. cbn in Hs.
    destruct Hs as (E & -> & ->). run. destruct ok2; [|by cbn]. pose proof (IH s1) as H1. pose proof (IH s2) as H2.
    rewrite E in H1. rewrite H1 in H2.
    destruct (partial_loop s1 data) as [[[? ?] ?]|], (partial_loop s2 data) as [[[? ?] ?]|]; try done.
    cbn in H2 |- *. by destruct H2 as (-> & -> & ->).
Qed.

Lemma partial_norm s data : alike (partial s data) (partial_loop s data).
Proof. apply loop_norm. Qed.

(** One call after the other, as long as they succeed. *)
Fixpoint partials (s : t) (pieces : list (list Z)) : option (t * list event * bool) :=
  match pieces with
  | [] => Some (s, [], true)
  | data :: pieces =>
      '(s, ev, ok) ← partial s data;
      if (ok : bool) then '(s, ev', ok) ← partials s pieces; Some (s, ev ++ ev', ok) else Some (s, ev, false)
  end.

Lemma loop_app a b : forall s, partial_loop s (a ++ b) =
  '(s, ev, ok) ← partial_loop s a;
  if (ok : bool) then '(s, ev', ok) ← partial_loop s b; Some (s, ev ++ ev', ok) else Some (s, ev, false).
Proof.
  induction a as [|c a IH]; intros s; cbn [app partial_loop].
  - run. by destruct (partial_loop s b) as [[[? ?] ?]|].
  - destruct (step s c) as [[[s1 ev1] [|]]|]; run; [|done|done]. rewrite IH.
    destruct (partial_loop s1 a) as [[[s2 ev2] [|]]|]; run; [|done|done].
    destruct (partial_loop s2 b) as [[[s3 ev3] ok3]|]; run; [|done]. by rewrite app_assoc.
Qed.

(** However a text is cut into pieces, [partial] called for one after the other
    reports the same events and the same verdict as one call for the whole text, and
    leaves the parser in the same state, but for the mark of a document's end. *)
Theorem xml_pieces (s : t) (pieces : list (list Z)) : alike (partials s pieces) (partial s (concat pieces)).
Proof.
  rewrite partial_norm. revert s. induction pieces as [|data pieces IH]; intros s; cbn [partials concat]; [by cbn|].
  rewrite loop_app. pose proof (partial_norm s data) as Hp.
  destruct (partial s data) as [[[s1 ev1] ok1]|], (partial_loop s data) as [[[s2 ev2] ok2]|]; try done. cbn in Hp.
  destruct Hp as (E & -> & ->). run. destruct ok2; [|by cbn].
  pose proof (loop_norm (concat pieces) s1) as H1. rewrite E, loop_norm, <- (IH s1) in H1.
  destruct (partials s1 pieces) as [[[? ?] ?]|], (partial_loop s2 (concat pieces)) as [[[? ?] ?]|]; try done.
  cbn in H1 |- *. by destruct H1 as (-> & -> & ->).
Qed.

(** ** Where the parser goes wrong *)

(** What a parse reports, and its verdict. *)
Definition report (mem doc : list Z) : option (list event * bool) :=
  '(_, ev, ok) ← parse_file (make mem) doc; Some (ev, ok).

(** The name of an entity is stored without a look at the size of the buffer. *)
Lemma xml_entity_overrun : report (replicate 8 97) (bytes "<a>&abcdefghi;</a>") = None.
Proof. vm_compute. reflexivity. Qed.

(** The start of the section is reported as its text. *)
Lemma xml_cdata_prefix : report (replicate 32 0) (bytes "<a><![CDATA[x]]></a>") =
  Some ([StartDocument; StartElement (bytes "a") []; Characters (bytes "![CDATAx"); EndElement (bytes "a"); EndDocument],
    true).
Proof. vm_compute. reflexivity. Qed.

(** Its end is not seen when the byte of the buffer behind the end mark is not zero. *)
Lemma xml_cdata_endless : report (replicate 32 97) (bytes "<a><![CDATA[x]]></a>") =
  Some ([StartDocument; StartElement (bytes "a") []], false).
Proof. vm_compute. reflexivity. Qed.

(** The end mark of a comment is not seen when the buffer is full inside of it. *)
Lemma xml_comment_endless : report (replicate 8 97) (bytes "<!--1234567--><a/>") =
  Some ([Comment (bytes "1234567-")], false).
Proof. vm_compute. reflexivity. Qed.

(** The value of an attribute without quotes is the name of the element. *)
Lemma xml_attr_unquoted : report (replicate 32 97) (bytes "<a b=c></a>") =
  Some ([StartDocument; StartElement (bytes "a") [bytes "b"; bytes "a"]; EndElement (bytes "a"); EndDocument], true).
Proof. vm_compute. reflexivity. Qed.

(** An apostrophe becomes a grave accent. *)
Lemma xml_apos : report (replicate 32 97) (bytes "<a>&apos;</a>") =
  Some ([StartDocument; StartElement (bytes "a") []; Characters [96]; EndElement (bytes "a"); EndDocument], true).
Proof. vm_compute. reflexivity. Qed.

(** A tag without text: when the buffer starts with a name character of an earlier
    tag, the byte at index [bufpos - 1], which wraps around, is read. *)
Lemma xml_empty_tag n d c b : isElement c = true -> zlen b < 2 ^ 32 - 1 -> step (Mk n d TAG (c :: b) 0) 62 = None.
Proof.
  intros Hc Hb. change (parseTag (Mk n d NONE (c :: b) 0) = None). unfold parseTag. cbn [buffer bufpos].
  rewrite rd_cons_0. run. destruct (Z.eqb_spec c 47) as [->|]; [done|]. destruct (Z.eqb_spec c 33) as [->|]; [done|].
  destruct (Z.eqb_spec c 63) as [->|]; [done|]. rewrite Hc. cbn [negb].
  assert (rd (c :: b) (u32 (0 - 1)) = None) as ->; [|done]. change (u32 (0 - 1)) with (2 ^ 32 - 1).
  rewrite rd_cons_pos by lia. unfold rd. destruct (Z.ltb_spec (2 ^ 32 - 1 - 1) 0); [done|].
  apply lookup_ge_None_2. unfold zlen in Hb. lia.
Qed.

(** End tags are not compared with the start tags. *)
Lemma xml_end_any : report (replicate 32 97) (bytes "<a></b>") =
  Some ([StartDocument; StartElement (bytes "a") []; EndElement (bytes "b"); EndDocument], true).
Proof. vm_compute. reflexivity. Qed.
