(* ===== verification/Keydata.v ===== *)
(** * Key files (corelib/keydata.cpp, inc/ucommon/keydata.h)

    A [keyfile] holds its sections, and a section ([keydata]) its keys, in
    [OrderedIndex] lists: here they are the lists of their members, from head to
    tail.  Texts and objects lie in the pieces of memory of the keyfile's
    [memalloc]; a text is known by its characters, which nobody changes once it is
    there.  What a piece that was never written holds is the parameter [stale].  A
    section is referred to by its place in the list.  A file is the list of its
    characters and whether reading it ends in an error. *)

From stdpp Require Import strings.
From S2P Require Import Prelude CLib Strings Memory.

#[local] Open Scope pager_scope.

(** ** <stdio.h> *)

Record stream := Stream { data : list Z; failing : bool; eof : bool }.

(** The characters up to a newline, [n] of them at most, and whether the end came
    first. *)
Fixpoint read_line (n : nat) (l : list Z) : list Z * list Z * bool :=
  match n, l with
  | O, _ => ([], l, false)
  | S _, [] => ([], [], true)
  | S n, c :: l =>
      if c =? 10 then ([c], l, false) else let '(line, rest, e) := read_line n l in (c :: line, rest, e)
  end.

(** [fgets]: nothing when the end or an error is met first. *)
Definition fgets (size : Z) (f : stream) : option (list Z) * stream :=
  let '(line, rest, e) := read_line (Z.to_nat (size - 1)) (data f) in
  let f' := Stream rest (failing f) (eof f || (e && negb (failing f))) in
  (if e && failing f then None else match line with [] => None | _ => Some line end, f').

Definition EBADF : Z := 9.

(** [eq_case] *)
Definition eq_case (a b : list Z) : bool := strcmp (map tolower a) (map tolower b) =? 0.

(** ** Sections *)

Module keydata.

Record keyvalue := KeyValue { id : list Z; value : list Z }.
Record t := Mk { name : list Z; index : list keyvalue }.

Definition sizeof_keyvalue : Z := 32.
Definition sizeof_keydata : Z := 56.

Definition matches (key : list Z) (kv : keyvalue) : bool := eq_case key (id kv).

Definition get (d : t) (key : list Z) : option (list Z) := value <$> List.find (matches key) (index d).

(** [keys->delist (&index)] for the first match *)
Fixpoint delist (key : list Z) (l : list keyvalue) : list keyvalue :=
  match l with
  | [] => []
  | kv :: l => if matches key kv then l else kv :: delist key l
  end.

Definition clear (d : t) (key : list Z) : t := Mk (name d) (delist key (index d)).

Section alloc.
Context `{PageSource} (stale : Z -> list Z).

(** [MemoryProtocol::dup]: [String::set] does nothing in a piece of one byte. *)
Definition dup (pool : memalloc.t) (str : list Z) : res (memalloc.t * list Z) :=
  '(pool, a) <~ alloc pool (zlen str + 1);
  ret (pool, if zlen str + 1 <? 2 then stale a else str).

Definition set (pool : memalloc.t) (d : t) (key : list Z) (val : option (list Z)) : res (memalloc.t * t) :=
  '(pool, _) <~ alloc pool sizeof_keyvalue;
  let keys := delist key (index d) in
  '(pool, k) <~ dup pool key;
  '(pool, v) <~ match val with Some v => dup pool v | None => ret (pool, []) end;
  ret (pool, Mk (name d) (keys ++ [KeyValue k v])).

(** The sections' constructors, in the memory [create] and [load] have for them. *)
Definition make (pool : memalloc.t) (nm : list Z) : res (memalloc.t * t) :=
  '(pool, n) <~ dup pool nm; ret (pool, Mk n []).

Definition make_defaults : t := Mk (bytes "-") [].

End alloc.

End keydata.

(** ** Files of sections *)

Module keyfile.

Record t := Mk { pool : memalloc.t; defaults : option keydata.t; index : list keydata.t; errcode : Z }.

Definition make (pagesize paging : Z) : t := Mk (memalloc.make pagesize paging) None [] 0.

Definition release (s : t) : t := Mk (memalloc.purge (pool s)) None [] (errcode s).

Definition matches (key : list Z) (d : keydata.t) : bool := eq_case key (keydata.name d).

(** The place of a section. *)
Definition find (s : t) (key : list Z) : option nat := fst <$> list_find (fun d => Is_true (matches key d)) (index s).

Definition get (s : t) (key : list Z) : option keydata.t := i ← find s key; index s !! i.

(** The object a reference stands for: [None] is [defaults]. *)
Definition section (s : t) (r : option nat) : option keydata.t :=
  match r with None => defaults s | Some i => index s !! i end.

Definition put_section (s : t) (r : option nat) (pool : memalloc.t) (d : keydata.t) : t :=
  match r with
  | None => Mk pool (Some d) (index s) (errcode s)
  | Some i => Mk pool (defaults s) (<[i := d]> (index s)) (errcode s)
  end.

Definition with_errcode (s : t) (e : Z) : t := Mk (pool s) (defaults s) (index s) e.

(** ** Writing *)

Definition line_text (kv : keydata.keyvalue) : list Z :=
  let '(keydata.KeyValue id value) := kv in
  if in_set value 34 then id ++ 61 :: value ++ [10] else id ++ 61 :: 34 :: value ++ [34; 10].

Definition lines_text (l : list keydata.keyvalue) : list Z := concat (map line_text l).

Definition section_text (d : keydata.t) : list Z :=
  91 :: keydata.name d ++ 93 :: 10 :: lines_text (keydata.index d) ++ [10].

Definition text (s : t) : list Z :=
  lines_text (match defaults s with Some d => keydata.index d | None => [] end) ++ 10 ::
  concat (map section_text (index s)).

(** [save]: [opens] is whether [fopen] succeeds; the contents of the file. *)
Definition save (s : t) (path : list Z) (opens : bool) : t * bool * option (list Z) :=
  match path with
  | [] => (s, false, None)
  | _ => if opens then (s, true, Some (text s)) else (with_errcode s EBADF, false, None)
  end.

Section alloc.
Context `{PageSource} (stale : Z -> list Z).

(** [section->set (key, value)] *)
Definition set (s : t) (r : option nat) (key : list Z) (val : option (list Z)) : res t :=
  d <~ need (section s r);
  '(p, d) <~ keydata.set stale (pool s) d key val;
  ret (put_section s r p d).

(** A section of the same name is taken out of the list. *)
Definition create (s : t) (nm : list Z) : res (t * nat) :=
  '(p, _) <~ alloc (pool s) keydata.sizeof_keydata;
  let l := match find s nm with Some i => take i (index s) ++ drop (S i) (index s) | None => index s end in
  '(p, d) <~ keydata.make stale p nm;
  ret (Mk p (defaults s) (l ++ [d]) (errcode s), length l).

(** [get (nm)], or else [create (nm)] *)
Definition get_create (s : t) (nm : list Z) : res (t * nat) :=
  match find s nm with Some i => ret (s, i) | None => create s nm end.

Definition make_defaults (s : t) : res t :=
  match defaults s with
  | Some _ => ret s
  | None =>
      '(p, _) <~ alloc (pool s) keydata.sizeof_keydata;
      ret (Mk p (Some keydata.make_defaults) (index s) (errcode s))
  end.

Fixpoint set_all (s : t) (r : option nat) (l : list keydata.keyvalue) : res t :=
  match l with
  | [] => ret s
  | kv :: l => s <~ set s r (keydata.id kv) (Some (keydata.value kv)); set_all s r l
  end.

(** [load (const keydata * )] *)
Definition load_section (s : t) (copy : keydata.t) : res t :=
  '(s, i) <~ get_create s (keydata.name copy); set_all s (Some i) (keydata.index copy).

Fixpoint load_sections (s : t) (l : list keydata.t) : res t :=
  match l with
  | [] => ret s
  | d :: l => s <~ load_section s d; load_sections s l
  end.

(** [load (const keyfile * )] *)
Definition load_copy (s copy : t) : res t :=
  s <~ match defaults copy with
       | Some d => s <~ make_defaults s; set_all s None (keydata.index d)
       | None => ret s
       end;
  load_sections s (index copy).

(** ** Reading *)

Definition sizeof_linebuf : Z := 1024.

(** The variables of the loop. *)
Record loader := Loader {
  file : t; linebuf : list Z; lp : Z; size : Z; current : option nat; fp : stream }.

(** [next]: the next line. *)
Definition next_line (l : loader) (s : t) (b : list Z) (cur : option nat) : loader :=
  Loader s b 0 sizeof_linebuf cur (fp l).

(** The text from [lp] on, cut at the first [c]: the place of [c]. *)
Definition cut (b : list Z) (lp c : Z) : option (option (Z * list Z)) :=
  str ← cstr (drop (Z.to_nat lp) b);
  match strchr str c with
  | None => Some None
  | Some k => b ← wr b (lp + k) 0; Some (Some (lp + k, b))
  end.

(** [String::strip] at a place of the buffer: the text. *)
Definition strip_at (b : list Z) (off : Z) (clist : list Z) : option (list Z * Z) :=
  '(b', o) ← Str.strip (drop (Z.to_nat off) b) (Some clist);
  Some (take (Z.to_nat off) b ++ b', off + o).

Definition text_at (b : list Z) (off : Z) : option (list Z) := cstr (drop (Z.to_nat off) b).

Definition quotes : list Z := [34; 34; 39; 39; 123; 125; 40; 41].

(** A line that names a section. *)
Definition section_line (l : loader) (b : list Z) (p : Z) : res loader :=
  c <~ need (cut b p 93);
  match c with
  | None => ret (next_line l (file l) b (current l))
  | Some (_, b) =>
      '(b, off) <~ need (strip_at b (p + 1) [32; 9]);
      nm <~ need (text_at b off);
      '(s, i) <~ get_create (file l) nm;
      ret (next_line l s b (Some i))
  end.

(** A line that sets a key. *)
Definition key_line (l : loader) (b : list Z) (p : Z) : res loader :=
  c <~ need (cut b p 61);
  match c with
  | None => ret (next_line l (file l) b (current l))
  | Some (ep, b) =>
      '(b, key) <~ need (strip_at b p [32; 9]);
      '(b, val) <~ need (strip_at b (ep + 1) [32; 9; 13; 10]);
      '(u, r) <~ need (Str.unquote (Some (drop (Z.to_nat val) b)) quotes);
      let b := take (Z.to_nat val) b ++ default [] u in
      v <~ (match r with None => ret None | Some o => v <~ need (text_at b (val + o)); ret (Some v) end);
      k <~ need (text_at b key);
      s <~ set (file l) (current l) k v;
      ret (next_line l s b (current l))
  end.

(** [while(isspace ( *lp)) ++lp;] *)
Fixpoint skip_blank (b : list Z) : option Z :=
  match b with
  | [] => None
  | c :: b => if isspace c then Z.succ <$> skip_blank b else Some 0
  end.

(** What is done with a line. *)
Definition line (l : loader) (b : list Z) : res loader :=
  p <~ need (skip_blank b);
  c <~ need (rd b p);
  if c =? 0 then ret (next_line l (file l) b (current l))
  else if c =? 91 then section_line l b p
  else if negb (isalnum c) then ret (next_line l (file l) b (current l))
  else key_line l b p.

(** One round of the loop: the loop goes on with the loader, or ends. *)
Definition load_step (l : loader) : res (loader + t) :=
  b <~ need (wr (linebuf l) (lp l) 0);
  let '(r, f) := fgets (size l) (fp l) in
  '(s, b) <~ (match r with
    | None =>
        b <~ need (wr b (lp l) 0);
        ret (with_errcode (file l) (if failing (fp l) then 1 else 0), b)
    | Some str =>
        b <~ need (blit b (lp l) (str ++ [0]));
        b <~ need (Str.behind (lp l) (fun b => Str.chop b (Some [13; 10; 9; 32])) b);
        ret (file l, b)
    end);
  n <~ need (strlen (drop (Z.to_nat (lp l)) b));
  let ep := lp l + n in
  let l := Loader s b (lp l) (size l) (current l) f in
  c <~ (if n =? 0 then ret 0 else need (rd b (ep - 1)));
  if c =? 92 then ret (inl (Loader s b (ep - 1) (sizeof_linebuf - (ep - 1)) (current l) f))
  else
    c <~ need (rd b 0);
    if (c =? 0) && eof f then ret (inr s)
    else l <~ line l b; ret (inl l).

Fixpoint load_loop (fuel : nat) (l : loader) : res t :=
  match fuel with
  | O => None
  | S fuel =>
      r <~ load_step l;
      match r with inl l => load_loop fuel l | inr s => ret s end
  end.

(** [load (path)]: [fp] is what [fopen] returns, [mem] what the stack holds where
    [linebuf] is.  The fuel is enough for a file that can be read to its end. *)
Definition load (s : t) (path : list Z) (fp : option stream) (mem : list Z) : res t :=
  match path, fp with
  | [], _ => ret s
  | _, None => ret (with_errcode s EBADF)
  | _, Some f =>
      s <~ make_defaults (with_errcode s 0);
      load_loop (S (S (length (data f)))) (Loader s mem 0 sizeof_linebuf None f)
  end.

End alloc.

End keyfile.
