(* ===== verification/KeydataLaws.v ===== *)
(** * Key files as dictionaries, and their round trip through a file *)

From stdpp Require Import gmap strings.
From S2P Require Import Prelude CLib Strings Memory MemoryLaws Keydata.
Import keydata.

#[local] Open Scope pager_scope.

(** ** Keys without case *)

Definition fold (s : list Z) : list Z := map tolower s.

Lemma fold_nonul s : nonul s -> nonul (fold s).
Proof.
  intros H. unfold fold. apply List.Forall_map. eapply list.Forall_impl; [exact H|]. cbn. intros c Hc.
  unfold tolower, isupper. destruct ((65 <=? c) && (c <=? 90)) eqn:E; [|done].
  apply andb_true_iff in E as [E%Z.leb_le _]. lia.
Qed.

Lemma eq_case_fold a b : nonul a -> nonul b -> eq_case a b = bool_decide (fold a = fold b).
Proof.
  intros Ha Hb. unfold eq_case. fold (fold a) (fold b).
  pose proof (strcmp_eq (fold a) (fold b) (fold_nonul _ Ha) (fold_nonul _ Hb)) as H.
  destruct (Z.eqb_spec (strcmp (fold a) (fold b)) 0); case_bool_decide; tauto.
Qed.

(** The dictionary of a list of keys: the first one of a name counts. *)
Fixpoint dict (l : list keyvalue) : gmap (list Z) (list Z) :=
  match l with [] => ∅ | kv :: l => <[fold (id kv) := value kv]> (dict l) end.

Definition names (l : list keyvalue) : list (list Z) := map (fun kv => fold (id kv)) l.

(** Keys are texts, and no two have the same name. *)
Definition good_keys (l : list keyvalue) : Prop :=
  Forall (fun kv => nonul (id kv)) l /\ NoDup (names l).

Lemma good_cons kv l : good_keys (kv :: l) ->
  nonul (id kv) /\ ~ fold (id kv) ∈ names l /\ good_keys l.
Proof. intros [[? ?]%list.Forall_cons [? ?]%list.NoDup_cons]. done. Qed.

Lemma dict_none l k : ~ k ∈ names l -> dict l !! k = None.
Proof.
  induction l as [|kv l IH]; [done|]. cbn. rewrite not_elem_of_cons. intros [Hk Hl].
  rewrite lookup_insert_ne by done. by apply IH.
Qed.

Lemma get_dict nm l key : Forall (fun kv => nonul (id kv)) l -> nonul key ->
  get (Mk nm l) key = dict l !! fold key.
Proof.
  intros Hl Hk. unfold get. cbn [index]. induction Hl as [|kv l Hkv Hl IH]; [done|]. cbn [find dict].
  unfold matches at 1. rewrite eq_case_fold by done. case_bool_decide as E.
  - by rewrite <- E, lookup_insert_eq.
  - rewrite lookup_insert_ne by congruence. apply IH.
Qed.

Lemma delist_sub key l : delist key l `sublist_of` l.
Proof. induction l as [|kv l IH]; [done|]. cbn. case_match; [by constructor|by constructor]. Qed.

Lemma delist_dict key l : good_keys l -> nonul key -> good_keys (delist key l) /\
  dict (delist key l) = base.delete (fold key) (dict l).
Proof.
  intros Hl Hk. induction l as [|kv l IH]; [by cbn; rewrite delete_empty|].
  apply good_cons in Hl as (Hn & Hni & Hl). destruct (IH Hl) as [Hg Hd]. cbn [delist dict]. unfold matches.
  rewrite eq_case_fold by done. case_bool_decide as E.
  - split; [done|]. rewrite E, delete_insert_eq. symmetry. by apply delete_id, dict_none.
  - cbn [dict]. rewrite Hd. split; [|by rewrite delete_insert_ne].
    destruct Hg as [Hg1 Hg2]. split; [by constructor|]. cbn. apply list.NoDup_cons. split; [|done].
    intros Hin. apply Hni. apply list_elem_of_fmap in Hin as (x & -> & Hx). apply list_elem_of_fmap. exists x.
    split; [done|]. eapply elem_of_submseteq; [exact Hx|]. apply sublist_submseteq, delist_sub.
Qed.

Lemma good_snoc l kv : good_keys l -> nonul (id kv) -> ~ fold (id kv) ∈ names l ->
  good_keys (l ++ [kv]).
Proof.
  intros [H1 H2] Hn Hni. split; [apply Forall_app; by repeat constructor|].
  unfold names. rewrite map_app. apply list.NoDup_app. split_and!; [done| |by apply NoDup_singleton].
  intros k Hk ->%list_elem_of_singleton. done.
Qed.

Lemma dict_snoc l kv : good_keys (l ++ [kv]) -> dict (l ++ [kv]) = <[fold (id kv) := value kv]> (dict l).
Proof.
  induction l as [|x l IH]; [done|]. cbn [app]. intros (_ & Hni & Hl)%good_cons. cbn [dict]. rewrite IH by done.
  apply insert_insert_ne. intros E. apply Hni. unfold names. rewrite map_app. apply elem_of_app. right. rewrite E. left.
Qed.

Lemma gone l k : dict l !! k = None -> ~ k ∈ names l.
Proof.
  induction l as [|kv l IH]; [intros _ H; by apply elem_of_nil in H|]. cbn. rewrite not_elem_of_cons.
  destruct (decide (k = fold (id kv))) as [->|Hne]; [by rewrite lookup_insert_eq|].
  rewrite lookup_insert_ne by done. auto.
Qed.

Section alloc.
Context `{PageSource} (stale : Z -> list Z).

(** What [dup] makes of a text: a text that is not empty is copied, for an empty one
    the piece of one byte keeps what it held. *)
Definition copied (str w : list Z) : Prop :=
  (str <> [] -> w = str) /\ (str = [] -> exists a, w = stale a).

(** A text fits in a page. *)
Definition fits (p : memalloc.t) (str : list Z) : Prop :=
  zlen str + 1 <= memalloc.pagesize p - sizeof_page.

Lemma dup_served p n str : space p (n + 1) -> 0 <= n -> fits p str ->
  served (dup stale p str) (fun r => space r.1 n /\ memalloc.pagesize r.1 = memalloc.pagesize p /\ copied str r.2).
Proof.
  intros Hp Hn Hsz. unfold dup, fits in *. pose proof (zlen_nonneg str).
  eapply served_bind; [apply (alloc_served p n); [done|done|lia]|]. intros [q a] [H1 H2]. cbn [fst] in *.
  split; [done|]. split; [done|]. cbn [snd]. destruct str as [|c str]; [by split; [|exists a]|].
  rewrite zlen_cons. pose proof (zlen_nonneg str).
  destruct (Z.ltb_spec (zlen str + 1 + 1) 2); [lia|]. by split.
Qed.

(** A text that fits in a page and is not empty, so that it is copied. *)
Definition text_fits (p : memalloc.t) (str : list Z) : Prop := str <> [] /\ fits p str.

(** [set], with a key that is not empty. *)
Lemma set_copied p n d key v : space p (n + 3) -> 0 <= n -> text_fits p key -> fits p v ->
  sizeof_keyvalue <= memalloc.pagesize p - sizeof_page ->
  served (set stale p d key (Some v)) (fun r => space r.1 n /\ memalloc.pagesize r.1 = memalloc.pagesize p /\
    exists w, copied v w /\ r.2 = Mk (name d) (delist key (index d) ++ [KeyValue key w])).
Proof.
  intros Hp Hn [Hk1 Hk2] Hv Hsz. unfold set, sizeof_keyvalue, fits in *.
  eapply served_bind; [apply (alloc_served p (n + 2)); [by replace (n + 2 + 1) with (n + 3) by lia|lia|lia]|].
  intros [p1 a] [H1 E1]. cbn [fst] in *.
  eapply served_bind; [apply (dup_served p1 (n + 1)); [by replace (n + 1 + 1) with (n + 2) by lia|lia|unfold fits; lia]|].
  intros [p2 k] (H2 & E2 & Ek & _). cbn [fst snd] in *. rewrite (Ek Hk1).
  eapply served_bind; [apply (dup_served p2 n); [done|done|unfold fits; lia]|].
  intros [p3 u] (H3 & E3 & Eu). cbn [fst snd] in *. split; [done|]. split; [cbn; congruence|by exists u].
Qed.

Lemma set_served p n d key v : space p (n + 3) -> 0 <= n -> text_fits p key -> text_fits p v ->
  sizeof_keyvalue <= memalloc.pagesize p - sizeof_page ->
  served (set stale p d key (Some v)) (fun r => space r.1 n /\ memalloc.pagesize r.1 = memalloc.pagesize p /\
    r.2 = Mk (name d) (delist key (index d) ++ [KeyValue key v])).
Proof.
  intros Hp Hn Hk [Hv1 Hv2] Hsz. eapply served_mono; [by apply (set_copied p n d key v)|].
  cbn. intros r (H1 & H2 & w & [Hw _] & E). by rewrite <- (Hw Hv1).
Qed.

(** C22.  A section is a dictionary whose keys have no case: [get] looks a key up,
    [clear] removes it, [set] with a key that is not empty gives it a value, whatever
    it was before, and puts it behind the other keys.  Unless there is no memory,
    [set] is served for every key and value that fit a page.  A value that is not
    empty is the one given; for an empty one the code stores what the piece of memory
    held before ([stale], and [set_empty_stale] among the examples of the key files),
    and an empty key is left out for the same reason. *)
Theorem keydata_dictionary (p : memalloc.t) (d : keydata.t) (key v : list Z) :
  good_keys (index d) -> nonul key ->
  (forall k, nonul k -> get d k = dict (index d) !! fold k) /\
  (good_keys (index (clear d key)) /\ dict (index (clear d key)) = base.delete (fold key) (dict (index d))) /\
  (space p 3 -> key <> [] -> fits p key -> fits p v -> sizeof_keyvalue <= memalloc.pagesize p - sizeof_page ->
   served (set stale p d key (Some v)) (fun r => exists w,
     (v <> [] -> w = v) /\ (v = [] -> exists a, w = stale a) /\
     good_keys (index r.2) /\ dict (index r.2) = <[fold key := w]> (dict (index d)) /\
     index r.2 = delist key (index d) ++ [KeyValue key w] /\ name r.2 = name d)).
Proof.
  intros Hd Hk. destruct (delist_dict key (index d) Hd Hk) as [Hg He]. split_and!.
  - intros k Hk'. destruct d as [nm l]. apply get_dict; [apply Hd|done].
  - done.
  - done.
  - intros Hp Hk0 Hfk Hfv Hsz. eapply served_mono; [by apply (set_copied p 0 d key v)|].
    intros [q d'] (_ & _ & w & [Hw1 Hw2] & E). cbn [snd] in *. subst d'. exists w. cbn [index name].
    fold (delist key (index d)).
    assert (good_keys (delist key (index d) ++ [KeyValue key w])) as Hg'.
    { apply good_snoc; [done|done|]. apply gone. cbn [id]. by rewrite He, lookup_delete_eq. }
    split; [done|]. split; [done|]. split; [done|]. split; [|done].
    rewrite dict_snoc by done. cbn [id value]. rewrite He. apply insert_delete_eq.
Qed.

End alloc.

Definition sample_section : keydata.t := Mk (bytes "s") [KeyValue (bytes "A") (bytes "1"); KeyValue (bytes "b") (bytes "2")].

Definition sample_pool : memalloc.t := memalloc.make 4096 4096.

Lemma sample_space n : n < 2 ^ 32 -> space sample_pool n.
Proof. intros Hn. split; [apply make_ok; [split; [discriminate|reflexivity]|reflexivity]|cbn; lia]. Qed.

Lemma keydata_dictionary_witness :
  get sample_section (bytes "a") = Some (bytes "1") /\
  served (set (fun _ => []) sample_pool sample_section (bytes "a") (Some (bytes "3"))) (fun r =>
    index r.2 = [KeyValue (bytes "b") (bytes "2"); KeyValue (bytes "a") (bytes "3")]) /\
  served (set (fun _ => bytes "junk") sample_pool sample_section (bytes "a") (Some [])) (fun r =>
    index r.2 = [KeyValue (bytes "b") (bytes "2"); KeyValue (bytes "a") (bytes "junk")]).
Proof.
  assert (good_keys (index sample_section)) as Hg.
  { split; [repeat constructor; discriminate|]. vm_compute. apply (bool_decide_unpack _). reflexivity. }
  assert (nonul (bytes "a")) as Hk by (repeat constructor; discriminate).
  destruct (keydata_dictionary (fun _ => []) sample_pool sample_section (bytes "a") (bytes "3") Hg Hk) as (H1 & _ & H3).
  destruct (keydata_dictionary (fun _ => bytes "junk") sample_pool sample_section (bytes "a") [] Hg Hk) as (_ & _ & H4).
  split; [rewrite (H1 _ Hk); reflexivity|]. split.
  - eapply served_mono; [apply H3; [by apply sample_space|discriminate..]|].
    intros r (w & Hw & _ & _ & _ & -> & _). rewrite Hw by discriminate. reflexivity.
  - eapply served_mono; [apply H4; [by apply sample_space|discriminate..]|].
    intros r (w & _ & Hw & _ & _ & -> & _). destruct (Hw eq_refl) as [a ->]. reflexivity.
Defined.
