(* ===== verification/KeyfileLaws.v ===== *)
(** * The round trip of a key file

    What [save] writes, [load] reads: the lines one after the other, each of them in
    the buffer of the loop, through the text functions of [String]. *)

From stdpp Require Import gmap strings.
From S2P Require Import Prelude CLib Strings Memory MemoryLaws Keydata KeydataLaws.
Import keyfile.

#[local] Open Scope pager_scope.

(** ** Texts in the buffer *)

Lemma read_line_spec w rest : Forall (fun c => c <> 10) w -> forall n, (length w < n)%nat ->
  read_line n (w ++ 10 :: rest) = (w ++ [10], rest, false).
Proof.
  induction 1 as [|c w Hc Hw IH]; intros [|n] Hn; cbn in Hn; try lia; cbn [app read_line]; [done|].
  destruct (Z.eqb_spec c 10); [done|]. rewrite IH by lia. done.
Qed.

Lemma rd_last (k : list Z) c r i : i = zlen (k ++ [c]) - 1 -> rd ((k ++ [c]) ++ r) i = Some c.
Proof.
  intros ->. rewrite <- app_assoc, rd_app_r; [done|]. rewrite zlen_app. change (zlen [c]) with 1. lia.
Qed.

(** [chop] ends at a character that is not listed. *)
Lemma chop_end cl k r : head_out cl (rev k) -> Str.chop_loop cl (k ++ r) (length k) = Some (k ++ r).
Proof.
  destruct k as [|c k _] using rev_ind; [done|]. rewrite rev_app_distr. cbn [rev app head_out]. intros Hc.
  rewrite length_app, Nat.add_comm. cbn [length Nat.add Str.chop_loop].
  rewrite rd_last by (rewrite zlen_app; change (zlen [c]) with 1; unfold zlen; lia). run. by rewrite Hc.
Qed.

Lemma strip_id cl k r : nonul k -> head_out cl k -> head_out cl (rev k) ->
  Str.strip (k ++ 0 :: r) (Some cl) = Some (k ++ 0 :: r, 0).
Proof.
  intros Hn Hh Ht. unfold Str.strip, Str.trim.
  assert (Str.span_in cl (k ++ 0 :: r) = Some 0) as ->.
  { destruct k as [|c k]; [done|]. cbn [app Str.span_in]. cbn in Hh. rewrite Hh, andb_false_r. done. }
  cbn [fmap option_fmap option_map]. run. unfold Str.behind. change (Z.to_nat 0) with 0%nat. rewrite drop_0, take_0.
  unfold Str.chop. rewrite strlen_app by done. run. rewrite zlen_to_nat, chop_end by done. run. done.
Qed.

(** The first [c] of the text behind [p] is replaced. *)
Lemma cut_spec p w c u r : c <> 0 -> nonul (w ++ c :: u) -> Forall (fun x => x <> c) w ->
  cut (p ++ w ++ c :: u ++ 0 :: r) (zlen p) c = Some (Some (zlen p + zlen w, p ++ w ++ 0 :: u ++ 0 :: r)).
Proof.
  intros Hc Hn Hw. unfold cut. rewrite zlen_to_nat, drop_app_length.
  replace (w ++ c :: u ++ 0 :: r) with ((w ++ c :: u) ++ 0 :: r) at 1 by (by apps).
  rewrite cstr_app by done. run. rewrite strchr_mid by (by apply avoid_notin).
  rewrite (app_assoc p w), wr_app_r by (by rewrite zlen_app). run. by rewrite <- app_assoc.
Qed.

Lemma strip_at_id p k r cl : nonul k -> head_out cl k -> head_out cl (rev k) ->
  strip_at (p ++ k ++ 0 :: r) (zlen p) cl = Some (p ++ k ++ 0 :: r, zlen p).
Proof.
  intros Hn Hh Ht. unfold strip_at. rewrite zlen_to_nat, drop_app_length, strip_id by done. run.
  by rewrite take_app_length, Z.add_0_r.
Qed.

Lemma text_at_spec p k r : nonul k -> text_at (p ++ k ++ 0 :: r) (zlen p) = Some k.
Proof. intros Hn. unfold text_at. rewrite zlen_to_nat, drop_app_length. by apply cstr_app. Qed.

Lemma unquote_spec v r : nonul v ->
  Str.unquote (Some (34 :: v ++ 34 :: 0 :: r)) quotes = Some (Some (34 :: v ++ 0 :: 0 :: r), Some 1).
Proof.
  intros Hn. unfold Str.unquote, Str.count.
  replace (34 :: v ++ 34 :: 0 :: r) with ((34 :: v ++ [34]) ++ 0 :: r) by (by apps).
  rewrite strlen_app by (constructor; [done|apply Forall_app; split; [done|by repeat constructor]]). run.
  rewrite zlen_cons, zlen_app. change (zlen [34]) with 1. pose proof (zlen_nonneg v).
  destruct (Z.eqb_spec (zlen v + 1 + 1) 0); [lia|]. unfold quotes. cbn [Str.unquote_loop].
  change (34 :: v ++ [34]) with ((34 :: v) ++ [34]). rewrite <- app_assoc. cbn [app].
  rewrite rd_cons_0. run. change (34 :: v ++ 34 :: 0 :: r) with ((34 :: v) ++ 34 :: 0 :: r).
  rewrite rd_app_r, wr_app_r by (rewrite zlen_cons; lia). cbn [lookup list_lookup]. run. done.
Qed.

(** ** Files that can be read back *)

Definition good_key (k : list Z) : Prop :=
  match k with [] => False | c :: _ => isalnum c = true end /\ nonul k /\
  Forall (fun c => c <> 61 /\ c <> 10) k /\ head_out [32; 9] (rev k).

Definition good_value (v : list Z) : Prop :=
  v <> [] /\ nonul v /\ Forall (fun c => c <> 34 /\ c <> 10) v.

Definition good_kv (kv : keydata.keyvalue) : Prop :=
  good_key (keydata.id kv) /\ good_value (keydata.value kv) /\
  zlen (keydata.id kv) + zlen (keydata.value kv) <= 1019.

Definition good_name (n : list Z) : Prop :=
  n <> [] /\ nonul n /\ Forall (fun c => c <> 93 /\ c <> 10) n /\ head_out [32; 9] n /\ head_out [32; 9] (rev n) /\
  zlen n <= 1020.

Definition good_section (d : keydata.t) : Prop :=
  good_name (keydata.name d) /\ Forall good_kv (keydata.index d) /\ NoDup (names (keydata.index d)).

Definition default_keys (s : t) : list keydata.keyvalue :=
  match defaults s with Some d => keydata.index d | None => [] end.

Definition section_names (l : list keydata.t) : list (list Z) := map (fun d => fold (keydata.name d)) l.

Record good_file (s : t) : Prop := {
  good_defaults : Forall good_kv (default_keys s) /\ NoDup (names (default_keys s));
  good_sections : Forall good_section (index s);
  good_names : NoDup (section_names (index s)) }.

Section alloc.
Context `{PageSource} (stale : Z -> list Z).

(** ** One line *)

(** A line without its newline that [chop] leaves as it is. *)
Definition plain_line (w : list Z) : Prop :=
  nonul w /\ Forall (fun c => c <> 10) w /\ zlen w <= 1022 /\
  match rev w with [] => True | c :: _ => in_set [13; 10; 9; 32] c = false /\ c <> 92 end.

Lemma step_line s b cur w rest : zlen b = sizeof_linebuf -> plain_line w ->
  exists r, zlen (w ++ 0 :: r) = sizeof_linebuf /\
    load_step stale (Loader s b 0 sizeof_linebuf cur (Stream (w ++ 10 :: rest) false false)) =
    (l <~ line stale (Loader s (w ++ 0 :: r) 0 sizeof_linebuf cur (Stream rest false false)) (w ++ 0 :: r); ret (inl l)).
Proof.
  intros Hb (Hn & H10 & Hl & Hlast). pose proof (zlen_nonneg w). unfold sizeof_linebuf in *.
  destruct b as [|x b]; [by rewrite zlen_nil in Hb|].
  destruct (block_split (0 :: b) (zlen w + 2)) as (p & r & Eb & Hp); [rewrite zlen_cons in *; lia|].
  exists (0 :: r). rewrite zlen_cons in Hb.
  assert (zlen (w ++ 0 :: 0 :: r) = 1024) as Hlen.
  { apply (f_equal zlen) in Eb. rewrite zlen_app, zlen_cons in Eb. rewrite zlen_app, !zlen_cons. lia. }
  split; [done|]. unfold load_step. cbn [linebuf lp size fp file current].
  rewrite (wr_app_r [] b 0 x 0 eq_refl : wr (x :: b) 0 0 = _). cbn [app need rbind fmap option_fmap option_map].
  unfold fgets. cbn [data failing eof]. rewrite read_line_spec by (done || (unfold zlen in *; lia)). cbn [andb orb].
  assert (match w ++ [10] with [] => None | _ => Some (w ++ [10]) end = Some (w ++ [10])) as -> by by destruct w.
  rewrite Eb. replace (blit (p ++ r) 0 ((w ++ [10]) ++ [0])) with (Some ([] ++ ((w ++ [10]) ++ [0]) ++ r)).
  2: { symmetry. apply (blit_mid [] p); [done|]. unfold zlen in Hp. rewrite !length_app. cbn. lia. }
  cbn [app need rbind fmap option_fmap option_map]. unfold Str.behind. change (Z.to_nat 0) with 0%nat. rewrite drop_0, take_0.
  unfold Str.chop. rewrite <- (app_assoc (w ++ [10])). cbn [app].
  rewrite strlen_app by (apply Forall_app; split; [done|by repeat constructor]). run.
  rewrite zlen_to_nat, length_app, Nat.add_comm. cbn [length Nat.add Str.chop_loop].
  rewrite rd_last by (rewrite zlen_app; change (zlen [10]) with 1; unfold zlen; lia). run.
  change (in_set [13; 10; 9; 32] 10) with true. cbv iota. rewrite <- app_assoc. cbn [app].
  rewrite wr_app_r by done. run. rewrite chop_end by (by destruct (rev w); [|destruct Hlast]). run.
  cbn [app need rbind fmap option_fmap option_map ret]. rewrite drop_0, strlen_app by done.
  cbn [need rbind fmap option_fmap option_map ret].
  assert ((if zlen w =? 0 then ret 0 else need (rd (w ++ 0 :: 0 :: r) (0 + zlen w - 1))) =
    (ret (match rev w with [] => 0 | c :: _ => c end))) as ->.
  { destruct w as [|c k _] using rev_ind; [done|]. rewrite rev_app_distr. cbn [rev app].
    destruct (Z.eqb_spec (zlen (k ++ [c])) 0) as [E|]; [rewrite zlen_app in E; change (zlen [c]) with 1 in E; pose proof (zlen_nonneg k); lia|].
    by rewrite rd_last by lia. }
  cbn [rbind ret]. destruct (Z.eqb_spec (match rev w with [] => 0 | c :: _ => c end) 92) as [E|_].
  { destruct (rev w); [done|]. by destruct Hlast. }
  assert (exists c, rd (w ++ 0 :: 0 :: r) 0 = Some c) as [c ->] by (destruct w; by eexists).
  cbn [need rbind fmap option_fmap option_map andb]. by rewrite andb_false_r.
Qed.

(** An empty line does nothing. *)
Lemma step_blank s b cur rest : zlen b = sizeof_linebuf ->
  exists b', zlen b' = sizeof_linebuf /\
    load_step stale (Loader s b 0 sizeof_linebuf cur (Stream (10 :: rest) false false)) =
    ret (inl (Loader s b' 0 sizeof_linebuf cur (Stream rest false false))).
Proof.
  intros Hb. destruct (step_line s b cur [] rest Hb) as (r & Hr & E); [repeat split; try constructor; discriminate|].
  exists (0 :: r). split; [done|]. exact E.
Qed.

Lemma alnum_facts c : isalnum c = true -> isspace c = false /\ c <> 0 /\ c <> 91 /\ in_set [32; 9] c = false.
Proof.
  intros Hc. assert (48 <= c) as Hc48.
  { unfold isalnum, isdigit, isupper, islower in Hc. rewrite !orb_true_iff, !andb_true_iff, !Z.leb_le in Hc. lia. }
  split_and!; [|lia| |].
  - unfold isspace. uc_cases; done.
  - by intros ->.
  - destruct (in_set [32; 9] c) eqn:E; [|done]. apply in_set_spec in E. rewrite !elem_of_cons, elem_of_nil in E. lia.
Qed.

(** The quoted value, as it comes and as [unquote] leaves it. *)
Lemma quoted_text v : good_value v -> nonul (34 :: v ++ [34]).
Proof. intros (_ & Hn & _). constructor; [done|]. apply Forall_app. split; [done|by repeat constructor]. Qed.

Lemma line_key l kv r : good_kv kv ->
  let b := keydata.id kv ++ 61 :: 34 :: keydata.value kv ++ 34 :: 0 :: r in
  exists b', zlen b' = zlen b /\
    line stale l b = (s <~ set stale (file l) (current l) (keydata.id kv) (Some (keydata.value kv));
                      ret (next_line l s b' (current l))).
Proof.
  intros (Hk & Hv & _) b. destruct kv as [id v]. cbn [keydata.id keydata.value] in *.
  destruct Hk as (Hal & Hkn & Hkc & Hkt). pose proof (quoted_text v Hv) as Hq. destruct Hv as (_ & Hvn & _).
  exists (id ++ 0 :: 34 :: v ++ 0 :: 0 :: r). split.
  { unfold b. autorewrite with zlen. lia. }
  assert (head_out [32; 9] id) as Hkh by (destruct id; [done|by apply alnum_facts in Hal as (_ & _ & _ & ?)]).
  assert (skip_blank b = Some 0 /\ exists c, rd b 0 = Some c /\ c <> 0 /\ c <> 91 /\ isalnum c = true)
    as (Es & c & Er & H0 & H91 & Hc).
  { unfold b. destruct id as [|c id]; [done|]. apply alnum_facts in Hal as Hf. destruct Hf as (Hsp & ? & ? & _).
    split; [cbn [app skip_blank]; by rewrite Hsp|by exists c]. }
  unfold line. rewrite Es. cbn [need rbind fmap option_fmap option_map]. rewrite Er. cbn [need rbind fmap option_fmap option_map].
  destruct (Z.eqb_spec c 0); [done|]. destruct (Z.eqb_spec c 91); [done|]. rewrite Hc. cbn [negb].
  unfold key_line. set (u := 34 :: v ++ [34]).
  assert (b = [] ++ id ++ 61 :: u ++ 0 :: r) as -> by (unfold b, u; by apps).
  change 0 with (zlen (@nil Z)) at 1. rewrite cut_spec; [|done| |eapply list.Forall_impl; [exact Hkc|cbn; tauto]].
  2: { apply Forall_app. split; [done|]. by constructor. }
  cbn [need rbind fmap option_fmap option_map]. change 0 with (zlen (@nil Z)) at 1.
  rewrite strip_at_id by done. cbn [need rbind fmap option_fmap option_map].
  set (p := id ++ [0]). assert ([] ++ id ++ 0 :: u ++ 0 :: r = p ++ u ++ 0 :: r) as -> by (unfold p; by apps).
  assert (zlen (@nil Z) + zlen id + 1 = zlen p) as -> by (unfold p; by rewrite zlen_app).
  rewrite strip_at_id; [|exact Hq|done|unfold u; by rewrite app_comm_cons, rev_app_distr].
  cbn [need rbind fmap option_fmap option_map]. rewrite zlen_to_nat, drop_app_length, take_app_length.
  unfold u. rewrite <- app_comm_cons, <- app_assoc. cbn [app]. rewrite unquote_spec by done.
  cbn [need rbind fmap option_fmap option_map]. change (default [] (Some ?x)) with x.
  replace (p ++ 34 :: v ++ 0 :: 0 :: r) with ((p ++ [34]) ++ v ++ 0 :: 0 :: r) by (by apps).
  replace (zlen p + 1) with (zlen (p ++ [34])) by (by rewrite zlen_app).
  rewrite text_at_spec by done. cbn [need rbind fmap option_fmap option_map ret].
  replace ((p ++ [34]) ++ v ++ 0 :: 0 :: r) with ([] ++ id ++ 0 :: 34 :: v ++ 0 :: 0 :: r) by (unfold p; by apps).
  rewrite text_at_spec by done. done.
Qed.

Lemma line_name l nm r : good_name nm ->
  let b := 91 :: nm ++ 93 :: 0 :: r in
  exists b', zlen b' = zlen b /\
    line stale l b = ('(s, i) <~ get_create stale (file l) nm; ret (next_line l s b' (Some i))).
Proof.
  intros (_ & Hn & Hc & Hh & Ht & _) b. exists (91 :: nm ++ 0 :: 0 :: r). split; [unfold b; autorewrite with zlen; lia|].
  unfold line. change (skip_blank b) with (Some 0). cbn [need rbind fmap option_fmap option_map].
  change (rd b 0) with (Some 91). cbn [need rbind fmap option_fmap option_map].
  change (91 =? 0) with false. change (91 =? 91) with true. cbv iota. unfold section_line.
  assert (b = [] ++ (91 :: nm) ++ 93 :: [] ++ 0 :: r) as -> by done.
  change 0 with (zlen (@nil Z)) at 1. rewrite cut_spec; [|done| |].
  2: { cbn [app]. constructor; [done|]. apply Forall_app. split; [done|by repeat constructor]. }
  2: { constructor; [done|]. eapply list.Forall_impl; [exact Hc|cbn; tauto]. }
  cbn [need rbind fmap option_fmap option_map].
  change ([] ++ (91 :: nm) ++ 0 :: [] ++ 0 :: r) with ([91] ++ nm ++ 0 :: 0 :: r). change (0 + 1) with (zlen [91]).
  rewrite strip_at_id by done. cbn [need rbind fmap option_fmap option_map]. by rewrite text_at_spec.
Qed.

Lemma key_plain kv : good_kv kv -> plain_line (keydata.id kv ++ 61 :: 34 :: keydata.value kv ++ [34]).
Proof.
  intros ((_ & Hkn & Hkc & _) & Hv & Hl). pose proof (quoted_text _ Hv) as Hq. destruct Hv as (_ & Hvn & Hvc). split_and!.
  - apply Forall_app. split; [done|]. by constructor.
  - apply Forall_app. split; [eapply list.Forall_impl; [exact Hkc|cbn; tauto]|].
    constructor; [done|]. constructor; [done|]. apply Forall_app. split; [|by repeat constructor].
    eapply list.Forall_impl; [exact Hvc|cbn; tauto].
  - autorewrite with zlen. lia.
  - replace (keydata.id kv ++ 61 :: 34 :: keydata.value kv ++ [34])
      with ((keydata.id kv ++ 61 :: 34 :: keydata.value kv) ++ [34]) by (by apps).
    by rewrite rev_app_distr.
Qed.

Lemma name_plain nm : good_name nm -> plain_line (91 :: nm ++ [93]).
Proof.
  intros (_ & Hn & Hc & _ & _ & Hl). split_and!.
  - constructor; [done|]. apply Forall_app. split; [done|by repeat constructor].
  - constructor; [done|]. apply Forall_app. split; [|by repeat constructor]. eapply list.Forall_impl; [exact Hc|cbn; tauto].
  - autorewrite with zlen. lia.
  - change (91 :: nm ++ [93]) with ((91 :: nm) ++ [93]). by rewrite rev_app_distr.
Qed.

(** ** The state behind the lines *)

(** Memory for [n] more pieces, each of a text of the buffer or an object. *)
Definition roomy (p : memalloc.t) (n : Z) : Prop := space p n /\ 1056 <= memalloc.pagesize p.

Lemma put_section_twice s r p d p' d' : put_section (put_section s r p d) r p' d' = put_section s r p' d'.
Proof. destruct r; [|done]. unfold put_section. cbn. by rewrite list_insert_insert_eq. Qed.

Lemma section_put s r p d d0 : section s r = Some d0 -> section (put_section s r p d) r = Some d.
Proof. destruct r as [i|]; [|done]. cbn. intros E. apply list_lookup_insert_eq. by eapply lookup_lt_Some. Qed.

Lemma put_section_same s r d : section s r = Some d -> put_section s r (pool s) d = s.
Proof.
  destruct s as [p df ix e], r as [i|]; cbn; [|by intros ->]. intros E. by rewrite list_insert_id.
Qed.

Lemma pool_put s r p d : pool (put_section s r p d) = p.
Proof. by destruct r. Qed.

Lemma delist_new key l : nonul key -> Forall (fun kv => nonul (keydata.id kv)) l -> ~ fold key ∈ names l ->
  keydata.delist key l = l.
Proof.
  intros Hk. induction 1 as [|kv l Hkv Hl IH]; [done|]. cbn. rewrite not_elem_of_cons. intros [Hne Hni].
  unfold keydata.matches. rewrite eq_case_fold, bool_decide_false, IH by done. done.
Qed.

Lemma good_text_fits kv p : good_kv kv -> 1056 <= memalloc.pagesize p ->
  text_fits p (keydata.id kv) /\ text_fits p (keydata.value kv).
Proof.
  intros ((Hk & _) & (Hv & _) & Hl) Hp. unfold text_fits, fits, sizeof_page.
  pose proof (zlen_nonneg (keydata.id kv)). pose proof (zlen_nonneg (keydata.value kv)).
  destruct (keydata.id kv); [done|]. split; (split; [done|lia]).
Qed.

(** A key that is new goes behind the others. *)
Lemma set_new s r d kv n : section s r = Some d -> good_kv kv -> Forall good_kv (keydata.index d) ->
  ~ fold (keydata.id kv) ∈ names (keydata.index d) -> roomy (pool s) (n + 3) -> 0 <= n ->
  served (set stale s r (keydata.id kv) (Some (keydata.value kv))) (fun s' => exists p, roomy p n /\
    s' = put_section s r p (keydata.Mk (keydata.name d) (keydata.index d ++ [kv]))).
Proof.
  intros Hd Hkv Hl Hni [Hsp Hps] Hn. destruct (good_text_fits kv (pool s) Hkv Hps) as [Hf1 Hf2].
  unfold set. rewrite Hd. cbn [need rbind fmap option_fmap option_map].
  eapply served_bind; [apply (set_served stale (pool s) n); [done..|unfold keydata.sizeof_keyvalue, sizeof_page; lia]|].
  intros [p d'] (H1 & H2 & E). cbn [fst snd] in *. subst d'. cbn. exists p. split; [split; [done|lia]|].
  f_equal. f_equal. rewrite delist_new; [by destruct kv|apply Hkv| |done].
  eapply list.Forall_impl; [exact Hl|]. intros x Hx. apply Hx.
Qed.

Lemma line_text_good kv rest : good_kv kv ->
  line_text kv ++ rest = (keydata.id kv ++ 61 :: 34 :: keydata.value kv ++ [34]) ++ 10 :: rest.
Proof.
  intros (_ & (_ & _ & Hv) & _). unfold line_text. destruct kv as [id v]. cbn [keydata.id keydata.value] in *.
  destruct (in_set v 34) eqn:E; [|by apps]. apply in_set_spec in E as [E|E]; [done|].
  apply (proj1 (list.Forall_forall _ _) Hv) in E. by destruct E.
Qed.

(** What the rest of the loop makes of the rest of the file. *)
Definition loads (Q : t -> Prop) (s : t) (cur : option nat) (text : list Z) : Prop :=
  forall b fuel, zlen b = sizeof_linebuf -> (length text + 2 <= fuel)%nat ->
  served (load_loop stale fuel (Loader s b 0 sizeof_linebuf cur (Stream text false false))) Q.

Lemma loads_step Q s cur w rest : plain_line w ->
  (forall r, zlen (w ++ 0 :: r) = sizeof_linebuf -> let l := Loader s (w ++ 0 :: r) 0 sizeof_linebuf cur (Stream rest false false) in
     served (line stale l (w ++ 0 :: r)) (fun l' => exists s' b' cur', l' = next_line l s' b' cur' /\
       zlen b' = sizeof_linebuf /\ loads Q s' cur' rest)) ->
  loads Q s cur (w ++ 10 :: rest).
Proof.
  intros Hw Hline b fuel Hb Hf. rewrite length_app in Hf. cbn in Hf. destruct fuel as [|fuel]; [lia|].
  destruct (step_line s b cur w rest Hb Hw) as (r & Hr & E). cbn [load_loop]. rewrite E.
  specialize (Hline r Hr). cbn zeta in Hline.
  eapply served_bind with (P := fun x => exists s' b' cur', x = inl (Loader s' b' 0 sizeof_linebuf cur' (Stream rest false false)) /\
    zlen b' = sizeof_linebuf /\ loads Q s' cur' rest).
  - eapply served_bind; [exact Hline|]. intros l' (s' & b' & cur' & -> & Hb' & HQ). cbn. by exists s', b', cur'.
  - intros x (s' & b' & cur' & -> & Hb' & HQ). apply HQ; [done|lia].
Qed.

Lemma loads_blank Q s cur rest : loads Q s cur rest -> loads Q s cur (10 :: rest).
Proof.
  intros HQ b fuel Hb Hf. cbn in Hf. destruct fuel as [|fuel]; [lia|].
  destruct (step_blank s b cur rest Hb) as (b' & Hb' & E). cbn [load_loop]. rewrite E. cbn. apply HQ; [done|lia].
Qed.

(** The lines of keys. *)
Lemma loads_keys Q cur rest n kvs : 0 <= n -> Forall good_kv kvs -> forall s d, section s cur = Some d ->
  Forall good_kv (keydata.index d) -> NoDup (names (keydata.index d ++ kvs)) -> roomy (pool s) (n + 3 * zlen kvs) ->
  (forall p, roomy p n -> loads Q (put_section s cur p (keydata.Mk (keydata.name d) (keydata.index d ++ kvs))) cur rest) ->
  loads Q s cur (lines_text kvs ++ rest).
Proof.
  intros Hn. induction 1 as [|kv kvs Hkv Hkvs IH]; intros s d Hd Hl Hnd Hp HQ.
  - rewrite app_nil_r in HQ. rewrite <- (put_section_same s cur d Hd). destruct d as [nm ix]. apply HQ.
    change (zlen []) with 0 in Hp. by replace n with (n + 3 * 0) by lia.
  - rewrite zlen_cons in Hp. pose proof (zlen_nonneg kvs).
    change (lines_text (kv :: kvs)) with (line_text kv ++ lines_text kvs). rewrite <- app_assoc, line_text_good by done.
    assert (~ fold (keydata.id kv) ∈ names (keydata.index d)) as Hni.
    { unfold names in Hnd. rewrite map_app in Hnd. apply list.NoDup_app in Hnd as (_ & Hnd & _). intros Hin.
      eapply Hnd; [exact Hin|left]. }
    apply loads_step; [by apply key_plain|]. intros r Hr l.
    destruct (line_key l kv r Hkv) as (b' & Hb' & E).
    replace ((keydata.id kv ++ 61 :: 34 :: keydata.value kv ++ [34]) ++ 0 :: r)
      with (keydata.id kv ++ 61 :: 34 :: keydata.value kv ++ 34 :: 0 :: r) in * by (by apps).
    rewrite E. eapply served_bind.
    { apply (set_new s cur d kv (n + 3 * zlen kvs)); [done..| |lia].
      by replace (n + 3 * zlen kvs + 3) with (n + 3 * (zlen kvs + 1)) by lia. }
    intros s' (p & Hp' & ->). cbn. eexists _, b', cur. split; [done|]. split; [congruence|].
    set (d' := keydata.Mk (keydata.name d) (keydata.index d ++ [kv])).
    apply (IH (put_section s cur p d') d'); [by eapply section_put| | |by rewrite pool_put|].
    + cbn. apply Forall_app. split; [done|by constructor].
    + cbn. by rewrite <- app_assoc.
    + intros p' Hp''. rewrite put_section_twice. cbn. rewrite <- app_assoc. by apply HQ.
Qed.

(** No section of that name yet. *)
Lemma find_new s nm : nonul nm -> Forall good_section (index s) -> ~ fold nm ∈ section_names (index s) ->
  find s nm = None.
Proof.
  intros Hn Hl Hni. unfold find. assert (list_find (fun d => Is_true (matches nm d)) (index s) = None) as ->; [|done].
  apply list_find_None. apply list.Forall_forall. intros d Hd Hm. apply Hni. unfold section_names.
  apply list_elem_of_fmap. exists d. split; [|done]. unfold matches in Hm.
  rewrite eq_case_fold in Hm; [by apply bool_decide_unpack in Hm|done|].
  pose proof (proj1 (list.Forall_forall _ _) Hl d Hd) as [Hg _]. apply Hg.
Qed.

Lemma create_new s nm n : good_name nm -> find s nm = None -> roomy (pool s) (n + 2) -> 0 <= n ->
  served (get_create stale s nm) (fun r => exists p, roomy p n /\
    r = (Mk p (defaults s) (index s ++ [keydata.Mk nm []]) (errcode s), length (index s))).
Proof.
  intros (Hne & _ & _ & _ & _ & Hl) Hf [Hsp Hps] Hn. unfold get_create. rewrite Hf. unfold create. rewrite Hf.
  unfold keydata.sizeof_keydata.
  eapply served_bind; [apply (alloc_served (pool s) (n + 1)); [by replace (n + 1 + 1) with (n + 2) by lia|lia|unfold sizeof_page; lia]|].
  intros [p a] [H1 E1]. cbn [fst] in *. unfold keydata.make.
  eapply served_bind with (P := fun r => roomy r.1 n /\ r.2 = keydata.Mk nm []).
  - eapply served_bind; [apply (dup_served stale p n); [done|done|unfold fits, sizeof_page; lia]|].
    intros [p' u] (H2 & E2 & Eu & _). cbn in *. specialize (Eu Hne). subst u. split; [split; [done|lia]|done].
  - intros [p' d] [H2 Ed]. cbn in *. subst d. by exists p'.
Qed.

(** Pieces of memory the sections of a file need. *)
Fixpoint cost (l : list keydata.t) : Z :=
  match l with [] => 0 | d :: l => 2 + 3 * zlen (keydata.index d) + cost l end.

Lemma cost_nonneg l : 0 <= cost l.
Proof. induction l as [|d l IH]; cbn; [done|]. pose proof (zlen_nonneg (keydata.index d)). lia. Qed.

(** The end of the file. *)
Lemma loads_end s cur : loads (fun s' => s' = with_errcode s 0) s cur [].
Proof.
  intros b fuel Hb Hf. cbn in Hf. destruct fuel as [|fuel]; [lia|]. destruct b as [|x b]; [done|]. done.
Qed.

(** The sections. *)
Lemma loads_sections l : Forall good_section l -> forall s cur, Forall good_section (index s) ->
  NoDup (section_names (index s ++ l)) -> roomy (pool s) (cost l) ->
  loads (fun s' => defaults s' = defaults s /\ index s' = index s ++ l /\ errcode s' = 0) s cur
    (concat (map section_text l)).
Proof.
  induction 1 as [|d l Hd Hl IH]; intros s cur Hs Hnd Hp.
  - intros b fuel Hb Hf. eapply served_mono; [by apply (loads_end s cur)|]. intros s' ->. by rewrite app_nil_r.
  - cbn [map concat cost] in *. destruct d as [nm kvs]. unfold section_text at 1. cbn [keydata.name keydata.index] in *.
    destruct Hd as (Hnm & Hkvs & Hnk). cbn [keydata.name keydata.index] in *.
    pose proof (zlen_nonneg kvs). pose proof (cost_nonneg l).
    replace ((91 :: nm ++ 93 :: 10 :: lines_text kvs ++ [10]) ++ concat (map section_text l))
      with ((91 :: nm ++ [93]) ++ 10 :: lines_text kvs ++ 10 :: concat (map section_text l)) by (by apps).
    apply loads_step; [by apply name_plain|]. intros r Hr lo.
    destruct (line_name lo nm r Hnm) as (b' & Hb' & E).
    replace ((91 :: nm ++ [93]) ++ 0 :: r) with (91 :: nm ++ 93 :: 0 :: r) in * by (by apps).
    rewrite E. eapply served_bind.
    { apply (create_new s nm (3 * zlen kvs + cost l)); [done| | |lia].
      - apply find_new; [apply Hnm|done|]. unfold section_names in Hnd. rewrite map_app in Hnd.
        apply list.NoDup_app in Hnd as (_ & Hnd & _). intros Hin. eapply Hnd; [exact Hin|left].
      - by replace (3 * zlen kvs + cost l + 2) with (2 + 3 * zlen kvs + cost l) by lia. }
    intros [s' i] (p & Hp' & [= -> ->]). cbn. eexists _, b', _. split; [done|]. split; [congruence|].
    set (s1 := Mk p (defaults s) (index s ++ [keydata.Mk nm []]) (errcode s)).
    apply (loads_keys _ _ _ (cost l) kvs ltac:(lia) Hkvs s1 (keydata.Mk nm [])); [|constructor|done| |].
    + cbn. rewrite lookup_app_r by lia. by rewrite Nat.sub_diag.
    + cbn. by replace (cost l + 3 * zlen kvs) with (3 * zlen kvs + cost l) by lia.
    + intros p' Hp''. apply loads_blank.
      change (keydata.Mk _ _) with (keydata.Mk nm kvs).
      assert (put_section s1 (Some (length (index s))) p' (keydata.Mk nm kvs) =
        Mk p' (defaults s) (index s ++ [keydata.Mk nm kvs]) (errcode s)) as ->.
      { unfold put_section, s1. cbn. f_equal. rewrite insert_app_r_alt, Nat.sub_diag by lia. done. }
      intros b2 fuel Hb2 Hf. eapply served_mono; [apply (IH (Mk p' (defaults s) (index s ++ [keydata.Mk nm kvs]) (errcode s)))|].
      * cbn. apply Forall_app. split; [done|]. by apply Forall_singleton.
      * cbn. by rewrite <- app_assoc.
      * done.
      * done.
      * done.
      * cbn. intros s2 (E1 & E2 & E3). split_and!; [done| |done]. by rewrite E2, <- app_assoc.
Qed.

(** C21.  Round trip: a file of keys and sections with good names and values that
    [save] has written, [load]ed into an empty [keyfile], gives the same keys with
    the same values, in the same sections and the same order, unless there is no
    memory; the loop comes to its end. *)
Theorem keyfile_roundtrip (s s0 : t) (path mem : list Z) : good_file s -> path <> [] ->
  defaults s0 = None -> index s0 = [] -> zlen mem = sizeof_linebuf ->
  roomy (pool s0) (1 + 3 * zlen (default_keys s) + cost (index s)) ->
  exists txt, save s path true = (s, true, Some txt) /\
    served (load stale s0 path (Some (Stream txt false false)) mem) (fun s' =>
      errcode s' = 0 /\ default_keys s' = default_keys s /\ index s' = index s).
Proof.
  intros [[Hdk Hdn] Hsec Hnames] Hpath Hd Hi Hmem Hp. exists (text s). destruct path as [|c path]; [done|]. split; [done|].
  unfold load. pose proof (zlen_nonneg (default_keys s)). pose proof (cost_nonneg (index s)).
  destruct Hp as [Hsp Hps]. set (n := 3 * zlen (default_keys s) + cost (index s)) in *.
  eapply served_bind with (P := fun s1 => exists p, roomy p n /\ s1 = Mk p (Some keydata.make_defaults) [] 0).
  - unfold make_defaults. cbn [defaults with_errcode]. rewrite Hd. cbn [pool].
    eapply served_bind; [apply (alloc_served (pool s0) n); [by replace (n + 1) with (1 + 3 * zlen (default_keys s) + cost (index s)) by lia|lia|]|].
    { unfold keydata.sizeof_keydata, sizeof_page. lia. }
    intros [p a] [Hq E1]. cbn [fst] in *. cbn. rewrite Hi. exists p. split; [split; [done|lia]|done].
  - intros s1 (p & Hp & ->). cbn [data].
    assert (loads (fun s' => errcode s' = 0 /\ default_keys s' = default_keys s /\ index s' = index s)
      (Mk p (Some keydata.make_defaults) [] 0) None (text s)) as Hloads; [|apply Hloads; [done|lia]].
    unfold text. apply (loads_keys _ _ _ (cost (index s)) (default_keys s) ltac:(lia) Hdk _ keydata.make_defaults);
      [done|constructor|done| |].
    { cbn. by replace (cost (index s) + 3 * zlen (default_keys s)) with n by lia. }
    intros p' Hp'. apply loads_blank. intros b fuel Hb Hf.
    eapply served_mono; [by apply (loads_sections (index s) Hsec)|].
    intros s' (E1 & E2 & E3). cbn in E1, E2. split; [done|]. split; [|done]. unfold default_keys at 1. by rewrite E1.
Qed.

(** ** Where key files go wrong *)

(** After a read error, as of a directory, the end of the file is never met: the
    loop does not end. *)
Lemma load_error_endless s b cur fuel : zlen b = sizeof_linebuf ->
  load_loop stale fuel (Loader s b 0 sizeof_linebuf cur (Stream [] true false)) = None.
Proof.
  revert s b. induction fuel as [|fuel IH]; intros s b Hb; [done|]. destruct b as [|x b]; [done|].
  cbn [load_loop]. change (load_step stale _) with (ret (inl (B := t)
    (Loader (with_errcode s 1) (0 :: b) 0 sizeof_linebuf cur (Stream [] true false)))).
  cbn [rbind ret]. by apply IH.
Qed.

End alloc.

Definition sample_file : t :=
  Mk sample_pool (Some (keydata.Mk (bytes "-") [keydata.KeyValue (bytes "size") (bytes "4 x")]))
    [keydata.Mk (bytes "my keys") [keydata.KeyValue (bytes "a") (bytes "=1]"); keydata.KeyValue (bytes "b.c") (bytes " ")];
     keydata.Mk (bytes "none") []] 0.

Lemma keyfile_roundtrip_witness : exists txt, save sample_file (bytes "f") true = (sample_file, true, Some txt) /\
  served (load (fun _ => []) (make 4096 4096) (bytes "f") (Some (Stream txt false false)) (replicate 1024 1))
    (fun s' => errcode s' = 0 /\ default_keys s' = default_keys sample_file /\ index s' = index sample_file).
Proof.
  apply (keyfile_roundtrip (fun _ => []) sample_file (make 4096 4096) (bytes "f") (replicate 1024 1)).
  - split.
    + split; [|apply (bool_decide_unpack _); vm_compute; reflexivity].
      repeat constructor; try discriminate.
    + repeat constructor; try discriminate; apply (bool_decide_unpack _); vm_compute; reflexivity.
    + apply (bool_decide_unpack _). vm_compute. reflexivity.
  - discriminate.
  - reflexivity.
  - reflexivity.
  - reflexivity.
  - split; [apply (sample_space 12); reflexivity|discriminate].
Defined.

(** An empty value is copied to a piece of one byte, which [String::set] leaves as
    it was: the value is what the memory holds. *)
Lemma set_empty_stale : exists p v,
  keydata.set (fun _ => bytes "junk") sample_pool sample_section (bytes "e") (Some []) = ret (p, v) /\
  keydata.get v (bytes "e") = Some (bytes "junk").
Proof. eexists _, _. split; vm_compute; reflexivity. Qed.
