(* ===== verification/Cidr.v ===== *)
(** * Network policies (corelib/socket.cpp, inc/ucommon/socket.h)

    A [cidr] is an address with a mask of leading bits.  Addresses and masks are the
    16 bytes of the union [hostaddr_internet], of which the first 4 are an address
    of the internet protocol version 4.  A text is the block of its characters with
    the terminator.  The functions that read a whole address are those of the
    sockets library: class [Inet]. *)

From stdpp Require Import strings.
From S2P Require Import Prelude CLib Strings.

(** A decimal text of a byte, as the address functions read it: a leading zero would
    make it octal. *)
Definition decimal (t : list Z) (v : Z) : Prop :=
  t <> [] /\ (length t <= 3)%nat /\ Forall (fun c => isdigit c = true) t /\ (digits t 0).1 = v /\
  0 <= v < 256 /\ (hd 0 t = 48 -> t = [48]).

(** [inet_aton] and [inet_pton (AF_INET6, ..)] give the bytes of an address;
    [inet_addr] answers with 4 bytes for every text. *)
Class Inet := {
  inet_aton : list Z -> option (list Z);
  inet_addr : list Z -> list Z;
  inet_pton : list Z -> option (list Z);
  inet_aton_dotted : forall t1 t2 t3 t4 a b c d, decimal t1 a -> decimal t2 b -> decimal t3 c -> decimal t4 d ->
    inet_aton (t1 ++ 46 :: t2 ++ 46 :: t3 ++ 46 :: t4) = Some [a; b; c; d] }.

Definition AF_UNSPEC : Z := 0.
Definition AF_INET : Z := 2.
Definition AF_INET6 : Z := 10.

Record sockaddr := Sockaddr { sa_family : Z; sin_addr : list Z }.

(** ** Bits *)

(** [bitmask] and [bitimask]: [len] bytes of both blocks. *)
Fixpoint bitmask (bits mask : list Z) (len : nat) {struct len} : option (list Z) :=
  match len, bits, mask with
  | O, _, _ => Some bits
  | S len, b :: bits, m :: mask => cons (Z.land b m) <$> bitmask bits mask len
  | _, _, _ => None
  end.

Fixpoint bitimask (bits mask : list Z) (len : nat) {struct len} : option (list Z) :=
  match len, bits, mask with
  | O, _, _ => Some bits
  | S len, b :: bits, m :: mask => cons (Z.lor b (u8 (Z.lnot m))) <$> bitimask bits mask len
  | _, _, _ => None
  end.

(** The inner loop of [bitset]: the byte and what is left of [blen]. *)
Fixpoint bitset_byte (fuel : nat) (b mask blen : Z) : Z * Z :=
  match fuel with
  | O => (b, blen)
  | S f =>
      if negb (mask =? 0) && negb (blen =? 0) then bitset_byte f (Z.lor b mask) (Z.shiftr mask 1) (blen - 1)
      else (b, blen)
  end.

(** [bitset]: one byte of the block after the other. *)
Fixpoint bitset (bits : list Z) (blen : Z) : option (list Z) :=
  if blen =? 0 then Some bits
  else
    match bits with
    | [] => None
    | b :: bits => let '(b, blen) := bitset_byte 8 b 128 blen in cons b <$> bitset bits blen
    end.

(** [bitcount]: of one byte, whether the loop goes on, and of [len] bytes. *)
Fixpoint bitcount_byte (fuel : nat) (test mask count : Z) : Z * bool :=
  match fuel with
  | O => (count, true)
  | S f =>
      if mask =? 0 then (count, true)
      else if Z.land mask test =? 0 then (count, false)
      else bitcount_byte f test (Z.shiftr mask 1) (count + 1)
  end.

Fixpoint bitcount (bits : list Z) (len : nat) (count : Z) {struct len} : option Z :=
  match len, bits with
  | O, _ => Some count
  | S _, [] => None
  | S len, b :: bits =>
      let '(count, more) := bitcount_byte 8 b 128 count in
      if more : bool then bitcount bits len count else Some count
  end.

Module cidr.

Record t := Mk { Family : Z; Netmask : list Z; Network : list Z; Name : list Z }.

(** The constructor without arguments, on the bytes the memory holds for [Name]. *)
Definition make (name : list Z) : option t :=
  b ← wr name 0 0; Some (Mk AF_UNSPEC (replicate 16 0) (replicate 16 0) b).

Definition copy (c : t) : t := c.

(** [mask (void)] *)
Definition mask (s : t) : option Z :=
  if Family s =? AF_INET then bitcount (Netmask s) 4 0
  else if Family s =? AF_INET6 then bitcount (Netmask s) 16 0
  else Some 0.

Definition is_member (s : t) (a : sockaddr) : option bool :=
  if negb (sa_family a =? Family s) then Some false
  else if Family s =? AF_INET then
    host ← bitmask (sin_addr a) (Netmask s) 4;
    Some (bool_decide (take 4 host = take 4 (Network s)))
  else if Family s =? AF_INET6 then
    host ← bitmask (sin_addr a) (Netmask s) 16;
    Some (bool_decide (take 16 host = take 16 (Network s)))
  else Some false.

(** The bytes of the result that are not an address stay as the stack holds them. *)
Definition broadcast (s : t) (mem : list Z) : option (list Z) :=
  if Family s =? AF_INET then
    b ← bitimask (take 4 (Network s)) (Netmask s) 4; Some (b ++ drop 4 mem)
  else if Family s =? AF_INET6 then bitimask (Network s) (Netmask s) 16
  else Some (replicate 16 0).

(** [find] and [container]: the places in the list. *)
Fixpoint find_loop (l : list t) (a : sockaddr) (i : nat) (top : Z) (member : option nat) : option (option nat) :=
  match l with
  | [] => Some member
  | p :: l =>
      m ← is_member p a; k ← mask p;
      if m && (top <? k) then find_loop l a (S i) k (Some i) else find_loop l a (S i) top member
  end.

Definition find (l : list t) (a : sockaddr) : option (option nat) := find_loop l a O 0 None.

Fixpoint container_loop (l : list t) (a : sockaddr) (i : nat) (top : Z) (member : option nat) : option (option nat) :=
  match l with
  | [] => Some member
  | p :: l =>
      m ← is_member p a; k ← mask p;
      if m && (k <? top) then container_loop l a (S i) k (Some i) else container_loop l a (S i) top member
  end.

Definition container (l : list t) (a : sockaddr) : option (option nat) := container_loop l a O 128 None.

(** ** The mask of a text *)

(** [dots]: the numbers at the start and behind the first three dots. *)
Fixpoint dot_loop (gp : list Z) (dots : list Z) (dcount : nat) : list Z :=
  match gp with
  | [] => dots
  | c :: gp =>
      if (dcount <? 3)%nat then
        if c =? 46 then dot_loop gp (<[S dcount := u8 (atol gp)]> dots) (S dcount) else dot_loop gp dots dcount
      else dots
  end.

(** The address class of a text without mask. *)
Definition class_mask (s : list Z) : Z :=
  let dots := dot_loop s [u8 (atol s); 0; 0; 0] 0 in
  if negb (nth 3 dots 0 =? 0) then 32
  else if negb (nth 2 dots 0 =? 0) then 24
  else if negb (nth 1 dots 0 =? 0) then 16
  else 8.

(** [while( *(++sp) == '0') ++sp;], from the block behind [sp] on. *)
Fixpoint skip_zeros (b : list Z) : option (list Z) :=
  match b with
  | [] => None
  | c :: b' => if c =? 48 then match b' with [] => None | _ :: b'' => skip_zeros b'' end else Some b
  end.

Fixpoint zeros (s : list Z) : list Z :=
  match s with c :: s' => if c =? 48 then zeros s' else s | [] => [] end.

Fixpoint group_loop (fuel : nat) (s : list Z) (count rcount : Z) (flag : bool) : Z :=
  match fuel with
  | O => rcount
  | S f =>
      match s with
      | [] => rcount
      | c :: s =>
          if count <? 128 then
            if c =? 58 then
              let count := count + 16 in
              let s := zeros s in
              match s with
              | 58 :: _ => group_loop f s count (if flag then rcount else count) true
              | _ => group_loop f s count rcount false
              end
            else group_loop f s count rcount flag
          else rcount
      end
  end.

Definition has_prefix (s lit : list Z) : bool := eqn s lit (length lit).

Section inet.
Context `{Inet}.

(** [mask (cp)] *)
Definition mask_of (family : Z) (cp : list Z) : option Z :=
  s ← cstr cp;
  let sp := strchr s 47 in
  if family =? AF_INET6 then
    match sp with
    | Some k => Some (u32 (atol (drop (Z.to_nat (k + 1)) s)))
    | None =>
        if has_prefix s (bytes "ff00:") then Some 8
        else if has_prefix s (bytes "ff80:") then Some 10
        else if has_prefix s (bytes "2002:") then Some 16
        else
          k ← strrchr s 58;
          b ← skip_zeros (drop (Z.to_nat (k + 1)) cp);
          c ← rd b 0;
          if negb (c =? 0) then Some 128 else Some (group_loop (S (length s)) s 0 0 false)
    end
  else if family =? AF_INET then
    match sp with
    | Some k =>
        let s := drop (Z.to_nat (k + 1)) s in
        match strchr s 46 with
        | None => Some (u32 (atol s))
        | Some _ => bitcount (inet_addr s) 4 0
        end
    | None => Some (class_mask s)
    end
  else Some 0.

(** [strchr (cbuf, '/')], cut there *)
Definition cut_slash (b : list Z) : option (list Z) :=
  s ← cstr b; match strchr s 47 with None => Some b | Some k => wr b k 0 end.

Definition dots_of (s : list Z) : nat := length (List.filter (fun c => c =? 46) s).

(** [while(dots++ < 3) String::add (cbuf, sizeof (cbuf), ".0");] *)
Fixpoint add_zeros (n : nat) (b : list Z) : option (list Z) :=
  match n with O => Some b | S n => b ← Str.add b 128 (Some [46; 48; 0]); add_zeros n b end.

(** [set]: [mem] is what the stack holds where [cbuf] is; with the object the text,
    which is written for the version 6. *)
Definition set (s : t) (cp mem : list Z) : option (t * list Z) :=
  str ← cstr cp;
  let fam := match strchr str 58 with Some _ => AF_INET6 | None => AF_INET end in
  n ← mask_of fam cp;
  if fam =? AF_INET then
    mask ← bitset (replicate 4 0 ++ drop 4 (Netmask s)) n;
    b ← Str.set mem 128 (Some cp);
    b ← cut_slash b;
    str ← cstr b;
    b ← add_zeros (3 - dots_of str) b;
    str ← cstr b;
    let net := match inet_aton str with Some a => a ++ drop 4 (Network s) | None => Network s end in
    net ← bitmask net mask 4;
    Some (Mk fam mask net (Name s), cp)
  else
    mask ← bitset (replicate 16 0) n;
    b ← Str.set mem 128 (Some cp);
    cp ← cut_slash cp;
    str ← cstr b;
    let net := match inet_pton str with Some a => a | None => Network s end in
    net ← bitmask net mask 16;
    Some (Mk fam mask net (Name s), cp).

(** The constructors from a text; [old] is what the memory of the object holds. *)
Definition make_text (old : t) (cp mem : list Z) : option (t * list Z) :=
  '(s, cp) ← set old cp mem; b ← wr (Name s) 0 0; Some (Mk (Family s) (Netmask s) (Network s) b, cp).

Definition make_named (old : t) (cp id mem : list Z) : option (t * list Z) :=
  '(s, cp) ← set old cp mem; b ← Str.set (Name s) 16 (Some id); Some (Mk (Family s) (Netmask s) (Network s) b, cp).

End inet.

End cidr.
