(* ===== verification/CidrLaws.v ===== *)
(** * Laws of the network policies

    A policy of the internet protocol version 4 is an interval of addresses, the
    address read as a number of 32 bits. *)

From stdpp Require Import strings.
From S2P Require Import Prelude CLib Strings Cidr.
Local Open Scope Z_scope.

(** ** Masks of bytes *)

(** The number of an address. *)
Definition ip (a : list Z) : Z :=
  nth 0 a 0 * 2 ^ 24 + nth 1 a 0 * 2 ^ 16 + nth 2 a 0 * 2 ^ 8 + nth 3 a 0.

Definition address (a : list Z) : Prop := length a = 4%nat /\ Forall is_byte a.

(** How many values the bits a mask of [n] leaves free in byte [i] have. *)
Definition free (n i : Z) : Z := 2 ^ (8 - Z.max 0 (Z.min 8 (n - 8 * i))).

Definition netmask (n : Z) : list Z := map (fun i => 256 - free n i) [0; 1; 2; 3].

Ltac first_cases i k :=
  match k with O => lia | S ?k => destruct i as [|i]; [|first_cases i k] end.

Ltac each_mask n :=
  let i := fresh "i" in let Hi := fresh "Hi" in
  destruct (z_below 33 n ltac:(lia)) as (i & Hi & ->); first_cases i 33%nat; clear Hi.

(** Put in the values of [free] and of the powers of 2. *)
Ltac powers :=
  repeat match goal with
  | |- context [free ?n ?i] => let v := eval vm_compute in (free n i) in change (free n i) with v
  | |- context [2 ^ ?k] => let v := eval vm_compute in (2 ^ k) in progress change (2 ^ k) with v
  end.

Lemma bitset_netmask n r : 0 <= n <= 32 -> bitset (0 :: 0 :: 0 :: 0 :: r) n = Some (netmask n ++ r).
Proof. intros Hn. destruct r; each_mask n; reflexivity. Qed.

Lemma bitcount_netmask n r : 0 <= n <= 32 -> bitcount (netmask n ++ r) 4 0 = Some n.
Proof. intros Hn. destruct r; each_mask n; reflexivity. Qed.

Lemma free_range n i : 0 <= n <= 32 -> 0 <= i < 4 ->
  exists j : nat, (j < 9)%nat /\ free n i = 2 ^ Z.of_nat j.
Proof.
  intros. exists (Z.to_nat (8 - Z.max 0 (Z.min 8 (n - 8 * i)))). split; [lia|]. unfold free. f_equal. lia.
Qed.

Lemma mask_byte n i b : 0 <= n <= 32 -> 0 <= i < 4 -> is_byte b ->
  Z.land b (256 - free n i) = b - b mod free n i /\
  Z.lor b (u8 (Z.lnot (256 - free n i))) = b - b mod free n i + (free n i - 1) /\
  Z.lor (b - b mod free n i) (u8 (Z.lnot (256 - free n i))) = b - b mod free n i + (free n i - 1).
Proof.
  intros Hn Hi Hb. destruct (free_range n i Hn Hi) as (j & Hj & ->).
  assert (below 256 (fun b => (Z.land b (256 - 2 ^ Z.of_nat j) =? b - b mod 2 ^ Z.of_nat j) &&
    ((Z.lor b (u8 (Z.lnot (256 - 2 ^ Z.of_nat j))) =? b - b mod 2 ^ Z.of_nat j + (2 ^ Z.of_nat j - 1)) &&
     (Z.lor (b - b mod 2 ^ Z.of_nat j) (u8 (Z.lnot (256 - 2 ^ Z.of_nat j))) =?
      b - b mod 2 ^ Z.of_nat j + (2 ^ Z.of_nat j - 1)))) = true) as H.
  { first_cases j 9%nat; vm_compute; reflexivity. }
  pose proof (below_spec 256 _ b H Hb) as E. cbv beta in E.
  rewrite !andb_true_iff, !Z.eqb_eq in E. tauto.
Qed.

(** The address with the bits behind the mask cleared, and with them set. *)
Definition low (n : Z) (a : list Z) : list Z :=
  zip_with (fun b i => b - b mod free n i) a [0; 1; 2; 3].
Definition high (n : Z) (a : list Z) : list Z :=
  zip_with (fun b i => b - b mod free n i + (free n i - 1)) a [0; 1; 2; 3].

Ltac four a := destruct a as [|? [|? [|? [|? [|]]]]]; try done.

Lemma bitmask_netmask n a r q : 0 <= n <= 32 -> address a ->
  bitmask (a ++ r) (netmask n ++ q) 4 = Some (low n a ++ r).
Proof.
  intros Hn [Hl Ha]. four a. inv_forall. unfold netmask, low.
  cbn [map app bitmask zip_with fmap option_fmap option_map].
  repeat match goal with |- context [Z.land ?b (256 - free n ?i)] =>
    rewrite (proj1 (mask_byte n i b Hn ltac:(lia) ltac:(assumption))) end. done.
Qed.

Lemma bitimask_netmask n a r q : 0 <= n <= 32 -> address a ->
  bitimask (low n a ++ r) (netmask n ++ q) 4 = Some (high n a ++ r).
Proof.
  intros Hn [Hl Ha]. four a. inv_forall. unfold netmask, low, high.
  cbn [map app bitimask zip_with fmap option_fmap option_map].
  repeat match goal with |- context [Z.lor (?b - _) (u8 (Z.lnot (256 - free n ?i)))] =>
    rewrite (proj2 (proj2 (mask_byte n i b Hn ltac:(lia) ltac:(assumption)))) end. done.
Qed.

Lemma ip_low n a : 0 <= n <= 32 -> address a -> ip (low n a) = ip a - ip a mod 2 ^ (32 - n).
Proof.
  intros Hn [Hl Ha]. four a. inv_forall. unfold is_byte in *. unfold ip, low. cbn [nth zip_with].
  each_mask n; powers; clear Hn; dlia.
Qed.

Lemma ip_high n a : 0 <= n <= 32 -> address a -> ip (high n a) = ip (low n a) + 2 ^ (32 - n) - 1.
Proof.
  intros Hn [Hl Ha]. four a. unfold ip, low, high. cbn [nth zip_with].
  each_mask n; powers; lia.
Qed.

Lemma byte_low n i b : is_byte b -> 0 <= i < 4 -> 0 <= n <= 32 -> is_byte (b - b mod free n i).
Proof.
  intros Hb Hi Hn. destruct (free_range n i Hn Hi) as (j & _ & ->). unfold is_byte in *.
  assert (0 < 2 ^ Z.of_nat j) by (apply Z.pow_pos_nonneg; lia).
  pose proof (Z.mod_le b (2 ^ Z.of_nat j)). pose proof (Z.mod_pos_bound b (2 ^ Z.of_nat j)). lia.
Qed.

Lemma low_address n a : 0 <= n <= 32 -> address a -> address (low n a).
Proof.
  intros Hn [Hl Ha]. four a. split; [done|]. inv_forall. unfold low. cbn [zip_with].
  do 4 (apply list.Forall_cons; split; [apply byte_low; done || lia|]). done.
Qed.

Lemma ip_inj a b : address a -> address b -> ip a = ip b -> a = b.
Proof.
  intros [Hl Ha] [Hk Hb]. four a. four b. inv_forall. unfold is_byte, ip in *. cbn [nth].
  intros. repeat f_equal; lia.
Qed.

(** The addresses whose bits under the mask are those of [b]. *)
Lemma low_interval n a b : 0 <= n <= 32 -> address a -> address b ->
  low n b = low n a <-> ip (low n a) <= ip b <= ip (low n a) + 2 ^ (32 - n) - 1.
Proof.
  intros Hn Ha Hb. transitivity (ip (low n b) = ip (low n a)).
  { split; [by intros ->|]. intros. by apply ip_inj; [apply low_address..|]. }
  rewrite !ip_low by done. assert (0 < 2 ^ (32 - n)) by (apply Z.pow_pos_nonneg; lia).
  generalize dependent (2 ^ (32 - n)). generalize (ip a), (ip b). clear. intros x y m Hm.
  pose proof (Z.div_mod x m ltac:(lia)). pose proof (Z.div_mod y m ltac:(lia)).
  pose proof (Z.mod_pos_bound x m Hm). pose proof (Z.mod_pos_bound y m Hm).
  generalize dependent (x mod m). generalize dependent (y mod m).
  generalize (x / m), (y / m). intros p q u Hy Hu v Hx Hv. subst x y.
  split; [nia|]. intros. assert (p = q); nia.
Qed.

(** ** Texts of policies *)

(** Parts with dots between. *)
Fixpoint dotted (ts : list (list Z)) : list Z :=
  match ts with [] => [] | [t] => t | t :: ts => t ++ 46 :: dotted ts end.

Lemma dotted_snoc ts u : ts <> [] -> dotted (ts ++ [u]) = dotted ts ++ 46 :: u.
Proof.
  induction ts as [|t [|t' ts] IH]; [done|done|]. intros _. cbn [app dotted] in *.
  rewrite IH by done. by rewrite <- app_assoc.
Qed.

Lemma dotted_zeros k : forall ts, ts <> [] ->
  dotted (ts ++ replicate k [48]) = dotted ts ++ concat (replicate k [46; 48]).
Proof.
  induction k as [|k IH]; intros ts Hts; cbn [replicate concat]; [by rewrite !app_nil_r|].
  rewrite (cons_middle [48] ts (replicate k [48])), app_assoc, IH by (by destruct ts).
  rewrite dotted_snoc by done. by rewrite <- app_assoc.
Qed.

(** The characters of a dotted text. *)
Definition dotted_char (c : Z) : Prop := c = 46 \/ isdigit c = true.

Lemma decimal_dotted ts vs : Forall2 decimal ts vs -> Forall dotted_char (dotted ts).
Proof.
  assert (forall t v, decimal t v -> Forall dotted_char t) as Ht.
  { intros t v (_ & _ & H & _). eapply list.Forall_impl; [done|]. by right. }
  induction 1 as [|t v [|t' ts] vs Hd _ IH]; [done|by eapply Ht|]. cbn [dotted].
  apply Forall_app; split; [by eapply Ht|]. apply list.Forall_cons; split; [by left|done].
Qed.

Lemma dotted_notin s c : Forall dotted_char s -> ~ dotted_char c -> c ∉ s.
Proof. rewrite list.Forall_forall. firstorder. Qed.

Lemma dotted_nonul s : Forall dotted_char s -> nonul s.
Proof. intros H. eapply list.Forall_impl; [done|]. by intros c [Hc|Hc] ->. Qed.

Lemma dotted_length ts vs : Forall2 decimal ts vs -> (length (dotted ts) <= 4 * length ts)%nat.
Proof.
  induction 1 as [|t v [|t' ts] vs (_ & Hl & _) _ IH]; [done|cbn [dotted length] in *; lia|].
  cbn [dotted] in *. rewrite length_app. cbn [length] in *. lia.
Qed.

Lemma dots_of_app s t : cidr.dots_of (s ++ t) = (cidr.dots_of s + cidr.dots_of t)%nat.
Proof. unfold cidr.dots_of. by rewrite List.filter_app, length_app. Qed.

Lemma dots_of_digits t : Forall (fun c => isdigit c = true) t -> cidr.dots_of t = O.
Proof.
  unfold cidr.dots_of. induction 1 as [|c t Hc Ht IH]; [done|]. cbn.
  destruct (Z.eqb_spec c 46) as [->|]; done.
Qed.

Lemma dots_of_dotted ts vs : Forall2 decimal ts vs -> cidr.dots_of (dotted ts) = pred (length ts).
Proof.
  induction 1 as [|t v [|t' ts] vs (_ & _ & Ht & _) _ IH]; [done|by apply dots_of_digits|].
  cbn [dotted] in *. rewrite dots_of_app, dots_of_digits by done.
  exact (f_equal S IH).
Qed.

Lemma atol_decimal_text t v : decimal t v -> atol t = v.
Proof.
  intros (Hn & _ & Hd & Hv & _). destruct t as [|c t]; [done|].
  rewrite atol_digit by (by inversion Hd). done.
Qed.

Lemma add_zeros_spec k : forall b s, cstr b = Some s -> zlen b = 128 -> zlen s + 2 * Z.of_nat k < 127 ->
  exists b', cidr.add_zeros k b = Some b' /\ cstr b' = Some (s ++ concat (replicate k [46; 48])) /\ zlen b' = 128.
Proof.
  induction k as [|k IH]; intros b s Hb Hz Hs; cbn [cidr.add_zeros replicate concat].
  - exists b. by rewrite app_nil_r.
  - destruct (cstr_inv b s Hb) as (Hn & _).
    destruct (buffer_add_spec b [46; 48; 0] [46; 48] s 128) as (r & -> & Hr); [lia|done|done|done|lia|]. run.
    rewrite take_ge in Hr |- * by (rewrite length_app; unfold zlen in *; cbn; lia).
    assert (nonul (s ++ [46; 48])) by (apply nonul_app; split; [done|by repeat constructor]).
    destruct (IH ((s ++ [46; 48]) ++ 0 :: r) (s ++ [46; 48])) as (b' & -> & Hc & Hz');
      [by apply cstr_app|lia|rewrite zlen_app; change (zlen [46; 48]) with 2; lia|].
    exists b'. rewrite Hc, <- app_assoc. done.
Qed.

(** ** Policies of the version 4 *)

Section inet.
Context `{Inet}.

Lemma text_nonul d nt n : Forall dotted_char d -> decimal nt n -> nonul (d ++ 47 :: nt).
Proof.
  intros Hd Hn. pose proof (decimal_dotted [nt] [n] ltac:(constructor; [done|constructor])) as Hnt.
  apply nonul_app; split; [by apply dotted_nonul|]. apply list.Forall_cons; split; [done|by apply dotted_nonul].
Qed.

Lemma text_cstr d nt n r : Forall dotted_char d -> decimal nt n ->
  cstr (d ++ 47 :: nt ++ 0 :: r) = Some (d ++ 47 :: nt).
Proof.
  intros Hd Hn. change (d ++ 47 :: nt ++ 0 :: r) with (d ++ (47 :: nt) ++ 0 :: r). rewrite app_assoc.
  by eapply cstr_app, text_nonul.
Qed.

Lemma no_slash : ~ dotted_char 47.
Proof. by intros [|]. Qed.

Lemma mask_of_spec d nt n r : Forall dotted_char d -> decimal nt n ->
  cidr.mask_of AF_INET (d ++ 47 :: nt ++ 0 :: r) = Some n.
Proof.
  intros Hd Hn. unfold cidr.mask_of. rewrite (text_cstr _ _ n) by done. run.
  rewrite strchr_mid by (apply dotted_notin; [done|apply no_slash]).
  change (AF_INET =? AF_INET6) with false. change (AF_INET =? AF_INET) with true. cbv iota.
  replace (Z.to_nat (zlen d + 1)) with (length d + 1)%nat by (unfold zlen; lia).
  rewrite drop_app_add. cbn [drop]. rewrite drop_0. cbv zeta. rewrite strchr_none; [|done|].
  - rewrite (atol_decimal_text nt n) by done.
    f_equal. apply u32_id. destruct Hn; lia.
  - destruct Hn as (_ & _ & Hn & _). intros Hin. rewrite list.Forall_forall in Hn. by specialize (Hn _ Hin).
Qed.

Lemma cut_slash_spec d nt n r : Forall dotted_char d -> decimal nt n ->
  cidr.cut_slash (d ++ 47 :: nt ++ 0 :: r) = Some (d ++ 0 :: nt ++ 0 :: r).
Proof.
  intros Hd Hn. unfold cidr.cut_slash. rewrite (text_cstr _ _ n) by done. run.
  rewrite strchr_mid by (apply dotted_notin; [done|apply no_slash]). by apply wr_app_r.
Qed.

(** The parts that are not given are zero. *)
Definition filled (vs : list Z) : list Z := vs ++ replicate (4 - length vs) 0.

Lemma decimal_filled ts vs : Forall2 decimal ts vs ->
  Forall2 decimal (ts ++ replicate (4 - length ts) [48]) (filled vs).
Proof.
  intros Hts. unfold filled. rewrite (list.Forall2_length _ _ _ Hts). apply Forall2_app; [done|].
  apply Forall2_replicate. unfold decimal. split_and!; [done|cbn; lia|by repeat constructor|done|lia|lia|done].
Qed.

Lemma filled_address ts vs : Forall2 decimal ts vs -> (length ts <= 4)%nat -> address (filled vs).
Proof.
  intros Hts Hl. pose proof (decimal_filled _ _ Hts) as H4. pose proof (list.Forall2_length _ _ _ Hts).
  split; [unfold filled; rewrite length_app, length_replicate; lia|].
  eapply Forall2_Forall_r; [exact H4|]. apply list.Forall_forall. intros t _ v Hv.
  unfold is_byte. destruct Hv; lia.
Qed.

Lemma aton_filled ts vs : Forall2 decimal ts vs -> (1 <= length ts <= 4)%nat ->
  inet_aton (dotted ts ++ concat (replicate (3 - pred (length ts)) [46; 48])) = Some (filled vs).
Proof.
  intros Hts Hk. pose proof (decimal_filled _ _ Hts) as H4. rewrite <- dotted_zeros by (intros ->; cbn in Hk; lia).
  replace (3 - pred (length ts))%nat with (4 - length ts)%nat by lia.
  assert (length (ts ++ replicate (4 - length ts) [48]) = 4%nat) as Hlen
    by (rewrite length_app, length_replicate; lia).
  revert H4 Hlen. generalize (ts ++ replicate (4 - length ts) [48]) as us, (filled vs) as ws.
  intros us ws H4 Hlen. destruct H4 as [|? ? ? ? ? [|? ? ? ? ? [|? ? ? ? ? [|? ? ? ? ? []]]]]; try discriminate Hlen.
  by apply inet_aton_dotted.
Qed.

Lemma set_spec4 old ts vs nt n r mem :
  Forall2 decimal ts vs -> (1 <= length ts <= 4)%nat -> decimal nt n -> n <= 32 ->
  (4 <= length (cidr.Network old))%nat -> zlen mem = 128 ->
  let cp := dotted ts ++ 47 :: nt ++ 0 :: r in
  cidr.set old cp mem =
  Some (cidr.Mk AF_INET (netmask n ++ drop 4 (cidr.Netmask old))
    (low n (filled vs) ++ drop 4 (cidr.Network old)) (cidr.Name old), cp).
Proof.
  intros Hts Hk Hn H32 Hl Hm cp. pose proof (decimal_dotted ts vs Hts) as Hd.
  pose proof (dotted_length ts vs Hts) as Hlen. destruct (Hn) as (_ & Hln & _ & _ & Hr & _).
  pose proof (text_nonul _ _ _ Hd Hn) as Hnn.
  assert (Htx : cstr cp = Some (dotted ts ++ 47 :: nt)) by by eapply text_cstr.
  unfold cidr.set. rewrite Htx. run. rewrite strchr_none; [|done|].
  2:{ intros [Hin|[[=]|Hin]%elem_of_cons]%elem_of_app; revert Hin; [apply dotted_notin; [done|by intros [|]]|].
      pose proof (decimal_dotted [nt] [n] ltac:(constructor; [done|constructor])) as Hnt.
      apply dotted_notin; [done|by intros [|]]. }
  cbv zeta iota.
  replace (cidr.mask_of AF_INET cp) with (Some n) by (symmetry; by apply mask_of_spec). run.
  change (AF_INET =? AF_INET) with true. cbv iota. cbn [replicate app]. rewrite bitset_netmask by lia. run.
  destruct (set_spec mem 128 (Some cp) (dotted ts ++ 47 :: nt)) as (q & -> & Hq); [lia|done|]. run.
  rewrite take_ge in Hq |- * by (rewrite length_app; cbn [length]; lia).
  rewrite <- app_assoc in Hq |- *. cbn [app] in Hq |- *.
  rewrite (cut_slash_spec _ _ n) by done. run. rewrite cstr_app by (by apply dotted_nonul). run.
  rewrite (dots_of_dotted ts vs) by done.
  destruct (add_zeros_spec (3 - pred (length ts)) (dotted ts ++ 0 :: nt ++ 0 :: q) (dotted ts))
    as (b & -> & Hb & _); [apply cstr_app; by apply dotted_nonul|..].
  { rewrite <- Hm, <- Hq, !zlen_app, !zlen_cons. done. }
  { unfold zlen. lia. }
  run. rewrite Hb. run. rewrite (aton_filled ts vs) by done.
  rewrite bitmask_netmask; [done|lia|]. eapply filled_address; [done|lia].
Qed.

(** C23.  A policy of the internet protocol version 4 is an interval.  [set] accepts
    every text of one to four decimal parts, a slash and a number of bits up to 32;
    the missing parts are zero, the text is not written and the mask reads back as
    the number.  The network is the address rounded down to a multiple of
    [2 ^ (32 - n)], the members are the addresses from the network to the
    broadcast address, which is the last one before the next multiple, and no
    address of another family is a member. *)
Theorem cidr_interval (old : cidr.t) (ts : list (list Z)) (vs nt : list Z) (n : Z) (r mem : list Z) :
  Forall2 decimal ts vs -> (1 <= length ts <= 4)%nat -> decimal nt n -> n <= 32 ->
  (4 <= length (cidr.Network old))%nat -> zlen mem = 128 ->
  let cp := dotted ts ++ 47 :: nt ++ 0 :: r in
  let net := ip (filled vs) - ip (filled vs) mod 2 ^ (32 - n) in
  exists p, cidr.set old cp mem = Some (p, cp) /\
    cidr.mask p = Some n /\ ip (cidr.Network p) = net /\
    (forall a, address a -> cidr.is_member p (Sockaddr AF_INET a) =
      Some (bool_decide (net <= ip a <= net + 2 ^ (32 - n) - 1))) /\
    (forall f a, f <> AF_INET -> cidr.is_member p (Sockaddr f a) = Some false) /\
    (forall stack, exists b, cidr.broadcast p stack = Some (b ++ drop 4 stack) /\
      ip b = net + 2 ^ (32 - n) - 1).
Proof.
  intros Hts Hk Hn H32 Hl Hm cp net. pose proof (filled_address ts vs Hts ltac:(lia)) as Ha.
  assert (0 <= n) by (destruct Hn as (_ & _ & _ & _ & ? & _); lia).
  pose proof (ip_low n (filled vs) ltac:(lia) Ha) as Hnet. fold net in Hnet.
  pose proof (low_address n (filled vs) ltac:(lia) Ha) as Hlow.
  eexists. split; [by eapply set_spec4|]. unfold cidr.mask, cidr.is_member, cidr.broadcast.
  cbn [cidr.Family cidr.Netmask cidr.Network sa_family sin_addr].
  change (AF_INET =? AF_INET) with true. cbn [negb]. cbv iota.
  split_and!.
  - apply bitcount_netmask. lia.
  - rewrite <- Hnet. destruct Hlow as [Hll _]. by four (low n (filled vs)).
  - intros a Hx. pose proof (bitmask_netmask n a [] (drop 4 (cidr.Netmask old)) ltac:(lia) Hx) as E.
    rewrite !app_nil_r in E. rewrite E. run.
    f_equal. apply bool_decide_ext.
    rewrite (take_app_length' (low n (filled vs))) by (symmetry; apply Hlow).
    rewrite take_ge by (by destruct (low_address n a ltac:(lia) Hx) as [-> _]).
    rewrite <- Hnet. apply low_interval; done || lia.
  - intros f a Hf. by destruct (Z.eqb_spec f AF_INET).
  - intros stack. rewrite (take_app_length' (low n (filled vs))) by (symmetry; apply Hlow).
    pose proof (bitimask_netmask n (filled vs) [] (drop 4 (cidr.Netmask old)) ltac:(lia) Ha) as E.
    rewrite !app_nil_r in E. rewrite E. run. exists (high n (filled vs)). split; [done|]. rewrite ip_high by (done || lia). lia.
Qed.

End inet.

(** A reader of addresses, to instantiate the parameters. *)
Definition sample_aton (s : list Z) : option (list Z) :=
  let '(a, s) := digits s 0 in
  let '(b, s) := digits (drop 1 s) 0 in
  let '(c, s) := digits (drop 1 s) 0 in
  let '(d, s) := digits (drop 1 s) 0 in
  Some [a; b; c; d].

Lemma digits_stop t r acc : Forall (fun c => isdigit c = true) t ->
  digits (t ++ 46 :: r) acc = ((digits t acc).1, 46 :: r).
Proof. intros Ht. revert acc. induction Ht as [|c t Hc Ht IH]; intros acc; cbn; [done|]. by rewrite Hc. Qed.

Lemma sample_dotted t1 t2 t3 t4 a b c d : decimal t1 a -> decimal t2 b -> decimal t3 c -> decimal t4 d ->
  sample_aton (t1 ++ 46 :: t2 ++ 46 :: t3 ++ 46 :: t4) = Some [a; b; c; d].
Proof.
  intros (_ & _ & H1 & <- & _) (_ & _ & H2 & <- & _) (_ & _ & H3 & <- & _) (_ & _ & H4 & <- & _).
  unfold sample_aton. rewrite digits_stop by done. cbn [drop]. rewrite drop_0, digits_stop by done.
  cbn [drop]. rewrite drop_0, digits_stop by done. cbn [drop]. rewrite drop_0. by destruct (digits t4 0).
Qed.

Definition sample_inet : Inet := {|
  inet_aton := sample_aton; inet_addr _ := [255; 255; 255; 255]; inet_pton _ := None;
  inet_aton_dotted := sample_dotted |}.

Lemma cidr_interval_witness :
  let old := cidr.Mk 0 (replicate 16 7) (replicate 16 7) (replicate 16 0) in
  let cp := dotted [bytes "10"; bytes "77"] ++ 47 :: bytes "12" ++ 0 :: [] in
  let net := ip (filled [10; 77]) - ip (filled [10; 77]) mod 2 ^ (32 - 12) in
  exists p, @cidr.set sample_inet old cp (replicate 128 1) = Some (p, cp) /\
    cidr.mask p = Some 12 /\ ip (cidr.Network p) = net /\
    (forall a, address a -> cidr.is_member p (Sockaddr AF_INET a) =
      Some (bool_decide (net <= ip a <= net + 2 ^ (32 - 12) - 1))) /\
    (forall f a, f <> AF_INET -> cidr.is_member p (Sockaddr f a) = Some false) /\
    (forall stack, exists b, cidr.broadcast p stack = Some (b ++ drop 4 stack) /\
      ip b = net + 2 ^ (32 - 12) - 1).
Proof.
  apply (@cidr_interval sample_inet (cidr.Mk 0 (replicate 16 7) (replicate 16 7) (replicate 16 0))
    [bytes "10"; bytes "77"] [10; 77] (bytes "12") 12 [] (replicate 128 1));
    unfold decimal; try apply Forall2_cons_2; try apply Forall2_cons_2; try apply Forall2_nil_2;
    split_and?; try (cbn; lia); try done; by repeat constructor.
Defined.

(** ** The choice among policies *)

(** A policy whose addresses are whole, and what the functions say of it. *)
Definition policy_ok (p : cidr.t) : Prop := length (cidr.Netmask p) = 16%nat.
Definition member (a : sockaddr) (p : cidr.t) : bool := default false (cidr.is_member p a).
Definition bits (p : cidr.t) : Z := default 0 (cidr.mask p).

Lemma bitmask_total len : forall b m, (len <= length b)%nat -> (len <= length m)%nat ->
  is_Some (bitmask b m len).
Proof.
  induction len as [|len IH]; intros b m Hb Hm; [by eexists|].
  destruct b as [|x b]; [cbn in Hb; lia|]. destruct m as [|y m]; [cbn in Hm; lia|]. cbn in *.
  destruct (IH b m) as (r & ->); [lia..|]. by eexists.
Qed.

Lemma bitcount_total len : forall b c, (len <= length b)%nat -> is_Some (bitcount b len c).
Proof.
  induction len as [|len IH]; intros b c Hb; [by eexists|].
  destruct b as [|x b]; [cbn in Hb; lia|]. cbn [bitcount] in *.
  destruct (bitcount_byte 8 x 128 c) as [k []]; [apply IH; cbn in Hb; lia|by eexists].
Qed.

Lemma mask_bits p : policy_ok p -> cidr.mask p = Some (bits p).
Proof.
  intros Hp. unfold bits. cut (is_Some (cidr.mask p)); [by intros [k ->]|]. unfold cidr.mask.
  repeat case_match; [apply bitcount_total; rewrite Hp; lia..|by eexists].
Qed.

Lemma is_member_bool p a : policy_ok p -> length (sin_addr a) = 16%nat ->
  cidr.is_member p a = Some (member a p).
Proof.
  intros Hp Ha. unfold member. cut (is_Some (cidr.is_member p a)); [by intros [k ->]|].
  unfold cidr.is_member. repeat case_match; try by eexists.
  - destruct (bitmask_total 4 (sin_addr a) (cidr.Netmask p)) as (h & ->); [rewrite ?Hp; lia..|]. by eexists.
  - destruct (bitmask_total 16 (sin_addr a) (cidr.Netmask p)) as (h & ->); [rewrite ?Hp; lia..|]. by eexists.
Qed.

(** Both walks keep the first member that is better than all before it. *)
Fixpoint pick (better : Z -> Z -> bool) (a : sockaddr) (l : list cidr.t) (i : nat) (top : Z)
    (best : option nat) : option nat :=
  match l with
  | [] => best
  | p :: l =>
      if member a p && better (bits p) top then pick better a l (S i) (bits p) (Some i)
      else pick better a l (S i) top best
  end.

Lemma find_pick a l : forall i top best, Forall policy_ok l -> length (sin_addr a) = 16%nat ->
  cidr.find_loop l a i top best = Some (pick (fun k t => t <? k) a l i top best).
Proof.
  induction l as [|p l IH]; intros i top best Hl Ha; cbn [cidr.find_loop pick]; [done|]. inv_forall.
  rewrite is_member_bool, mask_bits by done. run. case_match; by apply IH.
Qed.

Lemma container_pick a l : forall i top best, Forall policy_ok l -> length (sin_addr a) = 16%nat ->
  cidr.container_loop l a i top best = Some (pick (fun k t => k <? t) a l i top best).
Proof.
  induction l as [|p l IH]; intros i top best Hl Ha; cbn [cidr.container_loop pick]; [done|]. inv_forall.
  rewrite is_member_bool, mask_bits by done. run. case_match; by apply IH.
Qed.

Section pick.
Context (better : Z -> Z -> bool).
Context (asym : forall x y, better x y = true -> better y x = false).
Context (trans : forall x y z, better x y = true -> better y z = true -> better x z = true).
Context (weak : forall x y z, better x y = true -> better z y = false -> better x z = true).

(** Place [j] of the list has the first of the best members. *)
Definition best_at (a : sockaddr) (l : list cidr.t) (top : Z) (j : nat) : Prop :=
  exists p, l !! j = Some p /\ member a p = true /\ better (bits p) top = true /\
    forall k q, l !! k = Some q -> member a q = true ->
      better (bits q) (bits p) = false /\ ((k < j)%nat -> better (bits p) (bits q) = true).

Lemma pick_spec a l : forall i top best,
  (pick better a l i top best = best /\ forall q, q ∈ l -> member a q = true -> better (bits q) top = false) \/
  exists j, pick better a l i top best = Some (i + j)%nat /\ best_at a l top j.
Proof.
  induction l as [|p l IH]; intros i top best; cbn [pick].
  { left. split; [done|]. by intros q ?%elem_of_nil. }
  assert (forall j top', best_at a l top' j -> (top' = top \/ top' = bits p /\ better (bits p) top = true) ->
    (member a p = true -> better (bits p) top' = false) -> best_at a (p :: l) top (S j)) as Hlater.
  { intros j top' (p' & Hp' & Hm & Hb & Hk) Htop Hp. exists p'. split; [done|]. split; [done|].
    split; [destruct Htop as [->|[-> ?]]; [done|by eapply trans]|].
    intros [|k] q Hq Hmq; [|destruct (Hk k q Hq Hmq); split; [done|intros; auto with lia]].
    injection Hq as <-. pose proof (weak _ _ _ Hb (Hp Hmq)). auto. }
  destruct (member a p && better (bits p) top) eqn:E.
  - apply andb_true_iff in E as [Hm Hb]. right.
    destruct (IH (S i) (bits p) (Some i)) as [(-> & Hl)|(j & -> & Hj)].
    + exists O. split; [f_equal; lia|]. exists p. split_and!; [done..|].
      intros [|k] q Hq Hmq; [injection Hq as <-|]; (split; [|lia]).
      * destruct (better (bits p) (bits p)) eqn:E; [by rewrite (asym _ _ E) in E|done].
      * apply Hl; [by eapply list_elem_of_lookup_2|done].
    + exists (S j). split; [f_equal; lia|]. eapply Hlater; [done|by right|]. intros _.
      destruct (better (bits p) (bits p)) eqn:E; [by rewrite (asym _ _ E) in E|done].
  - assert (member a p = true -> better (bits p) top = false) as Hp by (intros Hm; by rewrite Hm in E).
    destruct (IH (S i) top best) as [(-> & Hl)|(j & -> & Hj)].
    + left. split; [done|]. intros q [->|Hq]%elem_of_cons; [done|by apply Hl].
    + right. exists (S j). split; [f_equal; lia|]. eapply Hlater; [done|by left|done].
Qed.

Lemma pick_none a l top :
  pick better a l 0 top None = None <-> forall q, q ∈ l -> member a q = true -> better (bits q) top = false.
Proof.
  destruct (pick_spec a l 0 top None) as [(-> & Hl)|(j & -> & p & Hj & Hm & Hb & _)]; [done|].
  split; [done|]. intros Hl. rewrite Hl in Hb; [done|by eapply list_elem_of_lookup_2|done].
Qed.

Lemma pick_some a l top j : pick better a l 0 top None = Some j -> best_at a l top j.
Proof. destruct (pick_spec a l 0 top None) as [[-> _]|(k & -> & Hk)]; [done|]. by intros [= <-]. Qed.
End pick.

(** C24.  Among the policies of a list [find] gives the first of the members with the
    longest mask and [container] the first of the members with the shortest: every
    other member of the list has no better mask, those in front of it a worse one.
    NULL is more than no match, against what socket.h says: [find] starts from a mask
    of no bit and gives NULL exactly when no member has a mask of a bit, also when a
    policy of all addresses ([/0]) matches ([find_all_addresses]); [container] starts
    from 128 bits and gives NULL exactly when no member has a mask of less than 128,
    also when a policy of a single address of the version 6 ([/128]) matches
    ([container_single_address]). *)
Theorem cidr_find (a : sockaddr) (l : list cidr.t) :
  Forall policy_ok l -> length (sin_addr a) = 16%nat ->
  exists f c, cidr.find l a = Some f /\ cidr.container l a = Some c /\
    (forall i, f = Some i -> best_at (fun k t => t <? k) a l 0 i) /\
    (f = None <-> forall q, q ∈ l -> member a q = true -> (0 <? bits q) = false) /\
    (forall i, c = Some i -> best_at (fun k t => k <? t) a l 128 i) /\
    (c = None <-> forall q, q ∈ l -> member a q = true -> (bits q <? 128) = false).
Proof.
  intros Hl Ha. unfold cidr.find, cidr.container. rewrite find_pick, container_pick by done.
  eexists _, _. split; [done|]. split; [done|].
  split_and!; [intros i; apply pick_some|apply pick_none|intros i; apply pick_some|apply pick_none]; lia.
Qed.

Lemma cidr_find_witness :
  let home := cidr.Mk AF_INET (255 :: replicate 15 0) (127 :: replicate 15 0) [] in
  let any := cidr.Mk AF_INET (replicate 16 0) (replicate 16 0) [] in
  let a := Sockaddr AF_INET ([127; 0; 0; 1] ++ replicate 12 0) in
  exists f c, cidr.find [any; home; home] a = Some f /\ cidr.container [any; home; home] a = Some c /\
    (forall i, f = Some i -> best_at (fun k t => t <? k) a [any; home; home] 0 i) /\
    (f = None <-> forall q, q ∈ [any; home; home] -> member a q = true -> (0 <? bits q) = false) /\
    (forall i, c = Some i -> best_at (fun k t => k <? t) a [any; home; home] 128 i) /\
    (c = None <-> forall q, q ∈ [any; home; home] -> member a q = true -> (bits q <? 128) = false).
Proof. intros home any a. apply (cidr_find a [any; home; home]); [by repeat constructor|done]. Defined.

(** ** Limits *)

(** For an address of the version 6 the slash is cut from the text of the caller and
    not from the copy that is read: a reader of addresses that refuses a slash leaves
    the network as the memory held it. *)
Lemma set_slash6 `{Inet} old cp mem s k p cp' :
  (forall t, 47 ∈ t -> inet_pton t = None) ->
  cstr cp = Some s -> 58 ∈ s -> 47 ∈ s -> strchr s 47 = Some k -> zlen s < 128 -> zlen mem = 128 ->
  cidr.set old cp mem = Some (p, cp') ->
  wr cp k 0 = Some cp' /\ bitmask (cidr.Network old) (cidr.Netmask p) 16 = Some (cidr.Network p).
Proof.
  intros Hpton Hs H58 H47 Hk Hl Hm. unfold cidr.set. rewrite Hs. run.
  destruct (strchr s 58) as [c|] eqn:Hc.
  2:{ apply in_set_nonul in H58; [|done]. unfold in_set in H58. by rewrite Hc in H58. }
  cbv iota zeta. destruct (cidr.mask_of AF_INET6 cp) as [n|]; [|done]. run.
  change (AF_INET6 =? AF_INET) with false. cbv iota.
  destruct (bitset (replicate 16 0) n) as [mask|]; [|done]. run.
  destruct (set_spec mem 128 (Some cp) s) as (r & -> & _); [lia|done|]. run.
  rewrite take_ge by (unfold zlen in *; lia).
  unfold cidr.cut_slash. rewrite Hs. run. rewrite Hk. destruct (wr cp k 0) as [cp''|] eqn:Hw; [|done]. run.
  rewrite cstr_app by (by eapply cstr_inv). run. rewrite Hpton by done.
  destruct (bitmask (cidr.Network old) mask 16) as [net|] eqn:Hn; [|done]. run. by intros [= <- <-].
Qed.

(** A number of bits behind the slash is not compared with the size of an address:
    the bits of a mask beyond the union are written behind it. *)
Example set_overrun :
  @cidr.set sample_inet (cidr.Mk 0 (replicate 16 0) (replicate 16 0) (replicate 16 0))
    (bytes "10.0.0.0/200" ++ [0]) (replicate 128 0) = None.
Proof. vm_compute. reflexivity. Qed.

(** A policy of all addresses is a member's container but never found, one of a
    single address of the version 6 is found but never a container: NULL, which the
    documentation of [find] and [container] has for no match. *)
Example find_all_addresses :
  let any := cidr.Mk AF_INET (replicate 16 0) (replicate 16 0) [] in
  let a := Sockaddr AF_INET ([127; 0; 0; 1] ++ replicate 12 0) in
  cidr.is_member any a = Some true /\ cidr.find [any] a = Some None /\ cidr.container [any] a = Some (Some O).
Proof. by vm_compute. Qed.

Example container_single_address :
  let one := cidr.Mk AF_INET6 (replicate 16 255) (replicate 15 0 ++ [1]) [] in
  let a := Sockaddr AF_INET6 (replicate 15 0 ++ [1]) in
  cidr.is_member one a = Some true /\ cidr.find [one] a = Some (Some O) /\ cidr.container [one] a = Some None.
Proof. by vm_compute. Qed.
