(* ===== verification/Typeref.v ===== *)
(** * References to counted heap objects (corelib/typeref.cpp, inc/ucommon/typeref.h)

    A [Counted] object holds the number of the smart pointers that refer to it; the
    last one gives it back through the [TypeRelease] it was made with.  The heap maps
    addresses to the live objects; a call that touches an object that is gone is
    [None].  The smart pointers of the program are numbered cells, so that two
    arguments of a call may be the same one. *)

From stdpp Require Import gmap strings.
From S2P Require Import Prelude CLib Codec Strings StringObj.

(** The three ways to give memory back that the library has. *)
Inductive pool := auto_release | secure_release | release_later.

(** The union of [autorelease] and [linkrelease]. *)
Inductive union := autorelease (r : option pool) | linkrelease (next : option loc).

#[export] Instance pool_eq_dec : EqDecision pool.
Proof. solve_decision. Defined.
#[export] Instance union_eq_dec : EqDecision union.
Proof. solve_decision. Defined.

Module Counted.

(** An object: [mem] are the bytes behind the fixed part, [size] of them and one. *)
Record t := Mk { count : Z; owner : union; size : Z; mem : list Z }.

Definition with_count (c : t) (n : Z) : t := Mk n (owner c) (size c) (mem c).
Definition with_owner (c : t) (u : union) : t := Mk (count c) u (size c) (mem c).
Definition with_size (c : t) (n : Z) : t := Mk (count c) (owner c) n (mem c).
Definition with_mem (c : t) (b : list Z) : t := Mk (count c) (owner c) (size c) b.

(** The constructor. *)
Definition make (size : Z) (ar : option pool) (mem : list Z) : t := Mk 0 (autorelease ar) size mem.

End Counted.

(** [later] is the list of [TypeReleaseLater]; [freed] has the bytes of the objects
    whose memory went back to the allocator. *)
Record store := Store { cells : gmap loc Counted.t; later : option loc; freed : list (list Z) }.

Definition put (h : store) (l : loc) (c : Counted.t) : store :=
  Store (<[l := c]> (cells h)) (later h) (freed h).

(** An object is built at a new address. *)
Definition new (h : store) (c : Counted.t) : store * loc :=
  let l := fresh (dom (cells h)) in (put h l c, l).

Module TypeRelease.

(** [Counted::dealloc] without a pool: [delete] and [free]. *)
Definition free_object (h : store) (l : loc) : option store :=
  c ← cells h !! l; Some (Store (delete l (cells h)) (later h) (freed h ++ [Counted.mem c])).

(** [TypeRelease::release]: [dealloc] again, now without a pool. *)
Definition release (h : store) (l : loc) : option store :=
  c ← cells h !! l; free_object (put h l (Counted.with_owner c (autorelease None))) l.

(** [TypeSecure::release] *)
Definition secure (h : store) (l : loc) : option store :=
  c ← cells h !! l;
  b ← blit (Counted.mem c) 0 (replicate (Z.to_nat (Counted.size c)) 0);
  release (put h l (Counted.with_mem c b)) l.

Definition enlist (h : store) (root : option loc) (l : loc) : option (store * option loc) :=
  c ← cells h !! l; Some (put h l (Counted.with_owner c (linkrelease root)), Some l).

Definition delist (h : store) (root : option loc) : option (store * option loc * option loc) :=
  match root with
  | None => Some (h, None, None)
  | Some l =>
      c ← cells h !! l;
      match Counted.owner c with
      | linkrelease next => Some (put h l (Counted.with_owner c (autorelease None)), next, Some l)
      | autorelease _ => None
      end
  end.

(** [TypeReleaseLater::release] *)
Definition postpone (h : store) (l : loc) : option store :=
  '(h, root) ← enlist h (later h) l; Some (Store (cells h) root (freed h)).

(** [TypeRelease::dealloc]: to the delegate, or to [release]. *)
Definition dealloc (r : pool) (h : store) (l : loc) : option store :=
  match r with
  | auto_release => release h l
  | secure_release => secure h l
  | release_later => postpone h l
  end.

(** [TypeReleaseLater::purge]: the objects are given back one after the other. *)
Fixpoint purge_loop (fuel : nat) (h : store) (root : option loc) (count : Z) : option (store * Z) :=
  match fuel with
  | O => None
  | S f =>
      '(h, root, obj) ← delist h root;
      match obj with
      | None => Some (h, count)
      | Some l => h ← release h l; purge_loop f h root (u32 (count + 1))
      end
  end.

Definition purge_later (h : store) : option (store * Z) :=
  purge_loop (S (size (cells h))) (Store (cells h) None (freed h)) (later h) 0.

(** [TypeRelease::purge] *)
Definition purge (r : pool) (h : store) : option (store * Z) :=
  match r with release_later => purge_later h | _ => Some (h, 0) end.

End TypeRelease.

Module counted.

(** [Counted::dealloc] *)
Definition dealloc (h : store) (l : loc) : option store :=
  c ← cells h !! l;
  match Counted.owner c with
  | autorelease (Some r) => TypeRelease.dealloc r (put h l (Counted.with_owner c (autorelease None))) l
  | autorelease None => TypeRelease.free_object h l
  | linkrelease _ => None
  end.

Definition retain (h : store) (l : loc) : option store :=
  c ← cells h !! l; Some (put h l (Counted.with_count c (s32 (Counted.count c + 1)))).

Definition release (h : store) (l : loc) : option store :=
  c ← cells h !! l;
  let h := put h l (Counted.with_count c (s32 (Counted.count c - 1))) in
  if Counted.count c <? 2 then dealloc h l else Some h.

Definition copies (c : Counted.t) : Z := u32 (Counted.count c).
Definition is_ (c : Counted.t) : bool := 0 <? Counted.count c.

(** What [destroy] of the two kinds of values does: the count is not looked at. *)
Definition destroy (h : store) (l : loc) : option store :=
  c ← cells h !! l; release (put h l (Counted.with_count c 0)) l.

End counted.

Module TypeRef.

(** The smart pointers of a program. *)
Record program := Program { heap : store; refs : list (option loc) }.

Definition set_heap (p : program) (h : store) : program := Program h (refs p).
Definition set_ref (p : program) (i : nat) (r : option loc) : program := Program (heap p) (<[i := r]> (refs p)).

(** [if (object) object->retain ();] *)
Definition retain (p : program) (r : option loc) : option program :=
  match r with None => Some p | Some l => h ← counted.retain (heap p) l; Some (set_heap p h) end.

Definition clear (p : program) (i : nat) : option program :=
  r ← refs p !! i;
  match r with
  | None => Some (set_ref p i None)
  | Some l => h ← counted.release (heap p) l; Some (set_ref (set_heap p h) i None)
  end.

(** The constructors; the destructor is [clear]. *)
Definition make (p : program) : program := Program (heap p) (refs p ++ [None]).

Definition make_object (p : program) (r : option loc) : option program :=
  p ← retain p r; Some (Program (heap p) (refs p ++ [r])).

Definition make_copy (p : program) (j : nat) : option program := r ← refs p !! j; make_object p r.

(** [set (const TypeRef&)]: the argument is read again behind [clear]. *)
Definition set (p : program) (i j : nat) : option program :=
  r ← refs p !! j;
  p ← retain p r; p ← clear p i;
  r ← refs p !! j; Some (set_ref p i r).

(** [assign (const typeref_guard&)]: the same with the mutex of the guard. *)
Definition assign (p : program) (i j : nat) : option program :=
  r ← refs p !! j;
  p ← retain p r; p ← clear p i;
  r ← refs p !! j; Some (set_ref p i r).

(** [set] of an object. *)
Definition set_object (p : program) (i : nat) (r : option loc) : option program :=
  p ← retain p r; p ← clear p i; Some (set_ref p i r).

(** The object of a reference. *)
Definition object (p : program) (i : nat) : option (option Counted.t) :=
  r ← refs p !! i;
  match r with None => Some None | Some l => c ← cells (heap p) !! l; Some (Some c) end.

Definition is_released (p : program) (i : nat) : option bool :=
  c ← object p i;
  match c with
  | None => Some true
  | Some c => Some (bool_decide (Counted.owner c = autorelease None))
  end.

Definition size (p : program) (i : nat) : option Z :=
  c ← object p i; Some (match c with None => 0 | Some c => Counted.size c end).

Definition copies (p : program) (i : nat) : option Z :=
  c ← object p i; Some (match c with None => 0 | Some c => counted.copies c end).

(** [mem]: up to the next address that is a multiple of [cache]. *)
Fixpoint mem_loop (fuel : nat) (addr mask : Z) : Z :=
  match fuel with
  | O => addr
  | S f => if Z.land addr mask =? 0 then addr else mem_loop f (u64 (addr + 1)) mask
  end.

Definition mem (addr cache : Z) : Z := mem_loop (Z.to_nat cache) addr (cache - 1).

End TypeRef.

Import TypeRef.

(** The text an argument points to: one of the caller, or that of an object. *)
Inductive source := Text (b : list Z) | In (l : loc).

Definition read (h : store) (str : source) : option (list Z) :=
  match str with Text b => Some b | In l => Counted.mem <$> cells h !! l end.

(** [typeref<const char *>] *)
Module chars.
Section malloc.
Context `{Malloc}.

(** The constructor of [value], on new memory. *)
Definition value (size : Z) (str : option (list Z)) (ar : option pool) : option Counted.t :=
  b ← match str with
      | Some t => Str.set (junk (size + 1)) (size + 1) (Some t)
      | None => wr (junk (size + 1)) 0 0
      end;
  Some (Counted.make size ar b).

(** A null pool is dereferenced by [ar->allocate]. *)
Definition create_value (h : store) (size : Z) (str : option (list Z)) (ar : option pool) : option (store * loc) :=
  match ar with None => None | Some _ => c ← value size str ar; Some (new h c) end.

Definition create (h : store) (size : Z) (ar : option pool) : option (store * loc) :=
  create_value h size None ar.

(** What the constructor and [set] do from a text, null or not. *)
Definition place (p : program) (i : nat) (str : option source) (ar : option pool) : option program :=
  t ← match str with None => Some None | Some s => b ← read (heap p) s; Some (Some b) end;
  n ← Str.count t;
  '(h, l) ← create_value (heap p) n t ar;
  set_object (set_heap p h) i (Some l).

Definition make_text (p : program) (str : option source) (ar : option pool) : option program :=
  place (make p) (length (refs p)) str ar.

Definition make_size (p : program) (size : Z) (ar : option pool) : option program :=
  let i := length (refs p) in
  '(h, l) ← create_value (heap p) size (Some [0]) ar;
  set_object (set_heap (make p) h) i (Some l).

Definition set (p : program) (i : nat) (str : option source) (ar : option pool) : option program :=
  p ← clear p i; place p i str ar.

(** [operator=] from a text: the pool is the default one. *)
Definition assign_text (p : program) (i : nat) (str : option source) : option program :=
  set p i str (Some auto_release).

(** [operator()]: the offset of the pointer it returns. *)
Definition at_ (c : option Counted.t) (offset : Z) : option (option Z) :=
  match c with
  | None => Some None
  | Some v =>
      n ← strlen (Counted.mem v);
      if (offset <? 0) && (offset <? - n) then Some None
      else if offset <? 0 then Some (Some (n + offset))
      else if n <? offset then Some None
      else Some (Some (n + offset))
  end.

(** [operator*] *)
Definition text (c : option Counted.t) : option (list Z) := Counted.mem <$> c.

Definition len (c : option Counted.t) : option Z :=
  match c with None => Some 0 | Some v => strlen (Counted.mem v) end.

(** [assign] of a value, and [operator=] of it: the text may have been written since
    the value was made, so that its length is taken again. *)
Definition assign (p : program) (i : nat) (l : loc) : option program :=
  p ← clear p i;
  v ← cells (heap p) !! l;
  n ← strlen (Counted.mem v);
  set_object (set_heap p (put (heap p) l (Counted.with_size v n))) i (Some l).

(** [operator+]: a new reference at the end of the program's. *)
Definition concat (p : program) (i : nat) (str2 : option source) : option program :=
  c ← object p i;
  t2 ← match str2 with None => Some [0] | Some s => read (heap p) s end;
  let t1 := match c with None => [0] | Some v => Counted.mem v end in
  let ar := match c with
            | None => None
            | Some v => match Counted.owner v with autorelease r => r | linkrelease _ => None end
            end in
  s1 ← cstr t1; s2 ← cstr t2;
  '(h, l) ← create (heap p) (zlen s1 + zlen s2) ar;
  v ← cells h !! l;
  b ← blit (Counted.mem v) 0 (take (Z.to_nat (Counted.size v)) (s1 ++ s2) ++ [0]);
  assign (set_heap (make p) (put h l (Counted.with_mem v b))) (length (refs p)) l.

(** [b64] and [hex] write into the new value before it is referred to. *)
Definition b64 (p : program) (i : nat) (bytes : list Z) (bsize : Z) (ar : option pool) : option program :=
  p ← clear p i;
  '(h, l) ← create_value (heap p) (Base64.b64size bsize) (Some [0]) ar;
  v ← cells h !! l;
  bin ← slice bytes 0 bsize;
  '(out, _) ← Base64.b64encode bin bsize 0;
  b ← blit (Counted.mem v) 0 out;
  set_object (set_heap p (put h l (Counted.with_mem v b))) i (Some l).

Fixpoint hex_loop (mem : list Z) (bytes : list Z) (bsize : nat) (index : Z) : option (list Z) :=
  match bsize with
  | O => Some mem
  | S n =>
      c ← rd bytes index;
      b ← blit mem (index * 2) (Hex.hex2 c ++ [0]);
      hex_loop b bytes n (index + 1)
  end.

Definition hex (p : program) (i : nat) (bytes : list Z) (bsize : Z) (ar : option pool) : option program :=
  p ← clear p i;
  '(h, l) ← create_value (heap p) (u64 (bsize * 2)) (Some [0]) ar;
  v ← cells h !! l;
  b ← hex_loop (Counted.mem v) bytes (Z.to_nat bsize) 0;
  set_object (set_heap p (put h l (Counted.with_mem v b))) i (Some l).

(** [destroy]; [expand] moves the text of a value into a bigger one. *)
Definition destroy (h : store) (chars : option loc) : option store :=
  match chars with None => Some h | Some l => counted.destroy h l end.

Definition expand (h : store) (handle : option loc) (size : Z) : option (store * option loc) :=
  match handle with
  | None => Some (h, None)
  | Some l =>
      v ← cells h !! l;
      '(h, l') ← create h (u64 (size + Counted.size v)) (Some auto_release);
      v' ← cells h !! l'; v ← cells h !! l;
      b ← Str.set (Counted.mem v') (u64 (Counted.size v' + 1)) (Some (Counted.mem v));
      h ← destroy (put h l' (Counted.with_mem v' b)) (Some l);
      Some (h, Some l')
  end.

End malloc.

(** Comparison of two references, and with a text. *)
Definition eq (c d : option Counted.t) : option bool :=
  match c, d with
  | Some v, Some w => Str.equal (Some (Counted.mem v)) (Some (Counted.mem w))
  | _, _ => Some false
  end.

Definition eq_text (c : option Counted.t) (obj : option (list Z)) : option bool :=
  match c with None => Some false | Some v => Str.equal (Some (Counted.mem v)) obj end.

Definition less (strcoll : list Z -> list Z -> Z) (c d : option Counted.t) : option bool :=
  match c, d with
  | None, Some _ => Some true
  | None, None => Some true
  | Some _, None => Some false
  | Some v, Some w =>
      s ← cstr (Counted.mem v); t ← cstr (Counted.mem w); Some (strcoll s t <? 0)
  end.

End chars.

(** [typeref<const uint8_t *>] *)
Module bytes_.

(** ** Bits of a block of [size] bytes *)

(** [(bytes)[offset / 8] & (1 << offset % 8)] *)
Definition bit (data : list Z) (offset : Z) : option bool :=
  b ← rd data (offset / 8); Some (negb (Z.land b (u8 (Z.shiftl 1 (offset mod 8))) =? 0)).

Definition get (c : option Counted.t) (offset : Z) : option bool :=
  match c with
  | None => Some false
  | Some v => if Counted.size v <? offset / 8 then Some false else bit (Counted.mem v) offset
  end.

Fixpoint count_loop (bits : nat) (data : list Z) (size offset total : Z) : option Z :=
  match bits with
  | O => Some total
  | S n =>
      if size <=? offset / 8 then Some total
      else
        b ← bit data offset;
        count_loop n data size (u64 (offset + 1)) (if b : bool then u64 (total + 1) else total)
  end.

Definition count (c : option Counted.t) (offset bits : Z) : option Z :=
  match c with
  | None => Some 0
  | Some v => count_loop (Z.to_nat bits) (Counted.mem v) (Counted.size v) offset 0
  end.

(** The change of one bit. *)
Definition put_bit (data : list Z) (mode : bool) (offset : Z) : option (list Z) :=
  let bitmask := u8 (Z.shiftl 1 (offset mod 8)) in
  b ← rd data (offset / 8);
  wr data (offset / 8) (if mode then Z.lor b bitmask else Z.land b (u8 (Z.lnot bitmask))).

Fixpoint set_loop (bits : nat) (data : list Z) (size : Z) (mode : bool) (offset total : Z) : option (list Z * Z) :=
  match bits with
  | O => Some (data, total)
  | S n =>
      if size <=? offset / 8 then Some (data, total)
      else
        current ← bit data offset;
        if Bool.eqb current mode then set_loop n data size mode (u64 (offset + 1)) total
        else
          data ← put_bit data mode offset;
          set_loop n data size mode (u64 (offset + 1)) (u64 (total + 1))
  end.

Definition set_bits (p : program) (i : nat) (mode : bool) (offset bits : Z) : option (program * Z) :=
  r ← refs p !! i;
  match r with
  | None => Some (p, 0)
  | Some l =>
      v ← cells (heap p) !! l;
      '(b, total) ← set_loop (Z.to_nat bits) (Counted.mem v) (Counted.size v) mode offset 0;
      Some (set_heap p (put (heap p) l (Counted.with_mem v b)), total)
  end.

(** ** Values and references *)

Section malloc.
Context `{Malloc}.

(** The constructor of [value], on new memory. *)
Definition value (size : Z) (str : option (list Z)) (ar : option pool) : option Counted.t :=
  b ← match str with
      | Some t =>
          if size =? 0 then Some (junk (size + 1))
          else s ← slice t 0 size; blit (junk (size + 1)) 0 s
      | None => Some (junk (size + 1))
      end;
  Some (Counted.make size ar b).

Definition create_value (h : store) (size : Z) (str : option (list Z)) (ar : option pool) : option (store * loc) :=
  match ar with None => None | Some _ => c ← value size str ar; Some (new h c) end.

Definition create (h : store) (size : Z) (ar : option pool) : option (store * loc) :=
  create_value h size None ar.

Definition place (p : program) (i : nat) (str : option source) (size : Z) (ar : option pool) : option program :=
  t ← match str with None => Some None | Some s => b ← read (heap p) s; Some (Some b) end;
  '(h, l) ← create_value (heap p) size t ar;
  set_object (set_heap p h) i (Some l).

Definition make_bytes (p : program) (str : option source) (size : Z) (ar : option pool) : option program :=
  place (make p) (length (refs p)) str size ar.

Definition make_size (p : program) (size : Z) (ar : option pool) : option program :=
  place (make p) (length (refs p)) None size ar.

(** The constructor of an array of bits. *)
Definition make_bits (p : program) (mode : bool) (bits : Z) (ar : option pool) : option program :=
  let size := if bits mod 8 =? 0 then bits / 8 else bits / 8 + 1 in
  p' ← make_size p size ar;
  '(p', _) ← set_bits p' (length (refs p)) mode 0 bits; Some p'.

Definition set (p : program) (i : nat) (str : option source) (size : Z) (ar : option pool) : option program :=
  p ← clear p i; place p i str size ar.

(** A value is filled behind the reference to it. *)
Definition fill (p : program) (i : nat) (out : list Z) : option program :=
  r ← refs p !! i;
  l ← r;
  v ← cells (heap p) !! l;
  b ← blit (Counted.mem v) 0 out;
  Some (set_heap p (put (heap p) l (Counted.with_mem v b))).

(** [hex] and [b64] of a text: the bytes are counted, then read into a new value. *)
Definition from_text (count : list Z -> Z) (decode : list Z -> Z -> list Z)
    (p : program) (i : nat) (str : source) (ar : option pool) : option (program * Z) :=
  p ← clear p i;
  b ← read (heap p) str; s ← cstr b;
  let size := count s in
  if size =? 0 then Some (p, 0)
  else
    p ← place p i None size ar;
    b ← read (heap p) str; s ← cstr b;
    p ← fill p i (decode s size);
    Some (p, size).

Definition hex (p : program) (i : nat) (str : source) (ws : bool) (ar : option pool) : option (program * Z) :=
  from_text (fun s => Hex.hexcount s ws) (fun s size => (Hex.hex2bin s size ws).1) p i str ar.

Definition b64 (p : program) (i : nat) (str : source) (ws : bool) (ar : option pool) : option (program * Z) :=
  from_text (fun s => Base64.b64count s ws) (fun s size => (Base64.b64decode s size ws).1) p i str ar.

Definition assign (p : program) (i : nat) (l : loc) : option program :=
  p ← clear p i; set_object p i (Some l).

(** [hex ()] and [b64 ()] return a new reference to a text. *)
Definition to_hex (p : program) (i : nat) : option program :=
  c ← object p i;
  match c with
  | None => Some (make p)
  | Some v =>
      let ar := match Counted.owner v with autorelease r => r | linkrelease _ => None end in
      chars.hex (make p) (length (refs p)) (Counted.mem v) (Counted.size v) ar
  end.

Definition to_b64 (p : program) (i : nat) : option program :=
  c ← object p i;
  match c with
  | None => Some (make p)
  | Some v =>
      let ar := match Counted.owner v with autorelease r => r | linkrelease _ => None end in
      chars.b64 (make p) (length (refs p)) (Counted.mem v) (Counted.size v) ar
  end.

(** [operator+] of two references *)
Definition concat (p : program) (i j : nat) : option program :=
  v1 ← object p i; v2 ← object p j;
  let s1 := match v1 with None => 0 | Some v => Counted.size v end in
  let s2 := match v2 with None => 0 | Some v => Counted.size v end in
  let ar := match v1 with
            | None => None
            | Some v => match Counted.owner v with autorelease r => r | linkrelease _ => None end
            end in
  if u64 (s1 + s2) =? 0 then Some (make p)
  else
    '(h, l) ← create (heap p) (u64 (s1 + s2)) ar;
    v ← cells h !! l;
    b1 ← match v1 with None => Some [] | Some v1 => slice (Counted.mem v1) 0 s1 end;
    b ← blit (Counted.mem v) 0 b1;
    b2 ← match v2 with None => Some [] | Some v2 => slice (Counted.mem v2) 0 s2 end;
    b ← blit b s1 b2;
    assign (set_heap (make p) (put h l (Counted.with_mem v b))) (length (refs p)) l.

Definition destroy (h : store) (bytes : option loc) : option store :=
  match bytes with None => Some h | Some l => counted.destroy h l end.

End malloc.

Definition eq (c d : option Counted.t) : option bool :=
  match c, d with
  | Some v, Some w =>
      if negb (Counted.size v =? Counted.size w) then Some false
      else
        s ← slice (Counted.mem v) 0 (Counted.size v);
        t ← slice (Counted.mem w) 0 (Counted.size v);
        Some (bool_decide (s = t))
  | _, _ => Some false
  end.

End bytes_.
