(* ===== verification/TyperefLaws.v ===== *)
(** * Laws of the counted references

    The state of a program is sound when the count of every object is the number of
    references to it and the objects without a reference are those that wait in the
    list of [release_later]. *)

From stdpp Require Import gmap strings list.
From S2P Require Import Prelude CLib Codec Strings StringObj Typeref.
Import TypeRef.
Local Open Scope Z_scope.

(** ** Sound stores *)

(** The chain of the postponed objects. *)
Inductive chain (m : gmap loc Counted.t) : option loc -> list loc -> Prop :=
  | chain_nil : chain m None []
  | chain_cons l c n ls : m !! l = Some c -> Counted.owner c = linkrelease n -> Counted.count c = 0 ->
      chain m n ls -> chain m (Some l) (l :: ls).

(** An object is whole: its bytes are in its memory. *)
Definition whole (c : Counted.t) : Prop := 0 <= Counted.size c < zlen (Counted.mem c).

(** A live object with [n] references. *)
Definition live (c : Counted.t) (n : Z) : Prop :=
  Counted.count c = n /\ exists r, Counted.owner c = autorelease r.

(** [R] says how many references each object has, [ls] are the postponed ones. *)
Record sound (h : store) (R : loc -> Z) (ls : list loc) : Prop := {
  sound_live : forall l c, cells h !! l = Some c -> whole c /\ (l ∉ ls -> live c (R l) /\ 0 < R l);
  sound_range : forall l, 0 <= R l < 2 ^ 31;
  sound_refs : forall l, 0 < R l -> is_Some (cells h !! l);
  sound_later : chain (cells h) (later h) ls;
  sound_distinct : NoDup ls;
  sound_none : forall l, l ∈ ls -> R l = 0 }.

Lemma chain_frame m root ls l c : chain m root ls -> l ∉ ls -> chain (<[l := c]> m) root ls.
Proof.
  induction 1 as [|k d n ls Hk Ho Hc Hch IH]; intros Hl; [constructor|].
  apply not_elem_of_cons in Hl as [Hne Hl]. econstructor; [|done|done|by apply IH].
  by rewrite lookup_insert_ne.
Qed.

Lemma chain_delete m root ls l : chain m root ls -> l ∉ ls -> chain (delete l m) root ls.
Proof.
  induction 1 as [|k d n ls Hk Ho Hc Hch IH]; intros Hl; [constructor|].
  apply not_elem_of_cons in Hl as [Hne Hl]. econstructor; [|done|done|by apply IH].
  by rewrite lookup_delete_ne.
Qed.

Lemma sound_ext h R R' ls : sound h R ls -> (forall l, R' l = R l) -> sound h R' ls.
Proof.
  intros [H1 H2 H3 H4 H5 H6] E. split; try done.
  - intros l c. rewrite E. apply H1.
  - intros l. rewrite E. apply H2.
  - intros l. rewrite E. apply H3.
  - intros l. rewrite E. apply H6.
Qed.

(** A referenced object. *)
Lemma sound_cell h R ls l : sound h R ls -> 0 < R l ->
  exists c, cells h !! l = Some c /\ whole c /\ live c (R l) /\ l ∉ ls.
Proof.
  intros Hs Hl. destruct (sound_refs _ _ _ Hs l Hl) as [c Hc].
  assert (l ∉ ls) as Hn by (intros Hin; pose proof (sound_none _ _ _ Hs l Hin); lia).
  destruct (sound_live _ _ _ Hs l c Hc) as (Hw & Hlv). exists c. by destruct (Hlv Hn).
Qed.

(** The cell of an object that is not postponed is stored, with its new count. *)
Lemma sound_put h R R' ls l c : sound h R ls -> l ∉ ls -> whole c -> live c (R' l) -> 0 < R' l < 2 ^ 31 ->
  (forall k, k <> l -> R' k = R k) -> sound (put h l c) R' ls.
Proof.
  intros [H1 H2 H3 H4 H5 H6] Hl Hw Hc Hp HR. split; cbn [put cells later]; [..|done|].
  - intros k d Hk. destruct (decide (k = l)) as [->|Hne].
    + rewrite lookup_insert_eq in Hk. injection Hk as <-. split; [done|]. intros _. split; [done|lia].
    + rewrite lookup_insert_ne in Hk by done. rewrite HR by done. by apply H1.
  - intros k. destruct (decide (k = l)) as [->|]; [lia|]. rewrite HR by done. apply H2.
  - intros k Hk. destruct (decide (k = l)) as [->|Hne]; [rewrite lookup_insert_eq; by eexists|].
    rewrite lookup_insert_ne by done. apply H3. by rewrite <- HR.
  - by apply chain_frame.
  - intros k Hk. assert (k <> l) as Hne by congruence. rewrite HR by done. by apply H6.
Qed.

Definition one (r : option loc) (l : loc) : Z := if decide (r = Some l) then 1 else 0.

Lemma one_eq l : one (Some l) l = 1.
Proof. unfold one. by rewrite decide_True. Qed.

Lemma one_other r l : r <> Some l -> one r l = 0.
Proof. intros. unfold one. by rewrite decide_False. Qed.

Lemma one_bound r l : 0 <= one r l <= 1.
Proof. unfold one. case_decide; lia. Qed.

(** What is kept of an object whatever its count. *)
Definition data (c : Counted.t) : Z * list Z := (Counted.size c, Counted.mem c).

(** No object but those in [X] changes its bytes. *)
Definition keeps (X : loc -> Prop) (h h' : store) : Prop :=
  forall l c, cells h !! l = Some c -> ~ X l -> exists c', cells h' !! l = Some c' /\ data c' = data c /\
    (Counted.owner c' = Counted.owner c).

Lemma keeps_refl X h : keeps X h h.
Proof. intros l c Hc _. by exists c. Qed.

Lemma keeps_trans X h1 h2 h3 : keeps X h1 h2 -> keeps X h2 h3 -> keeps X h1 h3.
Proof.
  intros H12 H23 l c Hc Hl. destruct (H12 l c Hc Hl) as (c2 & Hc2 & E2 & O2).
  destruct (H23 l c2 Hc2 Hl) as (c3 & Hc3 & E3 & O3). exists c3. split; [done|]. split; congruence.
Qed.

Lemma keeps_put X h l c d : cells h !! l = Some d -> data c = data d -> Counted.owner c = Counted.owner d ->
  keeps X h (put h l c).
Proof.
  intros Hd E O k e Hk _. destruct (decide (k = l)) as [->|Hne].
  - exists c. cbn. rewrite lookup_insert_eq. split; [done|]. split; congruence.
  - exists e. cbn. by rewrite lookup_insert_ne.
Qed.

Lemma retain_spec h R ls l : sound h R ls -> 0 < R l < 2 ^ 31 - 1 -> exists h',
  counted.retain h l = Some h' /\ sound h' (fun k => R k + one (Some l) k) ls /\
  keeps (fun _ => False) h h' /\ dom (cells h') = dom (cells h) /\ freed h' = freed h.
Proof.
  intros Hs Hl. destruct (sound_cell h R ls l Hs ltac:(lia)) as (c & Hc & Hw & (Hcount & r & Hr) & Hn).
  unfold counted.retain. rewrite Hc. run. eexists. split; [done|].
  split; [|split; [by eapply keeps_put|split; [|done]]].
  - eapply sound_put; [done|done|done| | |].
    + rewrite one_eq. split; [|by exists r]. cbn. rewrite Hcount. apply s32_id. lia.
    + rewrite one_eq. lia.
    + intros k Hk. rewrite one_other by congruence. lia.
  - cbn. by rewrite dom_insert_lookup_L.
Qed.

Lemma sound_delete h R R' ls l f : sound h R ls -> l ∉ ls -> R' l = 0 -> (forall k, k <> l -> R' k = R k) ->
  sound (Store (delete l (cells h)) (later h) f) R' ls.
Proof.
  intros [H1 H2 H3 H4 H5 H6] Hl Hp HR. split; cbn [cells later]; [..|done|].
  - intros k d [Hne Hk]%lookup_delete_Some. rewrite HR by done. by apply H1.
  - intros k. destruct (decide (k = l)) as [->|]; [lia|]. rewrite HR by done. apply H2.
  - intros k Hk. destruct (decide (k = l)) as [->|Hne]; [lia|].
    rewrite lookup_delete_ne by done. apply H3. by rewrite <- HR.
  - by apply chain_delete.
  - intros k Hk. assert (k <> l) as Hne by congruence. rewrite HR by done. by apply H6.
Qed.

(** An object without references becomes the first of the postponed ones. *)
Lemma sound_enlist h R R' ls l c : sound h R ls -> l ∉ ls -> whole c -> Counted.count c = 0 ->
  Counted.owner c = linkrelease (later h) -> R' l = 0 -> (forall k, k <> l -> R' k = R k) ->
  sound (Store (<[l := c]> (cells h)) (Some l) (freed h)) R' (l :: ls).
Proof.
  intros [H1 H2 H3 H4 H5 H6] Hl Hw Hc Ho Hp HR. split; cbn [cells later].
  - intros k d Hk. destruct (decide (k = l)) as [->|Hne].
    + rewrite lookup_insert_eq in Hk. injection Hk as <-. split; [done|]. intros Hn.
      apply not_elem_of_cons in Hn as [[] _]. done.
    + rewrite lookup_insert_ne in Hk by done. rewrite HR by done. destruct (H1 k d Hk) as [Hwd Hd].
      split; [done|]. intros Hn. apply Hd. by apply not_elem_of_cons in Hn as [_ Hn].
  - intros k. destruct (decide (k = l)) as [->|]; [lia|]. rewrite HR by done. apply H2.
  - intros k Hk. destruct (decide (k = l)) as [->|Hne]; [lia|].
    rewrite lookup_insert_ne by done. apply H3. by rewrite <- HR.
  - econstructor; [by rewrite lookup_insert_eq|done|done|by apply chain_frame].
  - by apply list.NoDup_cons.
  - intros k [->|Hk]%elem_of_cons; [done|]. assert (k <> l) as Hne by congruence. rewrite HR by done. by apply H6.
Qed.

(** What becomes of the object [c] at [l] when its last reference is gone: it is
    given back, from [secure_release] with its bytes cleared, or it waits. *)
Definition cleared (c : Counted.t) : list Z :=
  replicate (Z.to_nat (Counted.size c)) 0 ++ drop (Z.to_nat (Counted.size c)) (Counted.mem c).

Definition gone (c : Counted.t) (l : loc) (h h' : store) (ls ls' : list loc) : Prop :=
  match Counted.owner c with
  | autorelease (Some release_later) =>
      ls' = l :: ls /\ freed h' = freed h /\
      exists c', cells h' = <[l := c']> (cells h) /\ data c' = data c
  | autorelease (Some secure_release) =>
      ls' = ls /\ freed h' = freed h ++ [cleared c] /\ cells h' = delete l (cells h)
  | _ => ls' = ls /\ freed h' = freed h ++ [Counted.mem c] /\ cells h' = delete l (cells h)
  end.

Lemma secure_cleared c : whole c ->
  blit (Counted.mem c) 0 (replicate (Z.to_nat (Counted.size c)) 0) = Some (cleared c).
Proof.
  intros Hw. unfold whole in Hw. destruct (block_split (Counted.mem c) (Counted.size c)) as (p & r & E & Hp); [lia|].
  unfold cleared. rewrite E. rewrite (blit_mid [] p _ r 0 eq_refl) by (rewrite length_replicate; unfold zlen in *; lia).
  by rewrite drop_app_length' by (unfold zlen in *; lia).
Qed.

Lemma dealloc_spec h c l ls : cells h !! l = Some c -> whole c ->
  (exists r, Counted.owner c = autorelease r) ->
  exists h' ls', counted.dealloc h l = Some h' /\ gone c l h h' ls ls' /\
  match Counted.owner c with
  | autorelease (Some release_later) =>
      h' = Store (<[l := Counted.with_owner c (linkrelease (later h))]> (cells h)) (Some l) (freed h)
  | _ => exists f, h' = Store (delete l (cells h)) (later h) f
  end.
Proof.
  intros Hc Hw [r Hr]. unfold counted.dealloc, gone. rewrite Hc. run. rewrite Hr. destruct r as [[]|].
  - exists (Store (delete l (cells h)) (later h) (freed h ++ [Counted.mem c])), ls.
    unfold TypeRelease.dealloc, TypeRelease.release, TypeRelease.free_object. cbn.
    rewrite lookup_insert_eq. run. cbn. rewrite lookup_insert_eq. run. cbn.
    rewrite !delete_insert_eq. split; [done|]. split; [done|]. by eexists.
  - exists (Store (delete l (cells h)) (later h) (freed h ++ [cleared c])), ls.
    unfold TypeRelease.dealloc, TypeRelease.secure, TypeRelease.release, TypeRelease.free_object.
    cbn [put cells]. rewrite lookup_insert_eq. run. cbn [Counted.with_owner Counted.mem Counted.size].
    rewrite secure_cleared by done. run.
    cbn [put cells later freed]. rewrite lookup_insert_eq. run. cbn [put cells later freed].
    rewrite lookup_insert_eq. run. cbn [Counted.with_owner Counted.with_mem Counted.mem].
    rewrite !delete_insert_eq. split; [done|]. split; [done|]. by eexists.
  - eexists _, (l :: ls). unfold TypeRelease.dealloc, TypeRelease.postpone, TypeRelease.enlist. cbn.
    rewrite lookup_insert_eq. run. cbn. rewrite insert_insert_eq. split; [done|]. split; [|done].
    split; [done|]. split; [done|]. by eexists.
  - exists (Store (delete l (cells h)) (later h) (freed h ++ [Counted.mem c])), ls.
    unfold TypeRelease.free_object. rewrite Hc. run. split; [done|]. split; [done|]. by eexists.
Qed.

Lemma drop_spec h R ls l : sound h R ls -> 0 < R l -> exists h' ls' c,
  cells h !! l = Some c /\ counted.release h l = Some h' /\ sound h' (fun k => R k - one (Some l) k) ls' /\
  (1 < R l -> ls' = ls /\ freed h' = freed h /\ keeps (fun _ => False) h h') /\
  (R l = 1 -> gone c l h h' ls ls' /\ keeps (fun k => k = l) h h').
Proof.
  intros Hs Hl. destruct (sound_cell h R ls l Hs Hl) as (c & Hc & Hw & (Hcount & Hr) & Hn).
  pose proof (sound_range _ _ _ Hs l) as Hrange. unfold counted.release. rewrite Hc. run. rewrite Hcount.
  set (c1 := Counted.with_count c (s32 (R l - 1))).
  assert (Counted.count c1 = R l - 1) as Hc1 by (cbn; apply s32_id; lia).
  assert (forall k, k <> l -> R k - one (Some l) k = R k) as Hother
    by (intros k Hk; rewrite one_other by congruence; lia).
  destruct (Z.ltb_spec (R l) 2) as [H2|H2].
  - assert (R l = 1) as H1 by lia.
    destruct (dealloc_spec (put h l c1) c1 l ls) as (h' & ls' & -> & Hg & Hh'); [by cbn; rewrite lookup_insert_eq|done|done|].
    exists h', ls', c. split; [done|]. split; [done|]. split; [|split; [lia|intros _; split]].
    + unfold gone in Hg. destruct (Counted.owner c1) as [[[]|]|n] eqn:Ho; cbn in Hh'.
      1,2,4: destruct Hh' as [f ->]; destruct Hg as [-> _]; rewrite delete_insert_eq;
        eapply sound_delete; [done|done|rewrite one_eq; lia|done].
      * destruct Hg as [-> _]. subst h'. rewrite insert_insert_eq.
        eapply sound_enlist; [done|done|done|change (Counted.count c1 = 0); lia|done|rewrite one_eq; lia|done].
      * destruct Hr as [r Hr]. cbn in Ho. congruence.
    + revert Hg. unfold gone, cleared. cbn. destruct (Counted.owner c) as [[[]|]|n] eqn:Ho; intros Hg;
        rewrite ?delete_insert_eq in Hg; try done.
      destruct Hg as (-> & -> & c' & -> & E). rewrite insert_insert_eq. split_and!; [done|done|]. by exists c'.
    + intros k d Hk Hne. destruct (Counted.owner c1) as [[[]|]|n] eqn:Ho;
        [destruct Hh' as [f ->]|destruct Hh' as [f ->]|subst h'|destruct Hh' as [f ->]|destruct Hh' as [f ->]];
        exists d; cbn; rewrite ?delete_insert_eq, ?insert_insert_eq, ?lookup_delete_ne, ?lookup_insert_ne by done; done.
  - exists (put h l c1), ls, c. split; [done|]. split; [done|]. split; [|split; [intros _|lia]].
    + eapply sound_put; [done|done|done| | |done]; rewrite one_eq; [|lia]. split; [done|]. done.
    + split; [done|]. split; [done|]. by eapply keeps_put.
Qed.

(** ** The list of [release_later] *)

Definition without (ls : list loc) (m : gmap loc Counted.t) : gmap loc Counted.t :=
  foldl (fun m l => delete l m) m ls.

Lemma without_lookup ls : forall m l, l ∉ ls -> without ls m !! l = m !! l.
Proof.
  induction ls as [|k ls IH]; intros m l Hl; [done|]. apply not_elem_of_cons in Hl as [Hne Hl].
  change (without ls (delete k m) !! l = m !! l). rewrite IH by done. by rewrite lookup_delete_ne.
Qed.

Lemma without_none ls : forall m l, l ∈ ls -> without ls m !! l = None.
Proof.
  induction ls as [|k ls IH]; intros m l Hl; [by apply elem_of_nil in Hl|]. cbn.
  destruct (decide (l ∈ ls)) as [Hin|Hn]; [by apply IH|]. apply elem_of_cons in Hl as [->|Hl]; [|done].
  change (without ls (delete k m) !! k = None). by rewrite without_lookup, lookup_delete_eq.
Qed.

(** The bytes of the objects of a list. *)
Definition bytes_of (m : gmap loc Counted.t) (ls : list loc) : list (list Z) :=
  omap (fun l => Counted.mem <$> m !! l) ls.

Lemma bytes_of_frame m m' ls : (forall l, l ∈ ls -> m' !! l = m !! l) -> bytes_of m' ls = bytes_of m ls.
Proof.
  intros H. induction ls as [|l ls IH]; [done|]. unfold bytes_of in *. cbn. rewrite H by (by left).
  rewrite IH; [done|]. intros k Hk. apply H. by right.
Qed.

Lemma chain_cells m root ls l : chain m root ls -> l ∈ ls -> is_Some (m !! l).
Proof. induction 1; intros [->|Hl]%elem_of_cons || intros Hl%elem_of_nil; [done|by eexists|auto]. Qed.

Lemma purge_loop_spec ls : forall m root fuel lt f k, chain m root ls -> NoDup ls -> (length ls < fuel)%nat ->
  TypeRelease.purge_loop fuel (Store m lt f) root (u32 k) =
  Some (Store (without ls m) lt (f ++ bytes_of m ls), u32 (k + zlen ls)).
Proof.
  induction ls as [|l ls IH]; intros m root fuel lt f k Hch Hd Hf; (destruct fuel as [|fuel]; [lia|]);
    inversion Hch as [|l' c n ls' Hc Ho Hcount Hch']; subst; cbn [TypeRelease.purge_loop TypeRelease.delist].
  - run. cbn. by rewrite app_nil_r, Z.add_0_r.
  - apply list.NoDup_cons in Hd as [Hl Hd]. cbn [cells]. rewrite Hc. run. rewrite Ho. run.
    unfold TypeRelease.release. cbn [put cells]. rewrite lookup_insert_eq. run.
    unfold TypeRelease.free_object. cbn [put cells later freed]. rewrite lookup_insert_eq. run.
    cbn [Counted.mem Counted.with_owner]. rewrite !delete_insert_eq.
    replace (u32 (u32 k + 1)) with (u32 (k + 1)) by (unfold u32; by rewrite Zplus_mod_idemp_l).
    rewrite IH; [|by apply chain_delete|done|cbn in Hf; lia].
    rewrite (bytes_of_frame m (delete l m)) by (intros j Hj; rewrite lookup_delete_ne; congruence).
    unfold bytes_of at 2. cbn. rewrite Hc. cbn. rewrite <- app_assoc. cbn.
    do 2 f_equal. f_equal. rewrite zlen_cons. lia.
Qed.

Lemma purge_later_spec h R ls : sound h R ls -> exists h',
  TypeRelease.purge_later h = Some (h', u32 (zlen ls)) /\ sound h' R [] /\
  keeps (fun l => l ∈ ls) h h' /\ freed h' = freed h ++ bytes_of (cells h) ls /\
  cells h' = without ls (cells h).
Proof.
  intros Hs. pose proof Hs as [H1 H2 H3 H4 H5 H6].
  assert (length ls <= base.size (cells h))%nat as Hfuel.
  { rewrite <- size_dom, <- (size_list_to_set (C := gset loc) ls) by done. apply subseteq_size.
    intros l Hl%elem_of_list_to_set. apply elem_of_dom. by eapply chain_cells. }
  unfold TypeRelease.purge_later.
  rewrite (purge_loop_spec ls _ _ _ _ _ 0 H4 H5) by lia. eexists. split; [done|]. cbn [cells freed].
  split; [|split; [|done]].
  - split; cbn [cells later]; [|done| |constructor|constructor|by intros l ?%elem_of_nil].
    + intros l c Hc. destruct (decide (l ∈ ls)) as [Hin|Hn]; [by rewrite without_none in Hc|].
      rewrite without_lookup in Hc by done. destruct (H1 l c Hc) as [Hw Hl]. split; [done|]. intros _. by apply Hl.
    + intros l Hl. rewrite without_lookup; [by apply H3|]. intros Hin. pose proof (H6 l Hin). lia.
  - intros l c Hc Hn. exists c. cbn. by rewrite without_lookup.
Qed.

(** ** Sound programs *)

Fixpoint refs_to (rs : list (option loc)) (l : loc) : Z :=
  match rs with [] => 0 | r :: rs => one r l + refs_to rs l end.

Lemma refs_to_app rs ks l : refs_to (rs ++ ks) l = refs_to rs l + refs_to ks l.
Proof. induction rs as [|r rs IH]; cbn; [done|]. rewrite IH. lia. Qed.

Lemma refs_to_bound rs l : 0 <= refs_to rs l <= zlen rs.
Proof.
  induction rs as [|r rs IH]; cbn; [done|]. rewrite zlen_cons. pose proof (one_bound r l). lia.
Qed.

Lemma refs_to_insert rs i r r' l : rs !! i = Some r -> refs_to (<[i := r']> rs) l = refs_to rs l - one r l + one r' l.
Proof.
  revert i. induction rs as [|x rs IH]; intros [|i] Hi; cbn in *; try done.
  - injection Hi as ->. lia.
  - rewrite IH by done. lia.
Qed.

Lemma refs_to_pos rs i l : rs !! i = Some (Some l) -> 0 < refs_to rs l.
Proof.
  intros Hi. pose proof (refs_to_insert rs i _ None l Hi) as E. rewrite one_eq, (one_other None) in E by done.
  pose proof (refs_to_bound (<[i := None]> rs) l). lia.
Qed.

(** Another reference to the same object. *)
Lemma refs_to_two rs i j l : i <> j -> rs !! i = Some (Some l) -> rs !! j = Some (Some l) -> 1 < refs_to rs l.
Proof.
  intros Hij Hi Hj. pose proof (refs_to_insert rs i _ None l Hi) as E. rewrite one_eq, (one_other None) in E by done.
  assert (<[i := None]> rs !! j = Some (Some l)) as Hj' by (by rewrite list_lookup_insert_ne).
  pose proof (refs_to_pos _ _ _ Hj'). lia.
Qed.

Record ok (p : program) (ls : list loc) : Prop := {
  ok_sound : sound (heap p) (refs_to (refs p)) ls;
  ok_small : zlen (refs p) < 2 ^ 31 - 1 }.

Lemma ok_ref p ls i l : ok p ls -> refs p !! i = Some (Some l) -> 0 < refs_to (refs p) l.
Proof. intros _. apply refs_to_pos. Qed.

Lemma ok_object p ls i : ok p ls -> (i < length (refs p))%nat -> exists c,
  object p i = Some c /\
  match c with
  | None => refs p !! i = Some None
  | Some c => exists l, refs p !! i = Some (Some l) /\ cells (heap p) !! l = Some c /\ whole c /\
      live c (refs_to (refs p) l) /\ l ∉ ls
  end.
Proof.
  intros Hok Hi. unfold object. destruct (lookup_lt_is_Some_2 _ _ Hi) as [[l|] Hr]; rewrite Hr; run.
  - destruct (sound_cell _ _ _ l (ok_sound _ _ Hok)) as (c & Hc & Hw & Hl & Hn); [by eapply ok_ref|].
    rewrite Hc. run. exists (Some c). split; [done|]. by exists l.
  - by exists None.
Qed.

(** What a reference shows: nothing, or the pool, the size and the bytes of its
    object. *)
Definition view (c : Counted.t) : union * (Z * list Z) := (Counted.owner c, data c).
Definition value (p : program) (i : nat) : option (option (union * (Z * list Z))) :=
  match object p i with Some c => Some (option_map view c) | None => None end.

Lemma value_keeps p p' i r : refs p !! i = Some r -> refs p' !! i = Some r ->
  (forall l, r = Some l -> is_Some (cells (heap p) !! l) ->
    exists c c', cells (heap p) !! l = Some c /\ cells (heap p') !! l = Some c' /\ view c' = view c) ->
  (forall l, r = Some l -> is_Some (cells (heap p) !! l)) ->
  value p' i = value p i.
Proof.
  intros Hr Hr' Hk Hs. unfold value, object. rewrite Hr, Hr'. run. destruct r as [l|]; [|done].
  destruct (Hk l eq_refl (Hs l eq_refl)) as (c & c' & -> & -> & E). run. cbn. by rewrite E.
Qed.

(** The references but [i] stay, and show what they showed. *)
Definition others (i : nat) (p p' : program) : Prop :=
  forall j, j <> i -> (j < length (refs p))%nat -> refs p' !! j = refs p !! j /\ value p' j = value p j.

Lemma unref_spec p R ls i r : sound (heap p) R ls -> refs p !! i = Some r -> (forall l, r = Some l -> 0 < R l) ->
  exists h' ls', clear p i = Some (Program h' (<[i := None]> (refs p))) /\
    sound h' (fun l => R l - one r l) ls' /\ keeps (fun k => r = Some k /\ R k = 1) (heap p) h' /\
    match r with
    | Some l => if R l =? 1 then exists c, cells (heap p) !! l = Some c /\ gone c l (heap p) h' ls ls'
                else ls' = ls /\ freed h' = freed (heap p)
    | None => h' = heap p /\ ls' = ls
    end.
Proof.
  intros Hs Hi Hr. unfold clear. rewrite Hi. run. destruct r as [l|].
  - destruct (drop_spec _ _ _ l Hs (Hr l eq_refl)) as (h' & ls' & c & Hc & -> & Hs' & Hmore & Hlast).
    run. exists h', ls'. split; [done|]. split; [done|]. destruct (Z.eqb_spec (R l) 1) as [E|E].
    + destruct (Hlast E) as [Hg Hk]. split; [|by exists c]. intros k d Hd Hne. apply Hk; [done|].
      intros ->. by apply Hne.
    + pose proof (Hr l eq_refl). destruct Hmore as (-> & Hf & Hk); [lia|]. split; [|done].
      intros k d Hd _. apply (Hk k d Hd). tauto.
  - exists (heap p), ls. split; [done|]. split; [|by split; [apply keeps_refl|]].
    eapply sound_ext; [done|]. intros l. cbn. rewrite one_other by done. lia.
Qed.

(** The reference [i] is given the object [r], which has been retained for it. *)
Lemma give_spec p h R ls i r ri : ok p ls -> refs p !! i = Some ri ->
  sound h R ls -> (forall l, R l = refs_to (refs p) l + one r l) -> keeps (fun _ => False) (heap p) h ->
  exists p' ls', clear (set_heap p h) i = Some p' /\ ok (set_ref p' i r) ls' /\
    refs p' = <[i := None]> (refs p) /\ others i p (set_ref p' i r) /\
    (forall l c, r = Some l -> cells h !! l = Some c -> value (set_ref p' i r) i = Some (Some (view c))).
Proof.
  intros Hok Hi Hs HR Hkeep.
  destruct (unref_spec (set_heap p h) R ls i ri) as (h' & ls' & Hcl & Hs' & Hk & _); [done|done| |].
  { intros l ->. rewrite HR. pose proof (refs_to_pos _ _ _ Hi). pose proof (one_bound r l). lia. }
  exists (Program h' (<[i := None]> (refs p))), ls'. split; [done|].
  assert (i < length (refs p))%nat as Hlt by (by eapply lookup_lt_Some).
  unfold set_ref. cbn [heap refs]. rewrite list_insert_insert_eq. split; [split|split; [done|split]]; cbn [heap refs].
  - eapply sound_ext; [done|]. intros l. cbn. rewrite HR, (refs_to_insert _ _ ri) by done. lia.
  - unfold zlen. rewrite length_insert. apply (ok_small _ _ Hok).
  - intros j Hj Hlj. split; [cbn; by rewrite list_lookup_insert_ne|].
    destruct (lookup_lt_is_Some_2 _ _ Hlj) as [rj Hrj].
    apply (value_keeps _ _ _ rj); cbn [refs heap]; [done|by rewrite list_lookup_insert_ne| |].
    + intros l -> [c Hc]. destruct (Hkeep l c Hc) as (c1 & Hc1 & E1 & O1); [tauto|].
      destruct (Hk l c1 Hc1) as (c2 & Hc2 & E2 & O2).
      * intros [-> H1]. rewrite HR in H1. pose proof (refs_to_two _ _ _ _ Hj Hrj Hi). pose proof (one_bound r l). lia.
      * exists c, c2. split; [done|]. split; [done|]. unfold view. congruence.
    + intros l ->. eapply sound_refs; [apply Hok|]. by eapply refs_to_pos.
  - intros l c -> Hc. unfold value, object. cbn [refs heap]. rewrite list_lookup_insert_eq by done. run.
    destruct (Hk l c Hc) as (c' & -> & E & O).
    + intros [-> H1]. rewrite HR, one_eq in H1. pose proof (refs_to_pos _ _ _ Hi). lia.
    + run. cbn. unfold view. by rewrite E, O.
Qed.

(** ** Effects

    A call leaves a sound program whose reference [i] shows [v]; the others show what
    they showed. *)
Definition sole (p : program) (i : nat) : Prop :=
  forall j l, refs p !! i = Some (Some l) -> refs p !! j = Some (Some l) -> j = i.

(** [alone]: no other reference has the object of [i]. *)
Definition effect (alone : bool) (i : nat) (v : option (union * (Z * list Z))) (p : program)
    (res : option program) : Prop :=
  exists p' ls', res = Some p' /\ ok p' ls' /\ length (refs p') = length (refs p) /\
    value p' i = Some v /\ others i p p' /\ (alone = true -> sole p' i).

Lemma others_trans i p1 p2 p3 : length (refs p2) = length (refs p1) -> others i p1 p2 -> others i p2 p3 ->
  others i p1 p3.
Proof.
  intros Hl H12 H23 j Hj Hlt. destruct (H12 j Hj Hlt) as [<- <-]. by apply H23; [|lia].
Qed.

Lemma ref_then a b i v w p res (f : program -> option program) : effect a i v p res ->
  (forall p' ls', ok p' ls' -> length (refs p') = length (refs p) -> value p' i = Some v ->
    (a = true -> sole p' i) -> effect b i w p' (f p')) ->
  effect b i w p (res ≫= f).
Proof.
  intros (p1 & ls1 & -> & Hok & Hl & Hv1 & Ho & Ha) Hf. run.
  destruct (Hf p1 ls1 Hok Hl Hv1 Ha) as (p2 & ls2 & E & Hok2 & Hl2 & Hv & Ho2 & Hb). exists p2, ls2.
  split; [done|]. split; [done|]. split; [lia|]. split; [done|]. split; [by eapply others_trans|done].
Qed.

Lemma ref_weaken a i v p res : effect a i v p res -> effect false i v p res.
Proof. intros (p' & ls' & E & Hok & Hl & Hv & Ho & _). by exists p', ls'. Qed.

Lemma clear_effect p ls i : ok p ls -> (i < length (refs p))%nat -> effect true i None p (clear p i).
Proof.
  intros Hok Hi. destruct (lookup_lt_is_Some_2 _ _ Hi) as [ri Hri].
  destruct (give_spec p (heap p) (refs_to (refs p)) ls i None ri) as (p' & ls' & E & Hok' & Hr & Ho & _).
  { done. } { done. } { apply Hok. } { intros l. rewrite one_other by done. lia. } { apply keeps_refl. }
  exists p', ls'. destruct p as [h rs], p' as [h' rs']. cbn [refs] in Hr. subst rs'.
  unfold set_ref in Hok', Ho. cbn [heap refs] in *. rewrite list_insert_insert_eq in Hok', Ho.
  split; [done|]. split; [done|]. split; [by rewrite length_insert|]. split; [|split; [done|]].
  - unfold value, object. cbn [refs]. by rewrite list_lookup_insert_eq by done.
  - intros _ j l. cbn [refs]. by rewrite list_lookup_insert_eq by done.
Qed.

Lemma retain_ref p ls j r : ok p ls -> refs p !! j = Some r -> exists h,
  retain p r = Some (set_heap p h) /\ sound h (fun l => refs_to (refs p) l + one r l) ls /\
  keeps (fun _ => False) (heap p) h.
Proof.
  intros Hok Hj. unfold retain. destruct r as [l|].
  - destruct (retain_spec _ _ _ l (ok_sound _ _ Hok)) as (h & -> & Hs & Hk & _).
    { pose proof (refs_to_pos _ _ _ Hj). pose proof (refs_to_bound (refs p) l).
      pose proof (ok_small _ _ Hok). lia. }
    run. by exists h.
  - exists (heap p). destruct p. split; [done|]. split; [|apply keeps_refl].
    eapply sound_ext; [apply Hok|]. intros l. cbn. rewrite one_other by done. lia.
Qed.

(** [set] and [assign] from another reference. *)
Lemma set_effect p ls i j v : ok p ls -> (i < length (refs p))%nat -> i <> j -> value p j = Some v ->
  effect false i v p (set p i j).
Proof.
  intros Hok Hi Hij Hv. destruct (lookup_lt_is_Some_2 _ _ Hi) as [ri Hri].
  destruct (refs p !! j) as [rj|] eqn:Hrj; [|unfold value, object in Hv; by rewrite Hrj in Hv].
  destruct (retain_ref p ls j rj Hok Hrj) as (h & Er & Hs & Hk).
  destruct (give_spec p h _ ls i rj ri Hok Hri Hs) as (p' & ls' & E & Hok' & Hr & Ho & Hval); [done|done|].
  unfold set. rewrite Hrj. run. rewrite Er. run. rewrite E. run.
  rewrite Hr, list_lookup_insert_ne, Hrj by done. run. exists (set_ref p' i rj), ls'.
  split; [done|]. split; [done|]. split; [cbn; by rewrite length_insert, Hr, length_insert|]. split; [|done].
  unfold value, object in Hv. rewrite Hrj in Hv. revert Hv. destruct rj as [l|]; run.
  - destruct (cells (heap p) !! l) as [c|] eqn:Hc; [|done]. cbn. intros [= <-].
    destruct (Hk l c Hc) as (c' & Hc' & Ed & Eo); [tauto|]. rewrite (Hval l c' eq_refl Hc').
    unfold view. by rewrite Ed, Eo.
  - intros [= <-]. unfold value, object. cbn [set_ref refs]. rewrite list_lookup_insert_eq; [done|].
    by rewrite Hr, length_insert.
Qed.

(** A new object. *)
Lemma retain_new h R ls l c r : sound h R ls -> cells h !! l = None -> whole c -> Counted.count c = 0 ->
  Counted.owner c = autorelease r -> exists h',
  counted.retain (put h l c) l = Some h' /\ sound h' (fun k => R k + one (Some l) k) ls /\
  keeps (fun _ => False) h h' /\ exists c', cells h' !! l = Some c' /\ view c' = view c.
Proof.
  intros Hs Hl Hw Hc Ho. unfold counted.retain. cbn [put cells]. rewrite lookup_insert_eq. run.
  rewrite Hc. eexists. split; [done|]. unfold put. cbn [cells later freed]. rewrite insert_insert_eq.
  assert (R l = 0) as HR.
  { pose proof (sound_range _ _ _ Hs l). destruct (Z.eq_dec (R l) 0); [done|].
    destruct (sound_refs _ _ _ Hs l ltac:(lia)). congruence. }
  assert (l ∉ ls) as Hn.
  { intros Hin. destruct (chain_cells _ _ _ _ (sound_later _ _ _ Hs) Hin). congruence. }
  split; [|split].
  - eapply (sound_put h R _ ls l); [done|done|done| | |].
    + rewrite one_eq, HR. split; [done|by exists r].
    + rewrite one_eq, HR. lia.
    + intros k Hk. rewrite one_other by congruence. lia.
  - intros k d Hk _. exists d. cbn. by rewrite lookup_insert_ne by congruence.
  - eexists. cbn. by rewrite lookup_insert_eq.
Qed.

Lemma new_object_effect p ls i l c r : ok p ls -> (i < length (refs p))%nat -> cells (heap p) !! l = None ->
  whole c -> Counted.count c = 0 -> Counted.owner c = autorelease r ->
  effect true i (Some (view c)) p (set_object (set_heap p (put (heap p) l c)) i (Some l)).
Proof.
  intros Hok Hi Hl Hw Hc Ho. destruct (lookup_lt_is_Some_2 _ _ Hi) as [ri Hri].
  destruct (retain_new _ _ ls l c r (ok_sound _ _ Hok) Hl Hw Hc Ho) as (h & Er & Hs & Hk & c' & Hc' & Ev).
  destruct (give_spec p h _ ls i (Some l) ri Hok Hri Hs) as (p' & ls' & E & Hok' & Hr & Hoth & Hval); [done|done|].
  unfold set_object, retain. cbn [set_heap heap]. rewrite Er. run.
  change (set_heap (set_heap p (put (heap p) l c)) h) with (set_heap p h). rewrite E. run.
  exists (set_ref p' i (Some l)), ls'. split; [done|]. split; [done|].
  split; [cbn; by rewrite length_insert, Hr, length_insert|].
  split; [by rewrite (Hval l c' eq_refl Hc'), Ev|]. split; [done|].
  intros _ j l' Hi'. cbn [set_ref refs] in *. rewrite Hr, list_insert_insert_eq in *.
  rewrite list_lookup_insert_eq in Hi' by done. injection Hi' as <-. intros Hj.
  destruct (decide (j = i)) as [|Hne]; [done|]. rewrite list_lookup_insert_ne in Hj by done.
  destruct (sound_refs _ _ _ (ok_sound _ _ Hok) l) as [d Hd]; [by eapply refs_to_pos|]. congruence.
Qed.

(** A new reference. *)
Lemma null_ok p ls : ok p ls -> zlen (refs p) < 2 ^ 31 - 2 -> ok (make p) ls.
Proof.
  intros Hok Hl. split; cbn [make heap refs].
  - eapply sound_ext; [apply Hok|]. intros l. rewrite refs_to_app. cbn. rewrite one_other by done. lia.
  - rewrite zlen_app. change (zlen [@None loc]) with 1. lia.
Qed.

Lemma make_value p j : (j < length (refs p))%nat -> value (make p) j = value p j.
Proof. intros Hj. unfold value, object. cbn [make heap refs]. by rewrite lookup_app_l. Qed.

(** The effect of a call that makes a reference. *)
Definition made (v : option (union * (Z * list Z))) (p : program) (res : option program) : Prop :=
  exists p' ls', res = Some p' /\ ok p' ls' /\ length (refs p') = S (length (refs p)) /\
    value p' (length (refs p)) = Some v /\
    forall j, (j < length (refs p))%nat -> value p' j = value p j.

Lemma effect_made a v p res : effect a (length (refs p)) v (make p) res -> made v p res.
Proof.
  intros (p' & ls' & E & Hok & Hl & Hv & Ho & _). exists p', ls'. split; [done|]. split; [done|].
  split; [rewrite Hl; cbn; rewrite length_app; cbn; lia|]. split; [done|].
  intros j Hj. destruct (Ho j) as [_ ->]; [lia|cbn; rewrite length_app; lia|by apply make_value].
Qed.

Lemma make_made p ls : ok p ls -> zlen (refs p) < 2 ^ 31 - 2 -> made None p (Some (make p)).
Proof.
  intros Hok Hl. exists (make p), ls. split; [done|]. split; [by apply null_ok|].
  split; [cbn; rewrite length_app; cbn; lia|]. split; [|intros; by apply make_value].
  unfold value, object. cbn [make refs]. by rewrite lookup_app_r, Nat.sub_diag.
Qed.

Lemma copy_made p ls j v : ok p ls -> zlen (refs p) < 2 ^ 31 - 2 -> value p j = Some v ->
  made v p (make_copy p j).
Proof.
  intros Hok Hl Hv.
  destruct (refs p !! j) as [rj|] eqn:Hrj; [|unfold value, object in Hv; by rewrite Hrj in Hv].
  destruct (retain_ref p ls j rj Hok Hrj) as (h & Er & Hs & Hk).
  assert (forall k, (k < length (refs p))%nat -> value (Program h (refs p ++ [rj])) k = value p k) as Hold.
  { intros k Hlt. destruct (lookup_lt_is_Some_2 _ _ Hlt) as [rk Hrk].
    apply (value_keeps _ _ _ rk); cbn [refs heap]; [done|by rewrite lookup_app_l| |].
    - intros l -> [c Hc]. destruct (Hk l c Hc) as (c' & Hc' & E & O); [tauto|].
      exists c, c'. split; [done|]. split; [done|]. unfold view. congruence.
    - intros l ->. eapply sound_refs; [apply Hok|]. by eapply refs_to_pos. }
  unfold make_copy, make_object. rewrite Hrj. run. rewrite Er. run.
  exists (Program h (refs p ++ [rj])), ls. split; [done|]. split; [split; cbn [heap refs]|split; [|split; [|done]]].
  - eapply sound_ext; [done|]. intros l. rewrite refs_to_app. cbn. lia.
  - rewrite zlen_app. change (zlen [rj]) with 1. lia.
  - cbn. rewrite length_app. cbn. lia.
  - assert (j < length (refs p))%nat as Hj by (by eapply lookup_lt_Some). rewrite <- Hv, <- (Hold j Hj).
    unfold value, object. cbn [refs heap]. rewrite lookup_app_r, Nat.sub_diag by lia. cbn.
    by rewrite lookup_app_l, Hrj by done.
Qed.
