(* ===== verification/TyperefValues.v ===== *)
(** * Values of the counted references: texts, bytes and bits

    What each operation on a reference to a text or to bytes leaves in it. *)

From stdpp Require Import gmap strings list.
From S2P Require Import Prelude CLib Codec Strings StringObj Typeref TyperefLaws.
Import TypeRef.
Local Open Scope Z_scope.

(** ** Values of texts and of bytes *)

Section malloc.
Context `{Malloc}.

Definition small_size (n : Z) : Prop := 0 <= n < 2 ^ 60.

(** The memory of a text that has been stored: an empty one is not. *)
Definition text_mem (s : list Z) : list Z := match s with [] => junk 1 | _ => s ++ [0] end.

Lemma zlen_text_mem s : zlen (text_mem s) = zlen s + 1.
Proof. destruct s; [by apply junk_length|]. cbn [text_mem]. rewrite zlen_app. done. Qed.

Lemma text_value s r ar : nonul s ->
  chars.value (zlen s) (Some (s ++ 0 :: r)) ar = Some (Counted.make (zlen s) ar (text_mem s)).
Proof.
  intros Hs. unfold chars.value. destruct s as [|c s]; [done|].
  pose proof (zlen_nonneg s). rewrite zlen_cons.
  destruct (set_spec (junk (zlen s + 1 + 1)) (zlen s + 1 + 1) (Some ((c :: s) ++ 0 :: r)) (c :: s)) as (q & -> & Hq).
  { rewrite junk_length; lia. } { by apply cstr_app. }
  run. do 2 f_equal. rewrite take_ge in Hq |- * by (unfold zlen; cbn; lia).
  rewrite zlen_app, junk_length, !zlen_cons in Hq by lia. cbn [text_mem]. do 2 f_equal.
  destruct q; [done|]. rewrite zlen_cons in Hq. pose proof (zlen_nonneg q). lia.
Qed.

(** A value of [size] characters before it is written. *)
Lemma room_value size ar : 1 <= size -> exists r,
  chars.value size (Some [0]) ar = Some (Counted.make size ar (0 :: r)) /\ zlen r = size.
Proof.
  intros Hs. unfold chars.value.
  destruct (set_spec (junk (size + 1)) (size + 1) (Some [0]) []) as (q & -> & Hq).
  { rewrite junk_length; lia. } { done. }
  rewrite take_nil in *. run. exists q. split; [done|]. rewrite junk_length in Hq by lia.
  cbn [app] in Hq. rewrite zlen_cons in Hq. lia.
Qed.

Lemma none_value size ar : 0 <= size -> exists r,
  chars.value size None ar = Some (Counted.make size ar (0 :: r)) /\ zlen r = size.
Proof.
  intros Hs. unfold chars.value. pose proof (junk_length (size + 1) ltac:(lia)) as Hj.
  destruct (junk (size + 1)) as [|x r]; [change (zlen (@nil Z)) with 0 in Hj; lia|].
  rewrite zlen_cons in Hj. exists r. split; [done|lia].
Qed.

Lemma bytes_value_none size ar :
  bytes_.value size None ar = Some (Counted.make size ar (junk (size + 1))).
Proof. done. Qed.

Lemma bytes_value b r ar : exists q,
  bytes_.value (zlen b) (Some (b ++ r)) ar = Some (Counted.make (zlen b) ar (b ++ q)) /\ zlen q = 1.
Proof.
  unfold bytes_.value. pose proof (zlen_nonneg b). pose proof (junk_length (zlen b + 1) ltac:(lia)) as Hj.
  destruct (Z.eqb_spec (zlen b) 0) as [E|E].
  - destruct b; [|rewrite zlen_cons in E; pose proof (zlen_nonneg b); lia]. run.
    exists (junk 1). split; [done|]. by apply junk_length.
  - rewrite (slice_mid [] b r) by done. run.
    destruct (block_split (junk (zlen b + 1)) (zlen b)) as (p & q & Eb & Hp); [lia|].
    rewrite Eb.
    rewrite (blit_mid [] p b q 0 eq_refl ltac:(unfold zlen in *; lia) : blit (p ++ q) 0 b = _). run.
    exists q. split; [done|]. rewrite Eb, zlen_app in Hj. lia.
Qed.

(** The values that are made are whole and have no reference. *)
Definition fresh_value (c : Counted.t) (r : pool) (n : Z) : Prop :=
  Counted.count c = 0 /\ Counted.owner c = autorelease (Some r) /\ Counted.size c = n /\ zlen (Counted.mem c) = n + 1.

Lemma fresh_make r n b : zlen b = n + 1 -> fresh_value (Counted.make n (Some r) b) r n.
Proof. done. Qed.

Lemma new_effect p ls i c r n : ok p ls -> (i < length (refs p))%nat -> fresh_value c r n -> 0 <= n ->
  effect true i (Some (view c)) p
    (let '(h, l) := new (heap p) c in set_object (set_heap p h) i (Some l)).
Proof.
  intros Hok Hi (Hc & Ho & Hs & Hm) Hn. cbn. eapply new_object_effect; [done|done| | |done|done].
  - apply not_elem_of_dom, is_fresh.
  - unfold whole. lia.
Qed.

Definition shows (r : pool) (n : Z) (b : list Z) : option (union * (Z * list Z)) :=
  Some (autorelease (Some r), (n, b)).

(** The argument [src] is the text [s], one of the caller or that of another reference
    than [i]. *)
Definition source_text (p : program) (i : nat) (src : source) (s : list Z) : Prop :=
  match src with
  | Text b => cstr b = Some s
  | In l => exists t r n m, t <> i /\ refs p !! t = Some (Some l) /\ value p t = Some (shows r n m) /\ cstr m = Some s
  end.

Lemma value_shows p i r n b : value p i = Some (shows r n b) -> exists l c, refs p !! i = Some (Some l) /\
  cells (heap p) !! l = Some c /\ object p i = Some (Some c) /\
  Counted.owner c = autorelease (Some r) /\ Counted.size c = n /\ Counted.mem c = b.
Proof.
  unfold value, object. destruct (refs p !! i) as [[l|]|]; run; [|done..].
  destruct (cells (heap p) !! l) as [c|] eqn:Hc; run; [|done]. cbn. intros [= Ho Hs Hm]. by exists l, c.
Qed.

Lemma source_read p i src s : source_text p i src s -> exists r, read (heap p) src = Some (s ++ 0 :: r) /\ nonul s.
Proof.
  assert (forall b, cstr b = Some s -> exists r, b = s ++ 0 :: r /\ nonul s) as Hb.
  { intros b Hb. destruct (cstr_inv b s Hb) as (Hn & r & ->). by exists r. }
  destruct src as [b|l]; cbn.
  - intros (r & -> & Hn)%Hb. by exists r.
  - intros (t & r & n & m & _ & Ht & Hv & (r' & -> & Hn)%Hb).
    destruct (value_shows _ _ _ _ _ Hv) as (k & c & Hk & Hc & _ & _ & _ & Hm). rewrite Ht in Hk. injection Hk as <-.
    exists r'. rewrite Hc. cbn. by rewrite Hm.
Qed.

Lemma source_keeps p p' i src s : others i p p' -> source_text p i src s -> source_text p' i src s.
Proof.
  intros Ho. destruct src as [b|l]; [done|]. intros (t & r & n & m & Hti & Ht & Hv & Hm).
  destruct (Ho t Hti) as [Er Ev]; [by eapply lookup_lt_Some|].
  exists t, r, n, m. by rewrite Er, Ev.
Qed.

Lemma text_place p ls i src s r : ok p ls -> (i < length (refs p))%nat -> source_text p i src s ->
  effect true i (shows r (zlen s) (text_mem s)) p (chars.place p i (Some src) (Some r)).
Proof.
  intros Hok Hi Hs. destruct (source_read _ _ _ _ Hs) as (q & Eq & Hn).
  unfold chars.place, chars.create_value. rewrite Eq. run.
  unfold Str.count. rewrite strlen_app by done. run. rewrite text_value by done. run.
  eapply new_effect; [done|done|apply fresh_make, zlen_text_mem|apply zlen_nonneg].
Qed.

Lemma text_set p ls i src s r : ok p ls -> (i < length (refs p))%nat -> source_text p i src s ->
  effect true i (shows r (zlen s) (text_mem s)) p (chars.set p i (Some src) (Some r)).
Proof.
  intros Hok Hi Hs. destruct (clear_effect p ls i Hok Hi) as (p1 & ls1 & E & Hok1 & Hl1 & _ & Ho1 & _).
  unfold chars.set. rewrite E. run.
  destruct (text_place p1 ls1 i src s r Hok1) as (p2 & ls2 & E2 & Hok2 & Hl2 & Hv2 & Ho2 & Hs2);
    [lia|by eapply source_keeps|]. exists p2, ls2.
  split; [done|]. split; [done|]. split; [lia|]. split; [done|]. split; [by eapply others_trans|done].
Qed.

Lemma bytes_place p ls i b r : ok p ls -> (i < length (refs p))%nat ->
  exists q, effect true i (shows r (zlen b) (b ++ q)) p (bytes_.place p i (Some (Text b)) (zlen b) (Some r)) /\ zlen q = 1.
Proof.
  intros Hok Hi. destruct (bytes_value b [] (Some r)) as (q & E & Hq). rewrite app_nil_r in E. exists q. split; [|done].
  unfold bytes_.place, bytes_.create_value. cbn [read]. run. rewrite E. run.
  eapply new_effect; [done|done|apply fresh_make; rewrite zlen_app; lia|apply zlen_nonneg].
Qed.

Lemma bytes_set p ls i b r : ok p ls -> (i < length (refs p))%nat -> exists q,
  effect true i (shows r (zlen b) (b ++ q)) p (bytes_.set p i (Some (Text b)) (zlen b) (Some r)) /\ zlen q = 1.
Proof.
  intros Hok Hi. destruct (bytes_value b [] (Some r)) as (q & E & Hq). rewrite app_nil_r in E. exists q. split; [|done].
  unfold bytes_.set. eapply ref_then; [by eapply clear_effect|]. intros p' ls' Hok' Hl _ _.
  unfold bytes_.place, bytes_.create_value. cbn [read]. run. rewrite E. run.
  eapply new_effect; [done|lia|apply fresh_make; rewrite zlen_app; lia|apply zlen_nonneg].
Qed.

Lemma room_place p ls i size r : ok p ls -> (i < length (refs p))%nat -> 0 <= size ->
  effect true i (shows r size (junk (size + 1))) p (bytes_.place p i None size (Some r)).
Proof.
  intros Hok Hi Hs. unfold bytes_.place, bytes_.create_value. run. rewrite bytes_value_none. run.
  eapply new_effect; [done|done|apply fresh_make, junk_length; lia|lia].
Qed.

(** ** Texts of bytes *)

Lemma b64_text bs : Forall is_byte bs -> small_size (zlen bs) ->
  exists k, Base64.b64encode bs (zlen bs) 0 = Some (Base64.enc bs ++ [0], k) /\
    zlen (Base64.enc bs) + 1 <= Base64.b64size (zlen bs) < 2 ^ 61.
Proof.
  unfold small_size. intros Hb Hs. pose proof (Base64.zlen_enc bs) as Hz. pose proof (zlen_nonneg bs).
  rewrite Base64.b64size_value by lia. unfold Base64.b64encode. change (0 =? 0) with true. cbv iota.
  rewrite Base64.b64size_value by lia.
  destruct (Z.eqb_spec (zlen bs * 4 / 3 + 4) 0); [dlia|].
  destruct (Z.eqb_spec (zlen bs) 0) as [E|E]; cbn [orb].
  - exists 0. destruct bs; [|rewrite zlen_cons in E; pose proof (zlen_nonneg bs); lia]. split; [done|].
    cbn [Base64.enc]. rewrite (@zlen_nil Z). dlia.
  - rewrite Base64.encode_loop_spec by (done || dlia). run. eexists. split; [done|]. rewrite Hz. dlia.
Qed.

Lemma b64_effect p ls i bs q r : ok p ls -> (i < length (refs p))%nat -> Forall is_byte bs ->
  small_size (zlen bs) -> exists t,
  effect true i (shows r (Base64.b64size (zlen bs)) (Base64.enc bs ++ 0 :: t)) p (chars.b64 p i (bs ++ q) (zlen bs) (Some r)).
Proof.
  intros Hok Hi Hb Hs. destruct (b64_text bs Hb Hs) as (k & E & Hz). pose proof (zlen_nonneg (Base64.enc bs)).
  destruct (room_value (Base64.b64size (zlen bs)) (Some r)) as (t & Ev & Ht); [lia|].
  destruct (block_split (0 :: t) (zlen (Base64.enc bs) + 1)) as (x & y & Exy & Hx); [rewrite zlen_cons; lia|].
  exists y. unfold chars.b64. eapply ref_then; [by eapply clear_effect|]. intros p' ls' Hok' Hl _ _.
  unfold chars.create_value. rewrite Ev. run. cbn [new]. cbv beta iota zeta.
  cbn [put cells]. rewrite lookup_insert_eq. run. cbn [Counted.make Counted.mem].
  rewrite (slice_mid [] bs q) by done. run. rewrite E. run.
  assert (length (Base64.enc bs ++ [0]) = length x) as Hlen.
  { rewrite length_app. change (length [0]) with 1%nat. unfold zlen in Hx. lia. }
  rewrite Exy, (blit_mid [] x _ y 0 eq_refl Hlen : blit (x ++ y) 0 _ = _).
  run. unfold put. cbn [cells later freed]. rewrite insert_insert_eq. cbn [app]. rewrite <- app_assoc. cbn [app].
  apply (new_effect p' ls' i (Counted.make (Base64.b64size (zlen bs)) (Some r) (Base64.enc bs ++ 0 :: y)) r
    (Base64.b64size (zlen bs))); [done|lia| |lia].
  apply fresh_make. pose proof (f_equal zlen Exy) as El. autorewrite with zlen in El |- *. lia.
Qed.

Lemma hex_loop_spec bs : forall p q d x t, zlen d = 2 * zlen p -> zlen t = 2 * zlen bs ->
  chars.hex_loop (d ++ x :: t) (p ++ bs ++ q) (length bs) (zlen p) =
  Some (match bs with [] => d ++ x :: t | _ => d ++ Hex.hex bs ++ [0] end).
Proof.
  induction bs as [|b bs IH]; intros p q d x t Hd Ht; [done|]. cbn [length chars.hex_loop].
  cbn [app]. rewrite rd_app_r by done. cbn [lookup list_lookup]. run.
  rewrite zlen_cons in Ht. destruct t as [|y [|z t]]; [pose proof (zlen_nonneg bs); uc_len|pose proof (zlen_nonneg bs); uc_len|].
  change (d ++ x :: y :: z :: t) with (d ++ [x; y; z] ++ t).
  rewrite (blit_mid d [x; y; z] (Hex.hex2 b ++ [0]) t) by (done || lia). run.
  replace (zlen p + 1) with (zlen (p ++ [b])) by (by rewrite zlen_app).
  replace (p ++ b :: bs ++ q) with ((p ++ [b]) ++ bs ++ q) by (by rewrite <- app_assoc).
  replace (d ++ (Hex.hex2 b ++ [0]) ++ t) with ((d ++ Hex.hex2 b) ++ 0 :: t) by (by rewrite <- !app_assoc).
  rewrite !zlen_cons in Ht.
  rewrite IH; [|rewrite !zlen_app, Hd; change (zlen (Hex.hex2 b)) with 2; change (zlen [b]) with 1; lia|lia].
  unfold Hex.hex. cbn [map concat]. destruct bs as [|b' bs].
  - destruct t; [|rewrite zlen_cons in Ht; pose proof (zlen_nonneg t); change (zlen (@nil Z)) with 0 in Ht; lia].
    cbn [map concat]. by rewrite app_nil_r, <- app_assoc.
  - by rewrite <- !app_assoc.
Qed.

(** The hexadecimal text of no bytes is not stored. *)
Definition hex_mem (bs : list Z) : list Z := match bs with [] => junk 1 | _ => Hex.hex bs ++ [0] end.

Lemma zlen_hex bs : zlen (Hex.hex bs) = 2 * zlen bs.
Proof.
  induction bs as [|b bs IH]; [done|]. unfold Hex.hex in *. cbn [map concat]. rewrite zlen_app, IH, zlen_cons.
  change (zlen (Hex.hex2 b)) with 2. lia.
Qed.

Lemma hex_effect p ls i bs q r : ok p ls -> (i < length (refs p))%nat -> small_size (zlen bs) ->
  effect true i (shows r (2 * zlen bs) (hex_mem bs)) p (chars.hex p i (bs ++ q) (zlen bs) (Some r)).
Proof.
  unfold small_size. intros Hok Hi Hs. unfold chars.hex. eapply ref_then; [by eapply clear_effect|].
  intros p' ls' Hok' Hl _ _. rewrite u64_id by lia. replace (zlen bs * 2) with (2 * zlen bs) by lia.
  assert (exists x t, chars.value (2 * zlen bs) (Some [0]) (Some r) =
    Some (Counted.make (2 * zlen bs) (Some r) (x :: t)) /\ zlen t = 2 * zlen bs /\ (bs = [] -> x :: t = junk 1))
    as (x & t & E & Ht & Hj).
  { destruct bs as [|b bs].
    - pose proof (junk_length 1 ltac:(lia)) as Hj. pose proof (text_value [] [] (Some r) ltac:(constructor)) as E.
      cbn [text_mem] in E. destruct (junk 1) as [|x [|y t]]; [done| |].
      + by exists x, [].
      + rewrite !zlen_cons in Hj. pose proof (zlen_nonneg t). lia.
    - destruct (room_value (2 * zlen (b :: bs)) (Some r)) as (t & E & Ht).
      { rewrite zlen_cons. pose proof (zlen_nonneg bs). lia. }
      exists 0, t. by split. }
  unfold chars.create_value. rewrite E. run. cbn [new]. cbv beta iota zeta.
  cbn [put cells]. rewrite lookup_insert_eq. run. cbn [Counted.make Counted.mem].
  rewrite zlen_to_nat. pose proof (hex_loop_spec bs [] q [] x t eq_refl Ht) as Eh.
  cbn [app] in Eh. change (zlen (@nil Z)) with 0 in Eh. rewrite Eh. run.
  unfold put. cbn [cells later freed]. rewrite insert_insert_eq.
  set (c := Counted.with_mem _ _).
  replace c with (Counted.make (2 * zlen bs) (Some r) (hex_mem bs)).
  2:{ unfold c, Counted.with_mem. cbn. unfold Counted.make. f_equal. destruct bs; [symmetry; by apply Hj|done]. }
  apply (new_effect p' ls' i (Counted.make (2 * zlen bs) (Some r) (hex_mem bs)) r (2 * zlen bs)); [done|lia| |lia].
  apply fresh_make. destruct bs; [by apply junk_length|]. unfold hex_mem. rewrite zlen_app, zlen_hex. done.
Qed.

(** ** Writing into a value *)

Lemma write_spec p ls i l c b : ok p ls -> refs p !! i = Some (Some l) -> cells (heap p) !! l = Some c ->
  zlen b = zlen (Counted.mem c) ->
  let p' := set_heap p (put (heap p) l (Counted.with_mem c b)) in
  ok p' ls /\ value p' i = Some (Some (Counted.owner c, (Counted.size c, b))) /\
  forall j, refs p !! j <> refs p !! i -> value p' j = value p j.
Proof.
  intros Hok Hi Hc Hb p'. destruct (sound_cell _ _ _ l (ok_sound _ _ Hok)) as (d & Hd & Hw & Hlive & Hn).
  { by eapply refs_to_pos. }
  assert (d = c) as -> by congruence. split; [split|split].
  - eapply sound_put; [apply Hok|done|unfold whole in *; cbn; lia|exact Hlive| |done].
    change (0 < refs_to (refs p) l < 2 ^ 31). pose proof (refs_to_pos _ _ _ Hi). pose proof (sound_range _ _ _ (ok_sound _ _ Hok) l). lia.
  - apply (ok_small _ _ Hok).
  - unfold value, object. cbn [p' set_heap refs heap put cells]. rewrite Hi. run. by rewrite lookup_insert_eq.
  - intros j Hj. unfold value, object. cbn [p' set_heap refs heap put cells].
    destruct (refs p !! j) as [[k|]|] eqn:Ek; run; [|done..]. rewrite lookup_insert_ne; [done|]. congruence.
Qed.

Lemma value_null p i : value p i = Some None -> object p i = Some None.
Proof. unfold value. by destruct (object p i) as [[c|]|]. Qed.

(** A value that nothing else refers to is filled. *)
Lemma fill_effect p ls i r n x y out : ok p ls -> (i < length (refs p))%nat -> value p i = Some (shows r n (x ++ y)) ->
  sole p i -> length out = length x -> effect true i (shows r n (out ++ y)) p (bytes_.fill p i out).
Proof.
  intros Hok Hi Hv Hs Hlen. destruct (value_shows _ _ _ _ _ Hv) as (l & c & Hl & Hc & _ & Ho & Hsz & Hm).
  unfold bytes_.fill. rewrite Hl. run. rewrite Hc. run. rewrite Hm.
  rewrite (blit_mid [] x out y 0 eq_refl Hlen : blit (x ++ y) 0 out = _). run. cbn [app].
  destruct (write_spec p ls i l c (out ++ y) Hok Hl Hc) as (Hok' & Hv' & Hoth).
  { rewrite Hm, !zlen_app. unfold zlen. lia. }
  eexists _, ls. split; [done|]. split; [done|]. split; [done|]. split; [by rewrite Hv', Ho, Hsz|]. split; [|done].
  intros j Hj _. split; [done|]. apply Hoth. intros E. rewrite Hl in E. by apply Hj, (Hs j l).
Qed.

Lemma hex_count_read s ws : forall n out max, 0 <= out -> Hex.hexcount_loop s ws out = max ->
  zlen (Hex.hex2bin_loop s max ws n out).1 = max - out.
Proof.
  remember (length s) as len eqn:El. assert (length s <= len)%nat as Hle by lia. clear El. revert s Hle.
  assert (forall s ws out, out <= Hex.hexcount_loop s ws out) as Hmono.
  { clear. intros s. remember (length s) as len eqn:El. assert (length s <= len)%nat as Hle by lia. clear El.
    revert s Hle. induction len as [|len IH]; intros [|c [|d s]] Hle ws out; cbn in Hle |- *; try lia.
    - case_match; lia.
    - case_match; [|case_match; [lia|]].
      + specialize (IH (d :: s) ltac:(cbn; lia) ws out). done.
      + specialize (IH s ltac:(lia) ws (out + 1)). lia. }
  induction len as [|len IH]; intros s Hle n out max Hout E.
  - destruct s; [|cbn in Hle; lia]. cbn in E |- *. rewrite (@zlen_nil Z). lia.
  - destruct s as [|c s]; [cbn in E |- *; rewrite (@zlen_nil Z); lia|]. cbn in Hle, E |- *.
    destruct (ws && isspace c); [apply IH; done || lia|].
    destruct s as [|d s]; [cbn; rewrite (@zlen_nil Z); lia|]. cbn in Hle.
    destruct ((Hex.hexcode c <? 0) || (Hex.hexcode d <? 0)); [cbn; rewrite (@zlen_nil Z); lia|].
    pose proof (Hmono s ws (out + 1)). destruct (Z.ltb_spec max (out + 1)); [lia|].
    pose proof (IH s ltac:(lia) (n + 2) (out + 1) max ltac:(lia) E) as IH'.
    destruct (Hex.hex2bin_loop s max ws (n + 2) (out + 1)) as [o k]. cbn [fst] in *. rewrite zlen_cons. lia.
Qed.

(** Reading bytes from a text: into a new value of just their number. *)
Lemma from_text_effect count decode p ls i src s r : ok p ls -> (i < length (refs p))%nat -> source_text p i src s ->
  let out := decode s (count s) in zlen out = count s -> exists q p',
  bytes_.from_text count decode p i src (Some r) = Some (p', zlen out) /\
  effect true i (if count s =? 0 then None else shows r (zlen out) (out ++ q)) p (Some p').
Proof.
  intros Hok Hi Hsrc out Hz. pose proof (zlen_nonneg out).
  destruct (block_split (junk (zlen out + 1)) (zlen out)) as (x & y & Ej & Hx); [rewrite junk_length; lia|].
  exists y. destruct (clear_effect p ls i Hok Hi) as (p1 & ls1 & E1 & Hok1 & Hl1 & Hv1 & Ho1 & Hs1).
  pose proof (source_keeps _ _ _ _ _ Ho1 Hsrc) as Hsrc1. destruct (source_read _ _ _ _ Hsrc1) as (q1 & Eq1 & Hn).
  unfold bytes_.from_text. rewrite E1. run. rewrite Eq1. run. rewrite cstr_app by done. run. rewrite <- Hz.
  destruct (Z.eqb_spec (zlen out) 0) as [E0|E0].
  { exists p1. rewrite E0. split; [done|]. by exists p1, ls1. }
  destruct (room_place p1 ls1 i (zlen out) r Hok1) as (p2 & ls2 & E2 & Hok2 & Hl2 & Hv2 & Ho2 & Hs2); [lia|lia|].
  rewrite E2. run. destruct (source_read _ _ _ _ (source_keeps _ _ _ _ _ Ho2 Hsrc1)) as (q2 & Eq2 & _).
  rewrite Eq2. run. rewrite cstr_app by done. run.
  rewrite Ej in Hv2. destruct (fill_effect p2 ls2 i r (zlen out) x y out) as (p3 & ls3 & E3 & Hok3 & Hl3 & Hv3 & Ho3 & Hs3);
    [done|lia|done|by apply Hs2|unfold zlen in *; lia|].
  rewrite Hz. fold out. rewrite E3. run. rewrite <- Hz. exists p3. split; [done|]. exists p3, ls3.
  split; [done|]. split; [done|]. split; [lia|]. split; [done|]. split; [|done].
  eapply others_trans; [|done|eapply others_trans; [|done|done]]; lia.
Qed.

Lemma hex_length s ws : zlen (Hex.hex2bin s (Hex.hexcount s ws) ws).1 = Hex.hexcount s ws.
Proof. unfold Hex.hex2bin. rewrite (hex_count_read s ws 0 0 (Hex.hexcount s ws)) by (done || lia). lia. Qed.

Lemma b64_length s ws : zlen (Base64.b64decode s (Base64.b64count s ws) ws).1 = Base64.b64count s ws.
Proof. by apply Base64.b64count_decode. Qed.

(** ** Bits *)

Definition bit_of (b m : Z) : bool := Z.testbit b m.

Lemma land_pow2 b m : 0 <= m -> negb (Z.land b (2 ^ m) =? 0) = Z.testbit b m.
Proof.
  intros Hm. assert (Z.land b (2 ^ m) = if Z.testbit b m then 2 ^ m else 0) as ->.
  { apply Z.bits_inj'. intros k Hk. rewrite Z.land_spec, Z.pow2_bits_eqb by done.
    destruct (Z.eqb_spec m k) as [->|Hne].
    - destruct (Z.testbit b k) eqn:E; cbn; [by rewrite Z.pow2_bits_true|by rewrite Z.bits_0].
    - rewrite andb_false_r. destruct (Z.testbit b m); [by rewrite Z.pow2_bits_false|by rewrite Z.bits_0]. }
  destruct (Z.testbit b m); [|done]. pose proof (Z.pow_pos_nonneg 2 m). by destruct (Z.eqb_spec (2 ^ m) 0); [lia|].
Qed.

Lemma mask_bit k : u8 (Z.shiftl 1 (k mod 8)) = 2 ^ (k mod 8).
Proof.
  rewrite Z.shiftl_1_l. apply u8_id. unfold is_byte. pose proof (Z.mod_pos_bound k 8 ltac:(lia)).
  assert (0 < 2 ^ (k mod 8) <= 2 ^ 7) by (split; [apply Z.pow_pos_nonneg; lia|apply Z.pow_le_mono_r; lia]). lia.
Qed.

Lemma bit_spec data k b : rd data (k / 8) = Some b -> bytes_.bit data k = Some (Z.testbit b (k mod 8)).
Proof.
  intros Hb. unfold bytes_.bit. rewrite Hb. run. rewrite mask_bit, land_pow2; [done|].
  pose proof (Z.mod_pos_bound k 8 ltac:(lia)). lia.
Qed.

Lemma rd_some (data : list Z) i : 0 <= i < zlen data -> exists b, rd data i = Some b.
Proof.
  intros Hi. unfold rd. uc_cases. destruct (lookup_lt_is_Some_2 data (Z.to_nat i)) as [b Hb]; [unfold zlen in *; lia|].
  by exists b.
Qed.

Lemma bit_some (data : list Z) k : 0 <= k < 8 * zlen data -> exists v, bytes_.bit data k = Some v.
Proof.
  intros Hk. destruct (rd_some data (k / 8)) as [b Hb]; [dlia|]. eexists. by apply bit_spec.
Qed.

(** One bit is changed, the others stay. *)
Lemma put_bit_spec data mode k : 0 <= k < 8 * zlen data -> exists data',
  bytes_.put_bit data mode k = Some data' /\ zlen data' = zlen data /\
  forall j, 0 <= j < 8 * zlen data -> bytes_.bit data' j = if j =? k then Some mode else bytes_.bit data j.
Proof.
  intros Hk. destruct (rd_some data (k / 8)) as [b Hb]; [dlia|].
  unfold bytes_.put_bit. rewrite Hb. run. rewrite mask_bit.
  set (v := if mode then Z.lor b (2 ^ (k mod 8)) else Z.land b (u8 (Z.lnot (2 ^ (k mod 8))))).
  pose proof (Z.mod_pos_bound k 8 ltac:(lia)) as Hm.
  assert (Hv : forall m, 0 <= m < 8 -> Z.testbit v m = if m =? k mod 8 then mode else Z.testbit b m).
  { intros m Hm'. unfold v. destruct mode.
    - rewrite Z.lor_spec, Z.pow2_bits_eqb by lia. rewrite Z.eqb_sym.
      destruct (Z.eqb_spec m (k mod 8)) as [->|]; [apply orb_true_r|apply orb_false_r].
    - rewrite Z.land_spec. unfold u8. rewrite Z.mod_pow2_bits_low, Z.lnot_spec, Z.pow2_bits_eqb by lia.
      rewrite (Z.eqb_sym (k mod 8)). destruct (Z.eqb_spec m (k mod 8)) as [->|]; [apply andb_false_r|apply andb_true_r]. }
  unfold wr. assert (0 <= k / 8 < zlen data) as Hr by dlia. unfold zlen in Hr.
  destruct (Z.leb_spec 0 (k / 8)); [|lia]. destruct (Z.ltb_spec (k / 8) (Z.of_nat (length data))); [|lia]. cbn [andb].
  eexists. split; [done|]. split; [unfold zlen; by rewrite length_insert|].
  intros j Hj. destruct (Z.eq_dec (j / 8) (k / 8)) as [E|E].
  - assert (rd (<[Z.to_nat (k / 8):=v]> data) (j / 8) = Some v) as Hj'.
    { unfold rd. uc_cases. rewrite E. rewrite list_lookup_insert_eq; [done|lia]. }
    rewrite (bit_spec _ _ _ Hj'), Hv by (apply Z.mod_pos_bound; lia).
    assert (rd data (j / 8) = Some b) as Hjb by (by rewrite E). rewrite (bit_spec _ _ _ Hjb).
    destruct (Z.eqb_spec j k) as [->|Hne]; [by rewrite Z.eqb_refl|].
    destruct (Z.eqb_spec (j mod 8) (k mod 8)); [dlia|done].
  - destruct (Z.eqb_spec j k) as [->|Hne]; [done|]. unfold bytes_.bit. f_equal.
    unfold rd. uc_cases; [done|]. rewrite list_lookup_insert_ne; [done|]. intros E'.
    apply E. apply Z2Nat.inj; [dlia|dlia|done].
Qed.

(** The number of bits among the [n] from [off] on that are [mode]. *)
Fixpoint tally (data : list Z) (mode : bool) (off : Z) (n : nat) : Z :=
  match n with
  | O => 0
  | S n => (if decide (bytes_.bit data off = Some mode) then 1 else 0) + tally data mode (off + 1) n
  end.

Lemma tally_bound data mode n : forall off, 0 <= tally data mode off n <= Z.of_nat n.
Proof. induction n as [|n IH]; intros off; cbn [tally]; [lia|]. specialize (IH (off + 1)). case_decide; lia. Qed.

Lemma tally_ext data data' mode n : forall off, (forall k, off <= k < off + Z.of_nat n -> bytes_.bit data' k = bytes_.bit data k) ->
  tally data' mode off n = tally data mode off n.
Proof.
  induction n as [|n IH]; intros off Hk; cbn [tally]; [done|]. rewrite (Hk off) by lia.
  by rewrite IH by (intros k Hk'; apply Hk; lia).
Qed.

(** How many of [bits] bits from [off] on the object has. *)
Definition inside (size off bits : Z) : nat := Z.to_nat (Z.min bits (8 * size - off)).

Lemma set_loop_spec n : forall data size mode off total, 0 <= off -> size <= zlen data -> size < 2 ^ 60 ->
  0 <= total -> total + Z.of_nat n < 2 ^ 63 -> off + Z.of_nat n < 2 ^ 63 -> exists data',
  bytes_.set_loop n data size mode off total =
    Some (data', total + tally data (negb mode) off (inside size off (Z.of_nat n))) /\
  zlen data' = zlen data /\
  forall j, 0 <= j < 8 * zlen data -> bytes_.bit data' j =
    if (off <=? j) && (j <? off + Z.of_nat (inside size off (Z.of_nat n))) then Some mode else bytes_.bit data j.
Proof.
  induction n as [|n IH]; intros data size mode off total Ho Hs Hs60 Ht Htn Hon; cbn [bytes_.set_loop].
  { exists data. unfold inside. rewrite Z2Nat.nonpos by lia. cbn [tally]. split; [f_equal; f_equal; lia|].
    split; [done|]. intros j Hj. uc_cases; done || lia. }
  destruct (Z.leb_spec size (off / 8)) as [Hend|Hin].
  { exists data. unfold inside. rewrite Z2Nat.nonpos by dlia. cbn [tally]. split; [f_equal; f_equal; lia|].
    split; [done|]. intros j Hj. uc_cases; done || lia. }
  assert (inside size off (Z.of_nat (S n)) = S (inside size (off + 1) (Z.of_nat n))) as ->.
  { unfold inside. dlia. }
  destruct (bit_some data off) as [v Hv]; [dlia|]. rewrite Hv. run. rewrite u64_id by lia. cbn [tally].
  set (k := inside size (off + 1) (Z.of_nat n)).
  destruct (Bool.eqb_spec v mode) as [->|Hne].
  - destruct (IH data size mode (off + 1) total) as (data' & -> & Hz & Hb); [lia..|].
    exists data'. fold k in Hb |- *. rewrite decide_False by (rewrite Hv; by destruct mode). split; [done|]. split; [done|].
    intros j Hj. rewrite Hb by done. destruct (Z.eq_dec j off) as [->|]; [|uc_cases; done || lia].
    rewrite Hv. uc_cases; done || lia.
  - destruct (put_bit_spec data mode off) as (d1 & E1 & Hz1 & Hb1); [dlia|]. rewrite E1. run. rewrite u64_id by lia.
    destruct (IH d1 size mode (off + 1) (total + 1)) as (data' & -> & Hz & Hb); [lia..|].
    exists data'. fold k in Hb |- *. rewrite decide_True by (rewrite Hv; f_equal; by destruct v, mode).
    rewrite (tally_ext data d1).
    2:{ intros j Hj. unfold k, inside in Hj. rewrite Hb1 by dlia. by destruct (Z.eqb_spec j off); [lia|]. }
    split; [f_equal; f_equal; lia|]. split; [lia|]. intros j Hj. rewrite Hb, Hb1 by lia.
    destruct (Z.eqb_spec j off) as [->|]; uc_cases; done || lia.
Qed.

Lemma bits_count_spec n : forall data size off total, 0 <= off -> size <= zlen data -> size < 2 ^ 60 ->
  0 <= total -> total + Z.of_nat n < 2 ^ 63 -> off + Z.of_nat n < 2 ^ 63 ->
  bytes_.count_loop n data size off total = Some (total + tally data true off (inside size off (Z.of_nat n))).
Proof.
  induction n as [|n IH]; intros data size off total Ho Hs Hs60 Ht Htn Hon; cbn [bytes_.count_loop].
  { unfold inside. rewrite Z2Nat.nonpos by lia. cbn [tally]. f_equal. lia. }
  destruct (Z.leb_spec size (off / 8)) as [Hend|Hin].
  { unfold inside. rewrite Z2Nat.nonpos by dlia. cbn [tally]. f_equal. lia. }
  assert (inside size off (Z.of_nat (S n)) = S (inside size (off + 1) (Z.of_nat n))) as ->.
  { unfold inside. dlia. }
  destruct (bit_some data off) as [v Hv]; [dlia|]. rewrite Hv. run. rewrite u64_id by lia. cbn [tally].
  rewrite Hv. destruct v.
  - rewrite u64_id by lia. rewrite IH by lia. rewrite decide_True by done. f_equal. lia.
  - rewrite IH by lia. rewrite decide_False by done. f_equal.
Qed.

(** ** Concatenation *)

Lemma clear_null p i : refs p !! i = Some None -> clear p i = Some p.
Proof. intros Hi. unfold clear. rewrite Hi. run. unfold set_ref. rewrite list_insert_id by done. by destruct p. Qed.

Lemma make_null p : refs (make p) !! length (refs p) = Some None.
Proof. cbn. by rewrite lookup_app_r, Nat.sub_diag by lia. Qed.

(** A value that is written before its reference is made. *)
Lemma written_made p ls c r n : ok p ls -> zlen (refs p) < 2 ^ 31 - 2 -> fresh_value c r n -> 0 <= n ->
  made (Some (view c)) p (set_object (set_heap (make p) (put (heap p) (fresh (dom (cells (heap p)))) c))
    (length (refs p)) (Some (fresh (dom (cells (heap p)))))).
Proof.
  intros Hok Hl Hc Hn. eapply effect_made.
  exact (new_effect (make p) ls (length (refs p)) c r n (null_ok p ls Hok Hl)
    ltac:(cbn; rewrite length_app; cbn; lia) Hc Hn).
Qed.

Lemma put_put h l c d : put (put h l c) l d = put h l d.
Proof. unfold put. cbn [cells later freed]. by rewrite insert_insert_eq. Qed.

Lemma concat_made p ls i r n m src s1 s2 : ok p ls -> zlen (refs p) < 2 ^ 31 - 2 -> value p i = Some (shows r n m) ->
  cstr m = Some s1 -> source_text p (length (refs p)) src s2 ->
  made (shows r (zlen (s1 ++ s2)) ((s1 ++ s2) ++ [0])) p (chars.concat p i (Some src)).
Proof.
  intros Hok Hlen Hv Hm (q & Eq & Hs2)%source_read. destruct (value_shows _ _ _ _ _ Hv) as (l & c & Hl & Hc & Hobj & Ho & Hsz & Hcm).
  pose proof (zlen_nonneg (s1 ++ s2)). unfold chars.concat. rewrite Hobj. run. rewrite Eq. run.
  rewrite Hcm, Ho, Hm. run. rewrite cstr_app by done. run. rewrite <- zlen_app.
  destruct (none_value (zlen (s1 ++ s2)) (Some r)) as (t & E & Ht); [done|].
  unfold chars.create, chars.create_value. rewrite E. run. cbn [new]. cbv beta iota zeta.
  set (k := fresh (dom (cells (heap p)))). cbn [put cells]. rewrite lookup_insert_eq. run.
  cbn [Counted.make Counted.mem Counted.size]. rewrite take_ge by (unfold zlen; lia).
  assert (length ((s1 ++ s2) ++ [0]) = length (0 :: t)) as Hbl.
  { rewrite length_app. cbn [length]. unfold zlen in Ht. lia. }
  pose proof (blit_mid [] (0 :: t) ((s1 ++ s2) ++ [0]) [] 0 eq_refl Hbl) as Hb. rewrite !app_nil_r in Hb. cbn [app] in Hb.
  rewrite Hb. run. change (Store (<[k:=_]> (cells (heap p))) (later (heap p)) (freed (heap p))) with
    (put (heap p) k (Counted.make (zlen (s1 ++ s2)) (Some r) (0 :: t))). rewrite put_put.
  unfold chars.assign. rewrite clear_null by apply make_null. run. cbn [set_heap heap put cells].
  rewrite lookup_insert_eq. run. cbn [Counted.with_mem Counted.mem].
  rewrite strlen_app by (apply nonul_app; split; [by apply (cstr_inv m s1 Hm)|done]). run.
  unfold Counted.with_size. cbn [Counted.count Counted.owner Counted.mem].
  rewrite (put_put (heap p)).
  apply (written_made p ls (Counted.make (zlen (s1 ++ s2)) (Some r) ((s1 ++ s2) ++ [0])) r (zlen (s1 ++ s2))); [done|done| |done].
  apply fresh_make. by rewrite zlen_app.
Qed.

Lemma whole_value p ls i r n m : ok p ls -> value p i = Some (shows r n m) -> 0 <= n < zlen m.
Proof.
  intros Hok Hv. destruct (value_shows _ _ _ _ _ Hv) as (l & c & Hl & Hc & _ & _ & <- & <-).
  destruct (sound_cell _ _ _ l (ok_sound _ _ Hok)) as (d & Hd & Hw & _); [by eapply refs_to_pos|].
  assert (d = c) as -> by congruence. exact Hw.
Qed.

Lemma slice_front (b : list Z) n : 0 <= n <= zlen b -> slice b 0 n = Some (take (Z.to_nat n) b).
Proof.
  intros Hn. destruct (block_split b n Hn) as (x & y & -> & Hx).
  rewrite (slice_mid [] x y 0 n eq_refl (eq_sym Hx) : slice (x ++ y) 0 n = _). f_equal.
  replace (Z.to_nat n) with (length x) by (unfold zlen in Hx; lia). by rewrite take_app_length.
Qed.

(** The bytes a reference shows. *)
Definition bytes_in (n : Z) (m : list Z) : list Z := take (Z.to_nat n) m.

(** The size and the memory of a value, of a null one too. *)
Definition held (v : option (union * (Z * list Z))) : Z * list Z :=
  match v with Some (_, nm) => nm | None => (0, []) end.

Lemma join_part p ls j w k b : ok p ls -> value p j = Some w -> held w = (k, b) ->
  exists v, object p j = Some v /\ match v with None => 0 | Some v => Counted.size v end = k /\
    0 <= k <= zlen b /\ (v = None -> k = 0 /\ b = []) /\
    match v with None => Some [] | Some v => slice (Counted.mem v) 0 k end = Some (take (Z.to_nat k) b).
Proof.
  intros Hok Hw Hh. unfold value in Hw. destruct (object p j) as [v|] eqn:Hobj; [|done]. injection Hw as <-.
  exists v. split; [done|]. destruct v as [v|]; cbn in Hh; injection Hh as <- <-; [|by rewrite take_nil].
  unfold object in Hobj. destruct (refs p !! j) as [[l|]|] eqn:Hl; [|done..]. rewrite bind_Some in Hobj.
  destruct (cells (heap p) !! l) as [c|] eqn:Hc; [|done]. injection Hobj as ->.
  destruct (sound_cell _ _ _ l (ok_sound _ _ Hok)) as (d & Hd & Hz & _); [by eapply refs_to_pos|].
  assert (d = v) as -> by congruence. unfold whole in Hz. split; [done|]. split; [lia|]. split; [done|].
  apply slice_front. lia.
Qed.

(** Two values without a byte make a null reference. *)
Lemma join_nothing p ls i j v w : ok p ls -> value p i = Some v -> value p j = Some w ->
  (held v).1 + (held w).1 = 0 -> bytes_.concat p i j = Some (make p).
Proof.
  intros Hok Hv Hw Hnk. destruct (held v) as [n m] eqn:Ev, (held w) as [k b] eqn:Ew. cbn [fst] in Hnk.
  destruct (join_part p ls i v n m Hok Hv Ev) as (o1 & Ho1 & Hs1 & _).
  destruct (join_part p ls j w k b Hok Hw Ew) as (o2 & Ho2 & Hs2 & _).
  unfold bytes_.concat. rewrite Ho1, bind_Some, Ho2. run. by rewrite Hs1, Hs2, Hnk.
Qed.

Lemma join_made p ls i j r n m w k b : ok p ls -> zlen (refs p) < 2 ^ 31 - 2 ->
  value p i = Some (shows r n m) -> value p j = Some w -> held w = (k, b) -> 0 < n + k < 2 ^ 60 ->
  exists q, made (shows r (n + k) (bytes_in n m ++ bytes_in k b ++ q)) p (bytes_.concat p i j).
Proof.
  intros Hok Hlen Hv Hw Hh Hnk. pose proof (whole_value _ _ _ _ _ _ Hok Hv) as Hn.
  destruct (value_shows _ _ _ _ _ Hv) as (l & c & _ & _ & Hobj & Ho & Hsz & Hcm).
  destruct (join_part p ls j w k b Hok Hw Hh) as (o2 & Hobj' & Hsz' & Hk & _ & Hsl).
  unfold bytes_in. set (b1 := take (Z.to_nat n) m). set (b2 := take (Z.to_nat k) b) in *.
  assert (zlen b1 = n /\ zlen b2 = k) as [Hb1 Hb2] by (unfold b1, b2; rewrite !zlen_take; lia).
  pose proof (junk_length (n + k + 1) ltac:(lia)) as Hj.
  destruct (block_split (junk (n + k + 1)) n) as (x1 & y & E & Hx1); [lia|].
  destruct (block_split y k) as (x2 & q & E2 & Hx2); [rewrite E, zlen_app in Hj; lia|]. subst y.
  exists q. unfold bytes_.concat. rewrite Hobj. run. rewrite Hobj'. run. rewrite Ho, Hsz, Hsz', Hcm.
  rewrite u64_id by lia. destruct (Z.eqb_spec (n + k) 0); [lia|].
  unfold bytes_.create, bytes_.create_value. rewrite bytes_value_none. run. cbn [new]. cbv beta iota zeta.
  cbn [put cells]. rewrite lookup_insert_eq. run. cbn [Counted.make Counted.mem].
  rewrite slice_front by lia. run. fold b1. rewrite E.
  rewrite (blit_mid [] x1 b1 (x2 ++ q) 0 eq_refl ltac:(unfold zlen in *; lia) : blit (x1 ++ x2 ++ q) 0 b1 = _). run. cbn [app].
  rewrite Hsl. run. rewrite (blit_mid b1 x2 b2 q) by (done || (unfold zlen in *; lia)). run.
  unfold bytes_.assign. rewrite clear_null by apply make_null. run.
  change (Store (<[fresh (dom (cells (heap p))):=_]> (cells (heap p))) (later (heap p)) (freed (heap p))) with
    (put (heap p) (fresh (dom (cells (heap p)))) (Counted.make (n + k) (Some r) (x1 ++ x2 ++ q))). rewrite put_put.
  apply (written_made p ls (Counted.make (n + k) (Some r) (b1 ++ b2 ++ q)) r (n + k)); [done|done| |lia].
  apply fresh_make. rewrite E in Hj. rewrite !zlen_app in *. lia.
Qed.

(** ** Bits of a reference *)

Lemma bits_write p ls i r n m mode off cnt : ok p ls -> value p i = Some (shows r n m) -> n < 2 ^ 60 ->
  0 <= off -> 0 <= cnt -> off + cnt < 2 ^ 63 -> exists p' m',
  bytes_.set_bits p i mode off cnt = Some (p', tally m (negb mode) off (inside n off cnt)) /\
  ok p' ls /\ refs p' = refs p /\ value p' i = Some (shows r n m') /\ zlen m' = zlen m /\
  (forall j, refs p !! j <> refs p !! i -> value p' j = value p j) /\
  (forall k, 0 <= k < 8 * zlen m -> bytes_.bit m' k =
    if (off <=? k) && (k <? off + Z.of_nat (inside n off cnt)) then Some mode else bytes_.bit m k).
Proof.
  intros Hok Hv H60 Ho Hc Hoc. pose proof (whole_value _ _ _ _ _ _ Hok Hv) as Hw.
  destruct (value_shows _ _ _ _ _ Hv) as (l & c & Hl & Hcell & _ & Hown & Hsz & Hm).
  destruct (set_loop_spec (Z.to_nat cnt) m n mode off 0) as (m' & E & Hz & Hb); [lia..|].
  rewrite Z2Nat.id in E, Hb by done.
  destruct (write_spec p ls i l c m' Hok Hl Hcell) as (Hok' & Hv' & Hoth); [by rewrite Hm|].
  unfold bytes_.set_bits. rewrite Hl. run. rewrite Hcell. run. rewrite Hm, Hsz, E. run.
  eexists _, m'. split; [done|]. split; [done|]. split; [done|]. split; [by rewrite Hv', Hown, Hsz|]. split_and!; [done| |done].
  intros j Hj. apply Hoth. by rewrite Hl.
Qed.

Lemma make_bits_made p ls mode bits r : ok p ls -> zlen (refs p) < 2 ^ 31 - 2 -> small_size bits -> exists m,
  made (shows r ((bits + 7) / 8) m) p (bytes_.make_bits p mode bits (Some r)).
Proof.
  unfold small_size. intros Hok Hl Hb. set (size := (bits + 7) / 8).
  assert (0 <= size < 2 ^ 60) as Hs by (unfold size; dlia).
  assert ((if bits mod 8 =? 0 then bits / 8 else bits / 8 + 1) = size) as Es.
  { unfold size. destruct (Z.eqb_spec (bits mod 8) 0); dlia. }
  destruct (room_place (make p) ls (length (refs p)) size r (null_ok p ls Hok Hl)
    ltac:(cbn; rewrite length_app; cbn; lia) ltac:(lia)) as (p1 & ls1 & E1 & Hok1 & Hl1 & Hv1 & Ho1 & Hs1).
  destruct (bits_write p1 ls1 (length (refs p)) r size (junk (size + 1)) mode 0 bits) as
    (p2 & m' & E2 & Hok2 & Hr2 & Hv2 & _ & Ho2 & _); [done|done|lia..|].
  exists m'. unfold bytes_.make_bits. rewrite Es. unfold bytes_.make_size. rewrite E1. run. rewrite E2. run.
  exists p2, ls1. split; [done|]. split; [done|].
  split; [rewrite Hr2, Hl1; cbn; rewrite length_app; cbn; lia|]. split; [done|]. intros j Hj.
  assert (j <> length (refs p)) as Hne by lia.
  rewrite Ho2; [destruct (Ho1 j) as [_ ->]; [done|cbn; rewrite length_app; lia|by apply make_value]|].
  destruct (value_shows _ _ _ _ _ Hv1) as (l & c & Hl' & _). rewrite Hl'. intros E.
  by apply Hne, (Hs1 eq_refl j l).
Qed.

End malloc.
