(* ===== verification/TyperefRuns.v ===== *)
(** * Programs of counted references

    A command is one call on a reference of the program.  The theorems: no command on
    references that exist fails or breaks the counts, the end of a program leaves
    nothing behind, texts of bytes are read back, and bytes are arrays of bits. *)

From stdpp Require Import gmap strings list.
From S2P Require Import Prelude CLib Codec Strings StringObj Typeref TyperefLaws TyperefValues.
Import TypeRef.
Local Open Scope Z_scope.

Section malloc.
Context `{Malloc}.

(** ** Programs *)

Inductive command :=
  | Make | Copy (j : nat) | MakeText (s : source) (r : pool) | MakeBytes (b : list Z) (r : pool)
  | MakeBits (mode : bool) (bits : Z) (r : pool)
  | Clear (i : nat) | Set_ (i j : nat) | Assign (i j : nat)
  | SetText (i : nat) (s : source) (r : pool) | SetBytes (i : nat) (b : list Z) (r : pool)
  | ReadHex (i : nat) (s : source) (ws : bool) (r : pool) | ReadB64 (i : nat) (s : source) (ws : bool) (r : pool)
  | WriteBits (i : nat) (mode : bool) (offset bits : Z)
  | Concat (i : nat) (s : source) | Join (i j : nat) | ToHex (i : nat) | ToB64 (i : nat) | Purge (r : pool).

Definition exec (p : program) (c : command) : option program :=
  match c with
  | Make => Some (make p)
  | Copy j => make_copy p j
  | MakeText s r => chars.make_text p (Some s) (Some r)
  | MakeBytes b r => bytes_.make_bytes p (Some (Text b)) (zlen b) (Some r)
  | MakeBits mode bits r => bytes_.make_bits p mode bits (Some r)
  | Clear i => clear p i
  | Set_ i j => set p i j
  | Assign i j => assign p i j
  | SetText i s r => chars.set p i (Some s) (Some r)
  | SetBytes i b r => bytes_.set p i (Some (Text b)) (zlen b) (Some r)
  | ReadHex i s ws r => fst <$> bytes_.hex p i s ws (Some r)
  | ReadB64 i s ws r => fst <$> bytes_.b64 p i s ws (Some r)
  | WriteBits i mode offset bits => fst <$> bytes_.set_bits p i mode offset bits
  | Concat i s => chars.concat p i (Some s)
  | Join i j => bytes_.concat p i j
  | ToHex i => bytes_.to_hex p i
  | ToB64 i => bytes_.to_b64 p i
  | Purge r => '(h, _) ← TypeRelease.purge r (heap p); Some (set_heap p h)
  end.

(** The commands the theorems are about.  The references a command names exist; sizes
    are below [2 ^ 60].  Left out are the uses that go wrong (at the end of the file):
    a reference set or assigned from itself ([set_self]), a text read from the very
    reference that is set ([set_own_text]), and a text or bytes put behind a null
    reference ([concat_null], [join_null]).  The bytes shown as hexadecimal or base 64
    digits are bytes. *)
Definition valid (p : program) (c : command) : Prop :=
  match c with
  | Make | Purge _ => True
  | Copy j => (j < length (refs p))%nat
  | MakeText s _ => exists t, source_text p (length (refs p)) s t
  | MakeBytes _ _ => True
  | MakeBits _ bits _ => small_size bits
  | Clear i => (i < length (refs p))%nat
  | Set_ i j | Assign i j => (i < length (refs p))%nat /\ (j < length (refs p))%nat /\ i <> j
  | SetText i s _ => (i < length (refs p))%nat /\ exists t, source_text p i s t
  | SetBytes i _ _ => (i < length (refs p))%nat
  | ReadHex i s _ _ | ReadB64 i s _ _ => (i < length (refs p))%nat /\ exists t, source_text p i s t
  | WriteBits i _ offset bits => 0 <= offset /\ 0 <= bits /\ offset + bits < 2 ^ 63 /\
      (value p i = Some None \/ exists r n m, value p i = Some (shows r n m) /\ n < 2 ^ 60)
  | Concat i s => (exists t, source_text p (length (refs p)) s t) /\
      exists r n m t, value p i = Some (shows r n m) /\ cstr m = Some t
  | Join i j => exists v w, value p i = Some v /\ value p j = Some w /\
      ((held v).1 + (held w).1 = 0 \/
       exists r n m, v = shows r n m /\ 0 < n + (held w).1 < 2 ^ 60)
  | ToHex i | ToB64 i => value p i = Some None \/
      exists r n m, value p i = Some (shows r n m) /\ n < 2 ^ 60 /\ Forall is_byte (bytes_in n m)
  end.

(** The references whose value a command may change. *)
Definition touches (p : program) (c : command) (j : nat) : Prop :=
  match c with
  | Clear i | Set_ i _ | Assign i _ | SetText i _ _ | SetBytes i _ _ | ReadHex i _ _ _ | ReadB64 i _ _ _ => j = i
  | WriteBits i _ _ _ => refs p !! j = refs p !! i
  | _ => False
  end.

(** What a command does that fulfils the promise of soundness. *)
Definition serves (p : program) (touched : nat -> Prop) (res : option program) : Prop :=
  exists p' ls', res = Some p' /\ ok p' ls' /\ (length (refs p) <= length (refs p') <= S (length (refs p)))%nat /\
    forall j, (j < length (refs p))%nat -> ~ touched j -> value p' j = value p j.

Lemma made_serves v p res X : made v p res -> serves p X res.
Proof.
  intros (p' & ls' & E & Hok & Hl & _ & Ho). exists p', ls'. split; [done|]. split; [done|].
  split; [lia|]. intros j Hj _. by apply Ho.
Qed.

Lemma effect_serves a i v p res : effect a i v p res -> serves p (fun j => j = i) res.
Proof.
  intros (p' & ls' & E & Hok & Hl & _ & Ho & _). exists p', ls'. split; [done|]. split; [done|].
  split; [lia|]. intros j Hj Hne. by apply Ho.
Qed.

Lemma purge_serves p ls r X : ok p ls -> serves p X ('(h, _) ← TypeRelease.purge r (heap p); Some (set_heap p h)).
Proof.
  intros Hok. destruct r; cbn [TypeRelease.purge].
  1,2: run; exists p, ls; destruct p; split; [done|]; split; [done|]; split; [cbn; lia|done].
  destruct (purge_later_spec _ _ _ (ok_sound _ _ Hok)) as (h & -> & Hs & Hk & _). run.
  exists (set_heap p h), []. split; [done|]. split; [split; [done|apply Hok]|]. split; [cbn; lia|].
  intros j Hj _. destruct (lookup_lt_is_Some_2 _ _ Hj) as [rj Hrj].
  apply (value_keeps _ _ _ rj); [done|done| |].
  - intros l -> [c Hc]. destruct (Hk l c Hc) as (c' & Hc' & E & O).
    + intros Hin. pose proof (sound_none _ _ _ (ok_sound _ _ Hok) l Hin). pose proof (refs_to_pos _ _ _ Hrj). lia.
    + exists c, c'. split; [done|]. split; [done|]. unfold view. congruence.
  - intros l ->. eapply sound_refs; [apply Hok|]. by eapply refs_to_pos.
Qed.

Lemma write_serves p ls i mode off cnt : ok p ls -> 0 <= off -> 0 <= cnt -> off + cnt < 2 ^ 63 ->
  value p i = Some None \/ (exists r n m, value p i = Some (shows r n m) /\ n < 2 ^ 60) ->
  serves p (fun j => refs p !! j = refs p !! i) (fst <$> bytes_.set_bits p i mode off cnt).
Proof.
  intros Hok Ho Hc Hoc [Hv|(r & n & m & Hv & Hn)].
  - unfold bytes_.set_bits. unfold value, object in Hv. destruct (refs p !! i) as [[l|]|]; [|run|done].
    + revert Hv. run. destruct (cells (heap p) !! l); run; done.
    + exists p, ls. split; [done|]. split; [done|]. split; [lia|done].
  - destruct (bits_write p ls i r n m mode off cnt) as (p' & m' & -> & Hok' & Hr & _ & _ & Hoth & _); [done..|].
    exists p', ls. split; [done|]. split; [done|]. split; [rewrite Hr; lia|]. intros j _ Hj. by apply Hoth.
Qed.

Lemma text_of_made p ls i (f : program -> nat -> list Z -> Z -> option pool -> option program) (res : option program) :
  ok p ls -> zlen (refs p) < 2 ^ 31 - 2 ->
  value p i = Some None \/ (exists r n m, value p i = Some (shows r n m) /\ n < 2 ^ 60 /\ Forall is_byte (bytes_in n m)) ->
  res = (c ← object p i;
    match c with
    | None => Some (make p)
    | Some v => f (make p) (length (refs p)) (Counted.mem v) (Counted.size v)
        (match Counted.owner v with autorelease r => r | linkrelease _ => None end)
    end) ->
  (forall bs q r, Forall is_byte bs -> small_size (zlen bs) -> exists v,
    effect true (length (refs p)) v (make p) (f (make p) (length (refs p)) (bs ++ q) (zlen bs) (Some r))) ->
  exists v, made v p res.
Proof.
  intros Hok Hl [Hv|(r & n & m & Hv & Hn & Hb)] -> Hf.
  - rewrite (value_null _ _ Hv). run. exists None. by eapply make_made.
  - destruct (value_shows _ _ _ _ _ Hv) as (l & c & _ & _ & -> & Ho & Hs & Hm). run. rewrite Ho, Hs, Hm.
    pose proof (whole_value _ _ _ _ _ _ Hok Hv) as Hw. unfold bytes_in in Hb.
    destruct (Hf (take (Z.to_nat n) m) (drop (Z.to_nat n) m) r Hb) as (v & He).
    + unfold small_size. rewrite zlen_take; lia.
    + exists v. eapply effect_made. by rewrite take_drop, zlen_take in He by lia.
Qed.

Lemma to_hex_made p ls i : ok p ls -> zlen (refs p) < 2 ^ 31 - 2 -> valid p (ToHex i) ->
  exists v, made v p (bytes_.to_hex p i).
Proof.
  intros Hok Hl Hv. apply (text_of_made p ls i chars.hex _ Hok Hl Hv eq_refl). intros bs q r Hb Hs.
  eexists. eapply hex_effect; [by apply null_ok|cbn; rewrite length_app; cbn; lia|done].
Qed.

Lemma to_b64_made p ls i : ok p ls -> zlen (refs p) < 2 ^ 31 - 2 -> valid p (ToB64 i) ->
  exists v, made v p (bytes_.to_b64 p i).
Proof.
  intros Hok Hl Hv. apply (text_of_made p ls i chars.b64 _ Hok Hl Hv eq_refl). intros bs q r Hb Hs.
  destruct (b64_effect (make p) ls (length (refs p)) bs q r) as [t Ht];
    [by apply null_ok|cbn; rewrite length_app; cbn; lia|done|done|]. by eexists.
Qed.

(** C25.  The counts of the references are right, and a value does not change behind
    the back of those who refer to it.  Every [valid] command succeeds, so that no
    object is used when it is gone; the count of each object is again the number of
    references to it, an object without a reference waits for [release_later] to be
    purged or does not exist; and every reference but the one the command sets shows
    the same pool, size and bytes as before, the change of bits alone being seen
    through the other references to the same object.  Not valid are: a reference set or
    assigned from itself, a text read from the reference that is set, and a text or
    bytes put behind a null reference.  There the code loses a count or has a fault
    ([set_self], [set_own_text], [concat_null], [join_null] below). *)
Theorem typeref_command (p : program) (ls : list loc) (c : command) :
  ok p ls -> zlen (refs p) < 2 ^ 31 - 2 -> valid p c -> exists p' ls', exec p c = Some p' /\ ok p' ls' /\
    (forall i l, refs p' !! i = Some (Some l) -> copies p' i = Some (refs_to (refs p') l)) /\
    forall j, (j < length (refs p))%nat -> ~ touches p c j -> value p' j = value p j.
Proof.
  intros Hok Hl Hc. cut (serves p (touches p c) (exec p c)).
  { intros (p' & ls' & E & Hok' & _ & Hv). exists p', ls'. split; [done|]. split; [done|]. split; [|done].
    intros i l Hi. unfold copies. destruct (ok_object p' ls' i Hok') as (d & -> & Hd); [by eapply lookup_lt_Some|]. run.
    destruct d as [d|]; [|congruence]. destruct Hd as (k & Hk & _ & _ & (Hn & _) & _).
    rewrite Hi in Hk. injection Hk as <-. unfold counted.copies. rewrite Hn, u32_id; [done|].
    pose proof (refs_to_bound (refs p') l). pose proof (ok_small _ _ Hok'). lia. }
  pose proof (null_ok p ls Hok Hl) as Hmk.
  assert (length (refs p) < length (refs (make p)))%nat as Hlt by (cbn; rewrite length_app; cbn; lia).
  destruct c; cbn [exec valid touches] in *.
  - by eapply made_serves, make_made.
  - destruct (ok_object p ls j Hok Hc) as (d & E & _). eapply made_serves, copy_made; [done|done|]. unfold value. by rewrite E.
  - destruct Hc as [t Ht]. eapply made_serves, effect_made, text_place; [done|done|].
    eapply source_keeps; [|exact Ht]. intros j Hne Hj. split; [by apply lookup_app_l|by apply make_value].
  - destruct (bytes_place (make p) ls (length (refs p)) b r Hmk Hlt) as (q & Hq & _). by eapply made_serves, effect_made.
  - destruct (make_bits_made p ls mode bits r Hok Hl Hc) as [m Hm]. by eapply made_serves.
  - by eapply effect_serves, clear_effect.
  - destruct Hc as (Hi & Hj & Hij). destruct (ok_object p ls j Hok Hj) as (d & E & _).
    eapply effect_serves, set_effect; [done..|]. unfold value. by rewrite E.
  - destruct Hc as (Hi & Hj & Hij). destruct (ok_object p ls j Hok Hj) as (d & E & _).
    eapply effect_serves, set_effect; [done..|]. unfold value. by rewrite E.
  - destruct Hc as (Hi & t & Ht). by eapply effect_serves, text_set.
  - destruct (bytes_set p ls i b r Hok Hc) as (q & Hq & _). by eapply effect_serves.
  - destruct Hc as (Hi & t & Ht). destruct (from_text_effect (fun s => Hex.hexcount s ws)
      (fun s n => (Hex.hex2bin s n ws).1) p ls i s t r Hok Hi Ht (hex_length t ws)) as (q & p' & E & He).
    unfold bytes_.hex. rewrite E. by eapply effect_serves.
  - destruct Hc as (Hi & t & Ht). destruct (from_text_effect (fun s => Base64.b64count s ws)
      (fun s n => (Base64.b64decode s n ws).1) p ls i s t r Hok Hi Ht (b64_length t ws)) as (q & p' & E & He).
    unfold bytes_.b64. rewrite E. by eapply effect_serves.
  - destruct Hc as (Ho & Hb & Hob & Hv). by eapply write_serves.
  - destruct Hc as ([u Hs] & r & n & m & t & Hv & Ht). by eapply made_serves, concat_made.
  - destruct Hc as (v & w & Hv & Hw & [H0|(r & n & m & -> & Hnk)]).
    + rewrite (join_nothing p ls i j v w) by done. by eapply made_serves, make_made.
    + destruct (held w) as [k b] eqn:Ew.
      destruct (join_made p ls i j r n m w k b Hok Hl Hv Hw Ew Hnk) as [q Hq]. by eapply made_serves.
  - destruct (to_hex_made p ls i Hok Hl Hc) as [v Hv]. by eapply made_serves.
  - destruct (to_b64_made p ls i Hok Hl Hc) as [v Hv]. by eapply made_serves.
  - by eapply purge_serves.
Qed.

(** ** The end of a program *)

(** Live objects and memory given back. *)
Definition balance (h : store) : nat := (base.size (cells h) + length (freed h))%nat.

Lemma put_balance h l c d : cells h !! l = Some c -> balance (put h l d) = balance h.
Proof. intros Hc. unfold balance. cbn. by rewrite map_size_insert_Some by (by eexists). Qed.

Lemma free_balance h l h' : TypeRelease.free_object h l = Some h' -> balance h' = balance h.
Proof.
  unfold TypeRelease.free_object. destruct (cells h !! l) as [c|] eqn:Hc; run; [|done]. intros [= <-].
  unfold balance. cbn [cells freed]. rewrite length_app. cbn [length].
  rewrite map_size_delete_Some by (by eexists). assert (base.size (cells h) <> 0%nat); [|lia].
  intros E%map_size_empty_inv. by rewrite E, lookup_empty in Hc.
Qed.

Lemma base_balance h l h' : TypeRelease.release h l = Some h' -> balance h' = balance h.
Proof.
  unfold TypeRelease.release. destruct (cells h !! l) as [c|] eqn:Hc; run; [|done].
  intros ->%free_balance. by eapply put_balance.
Qed.

Lemma release_balance h l h' : counted.release h l = Some h' -> balance h' = balance h.
Proof.
  unfold counted.release. destruct (cells h !! l) as [c|] eqn:Hc; run; [|done].
  set (h1 := put h l _). assert (balance h1 = balance h) as <- by (by eapply put_balance).
  destruct (Counted.count c <? 2); [|by intros [= <-]]. clearbody h1. unfold counted.dealloc.
  destruct (cells h1 !! l) as [d|] eqn:Hd; run; [|done].
  destruct (Counted.owner d) as [[r|]|]; [|apply free_balance|done].
  set (h2 := put h1 l _). assert (balance h2 = balance h1) as <- by (by eapply put_balance). clearbody h2.
  destruct r; cbn [TypeRelease.dealloc]; [apply base_balance| |].
  - unfold TypeRelease.secure. destruct (cells h2 !! l) as [e|] eqn:He; run; [|done].
    destruct (blit _ _ _) as [b|]; run; [|done]. intros ->%base_balance. by eapply put_balance.
  - unfold TypeRelease.postpone, TypeRelease.enlist. destruct (cells h2 !! l) as [e|] eqn:He; run; [|done].
    intros [= <-]. unfold balance. cbn. by rewrite map_size_insert_Some by (by eexists).
Qed.

Lemma clear_balance p i p' : clear p i = Some p' -> balance (heap p') = balance (heap p).
Proof.
  unfold clear. destruct (refs p !! i) as [[l|]|]; run; [| |done].
  - destruct (counted.release (heap p) l) as [h|] eqn:E; run; [|done]. intros [= <-]. by eapply release_balance.
  - by intros [= <-].
Qed.

(** All references go out of scope, the last one first. *)
Fixpoint clear_all (n : nat) (p : program) : option program :=
  match n with O => Some p | S n => p ← clear p n; clear_all n p end.

Lemma clear_all_spec n : forall p ls, ok p ls -> (n <= length (refs p))%nat ->
  (forall i r, (n <= i)%nat -> refs p !! i = Some r -> r = None) ->
  exists p' ls', clear_all n p = Some p' /\ ok p' ls' /\ balance (heap p') = balance (heap p) /\
    forall i r, refs p' !! i = Some r -> r = None.
Proof.
  induction n as [|n IH]; intros p ls Hok Hn Hnull; cbn [clear_all].
  - exists p, ls. split; [done|]. split; [done|]. split; [done|]. intros i r. apply Hnull. lia.
  - destruct (clear_effect p ls n Hok Hn) as (p1 & ls1 & E & Hok1 & Hl1 & _). rewrite E. run.
    assert (refs p1 = <[n := None]> (refs p)) as Hr.
    { unfold clear in E. destruct (refs p !! n) as [[l|]|]; revert E; run; [| |done].
      - destruct (counted.release (heap p) l); run; [|done]. by intros [= <-].
      - by intros [= <-]. }
    destruct (IH p1 ls1 Hok1) as (p2 & ls2 & E2 & Hok2 & Hb2 & H2); [lia| |].
    + intros i r Hi. rewrite Hr. destruct (decide (i = n)) as [->|].
      * rewrite list_lookup_insert_eq by lia. congruence.
      * rewrite list_lookup_insert_ne by done. apply Hnull. lia.
    + exists p2, ls2. split; [done|]. split; [done|]. split; [rewrite Hb2; by eapply clear_balance|done].
Qed.

Lemma bytes_of_length m ls : (forall l, l ∈ ls -> is_Some (m !! l)) -> length (bytes_of m ls) = length ls.
Proof.
  intros Hall. induction ls as [|l ls IH]; [done|]. unfold bytes_of in *. cbn.
  destruct (Hall l) as [c ->]; [by left|]. cbn. rewrite IH; [done|]. intros k Hk. apply Hall. by right.
Qed.

(** C26.  Nothing is lost and nothing is freed twice.  When the references of a
    program have been cleared and [release_later] has been purged, no object is
    left, and the memory of each object that there was has been given back once. *)
Theorem typeref_end (p : program) (ls : list loc) : ok p ls ->
  exists p' h k, clear_all (length (refs p)) p = Some p' /\
    TypeRelease.purge release_later (heap p') = Some (h, k) /\ cells h = ∅ /\
    length (freed h) = (base.size (cells (heap p)) + length (freed (heap p)))%nat.
Proof.
  intros Hok. destruct (clear_all_spec (length (refs p)) p ls Hok) as (p' & ls' & E & Hok' & Hb & Hnull); [lia| |].
  { intros i r Hi Hr. apply lookup_lt_Some in Hr. lia. }
  destruct (purge_later_spec _ _ _ (ok_sound _ _ Hok')) as (h & Ep & Hs & _ & Hf & Hc).
  exists p', h, (u32 (zlen ls')). split; [done|]. split; [done|].
  assert (forall l, refs_to (refs p') l = 0) as HR.
  { intros l. revert Hnull. generalize (refs p') as rs. induction rs as [|r rs IH]; intros Hn; [done|].
    cbn. rewrite (Hn 0%nat r eq_refl), one_other, IH; [done| |done]. intros i x Hi. exact (Hn (S i) x Hi). }
  assert (forall l c, cells (heap p') !! l = Some c -> l ∈ ls') as Hin.
  { intros l c Hl. destruct (decide (l ∈ ls')) as [|Hn]; [done|].
    destruct (sound_live _ _ _ (ok_sound _ _ Hok') l c Hl) as [_ H0]. destruct (H0 Hn). rewrite HR in *. lia. }
  assert (cells h = ∅) as He.
  { apply map_empty. intros l. rewrite Hc. destruct (decide (l ∈ ls')) as [Hl|Hl]; [by apply without_none|].
    rewrite without_lookup by done. destruct (cells (heap p') !! l) as [c|] eqn:E'; [|done]. by apply Hin in E'. }
  split; [done|]. rewrite Hf, length_app, bytes_of_length.
  2:{ intros l Hl. eapply chain_cells; [apply (sound_later _ _ _ (ok_sound _ _ Hok'))|done]. }
  unfold balance in Hb. assert (length ls' = base.size (cells (heap p'))) as ->; [|lia].
  rewrite <- size_dom, <- (size_list_to_set (C := gset loc) ls') by apply (sound_distinct _ _ _ (ok_sound _ _ Hok')).
  f_equal. apply set_eq. intros l. rewrite elem_of_list_to_set, elem_of_dom. split.
  - intros Hl. eapply chain_cells; [apply (sound_later _ _ _ (ok_sound _ _ Hok'))|done].
  - intros [c Hl]. by eapply Hin.
Qed.

(** C27.  The last reference gives the object back and no other one does.  Clearing
    the only reference to an object frees its memory at once, with the bytes it had
    for [auto_release] and with [size] zero bytes in front for [secure_release]; for
    [release_later] the object goes to the front of the list.  As long as there is
    another reference nothing is given back. *)
Theorem typeref_last (p : program) (ls : list loc) (i : nat) (l : loc) (r : pool) (n : Z) (m : list Z) :
  ok p ls -> refs p !! i = Some (Some l) -> value p i = Some (shows r n m) -> exists p', exec p (Clear i) = Some p' /\
  if refs_to (refs p) l =? 1 then
    match r with
    | auto_release => freed (heap p') = freed (heap p) ++ [m] /\ cells (heap p') !! l = None
    | secure_release => freed (heap p') = freed (heap p) ++ [replicate (Z.to_nat n) 0 ++ drop (Z.to_nat n) m] /\
        cells (heap p') !! l = None
    | release_later => freed (heap p') = freed (heap p) /\ later (heap p') = Some l
    end
  else freed (heap p') = freed (heap p) /\ is_Some (cells (heap p') !! l).
Proof.
  intros Hok Hi Hv. destruct (value_shows _ _ _ _ _ Hv) as (k & c & Hk & Hc & _ & Ho & Hs & Hm).
  rewrite Hi in Hk. injection Hk as <-. pose proof (refs_to_pos _ _ _ Hi) as Hpos.
  destruct (unref_spec p _ ls i (Some l) (ok_sound _ _ Hok) Hi) as (h' & ls' & E & Hs' & Hkeep & Hend).
  { by intros ? [= <-]. }
  eexists. split; [done|]. cbn [heap]. destruct (Z.eqb_spec (refs_to (refs p) l) 1) as [E1|E1].
  - destruct Hend as (d & Hd & Hg). assert (d = c) as -> by congruence. unfold gone in Hg. rewrite Ho in Hg.
    unfold cleared in Hg. rewrite Hm, Hs in Hg. destruct r; destruct Hg as (Hl & Hf & Hcells); (split; [done|]).
    + by rewrite Hcells, lookup_delete_eq.
    + by rewrite Hcells, lookup_delete_eq.
    + pose proof (sound_later _ _ _ Hs') as Hch. rewrite Hl in Hch. by inversion Hch.
  - destruct Hend as [_ Hf]. split; [done|]. destruct (Hkeep l c Hc) as (c' & Hc' & _); [|by eexists].
    intros [_ ?]. lia.
Qed.

(** ** Round trips and bits *)

Lemma hex_nonul bs : Forall is_byte bs -> nonul (Hex.hex bs).
Proof.
  induction 1 as [|b bs Hb Hbs IH]; [constructor|]. change (Hex.hex (b :: bs)) with (Hex.hex2 b ++ Hex.hex bs).
  apply nonul_app. split; [|done]. destruct (Hex.hex_byte b Hb) as (c & d & -> & _ & _ & _ & Hc & Hd).
  by repeat constructor.
Qed.

Lemma hexcount_hex bs ws : Forall is_byte bs -> Hex.hexcount (Hex.hex bs) ws = zlen bs.
Proof.
  intros Hbs. unfold Hex.hexcount. cut (forall n, Hex.hexcount_loop (Hex.hex bs) ws n = n + zlen bs); [intros ->; lia|].
  induction Hbs as [|b bs Hb Hbs IH]; intros n; [cbn; rewrite (@zlen_nil Z); lia|].
  change (Hex.hex (b :: bs)) with (Hex.hex2 b ++ Hex.hex bs). rewrite zlen_cons.
  destruct (Hex.hex_byte b Hb) as (c & d & -> & Hc & Hd & Hs & _). cbn. rewrite Hs, andb_false_r, Hc, Hd.
  unfold is_byte in Hb. destruct (Z.ltb_spec (b / 16) 0); [dlia|]. destruct (Z.ltb_spec (b mod 16) 0); [dlia|].
  cbn [orb]. rewrite IH. lia.
Qed.

Lemma hex_back bs ws : Forall is_byte bs -> (Hex.hex2bin (Hex.hex bs) (zlen bs) ws).1 = bs.
Proof.
  intros Hb. unfold Hex.hex2bin. rewrite <- (app_nil_r (Hex.hex bs)), Hex.hex2bin_hex by (done || lia).
  cbn. by rewrite app_nil_r.
Qed.

Lemma enc_nonul bs : Forall is_byte bs -> nonul (Base64.enc bs).
Proof.
  assert (forall a, 0 <= a < 64 -> Base64.letter a <> 0) as Hl by (intros a Ha; apply Base64.letter_spec, Ha).
  induction bs as [|b0|b0 b1|b0 b1 b2 l IH] using Base64.group_ind; intros Hb; inv_forall; unfold is_byte in *;
    cbn [Base64.enc]; unfold nonul in *; repeat (apply list.Forall_cons; split); try done; try (apply Hl; dlia).
  by apply IH.
Qed.

Lemma b64_back bs ws : Forall is_byte bs -> Base64.b64count (Base64.enc bs) ws = zlen bs /\
  (Base64.b64decode (Base64.enc bs) (zlen bs) ws).1 = bs.
Proof.
  intros Hb. assert (forall size, zlen bs <= size -> (Base64.b64decode (Base64.enc bs) size ws).1 = bs) as Hd.
  { intros size Hs. unfold Base64.b64decode. pose proof (Base64.decode_enc bs Hb ws 0 size Hs) as E.
    destruct (Base64.decode_loop (Base64.enc bs) ws 1 0 size) as [out [[bits n] room]]. by destruct E as [-> _]. }
  split; [|by apply Hd].
  pose proof (Base64.b64count_decode (Base64.enc bs) ws (Z.max (zlen bs) (Base64.b64count (Base64.enc bs) ws)) ltac:(lia)) as E.
  rewrite Hd in E by lia. done.
Qed.

(** A text of a new reference, read into another one. *)
Lemma text_back count decode p p1 ls1 j bs r r' n s m :
  made (shows r n m) p (Some p1) -> ok p1 ls1 -> (j < length (refs p))%nat -> cstr m = Some s ->
  count s = zlen bs -> decode s (zlen bs) = bs -> bs <> [] ->
  exists l p2 ls2 q, refs p1 !! length (refs p) = Some (Some l) /\
    bytes_.from_text count decode p1 j (In l) (Some r') = Some (p2, zlen bs) /\
    ok p2 ls2 /\ value p2 j = Some (shows r' (zlen bs) (bs ++ q)).
Proof.
  intros (p1' & ls' & [= <-] & _ & Hl & Hv & _) Hok Hj Hm Hc Hd Hne.
  destruct (value_shows _ _ _ _ _ Hv) as (l & c & Ht & _). exists l.
  destruct (from_text_effect count decode p1 ls1 j (In l) s r' Hok ltac:(lia)) as (q & p2 & E & (p2' & ls2 & [= <-] & Hok2 & _ & Hv2 & _)).
  { exists (length (refs p)), r, n, m. split; [lia|done]. }
  { by rewrite Hc, Hd. }
  rewrite Hc in E, Hv2. rewrite Hd in E, Hv2. exists p2, ls2, q. split; [done|]. split; [done|]. split; [done|].
  destruct (Z.eqb_spec (zlen bs) 0) as [E0|]; [|done]. destruct bs; [done|].
  rewrite zlen_cons in E0. pose proof (zlen_nonneg bs). lia.
Qed.

(** C28.  The texts of bytes are read back.  The hexadecimal text and the base 64
    text that [hex] and [b64] make of the bytes of a reference give, when they are
    read into a reference, which may be the same one, an object of just those bytes;
    the number of bytes is returned.  There must be a byte at least. *)
Theorem typeref_codecs (p : program) (ls : list loc) (i j : nat) (bs q : list Z) (r r' : pool) (ws : bool) :
  ok p ls -> zlen (refs p) < 2 ^ 31 - 2 -> value p i = Some (shows r (zlen bs) (bs ++ q)) ->
  Forall is_byte bs -> bs <> [] -> zlen bs < 2 ^ 60 -> (j < length (refs p))%nat ->
  (exists p1 l p2 ls2 q', exec p (ToHex i) = Some p1 /\ refs p1 !! length (refs p) = Some (Some l) /\
    bytes_.hex p1 j (In l) ws (Some r') = Some (p2, zlen bs) /\ ok p2 ls2 /\
    value p2 j = Some (shows r' (zlen bs) (bs ++ q'))) /\
  (exists p1 l p2 ls2 q', exec p (ToB64 i) = Some p1 /\ refs p1 !! length (refs p) = Some (Some l) /\
    bytes_.b64 p1 j (In l) ws (Some r') = Some (p2, zlen bs) /\ ok p2 ls2 /\
    value p2 j = Some (shows r' (zlen bs) (bs ++ q'))).
Proof.
  intros Hok Hl Hv Hb Hne H60 Hj. destruct (value_shows _ _ _ _ _ Hv) as (l & c & _ & _ & Hobj & Ho & Hs & Hm).
  assert (small_size (zlen bs)) as Hsz by (unfold small_size; pose proof (zlen_nonneg bs); lia).
  pose proof (null_ok p ls Hok Hl) as Hmk.
  assert (length (refs p) < length (refs (make p)))%nat as Hlt by (cbn; rewrite length_app; cbn; lia).
  cbn [exec]. unfold bytes_.to_hex, bytes_.to_b64, bytes_.hex, bytes_.b64. rewrite Hobj. run. rewrite Ho, Hm, Hs. split.
  - destruct (effect_made _ _ _ _ (hex_effect (make p) ls (length (refs p)) bs q r Hmk Hlt Hsz))
      as (p1 & ls1 & -> & Hmade). exists p1.
    destruct (text_back (fun s => Hex.hexcount s ws) (fun s n => (Hex.hex2bin s n ws).1) p p1 ls1 j bs r r'
      (2 * zlen bs) (Hex.hex bs) (hex_mem bs)) as (k & p2 & ls2 & q' & H2); [by exists p1, ls1|apply Hmade|done| | | |done|].
    + destruct bs; [done|]. by apply cstr_app, hex_nonul.
    + by apply hexcount_hex.
    + by apply hex_back.
    + exists k, p2, ls2, q'. by split_and!; try apply H2.
  - destruct (b64_effect (make p) ls (length (refs p)) bs q r Hmk Hlt Hb Hsz) as (t & He).
    destruct (effect_made _ _ _ _ He) as (p1 & ls1 & -> & Hmade). exists p1. destruct (b64_back bs ws Hb) as [Hcount Hback].
    destruct (text_back (fun s => Base64.b64count s ws) (fun s n => (Base64.b64decode s n ws).1) p p1 ls1 j bs r r'
      (Base64.b64size (zlen bs)) (Base64.enc bs) (Base64.enc bs ++ 0 :: t)) as (k & p2 & ls2 & q' & H2);
      [by exists p1, ls1|apply Hmade|done| |done|done|done|].
    + by apply cstr_app, enc_nonul.
    + exists k, p2, ls2, q'. by split_and!; try apply H2.
Qed.

(** A reference to bytes is an array of bits.  [set] gives the bits from
    [offset] on the value [mode], as many as there are up to [bits], leaves all others
    as they are and returns how many had the other value; [get] gives a bit, and
    [count] the number of ones. *)
Theorem typeref_bits (p : program) (ls : list loc) (i : nat) (r : pool) (n : Z) (m : list Z)
    (mode : bool) (offset bits : Z) :
  ok p ls -> value p i = Some (shows r n m) -> n < 2 ^ 60 -> 0 <= offset -> 0 <= bits -> offset + bits < 2 ^ 63 ->
  let last := Z.min (offset + bits) (8 * n) in
  exists p' m' c c', exec p (WriteBits i mode offset bits) = Some p' /\
    bytes_.set_bits p i mode offset bits = Some (p', tally m (negb mode) offset (Z.to_nat (last - offset))) /\
    ok p' ls /\ value p' i = Some (shows r n m') /\ object p i = Some (Some c) /\ object p' i = Some (Some c') /\
    (forall k, 0 <= k < 8 * n -> exists b, bytes_.get (Some c) k = Some b /\
      bytes_.get (Some c') k = Some (if (offset <=? k) && (k <? last) then mode else b)) /\
    bytes_.count (Some c) offset bits = Some (tally m true offset (Z.to_nat (last - offset))) /\
    bytes_.count (Some c') offset bits = Some (if mode then Z.max 0 (last - offset) else 0).
Proof.
  intros Hok Hv H60 Ho Hb Hob last. pose proof (whole_value _ _ _ _ _ _ Hok Hv) as Hw.
  assert (inside n offset bits = Z.to_nat (last - offset)) as Hin by (unfold inside, last; f_equal; lia).
  destruct (bits_write p ls i r n m mode offset bits Hok Hv H60 Ho Hb Hob) as (p' & m' & E & Hok' & _ & Hv' & Hz & _ & Hbit).
  destruct (value_shows _ _ _ _ _ Hv) as (l & c & _ & _ & Hobj & _ & Hs & Hm).
  destruct (value_shows _ _ _ _ _ Hv') as (l' & c' & _ & _ & Hobj' & _ & Hs' & Hm').
  exists p', m', c, c'. cbn [exec]. rewrite E. rewrite Hin in *. split; [done|]. split; [done|]. split; [done|]. split; [done|]. split; [done|]. split; [done|].
  assert (forall d w k, Counted.size d = n -> Counted.mem d = w -> 0 <= k < 8 * n -> bytes_.get (Some d) k = bytes_.bit w k) as Hget.
  { intros d w k Hd <- Hk. unfold bytes_.get. rewrite Hd. destruct (Z.ltb_spec n (k / 8)); [dlia|done]. }
  split; [|split].
  - intros k Hk. rewrite (Hget c m k), (Hget c' m' k), Hbit by (done || lia).
    destruct (bit_some m k) as [b ->]; [lia|]. exists b. split; [done|].
    destruct (Z.ltb_spec k last), (Z.ltb_spec k (offset + Z.of_nat (Z.to_nat (last - offset)))), (Z.leb_spec offset k);
      done || lia.
  - unfold bytes_.count. rewrite Hm, Hs, bits_count_spec by lia. rewrite Z2Nat.id, Hin by done. done.
  - unfold bytes_.count. rewrite Hm', Hs', bits_count_spec by lia. rewrite Z2Nat.id, Hin by done. f_equal.
    assert (forall k o, offset <= o -> o + Z.of_nat k <= Z.max offset last ->
      tally m' true o k = if mode then Z.of_nat k else 0) as Ht.
    { induction k as [|k IH]; intros o Ho1 Ho2; cbn [tally]; [by destruct mode|].
      rewrite Hbit by (unfold last in *; lia). rewrite IH by lia.
      destruct (Z.leb_spec offset o); [|lia]. destruct (Z.ltb_spec o (offset + Z.of_nat (Z.to_nat (last - offset)))); [|lia].
      cbn [andb]. destruct mode; [rewrite decide_True by done|rewrite decide_False by done]; lia. }
    rewrite Ht by lia. destruct mode; lia.
Qed.

End malloc.

(** ** A program to apply the theorems to *)

(** Two references to the text [ab], one that is null and one to a text of its own. *)
Definition sample : program :=
  Program
    (Store (<[1%positive := Counted.Mk 2 (autorelease (Some secure_release)) 2 (bytes "ab" ++ [0])]>
      (<[2%positive := Counted.Mk 1 (autorelease (Some auto_release)) 1 (bytes "z" ++ [0])]> ∅)) None [])
    [Some 1%positive; None; Some 1%positive; Some 2%positive].

Lemma sample_refs_ok : ok sample [].
Proof.
  split; [split|done]; cbn [sample heap refs cells later].
  - intros l c Hc. apply lookup_insert_Some in Hc as [[<- <-]|[_ Hc]].
    + split; [by unfold whole|]. intros _. split; [|done]. split; [done|by eexists].
    + apply lookup_insert_Some in Hc as [[<- <-]|[_ Hc]]; [|by rewrite lookup_empty in Hc].
      split; [by unfold whole|]. intros _. split; [|done]. split; [done|by eexists].
  - intros l. pose proof (refs_to_bound [Some 1%positive; None; Some 1%positive; Some 2%positive] l) as Hb.
    split; [lia|]. eapply Z.le_lt_trans; [apply Hb|done].
  - intros l Hl. destruct (decide (l = 1%positive)) as [->|H1]; [by eexists|].
    destruct (decide (l = 2%positive)) as [->|H2]; [by eexists|].
    cbn in Hl. rewrite !one_other in Hl by congruence. lia.
  - constructor.
  - constructor.
  - by intros l ?%elem_of_nil.
Qed.

Lemma typeref_command_witness :
  let c := SetText 0 (In 2%positive) release_later in
  exists p' ls', @exec zero_malloc sample c = Some p' /\ ok p' ls' /\
    (forall i l, refs p' !! i = Some (Some l) -> copies p' i = Some (refs_to (refs p') l)) /\
    forall j, (j < length (refs sample))%nat -> ~ touches sample c j -> value p' j = value sample j.
Proof.
  apply (@typeref_command zero_malloc sample [] (SetText 0 (In 2%positive) release_later) sample_refs_ok eq_refl).
  split; [cbn; lia|]. exists (bytes "z"). exists 3%nat, auto_release, 1, (bytes "z" ++ [0]).
  split_and!; [done|reflexivity|reflexivity|reflexivity].
Defined.

Lemma typeref_end_witness :
  exists p' h k, clear_all (length (refs sample)) sample = Some p' /\
    TypeRelease.purge release_later (heap p') = Some (h, k) /\ cells h = ∅ /\
    length (freed h) = (base.size (cells (heap sample)) + length (freed (heap sample)))%nat.
Proof. exact (typeref_end sample [] sample_refs_ok). Defined.

Lemma typeref_last_witness :
  exists p', @exec zero_malloc sample (Clear 3) = Some p' /\
    if refs_to (refs sample) 2%positive =? 1 then
      freed (heap p') = freed (heap sample) ++ [bytes "z" ++ [0]] /\ cells (heap p') !! 2%positive = None
    else freed (heap p') = freed (heap sample) /\ is_Some (cells (heap p') !! 2%positive).
Proof. exact (@typeref_last zero_malloc sample [] 3 2%positive auto_release 1 (bytes "z" ++ [0]) sample_refs_ok eq_refl eq_refl). Defined.

Lemma typeref_codecs_witness :
  (exists p1 l p2 ls2 q', @exec zero_malloc sample (ToHex 0) = Some p1 /\ refs p1 !! 4%nat = Some (Some l) /\
    @bytes_.hex zero_malloc p1 1 (In l) true (Some auto_release) = Some (p2, 2) /\ ok p2 ls2 /\
    value p2 1 = Some (shows auto_release 2 (bytes "ab" ++ q'))) /\
  (exists p1 l p2 ls2 q', @exec zero_malloc sample (ToB64 0) = Some p1 /\ refs p1 !! 4%nat = Some (Some l) /\
    @bytes_.b64 zero_malloc p1 1 (In l) true (Some auto_release) = Some (p2, 2) /\ ok p2 ls2 /\
    value p2 1 = Some (shows auto_release 2 (bytes "ab" ++ q'))).
Proof.
  apply (@typeref_codecs zero_malloc sample [] 0 1 (bytes "ab") [0] secure_release auto_release true sample_refs_ok);
    [reflexivity|reflexivity| |done|reflexivity|cbn; lia].
  change (Forall (fun b => 0 <= b < 256) [97; 98]).
  repeat (apply list.Forall_cons; split); [lia..|done].
Defined.

Lemma typeref_bits_witness :
  let last := Z.min (3 + 40) (8 * 2) in
  exists p' m' c c', @exec zero_malloc sample (WriteBits 0 true 3 40) = Some p' /\
    bytes_.set_bits sample 0 true 3 40 = Some (p', tally (bytes "ab" ++ [0]) false 3 (Z.to_nat (last - 3))) /\
    ok p' [] /\ value p' 0 = Some (shows secure_release 2 m') /\ object sample 0 = Some (Some c) /\
    object p' 0 = Some (Some c') /\
    (forall k, 0 <= k < 8 * 2 -> exists b, bytes_.get (Some c) k = Some b /\
      bytes_.get (Some c') k = Some (if (3 <=? k) && (k <? last) then true else b)) /\
    bytes_.count (Some c) 3 40 = Some (tally (bytes "ab" ++ [0]) true 3 (Z.to_nat (last - 3))) /\
    bytes_.count (Some c') 3 40 = Some (Z.max 0 (last - 3)).
Proof.
  apply (@typeref_bits zero_malloc sample [] 0 secure_release 2 (bytes "ab" ++ [0]) true 3 40 sample_refs_ok);
    reflexivity || (cbn; lia) || done.
Defined.

(** ** What goes wrong *)

(** A reference that is set from itself is null afterwards, and the count of the
    object, which nothing refers to, stays one too high. *)
Example set_self :
  let h := Store {[ 1%positive := Counted.Mk 1 (autorelease (Some auto_release)) 1 (bytes "z" ++ [0]) ]} None [] in
  set (Program h [Some 1%positive]) 0 0 = Some (Program h [None]).
Proof. vm_compute. reflexivity. Qed.

(** The text of the only reference to it is gone when [set] reads it. *)
Example set_own_text :
  let h := Store {[ 1%positive := Counted.Mk 1 (autorelease (Some auto_release)) 1 (bytes "z" ++ [0]) ]} None [] in
  @chars.set zero_malloc (Program h [Some 1%positive]) 0 (Some (In 1%positive)) (Some auto_release) = None.
Proof. vm_compute. reflexivity. Qed.

(** Likewise the value that is assigned to the reference that has it. *)
Example assign_own_value :
  let h := Store {[ 1%positive := Counted.Mk 1 (autorelease (Some auto_release)) 1 (bytes "z" ++ [0]) ]} None [] in
  chars.assign (Program h [Some 1%positive]) 0 1%positive = None.
Proof. vm_compute. reflexivity. Qed.

(** A null reference has no pool: putting a text or bytes behind it dereferences a
    null pointer. *)
Lemma concat_null `{Malloc} p i s t : value p i = Some None -> source_text p (length (refs p)) s t ->
  chars.concat p i (Some s) = None.
Proof.
  intros Hv (r & Eq & Hn)%source_read. unfold chars.concat. rewrite (value_null _ _ Hv). run. rewrite Eq. run.
  cbn [cstr]. run. rewrite cstr_app by done. done.
Qed.

Lemma join_null `{Malloc} p ls i j w : ok p ls -> value p i = Some None -> value p j = Some w ->
  0 < (held w).1 < 2 ^ 60 -> bytes_.concat p i j = None.
Proof.
  intros Hok Hv Hw Hk. destruct (held w) as [k b] eqn:Ew. cbn [fst] in Hk.
  destruct (join_part p ls j w k b Hok Hw Ew) as (o & Ho & Hs & _). unfold bytes_.concat.
  rewrite (value_null _ _ Hv), bind_Some, Ho. run. rewrite Hs, u64_id by lia.
  destruct (Z.eqb_spec (0 + k) 0); [lia|done].
Qed.

(** [operator()] adds every offset that it accepts to the length of the text. *)
Lemma at_behind c s o : cstr (Counted.mem c) = Some s -> 0 <= o <= zlen s -> chars.at_ (Some c) o = Some (Some (zlen s + o)).
Proof. intros Hs Ho. unfold chars.at_, strlen. rewrite Hs. cbn. uc_cases. done. Qed.

(** An empty text is not stored: the characters are what the memory held. *)
Lemma empty_text_stale `{Malloc} ar : chars.value 0 (Some [0]) ar = Some (Counted.make 0 ar (junk 1)).
Proof. done. Qed.

(** The byte behind the last one is looked at. *)
Lemma get_behind c : 0 <= Counted.size c -> bytes_.get (Some c) (8 * Counted.size c) = bytes_.bit (Counted.mem c) (8 * Counted.size c).
Proof.
  intros Hs. unfold bytes_.get. replace (8 * Counted.size c / 8) with (Counted.size c) by dlia. uc_cases. done.
Qed.

(** A null reference is less than itself. *)
Example less_null f : chars.less f None None = Some true.
Proof. reflexivity. Qed.
