(* ===== verification/ArrayRef.v ===== *)
(** * Shared arrays, stacks and queues of counted objects (corelib/arrayref.cpp)

    An [ArrayRef] refers to an array object with a monitor of its own; its cells are
    references to counted objects.  The references of the program are those of
    [Typeref]; thread [i] of the system at the end has reference [i].  A call is cut
    where it waits: the functions that end in [_try] are what a thread does with the
    mutex, from the test of the loop to the end or to the next wait. *)

From stdpp Require Import gmap list.
From S2P Require Import Prelude StringObj Typeref Condition.
Import TypeRef.

Inductive arraytype := ARRAY | STACK | QUEUE | FALLBACK.

#[export] Instance arraytype_eq_dec : EqDecision arraytype.
Proof. solve_decision. Defined.

Module Array.

(** [count] is the number of [ArrayRef] objects that refer to the array. *)
Record t := Mk { slots : list (option loc); head : Z; tail : Z; type : arraytype; size : Z; copies : Z }.

Definition with_slots (a : t) (l : list (option loc)) : t := Mk l (head a) (tail a) (type a) (size a) (copies a).
Definition with_ends (a : t) (h t : Z) : Array.t := Mk (slots a) h t (type a) (size a) (copies a).
Definition with_copies (a : t) (n : Z) : t := Mk (slots a) (head a) (tail a) (type a) (size a) n.

(** The constructor. *)
Definition make (mode : arraytype) (used : Z) : t :=
  Mk (replicate (Z.to_nat used) None) 0 (if decide (mode = ARRAY) then used else 0) mode used 0.

Definition count (a : t) : Z :=
  if head a <=? tail a then u64 (tail a - head a) else u64 (u64 (tail a + size a) - head a).

(** [get], [remove] and [assign] of a cell: nothing at all behind the end. *)
Definition get (a : t) (index : Z) : option (option loc) :=
  if size a <=? index then Some None else rd (slots a) index.

Definition remove (a : t) (index : Z) : option (t * option loc) :=
  if size a <=? index then Some (a, None)
  else r ← get a index; l ← wr (slots a) index None; Some (with_slots a l, r).

Definition release (p : program) (r : option loc) : option program :=
  match r with None => Some p | Some l => h ← counted.release (heap p) l; Some (set_heap p h) end.

Definition assign (p : program) (a : t) (index : Z) (object : option loc) : option (program * t) :=
  if size a <=? index then Some (p, a)
  else
    p ← retain p object;
    replace ← get a index;
    p ← release p replace;
    l ← wr (slots a) index object;
    Some (p, with_slots a l).

(** [dealloc]: the objects are released, the memory of the array goes back. *)
Fixpoint release_all (p : program) (l : list (option loc)) : option program :=
  match l with [] => Some p | r :: l => p ← release p r; release_all p l end.

Definition dealloc (p : program) (a : t) : option (program * t) :=
  if size a =? 0 then Some (p, a)
  else
    p ← release_all p (slots a);
    Some (p, Mk (replicate (length (slots a)) None) (head a) (tail a) (type a) 0 (copies a)).

(** [Counted::release] of the array *)
Definition drop (p : program) (a : t) : option (program * t) :=
  let n := copies a in
  let a := with_copies a (s32 (n - 1)) in
  if n <? 2 then dealloc p a else Some (p, a).

End Array.

Module ArrayRef.
Import Array.

Definition create (mode : arraytype) (size : Z) : option Array.t :=
  if size =? 0 then None else Some (make mode size).

(** The array an [ArrayRef] is made with, which it refers to. *)
Definition make_ref (mode : arraytype) (size : Z) : option Array.t :=
  (fun a => with_copies a 1) <$> create mode size.

Fixpoint fill (n : nat) (p : program) (a : t) (index : Z) (object : option loc) : option (program * t) :=
  match n with
  | O => Some (p, a)
  | S n => '(p, a) ← assign p a index object; fill n p a (index + 1) object
  end.

(** The constructor from an object. *)
Definition make_filled (p : program) (mode : arraytype) (size : Z) (object : option loc) : option (program * option t) :=
  match make_ref mode size with
  | None => Some (p, None)
  | Some a => '(p, a) ← fill (Z.to_nat (Array.size a)) p a 0 object; Some (p, Some a)
  end.

(** [reset] of an object, and [clear]. *)
Definition reset (p : program) (ref : option t) (object : option loc) : option (program * option t * wakeup) :=
  match ref with
  | None => Some (p, ref, NoWake)
  | Some a =>
      if (Array.size a =? 0) || bool_decide (object = None) then Some (p, ref, NoWake)
      else
        let max := match type a with ARRAY => Array.size a | FALLBACK => 1 | _ => 0 end in
        '(p, a) ← fill (Z.to_nat max) p (with_ends a 0 max) 0 object;
        Some (p, Some a, Signal)
  end.

Definition clear (p : program) (ref : option t) : option (program * option t * wakeup) := reset p ref None.

(** The next place of a ring. *)
Definition next (a : t) (i : Z) : Z := if Array.size a <=? u64 (i + 1) then 0 else u64 (i + 1).

Definition pop (p : program) (ref : option t) : option (program * option t * wakeup) :=
  match ref with
  | None => Some (p, ref, NoWake)
  | Some a =>
      if Array.size a =? 0 then Some (p, ref, NoWake)
      else
        match type a with
        | STACK =>
            if head a =? tail a then Some (p, ref, NoWake)
            else
              let tl := (if tail a =? 0 then Array.size a else tail a) - 1 in
              '(p, a) ← assign p (with_ends a (head a) tl) tl None;
              Some (p, Some a, Signal)
        | ARRAY => Some (p, ref, NoWake)
        | ty =>
            if bool_decide (ty = FALLBACK) && (count a =? 1) then Some (p, ref, NoWake)
            else if head a =? tail a then Some (p, ref, NoWake)
            else
              '(p, a) ← assign p a (head a) None;
              Some (p, Some (with_ends a (next a (head a)) (tail a)), Signal)
        end
  end.

(** [push]: full, or the object is in the array. *)
Definition push_try (p : program) (a : t) (object : option loc) : option (program * t * bool) :=
  if u64 (Array.size a - 1) <=? count a then Some (p, a, false)
  else
    '(p, a) ← assign p a (tail a) object;
    Some (p, with_ends a (head a) (next a (tail a)), true).

(** [pull]: the array and the value, if there is one.  Behind the end of the array
    [head] starts again only when it is exactly there. *)
Definition pull_try (a : t) : option (t * option loc) :=
  if head a =? tail a then Some (a, None)
  else
    match type a with
    | STACK =>
        let tl := (if tail a =? 0 then Array.size a else tail a) - 1 in
        remove (with_ends a (head a) tl) tl
    | ARRAY => Some (a, None)
    | ty =>
        if bool_decide (ty = FALLBACK) && (count a =? 1) then r ← get a (head a); Some (a, r)
        else
          '(a, r) ← remove a (head a);
          let h := u64 (head a + 1) in
          Some (with_ends a (if h =? Array.size a then 0 else h) (tail a), r)
    end.

(** The count of the object of [pull] moves with the value: [object.ref = value]. *)
Definition take (p : program) (i : nat) (value : loc) : program := set_ref p i (Some value).

Definition count_of (ref : option t) : Z := match ref with None => 0 | Some a => count a end.

(** [assign (index, t)]; the assertion fails for a stack or a queue. *)
Definition assign_at (p : program) (ref : option t) (index : Z) (object : option loc) : option (program * option t) :=
  match ref with
  | None => Some (p, ref)
  | Some a =>
      if Array.size a <=? index then Some (p, ref)
      else if negb (bool_decide (type a = ARRAY)) then None
      else
        let index := u64 (index + head a) in
        let index := if Array.size a <=? index then index - Array.size a else index in
        '(p, a) ← assign p a index object; Some (p, Some a)
  end.

(** [get (index)] *)
Definition get_at (ref : option t) (index : Z) : option (option loc) :=
  match ref with
  | None => Some None
  | Some a =>
      if (Array.size a <=? index) || (head a =? tail a) then Some None
      else
        let index := u64 (index + head a) in
        if (head a <=? tail a) && (tail a <=? index) then Some None
        else
          let index := if Array.size a <=? index then index - Array.size a else index in
          if tail a <=? index then Some None else get a index
  end.

Definition is_ (ref : option t) (index : Z) : option bool :=
  r ← get_at ref index; Some (match r with Some _ => true | None => false end).

(** [resize]: a null array, for the size 0, is dereferenced. *)
Fixpoint copy_loop (n : nat) (p : program) (a current : t) (index : Z) : option (program * t) :=
  match n with
  | O => Some (p, a)
  | S n => r ← get current index; '(p, a) ← assign p a index r; copy_loop n p a current (index + 1)
  end.

(** The old array, which may have other references, and the new one. *)
Definition resize (p : program) (ref : option t) (size : Z) : option (program * option t * option t) :=
  match ref with
  | None => Some (p, None, None)
  | Some current =>
      a ← create (type current) size;
      '(p, a) ← (if decide (type a = ARRAY) then
          '(p, a) ← copy_loop (Z.to_nat (Z.min size (Array.size current))) p a current 0;
          Some (p, with_ends a (head a) size)
        else Some (p, with_ends a 0 0));
      '(p, old) ← drop p current;
      Some (p, Some old, Some (with_copies a 1))
  end.

Definition realloc (p : program) (ref : option t) (size : Z) : option (program * option t * option t) :=
  match ref with
  | None => Some (p, None, None)
  | Some current =>
      '(p, old) ← drop p current;
      Some (p, Some old, (fun a => with_copies a 1) <$> create (type current) size)
  end.

(** ** Threads

    Where a thread is: outside, in [push] or [pull] waiting for the condition, or
    woken from there. *)
Inductive pc := Idle | PushWait | PushWoken | PullWait | PullWoken.

#[export] Instance pc_eq_dec : EqDecision pc.
Proof. solve_decision. Defined.

Record system := System { prog : program; arr : t; pcs : list pc }.

(** The steps of thread [i]; [w] is the thread that a signal wakes.  [Expire] is the
    end of a wait with a time out, [Spurious] of one without a cause. *)
Inductive event :=
  | Push (i : nat) | Pull (i w : nat) | Pop (i w : nat) | Resume (i w : nat) | Expire (i : nat) | Spurious (i : nat).

Definition awake (c : pc) : pc := match c with PullWait => PullWoken | c => c end.

(** A signal wakes one of the threads in [push], a broadcast all of those in [pull]. *)
Definition wake (k : wakeup) (w : nat) (l : list pc) : option (list pc) :=
  match k with
  | NoWake => Some l
  | Broadcast => Some (map awake l)
  | Signal =>
      if decide (PushWait ∈ l) then
        if decide (l !! w = Some PushWait) then Some (<[w := PushWoken]> l) else None
      else Some l
  end.

(** The loop of [push] from its test on; an array of the type [ARRAY] is left alone. *)
Definition run_push (s : system) (i : nat) : option system :=
  if decide (type (arr s) = ARRAY) then Some s else
  r ← refs (prog s) !! i;
  '(p, a, done) ← push_try (prog s) (arr s) r;
  if done : bool then l ← wake Broadcast 0 (<[i := Idle]> (pcs s)); Some (System p a l)
  else Some (System p a (<[i := PushWait]> (pcs s))).

Definition run_pull (s : system) (i w : nat) : option system :=
  if decide (type (arr s) = ARRAY) then Some s else
  '(a, value) ← pull_try (arr s);
  match value with
  | Some l => pc ← wake Signal w (<[i := Idle]> (pcs s)); Some (System (take (prog s) i l) a pc)
  | None => Some (System (prog s) a (<[i := PullWait]> (pcs s)))
  end.

Definition exec (s : system) (e : event) : option system :=
  match e with
  | Push i => match pcs s !! i with Some Idle => run_push s i | _ => None end
  | Pull i w =>
      match pcs s !! i with
      | Some Idle => p ← TypeRef.clear (prog s) i; run_pull (System p (arr s) (pcs s)) i w
      | _ => None
      end
  | Pop i w =>
      match pcs s !! i with
      | Some Idle =>
          '(p, a, k) ← pop (prog s) (Some (arr s));
          a ← a; l ← wake k w (pcs s); Some (System p a l)
      | _ => None
      end
  | Resume i w =>
      match pcs s !! i with
      | Some PushWoken => run_push s i
      | Some PullWoken => run_pull s i w
      | _ => None
      end
  | Expire i =>
      match pcs s !! i with
      | Some PushWait => Some (System (prog s) (arr s) (<[i := Idle]> (pcs s)))
      | Some PullWait =>
          p ← TypeRef.clear (prog s) i; Some (System p (arr s) (<[i := Idle]> (pcs s)))
      | _ => None
      end
  | Spurious i =>
      match pcs s !! i with
      | Some PushWait => Some (System (prog s) (arr s) (<[i := PushWoken]> (pcs s)))
      | Some PullWait => Some (System (prog s) (arr s) (<[i := PullWoken]> (pcs s)))
      | _ => None
      end
  end.

End ArrayRef.
