(* ===== verification/ArrayRefLaws.v ===== *)
(** * Laws of the shared stacks and queues

    The cells of a ring from [head] to [tail] are a list; the count of an object is
    the number of references of the program and of cells that have it. *)

From stdpp Require Import gmap list.
From S2P Require Import Prelude StringObj Condition ConditionLaws Typeref TyperefLaws ArrayRef.
Import TypeRef.
Local Open Scope Z_scope.

(** ** Rings *)

(** The cell [k] places behind [head]. *)
Definition cell (a : Array.t) (k : nat) : option loc :=
  nth ((Z.to_nat (Array.head a) + k) mod Z.to_nat (Array.size a)) (Array.slots a) None.

Definition contents (a : Array.t) : list (option loc) := map (cell a) (seq 0 (Z.to_nat (Array.count a))).

(** The ends are cells of the array. *)
Definition ring (a : Array.t) : Prop :=
  Array.type a <> ARRAY /\ zlen (Array.slots a) = Array.size a /\ 0 < Array.size a < 2 ^ 31 /\
  0 <= Array.head a < Array.size a /\ 0 <= Array.tail a < Array.size a.

Lemma count_range a : ring a -> 0 <= Array.count a < Array.size a /\
  Array.tail a = (Array.head a + Array.count a) mod Array.size a.
Proof.
  intros (_ & _ & Hs & Hh & Ht). unfold Array.count. destruct (Z.leb_spec (Array.head a) (Array.tail a)).
  - rewrite u64_id by lia. split; [lia|]. rewrite Z.mod_small; lia.
  - rewrite (u64_id (Array.tail a + Array.size a)) by lia. rewrite u64_id by lia. split; [lia|].
    replace (Array.head a + (Array.tail a + Array.size a - Array.head a)) with (Array.tail a + 1 * Array.size a) by lia.
    rewrite Z_mod_plus_full, Z.mod_small; lia.
Qed.

Lemma contents_length a : ring a -> zlen (contents a) = Array.count a.
Proof. intros Ha. unfold contents, zlen. rewrite length_map, length_seq. pose proof (count_range a Ha). lia. Qed.

Lemma wrap h k n : 0 <= h < n -> 0 <= k < n -> (h + k) mod n = if h + k <? n then h + k else h + k - n.
Proof.
  intros Hh Hk. destruct (Z.ltb_spec (h + k) n); [by apply Z.mod_small; lia|].
  replace (h + k) with (h + k - n + 1 * n) at 1 by lia. rewrite Z_mod_plus_full. apply Z.mod_small. lia.
Qed.

(** The ends of a ring are given by [head] and the number of cells. *)
Lemma count_unique a n : ring a -> 0 <= n < Array.size a -> Array.tail a = (Array.head a + n) mod Array.size a ->
  Array.count a = n.
Proof.
  intros Ha Hn Ht. destruct (count_range a Ha) as [Hc Ht']. destruct Ha as (_ & _ & _ & Hh & _).
  rewrite Ht, !wrap in Ht' by done. revert Ht'. uc_cases.
Qed.

(** The place of a cell in the block. *)
Definition place (a : Array.t) (k : Z) : Z := (Array.head a + k) mod Array.size a.

Lemma place_range a k : ring a -> 0 <= place a k < Array.size a.
Proof. intros (_ & _ & Hs & _). apply Z.mod_pos_bound. lia. Qed.

Lemma cell_place a k : ring a -> 0 <= k -> cell a (Z.to_nat k) = nth (Z.to_nat (place a k)) (Array.slots a) None.
Proof.
  intros (_ & _ & Hs & Hh & _) Hk. unfold cell, place. f_equal.
  rewrite Z2Nat.inj_mod, Z2Nat.inj_add by lia. done.
Qed.

Lemma place_inj a j k : ring a -> 0 <= j < Array.size a -> 0 <= k < Array.size a -> place a j = place a k -> j = k.
Proof.
  intros (_ & _ & Hs & Hh & _) Hj Hk. unfold place. rewrite !wrap by done. uc_cases.
Qed.

Lemma rd_nth (l : list (option loc)) i : 0 <= i < zlen l -> rd l i = Some (nth (Z.to_nat i) l None).
Proof.
  intros Hi. unfold rd. destruct (Z.ltb_spec i 0); [lia|].
  destruct (lookup_lt_is_Some_2 l (Z.to_nat i)) as [x Hx]; [unfold zlen in *; lia|].
  rewrite Hx. f_equal. symmetry. by apply nth_lookup_Some.
Qed.

Lemma wr_some (l : list (option loc)) i x : 0 <= i < zlen l -> wr l i x = Some (<[Z.to_nat i := x]> l).
Proof. intros Hi. unfold wr, zlen in *. destruct (Z.leb_spec 0 i); [|lia]. destruct (Z.ltb_spec i (Z.of_nat (length l))); [done|lia]. Qed.

(** Storing in one place changes that cell alone. *)
Lemma nth_insert (l : list (option loc)) i j x : (i < length l)%nat ->
  nth j (<[i := x]> l) None = if decide (j = i) then x else nth j l None.
Proof.
  intros Hi. rewrite !nth_lookup. case_decide as E.
  - subst j. by rewrite list_lookup_insert_eq.
  - by rewrite list_lookup_insert_ne.
Qed.

(** A ring with other ends and cells. *)
Lemma contents_eq a n xs : Array.count a = Z.of_nat n -> length xs = n ->
  (forall k x, xs !! k = Some x -> cell a k = x) -> contents a = xs.
Proof.
  intros Hc Hl Hx. unfold contents. rewrite Hc, Nat2Z.id. apply list_eq. intros k.
  destruct (xs !! k) as [x|] eqn:E.
  - assert (k < n)%nat by (rewrite <- Hl; by eapply lookup_lt_Some).
    rewrite list_lookup_fmap, lookup_seq_lt by done. cbn. f_equal. by apply Hx.
  - apply lookup_ge_None in E. apply lookup_ge_None. rewrite length_map, length_seq. lia.
Qed.

Lemma contents_cell a k x : contents a !! k = Some x -> cell a k = x.
Proof.
  unfold contents. intros E. assert (k < Z.to_nat (Array.count a))%nat as Hk.
  { apply lookup_lt_Some in E. by rewrite length_map, length_seq in E. }
  rewrite list_lookup_fmap, lookup_seq_lt in E by done. cbn in E. by injection E.
Qed.

Definition store_cell (a : Array.t) (i : Z) (x : option loc) (h t : Z) : Array.t :=
  Array.with_ends (Array.with_slots a (<[Z.to_nat i := x]> (Array.slots a))) h t.

Lemma store_ring a i x h t : ring a -> 0 <= h < Array.size a -> 0 <= t < Array.size a -> ring (store_cell a i x h t).
Proof.
  intros (Ht & Hz & Hs & _) Hh Htl. split; [done|]. split; [|done].
  cbn. unfold zlen in *. by rewrite length_insert.
Qed.

Lemma store_nth a i x h t j : ring a -> 0 <= i < Array.size a -> 0 <= j ->
  nth (Z.to_nat j) (Array.slots (store_cell a i x h t)) None =
  if decide (j = i) then x else nth (Z.to_nat j) (Array.slots a) None.
Proof.
  intros (_ & Hz & _) Hi Hj. cbn. rewrite nth_insert by (unfold zlen in Hz; lia).
  do 2 case_decide; done || lia.
Qed.

Lemma next_wrap a i : ring a -> 0 <= i < Array.size a -> ArrayRef.next a i = (i + 1) mod Array.size a.
Proof.
  intros (_ & _ & Hs & _) Hi. unfold ArrayRef.next. rewrite u64_id by lia.
  destruct (Z.leb_spec (Array.size a) (i + 1)); [|by rewrite Z.mod_small by lia].
  assert (i + 1 = 1 * Array.size a) as -> by lia. by rewrite Z_mod_mult.
Qed.

(** [push] *)
Lemma push_ring a r : ring a -> Array.count a < Array.size a - 1 ->
  let a' := store_cell a (Array.tail a) r (Array.head a) (ArrayRef.next a (Array.tail a)) in
  ring a' /\ contents a' = contents a ++ [r].
Proof.
  intros Ha Hc a'. pose proof Ha as (Ht & Hz & Hs & Hh & Htl). destruct (count_range a Ha) as [Hcr Ect].
  assert (ring a') as Ha'.
  { apply store_ring; [done..|]. rewrite next_wrap by done. apply Z.mod_pos_bound. lia. }
  assert (Array.count a' = Array.count a + 1) as Hc'.
  { apply count_unique; [done|cbn; lia|]. cbn [a' store_cell Array.with_ends Array.tail Array.head Array.size Array.with_slots].
    rewrite next_wrap, Ect by done. rewrite Zplus_mod_idemp_l. f_equal. lia. }
  split; [done|]. apply (contents_eq _ (S (Z.to_nat (Array.count a)))); [lia| |].
  { rewrite length_app. unfold contents. rewrite length_map, length_seq. cbn. lia. }
  assert (forall k, 0 <= k -> place a' k = place a k) as Hp by done.
  assert (forall j, 0 <= j -> nth (Z.to_nat j) (Array.slots a') None =
    if decide (j = Array.tail a) then r else nth (Z.to_nat j) (Array.slots a) None) as Hn
    by (intros j Hj; unfold a'; by apply store_nth).
  intros k x Hk. rewrite <- (Nat2Z.id k), cell_place by (done || lia).
  rewrite Hn by (by apply place_range). rewrite Hp by lia. apply lookup_app_Some in Hk as [Hk|[Hge Hk]].
  - assert (k < length (contents a))%nat as Hlt by (by eapply lookup_lt_Some).
    unfold contents in Hlt. rewrite length_map, length_seq in Hlt.
    rewrite decide_False; [|rewrite Ect; intros E; apply place_inj in E; [lia|done|lia|lia]].
    rewrite <- cell_place, Nat2Z.id by (done || lia). by apply contents_cell.
  - unfold contents in Hge, Hk. rewrite length_map, length_seq in Hge, Hk.
    apply list_lookup_singleton_Some in Hk as [Ek ->]. rewrite decide_True; [done|].
    rewrite Ect. unfold place. f_equal. lia.
Qed.

(** Taking the first cell. *)
Lemma shift_ring a : ring a -> 0 < Array.count a ->
  let a' := store_cell a (Array.head a) None (ArrayRef.next a (Array.head a)) (Array.tail a) in
  ring a' /\ contents a = nth (Z.to_nat (Array.head a)) (Array.slots a) None :: contents a'.
Proof.
  intros Ha Hc a'. pose proof Ha as (Ht & Hz & Hs & Hh & Htl). destruct (count_range a Ha) as [Hcr Ect].
  assert (ring a') as Ha'.
  { apply store_ring; [done| |done]. rewrite next_wrap by done. apply Z.mod_pos_bound. lia. }
  assert (Array.head a' = (Array.head a + 1) mod Array.size a) as Hh' by (by apply next_wrap).
  assert (Array.count a' = Array.count a - 1) as Hc'.
  { apply count_unique; [done|cbn; lia|]. rewrite Hh'. change (Array.tail a') with (Array.tail a).
    change (Array.size a') with (Array.size a). rewrite Ect, Zplus_mod_idemp_l. f_equal. lia. }
  assert (forall k, place a' k = place a (k + 1)) as Hp.
  { intros k. unfold place. rewrite Hh'. change (Array.size a') with (Array.size a).
    rewrite Zplus_mod_idemp_l. f_equal. lia. }
  split; [done|]. symmetry. change (?x :: contents a') with ([x] ++ contents a'). symmetry.
  apply (contents_eq _ (S (Z.to_nat (Array.count a'))));
    [lia|unfold contents; cbn; by rewrite length_map, length_seq|].
  assert (forall j, 0 <= j -> nth (Z.to_nat j) (Array.slots a') None =
    if decide (j = Array.head a) then None else nth (Z.to_nat j) (Array.slots a) None) as Hn
    by (intros j Hj; unfold a'; by apply store_nth).
  intros [|k] x Hk.
  - injection Hk as <-. rewrite <- (Nat2Z.id 0), cell_place by done. unfold place. by rewrite Z.add_0_r, Z.mod_small.
  - cbn in Hk. assert (k < length (contents a'))%nat as Hlt by (by eapply lookup_lt_Some).
    unfold contents in Hlt. rewrite length_map, length_seq in Hlt.
    rewrite <- (contents_cell _ _ _ Hk), <- (Nat2Z.id k), (cell_place a') by (done || lia). rewrite Hn by (by apply place_range).
    rewrite Hp. replace (S (Z.to_nat (Z.of_nat k))) with (Z.to_nat (Z.of_nat k + 1)) by lia.
    rewrite cell_place by (done || lia). rewrite decide_False; [done|].
    intros E. assert (Array.head a = place a 0) as E0 by (unfold place; by rewrite Z.add_0_r, Z.mod_small).
    rewrite E0 in E. apply place_inj in E; [lia|done|lia|lia].
Qed.

(** Taking the last cell. *)
Definition prev (a : Array.t) : Z := (if Array.tail a =? 0 then Array.size a else Array.tail a) - 1.

Lemma unpush_ring a : ring a -> 0 < Array.count a ->
  let a' := store_cell a (prev a) None (Array.head a) (prev a) in
  ring a' /\ contents a = contents a' ++ [nth (Z.to_nat (prev a)) (Array.slots a) None].
Proof.
  intros Ha Hc a'. pose proof Ha as (Ht & Hz & Hs & Hh & Htl). destruct (count_range a Ha) as [Hcr Ect].
  assert (prev a = place a (Array.count a - 1)) as Hpv.
  { unfold prev, place. rewrite wrap in Ect |- * by lia. revert Ect. uc_cases. }
  assert (ring a') as Ha'.
  { apply store_ring; [done..|]. rewrite Hpv. by apply place_range. }
  assert (Array.count a' = Array.count a - 1) as Hc'.
  { apply count_unique; [done|cbn; lia|]. exact Hpv. }
  assert (forall k, place a' k = place a k) as Hp by done.
  split; [done|]. apply (contents_eq _ (S (Z.to_nat (Array.count a'))));
    [lia|rewrite length_app; unfold contents; rewrite length_map, length_seq; cbn; lia|].
  assert (forall j, 0 <= j -> nth (Z.to_nat j) (Array.slots a') None =
    if decide (j = prev a) then None else nth (Z.to_nat j) (Array.slots a) None) as Hn
    by (intros j Hj; unfold a'; apply store_nth; [done|rewrite Hpv; by apply place_range|done]).
  intros k x Hk. apply lookup_app_Some in Hk as [Hk|[Hge Hk]].
  - assert (k < length (contents a'))%nat as Hlt by (by eapply lookup_lt_Some).
    unfold contents in Hlt. rewrite length_map, length_seq in Hlt.
    rewrite <- (contents_cell _ _ _ Hk), <- (Nat2Z.id k), (cell_place a') by (done || lia).
    rewrite Hn by (by apply place_range). rewrite Hp, decide_False; [by apply cell_place; [done|lia]|].
    intros E. rewrite Hpv in E. apply place_inj in E; [lia|done|lia|lia].
  - unfold contents in Hge, Hk. rewrite length_map, length_seq in Hge, Hk.
    apply list_lookup_singleton_Some in Hk as [Ek <-]. rewrite Hpv, <- cell_place by (done || lia). f_equal. lia.
Qed.

(** ** Counts *)

(** An object that is referred to before and after shows what it showed. *)
Definition shown (h h' : store) (R' : loc -> Z) : Prop :=
  forall l c, cells h !! l = Some c -> 0 < R' l -> exists c', cells h' !! l = Some c' /\ view c' = view c.

Lemma shown_keeps X h h' R : keeps X h h' -> (forall l, X l -> R l <= 0) -> shown h h' R.
Proof.
  intros Hk HX l c Hc Hl. destruct (Hk l c Hc) as (c' & Hc' & Hd & Ho); [intros H; apply HX in H; lia|].
  exists c'. split; [done|]. unfold view. congruence.
Qed.

Lemma shown_refl h R : shown h h R.
Proof. intros l c Hc _. by exists c. Qed.

Lemma shown_trans h1 h2 h3 R : shown h1 h2 R -> shown h2 h3 R -> shown h1 h3 R.
Proof.
  intros H12 H23 l c Hc Hl. destruct (H12 l c Hc Hl) as (c2 & Hc2 & E2).
  destruct (H23 l c2 Hc2 Hl) as (c3 & Hc3 & E3). exists c3. split; [done|congruence].
Qed.

Lemma retain_option p r R ls : sound (heap p) R ls -> (forall l, r = Some l -> 0 < R l < 2 ^ 31 - 1) -> exists h,
  retain p r = Some (set_heap p h) /\ sound h (fun l => R l + one r l) ls /\ keeps (fun _ => False) (heap p) h.
Proof.
  intros Hs Hr. destruct r as [l|]; cbn [retain].
  - destruct (retain_spec _ _ _ l Hs (Hr l eq_refl)) as (h & -> & Hs' & Hk & _). run. by exists h.
  - exists (heap p). destruct p. split; [done|]. split; [|apply keeps_refl].
    eapply sound_ext; [done|]. intros l. cbn. rewrite one_other by done. lia.
Qed.

Lemma release_option p r R ls : sound (heap p) R ls -> (forall l, r = Some l -> 0 < R l) -> exists h ls',
  Array.release p r = Some (set_heap p h) /\ sound h (fun l => R l - one r l) ls' /\
  shown (heap p) h (fun l => R l - one r l).
Proof.
  intros Hs Hr. destruct r as [l|]; cbn [Array.release].
  - destruct (drop_spec _ _ _ l Hs (Hr l eq_refl)) as (h & ls' & c & Hc & -> & Hs' & Hmore & Hlast).
    run. exists h, ls'. split; [done|]. split; [done|]. pose proof (Hr l eq_refl).
    destruct (decide (R l = 1)) as [E|E].
    + destruct (Hlast E) as [_ Hk]. apply (shown_keeps _ _ _ _ Hk). intros k ->. rewrite one_eq. lia.
    + destruct Hmore as (_ & _ & Hk); [lia|]. by apply (shown_keeps _ _ _ _ Hk).
  - exists (heap p), ls. destruct p. split; [done|]. split; [|apply shown_refl].
    eapply sound_ext; [done|]. intros l. cbn. rewrite one_other by done. lia.
Qed.

Lemma assign_spec p a i r R ls : sound (heap p) R ls -> zlen (Array.slots a) = Array.size a -> 0 <= i < Array.size a ->
  (forall l, r = Some l -> 0 < R l < 2 ^ 31 - 1) ->
  (forall l, nth (Z.to_nat i) (Array.slots a) None = Some l -> 0 < R l) ->
  let old := nth (Z.to_nat i) (Array.slots a) None in
  exists h ls', Array.assign p a i r = Some (set_heap p h, Array.with_slots a (<[Z.to_nat i := r]> (Array.slots a))) /\
    sound h (fun l => R l + one r l - one old l) ls' /\ shown (heap p) h (fun l => R l + one r l - one old l).
Proof.
  intros Hs Hz Hi Hr Ho old. unfold Array.assign, Array.get. destruct (Z.leb_spec (Array.size a) i); [lia|].
  destruct (retain_option p r R ls Hs Hr) as (h & -> & Hs1 & Hk1). run. rewrite rd_nth by lia. run.
  destruct (release_option (set_heap p h) old (fun l => R l + one r l) ls Hs1) as (h2 & ls2 & E2 & Hs2 & Hk2).
  { intros l Hl. pose proof (Ho l Hl). pose proof (one_bound r l). lia. }
  fold old. rewrite E2. run. rewrite wr_some by lia. run. exists h2, ls2. destruct p. split; [done|]. split; [done|].
  eapply shown_trans; [by eapply shown_keeps|exact Hk2].
Qed.
