(* ===== verification/ArrayRefRuns.v ===== *)
(** * Threads that share a stack or a queue of counted objects

    The list of objects an array holds, with the references of the threads, is the
    abstract machine [spec]; the steps of [ArrayRef] refine it.  Then that no wake up
    is lost. *)

From stdpp Require Import gmap list strings.
From S2P Require Import Prelude CLib StringObj Condition ConditionLaws Typeref TyperefLaws TyperefRuns ArrayRef ArrayRefLaws.
Import TypeRef ArrayRef.
Local Open Scope Z_scope.

(** ** The abstract machine *)

(** The objects in the array, the references of the threads and where they are. *)
Record abstract := Abs { items : list (option loc); vars : list (option loc); places : list pc }.

Definition abs (s : system) : abstract := Abs (contents (arr s)) (refs (prog s)) (pcs s).

Definition signal (w : nat) (l : list pc) : list pc :=
  if decide (l !! w = Some PushWait) then <[w := PushWoken]> l else l.

(** An object goes in behind the last one, when there is a place. *)
Definition put (cap : Z) (b : abstract) (i : nat) : abstract :=
  if cap <=? zlen (items b) then Abs (items b) (vars b) (<[i := PushWait]> (places b))
  else Abs (items b ++ [default None (vars b !! i)]) (vars b) (map awake (<[i := Idle]> (places b))).

(** A queue gives the first one, a stack the last one. *)
Definition pick (kind : arraytype) (l : list (option loc)) : option (option loc * list (option loc)) :=
  match kind with
  | STACK => match list.last l with Some x => Some (x, removelast l) | None => None end
  | _ => match l with x :: l => Some (x, l) | [] => None end
  end.

Definition fetch (kind : arraytype) (b : abstract) (i w : nat) : abstract :=
  match pick kind (items b) with
  | Some (Some x, l) => Abs l (<[i := Some x]> (vars b)) (signal w (<[i := Idle]> (places b)))
  | Some (None, l) => Abs l (vars b) (<[i := PullWait]> (places b))
  | None => Abs (items b) (vars b) (<[i := PullWait]> (places b))
  end.

Definition spec (kind : arraytype) (cap : Z) (b : abstract) (e : event) : abstract :=
  match e with
  | Push i => put cap b i
  | Pull i w => fetch kind (Abs (items b) (<[i := None]> (vars b)) (places b)) i w
  | Pop i w => match pick kind (items b) with Some (_, l) => Abs l (vars b) (signal w (places b)) | None => b end
  | Resume i w => if decide (places b !! i = Some PushWoken) then put cap b i else fetch kind b i w
  | Expire i =>
      Abs (items b) (if decide (places b !! i = Some PushWait) then vars b else <[i := None]> (vars b))
        (<[i := Idle]> (places b))
  | Spurious i =>
      Abs (items b) (vars b) (<[i := if decide (places b !! i = Some PushWait) then PushWoken else PullWoken]> (places b))
  end.

(** A step that a thread can make; a signal goes to a thread that waits, if one does. *)
Definition aims (l : list pc) (w : nat) : Prop := PushWait ∈ l -> l !! w = Some PushWait.

Definition enabled (e : event) (l : list pc) : Prop :=
  match e with
  | Push i => l !! i = Some Idle
  | Pull i w | Pop i w => l !! i = Some Idle /\ aims l w
  | Resume i w => l !! i = Some PushWoken \/ l !! i = Some PullWoken /\ aims l w
  | Expire i | Spurious i => l !! i = Some PushWait \/ l !! i = Some PullWait
  end.

(** ** The invariant *)

Definition holds (s : system) (l : loc) : Z := refs_to (refs (prog s)) l + refs_to (Array.slots (arr s)) l.

(** A thread that pulls has a null reference. *)
Record inv (s : system) (ls : list loc) : Prop := {
  inv_ring : ring (arr s);
  inv_kind : Array.type (arr s) = STACK \/ Array.type (arr s) = QUEUE;
  inv_sound : sound (heap (prog s)) (holds s) ls;
  inv_small : zlen (refs (prog s)) + Array.size (arr s) < 2 ^ 31 - 1;
  inv_vars : length (refs (prog s)) = length (pcs s);
  inv_pull : forall i, pcs s !! i = Some PullWait \/ pcs s !! i = Some PullWoken -> refs (prog s) !! i = Some None }.

(** The objects that are still referred to were so before and show what they showed. *)
Definition survives (s s' : system) : Prop :=
  shown (heap (prog s)) (heap (prog s')) (holds s') /\ forall l, 0 < holds s' l -> 0 < holds s l.

Lemma survives_same s s' : heap (prog s') = heap (prog s) -> (forall l, holds s' l = holds s l) -> survives s s'.
Proof. intros Hh Hl. split; [rewrite Hh; apply shown_refl|]. intros l. by rewrite Hl. Qed.

Lemma survives_trans s1 s2 s3 : survives s1 s2 -> survives s2 s3 -> survives s1 s3.
Proof.
  intros [H12 M12] [H23 M23]. split; [|by intros l H; apply M12, M23].
  intros l c Hc Hl. destruct (H12 l c Hc (M23 l Hl)) as (c2 & Hc2 & E2).
  destruct (H23 l c2 Hc2 Hl) as (c3 & Hc3 & E3). exists c3. split; [done|congruence].
Qed.

(** One step. *)
Definition effect (kind : arraytype) (s : system) (e : event) (res : option system) : Prop :=
  exists s' ls, res = Some s' /\ inv s' ls /\ abs s' = spec kind (Array.size (arr s) - 1) (abs s) e /\
    Array.type (arr s') = Array.type (arr s) /\ Array.size (arr s') = Array.size (arr s) /\
    survives s s'.

Lemma wake_signal l w : aims l w -> wake Signal w l = Some (signal w l).
Proof.
  intros Hw. unfold wake, signal. destruct (decide (PushWait ∈ l)) as [Hin|Hn].
  - by rewrite !decide_True by (by apply Hw).
  - rewrite decide_False; [done|]. intros E. by apply Hn, list_elem_of_lookup_2 with w.
Qed.

Lemma slots_bound a l : zlen (Array.slots a) = Array.size a -> 0 <= refs_to (Array.slots a) l <= Array.size a.
Proof. intros <-. apply refs_to_bound. Qed.

Lemma nth_slot a i : zlen (Array.slots a) = Array.size a -> 0 <= i < Array.size a ->
  Array.slots a !! Z.to_nat i = Some (nth (Z.to_nat i) (Array.slots a) None).
Proof.
  intros Hz Hi. destruct (lookup_lt_is_Some_2 (Array.slots a) (Z.to_nat i)) as [x Hx]; [unfold zlen in Hz; lia|].
  rewrite Hx. f_equal. symmetry. by apply nth_lookup_Some.
Qed.

Lemma nth_slot_pos a i l : zlen (Array.slots a) = Array.size a -> 0 <= i < Array.size a ->
  nth (Z.to_nat i) (Array.slots a) None = Some l -> 0 < refs_to (Array.slots a) l.
Proof. intros Hz Hi E. eapply refs_to_pos. rewrite nth_slot, E by done. done. Qed.

(** Storing a reference that a thread or nobody has. *)
Lemma store_effect s ls i r : inv s ls -> 0 <= i < Array.size (arr s) ->
  (forall l, r = Some l -> 0 < holds s l) -> exists h ls',
  let slots := <[Z.to_nat i := r]> (Array.slots (arr s)) in
  Array.assign (prog s) (arr s) i r = Some (set_heap (prog s) h, Array.with_slots (arr s) slots) /\
  sound h (fun l => refs_to (refs (prog s)) l + refs_to slots l) ls' /\
  shown (heap (prog s)) h (fun l => refs_to (refs (prog s)) l + refs_to slots l) /\
  forall l, 0 < refs_to (refs (prog s)) l + refs_to slots l -> 0 < holds s l.
Proof.
  intros [Ha Hk Hs Hm Hv Hp] Hi Hr. pose proof Ha as (_ & Hz & _).
  destruct (assign_spec (prog s) (arr s) i r (holds s) ls Hs Hz Hi) as (h & ls' & E & Hs' & Hk').
  { intros l El. pose proof (Hr l El). pose proof (slots_bound (arr s) l Hz).
    pose proof (refs_to_bound (refs (prog s)) l). unfold holds in *. lia. }
  { intros l El. pose proof (nth_slot_pos _ _ _ Hz Hi El). pose proof (refs_to_bound (refs (prog s)) l). unfold holds. lia. }
  exists h, ls'. cbn zeta. rewrite E. split; [done|].
  assert (forall l, refs_to (refs (prog s)) l + refs_to (<[Z.to_nat i := r]> (Array.slots (arr s))) l =
    holds s l + one r l - one (nth (Z.to_nat i) (Array.slots (arr s)) None) l) as El.
  { intros l. rewrite (refs_to_insert _ _ _ _ _ (nth_slot _ _ Hz Hi)). unfold holds. lia. }
  split; [by eapply sound_ext|]. split; [intros l c Hc Hl; apply (Hk' l c Hc); by rewrite <- El|].
  intros l. rewrite El. pose proof (one_bound (nth (Z.to_nat i) (Array.slots (arr s)) None) l).
  destruct (decide (r = Some l)) as [->|Hne]; [by intros _; apply Hr|]. rewrite (one_other r) by done. lia.
Qed.

Lemma inv_vars_some s ls i : inv s ls -> (i < length (pcs s))%nat -> exists r, refs (prog s) !! i = Some r.
Proof. intros Hs Hi. apply lookup_lt_is_Some_2. by rewrite (inv_vars _ _ Hs). Qed.

Lemma var_holds s i l : zlen (Array.slots (arr s)) = Array.size (arr s) -> refs (prog s) !! i = Some (Some l) ->
  0 < holds s l.
Proof. intros Hz Hi. pose proof (refs_to_pos _ _ _ Hi). pose proof (slots_bound (arr s) l Hz). unfold holds. lia. Qed.

(** Threads that pull: none of them, or the same ones. *)
Lemma awake_pull (l : list pc) i : map awake l !! i = Some PullWait \/ map awake l !! i = Some PullWoken ->
  l !! i = Some PullWait \/ l !! i = Some PullWoken.
Proof.
  rewrite list_lookup_fmap. destruct (l !! i) as [[]|]; cbn; intros [E|E]; try done; auto.
Qed.

Lemma signal_pull w (l : list pc) i : signal w l !! i = Some PullWait \/ signal w l !! i = Some PullWoken ->
  l !! i = Some PullWait \/ l !! i = Some PullWoken.
Proof.
  unfold signal. case_decide as E; [|done]. destruct (decide (i = w)) as [->|Hne].
  - rewrite list_lookup_insert_eq by (by eapply lookup_lt_Some). by intros [?|?].
  - by rewrite list_lookup_insert_ne.
Qed.

Lemma insert_pull (i : nat) q (l : list pc) j : q <> PullWait -> q <> PullWoken ->
  <[i := q]> l !! j = Some PullWait \/ <[i := q]> l !! j = Some PullWoken ->
  j <> i /\ (l !! j = Some PullWait \/ l !! j = Some PullWoken).
Proof.
  intros H1 H2 H. destruct (decide (j = i)) as [->|Hne].
  - destruct (decide (i < length l)%nat) as [Hl|Hl].
    + rewrite list_lookup_insert_eq in H by done. destruct H; congruence.
    + rewrite lookup_ge_None_2 in H by (rewrite length_insert; lia). by destruct H.
  - split; [done|]. by rewrite !list_lookup_insert_ne in H by done.
Qed.

(** A thread that is not pulling goes to another place that is not. *)
Lemma move_inv s ls i q : inv s ls -> (i < length (pcs s))%nat ->
  ((q <> PullWait /\ q <> PullWoken) \/ refs (prog s) !! i = Some None) ->
  inv (System (prog s) (arr s) (<[i := q]> (pcs s))) ls.
Proof.
  intros [Ha Hk Hs Hm Hv Hp] Hi Hq. split; cbn; [done..| |]; [by rewrite length_insert|].
  intros j Hj. destruct (decide (j = i)) as [->|Hne].
  - destruct Hq as [[H1 H2]|Hq]; [|done]. by apply insert_pull in Hj as [? _].
  - rewrite list_lookup_insert_ne in Hj by done. by apply Hp.
Qed.

Lemma contents_full a : ring a -> (u64 (Array.size a - 1) <=? Array.count a) = (Array.size a - 1 <=? zlen (contents a)).
Proof. intros Ha. rewrite contents_length by done. destruct Ha as (_ & _ & Hs & _). by rewrite u64_id by lia. Qed.

Lemma push_effect s ls i : inv s ls -> (i < length (pcs s))%nat -> exists s' ls',
  run_push s i = Some s' /\ inv s' ls' /\ abs s' = put (Array.size (arr s) - 1) (abs s) i /\
  Array.type (arr s') = Array.type (arr s) /\ Array.size (arr s') = Array.size (arr s) /\
  survives s s'.
Proof.
  intros Hs Hi. destruct (inv_vars_some _ _ _ Hs Hi) as [r Hr]. pose proof Hs as [Ha Hk Hsd Hm Hv Hp].
  pose proof Ha as (Hty & Hz & Hsz & _ & Htl). unfold run_push. rewrite decide_False by done. rewrite Hr. run.
  unfold push_try. rewrite (contents_full _ Ha). unfold put. cbn [abs items vars places].
  destruct (Z.leb_spec (Array.size (arr s) - 1) (zlen (contents (arr s)))) as [Hf|Hf]; run.
  - do 2 eexists. split; [done|]. destruct s as [p a l]. split; [|do 3 (split; [done|]); by apply survives_same].
    by apply (move_inv _ ls); [..|left].
  - rewrite contents_length in Hf by done. rewrite Hr. cbn [default].
    destruct (store_effect s ls (Array.tail (arr s)) r Hs Htl) as (h & ls' & -> & Hs' & Hk').
    { intros l ->. by eapply var_holds. }
    run. destruct (push_ring _ r Ha ltac:(lia)) as [Ha' Hc']. eexists _, ls'. split; [done|].
    split; [|split; [unfold abs; cbn; by rewrite <- Hc'|do 2 (split; [done|]); exact Hk']].
    split; cbn; [done..| |].
    + by rewrite length_map, length_insert.
    + intros j Hj. apply awake_pull, insert_pull in Hj as [_ Hj]; [|done..]. by apply Hp.
Qed.

(** ** Taking one out *)

Definition spot (a : Array.t) : Z := match Array.type a with STACK => prev a | _ => Array.head a end.

Definition less (a : Array.t) : Array.t :=
  match Array.type a with
  | STACK => store_cell a (prev a) None (Array.head a) (prev a)
  | _ => store_cell a (Array.head a) None (next a (Array.head a)) (Array.tail a)
  end.

Lemma count_zero a : ring a -> (Array.head a =? Array.tail a) = (Array.count a =? 0).
Proof.
  intros Ha. destruct (count_range a Ha) as [Hc Ht]. destruct Ha as (_ & _ & _ & Hh & _).
  rewrite wrap in Ht by done. revert Ht. uc_cases.
Qed.

Lemma pick_empty a : ring a -> Array.head a = Array.tail a -> pick (Array.type a) (contents a) = None.
Proof.
  intros Ha E. apply Z.eqb_eq in E. rewrite count_zero in E by done. apply Z.eqb_eq in E.
  unfold contents. rewrite E. by destruct (Array.type a).
Qed.

Lemma pick_cells a : ring a -> Array.type a = STACK \/ Array.type a = QUEUE -> Array.head a <> Array.tail a ->
  0 <= spot a < Array.size a /\ ring (less a) /\
  pick (Array.type a) (contents a) = Some (nth (Z.to_nat (spot a)) (Array.slots a) None, contents (less a)).
Proof.
  intros Ha Hk E. apply Z.eqb_neq in E. rewrite count_zero in E by done. apply Z.eqb_neq in E.
  destruct (count_range a Ha) as [Hc _]. pose proof Ha as (_ & _ & Hs & Hh & Ht).
  unfold spot, less. destruct Hk as [-> | ->]; cbn [pick].
  - destruct (unpush_ring a Ha) as [Ha' Ec]; [lia|]. split; [unfold prev; uc_cases|]. split; [done|].
    by rewrite Ec, list.last_snoc, removelast_last.
  - destruct (shift_ring a Ha) as [Ha' Ec]; [lia|]. split; [done|]. split; [done|]. by rewrite Ec.
Qed.

(** The state without the object, which its reference takes or nobody. *)
Lemma less_slots a : Array.slots (less a) = <[Z.to_nat (spot a) := None]> (Array.slots a).
Proof. unfold less, spot. by destruct (Array.type a). Qed.
Lemma less_type a : Array.type (less a) = Array.type a.
Proof. unfold less. by destruct (Array.type a) eqn:E. Qed.
Lemma less_size a : Array.size (less a) = Array.size a.
Proof. unfold less. by destruct (Array.type a) eqn:E. Qed.

Lemma pull_try_spec a : ring a -> Array.type a = STACK \/ Array.type a = QUEUE ->
  pull_try a = if Array.head a =? Array.tail a then Some (a, None)
               else Some (less a, nth (Z.to_nat (spot a)) (Array.slots a) None).
Proof.
  intros Ha Hk. unfold pull_try. destruct (Z.eqb_spec (Array.head a) (Array.tail a)) as [|E]; [done|].
  destruct (pick_cells a Ha Hk E) as (Hsp & _ & _). pose proof Ha as (_ & Hz & Hs & Hh & Ht).
  unfold spot, less in *. destruct Hk as [Ek|Ek]; rewrite Ek in *.
  - fold (prev a). unfold Array.remove, Array.get. cbn [Array.size Array.with_ends Array.slots].
    destruct (Z.leb_spec (Array.size a) (prev a)); [lia|]. rewrite rd_nth by lia. run. by rewrite wr_some by lia.
  - rewrite bool_decide_false by done. cbn [andb]. unfold Array.remove, Array.get.
    destruct (Z.leb_spec (Array.size a) (Array.head a)); [lia|]. rewrite rd_nth by lia. run. rewrite wr_some by lia. run.
    unfold store_cell, next. rewrite (u64_id (Array.head a + 1)) by lia. cbn [Array.size Array.with_slots Array.tail Array.head].
    rewrite u64_id by lia. do 3 f_equal. uc_cases.
Qed.

Lemma aims_insert l i q w : aims l w -> l !! i <> Some PushWait -> q <> PushWait -> aims (<[i := q]> l) w.
Proof.
  intros Hw Hi Hq Hin. apply list_elem_of_lookup in Hin as [j Hj].
  assert (j <> i) as Hne.
  { intros ->. destruct (decide (i < length l)%nat) as [Hl|Hl].
    - rewrite list_lookup_insert_eq in Hj by done. congruence.
    - rewrite lookup_ge_None_2 in Hj by (rewrite length_insert; lia). done. }
  rewrite list_lookup_insert_ne in Hj by done.
  assert (l !! w = Some PushWait) as E by (apply Hw; by eapply list_elem_of_lookup_2).
  rewrite list_lookup_insert_ne; [done|]. intros ->. by apply Hi.
Qed.

Lemma fetch_effect s ls i w : inv s ls -> refs (prog s) !! i = Some None -> pcs s !! i <> Some PushWait ->
  aims (pcs s) w -> exists s' ls',
  run_pull s i w = Some s' /\ inv s' ls' /\ abs s' = fetch (Array.type (arr s)) (abs s) i w /\
  Array.type (arr s') = Array.type (arr s) /\ Array.size (arr s') = Array.size (arr s) /\
  heap (prog s') = heap (prog s) /\ (forall l, holds s' l = holds s l).
Proof.
  intros Hs Hi Hpc Hw. pose proof Hs as [Ha Hk Hsd Hm Hv Hp]. pose proof Ha as (Hty & Hz & Hsz & _).
  assert (i < length (pcs s))%nat as Hlt by (rewrite <- Hv; by eapply lookup_lt_Some).
  unfold run_pull. rewrite decide_False by done. rewrite pull_try_spec by done. unfold fetch. cbn [abs items vars places].
  destruct (Z.eqb_spec (Array.head (arr s)) (Array.tail (arr s))) as [E|E]; run.
  { rewrite pick_empty by done. eexists _, ls. split; [done|].
    split; [apply move_inv; [done..|by right]|by repeat split]. }
  destruct (pick_cells _ Ha Hk E) as (Hsp & Ha' & ->). set (a' := less (arr s)) in *.
  assert (forall r l, nth (Z.to_nat (spot (arr s))) (Array.slots (arr s)) None = r ->
    refs_to (<[i := r]> (refs (prog s))) l + refs_to (Array.slots a') l = holds s l) as HR.
  { intros r l Er. unfold a', holds. rewrite less_slots.
    rewrite (refs_to_insert _ _ _ _ _ (nth_slot _ _ Hz Hsp)), (refs_to_insert _ _ _ _ _ Hi), Er.
    rewrite (one_other None) by done. lia. }
  assert (forall h rs l, (forall k, refs_to rs k + refs_to (Array.slots a') k = holds s k) ->
    zlen rs = zlen (refs (prog s)) -> length rs = length l -> h = heap (prog s) ->
    (forall j, l !! j = Some PullWait \/ l !! j = Some PullWoken -> rs !! j = Some None) ->
    inv (System (Program h rs) a' l) ls) as Hinv.
  { intros h rs l HR' Hz' Hl' -> Hp'. split; cbn; [done|unfold a'; by rewrite less_type| |unfold a'; rewrite less_size; lia|done..].
    by eapply sound_ext. }
  destruct (nth (Z.to_nat (spot (arr s))) (Array.slots (arr s)) None) as [x|] eqn:Ex; run.
  - rewrite wake_signal by (apply aims_insert; done). run. eexists _, ls. split; [done|].
    split; [|do 2 (split; [first [done|apply less_type]|]); split; [apply less_size|by split; [|intros l; apply HR]]].
    apply Hinv; [intros l; by apply HR|unfold zlen; by rewrite length_insert| |done|].
    + rewrite length_insert, Hv. unfold signal. case_decide; by rewrite !length_insert.
    + intros j Hj. apply signal_pull, insert_pull in Hj as [Hne Hj]; [|done..].
      rewrite list_lookup_insert_ne by done. by apply Hp.
  - assert (forall l, refs_to (refs (prog s)) l + refs_to (Array.slots a') l = holds s l) as HR0.
    { intros l. by rewrite <- (HR None l eq_refl), list_insert_id. }
    eexists _, ls. split; [done|].
    split; [|do 2 (split; [first [done|apply less_type]|]); split; [apply less_size|by split]].
    apply (move_inv (System (prog s) a' (pcs s))); [|done|by right]. destruct s as [[h rs] a l]. by apply Hinv.
Qed.

Lemma assign_ends p a h t i r : Array.assign p (Array.with_ends a h t) i r =
  '(p, a) ← Array.assign p a i r; Some (p, Array.with_ends a h t).
Proof.
  unfold Array.assign, Array.get. cbn [Array.size Array.with_ends Array.slots]. case_match; [done|].
  repeat (match goal with |- context [?x ≫= _] => destruct x end; run; [|done]). done.
Qed.

Lemma pop_effect s ls i w : inv s ls -> aims (pcs s) w -> pcs s !! i = Some Idle ->
  effect (Array.type (arr s)) s (Pop i w) (exec s (Pop i w)).
Proof.
  intros Hs Hw Hi. pose proof Hs as [Ha Hk Hsd Hm Hv Hp]. pose proof Ha as (Hty & Hz & Hsz & Hh & Htl).
  unfold effect. cbn [exec]. rewrite Hi. unfold pop. destruct (Z.eqb_spec (Array.size (arr s)) 0); [lia|].
  destruct (Z.eqb_spec (Array.head (arr s)) (Array.tail (arr s))) as [E|E].
  - exists s, ls. split; [destruct Hk as [-> | ->]; by destruct s|]. split; [done|].
    split; [cbn [spec abs items]; by rewrite pick_empty|]. do 2 (split; [done|]). by apply survives_same.
  - destruct (pick_cells _ Ha Hk E) as (Hsp & Ha' & Epick).
    destruct (store_effect s ls (spot (arr s)) None Hs Hsp) as (h & ls' & Ea & Hs' & Hk'); [done|].
    rewrite <- less_slots in Ea, Hs', Hk'. exists (System (set_heap (prog s) h) (less (arr s)) (signal w (pcs s))), ls'.
    split; [|split; [|split; [cbn [spec abs items]; by rewrite Epick|]]].
    + unfold spot, less, prev, store_cell in *. destruct Hk as [Ek|Ek]; rewrite Ek in *; cbn [andb] in *.
      * rewrite assign_ends. fold (prev (arr s)) in *. rewrite Ea. run. by rewrite wake_signal.
      * rewrite bool_decide_false by done. cbn [andb]. rewrite Ea. run. by rewrite wake_signal.
    + split; cbn; [done|by rewrite less_type|done|by rewrite less_size| |].
      * unfold signal. by case_decide; rewrite ?length_insert.
      * intros j Hj. apply Hp. by apply signal_pull in Hj.
    + by split; [apply less_type|split; [apply less_size|exact Hk']].
Qed.

Lemma clear_inv s ls i : inv s ls -> (i < length (pcs s))%nat -> exists h ls',
  let s' := System (Program h (<[i := None]> (refs (prog s)))) (arr s) (pcs s) in
  TypeRef.clear (prog s) i = Some (prog s') /\ inv s' ls' /\ survives s s'.
Proof.
  intros Hs Hi. destruct (inv_vars_some _ _ _ Hs Hi) as [r Hr]. destruct Hs as [Ha Hk Hsd Hm Hv Hp].
  pose proof Ha as (_ & Hz & _).
  destruct (unref_spec (prog s) (holds s) ls i r Hsd Hr) as (h & ls' & E & Hs' & Hk' & _).
  { intros l ->. by eapply var_holds. }
  exists h, ls'. cbn zeta. split; [done|].
  assert (forall l, holds (System (Program h (<[i := None]> (refs (prog s)))) (arr s) (pcs s)) l = holds s l - one r l) as El.
  { intros l. unfold holds. cbn. rewrite (refs_to_insert _ _ _ _ _ Hr), (one_other None) by done. lia. }
  split.
  - split; cbn; [done..|by eapply sound_ext| | |].
    + unfold zlen in *. by rewrite length_insert.
    + by rewrite length_insert.
    + intros j Hj. destruct (decide (j = i)) as [->|Hne]; [by rewrite list_lookup_insert_eq by (rewrite Hv; done)|].
      rewrite list_lookup_insert_ne by done. by apply Hp.
  - split; [apply (shown_keeps _ _ _ _ Hk'); intros l [-> Hl]; rewrite El, one_eq; lia|].
    intros l. rewrite El. pose proof (one_bound r l). lia.
Qed.

(** Every enabled step succeeds and is that of the abstract machine. *)
Lemma arrayref_step (s : system) (ls : list loc) (e : event) : inv s ls -> enabled e (pcs s) ->
  effect (Array.type (arr s)) s e (exec s e).
Proof.
  intros Hs He. pose proof (inv_pull _ _ Hs) as Hp. destruct e as [i|i w|i w|i w|i|i]; cbn [enabled] in He.
  - unfold effect. cbn [exec spec]. rewrite He. apply (push_effect s ls); [done|by eapply lookup_lt_Some].
  - destruct He as [Hi Hw]. unfold effect. cbn [exec]. rewrite Hi.
    destruct (clear_inv s ls i Hs) as (h & ls1 & -> & Hs1 & Hk1); [by eapply lookup_lt_Some|]. run.
    set (s1 := System _ _ _) in *.
    destruct (fetch_effect s1 ls1 i w) as (s' & ls' & E & Hs' & Ha & Ht & Hz & Hk & Hl); [done| |by cbn; rewrite Hi|done|].
    { cbn. apply list_lookup_insert_eq. rewrite (inv_vars _ _ Hs). by eapply lookup_lt_Some. }
    exists s', ls'. do 5 (split; [done|]). eapply survives_trans; [exact Hk1|by apply survives_same].
  - destruct He as [Hi Hw]. by apply (pop_effect s ls).
  - unfold effect. cbn [exec spec abs places]. destruct He as [Hi|[Hi Hw]]; rewrite Hi.
    + rewrite decide_True by done. apply (push_effect s ls); [done|by eapply lookup_lt_Some].
    + rewrite decide_False by done. destruct (fetch_effect s ls i w) as (s' & ls' & E & Hs' & Ha & Ht & Hz & Hk & Hl);
        [done|by apply Hp; right|congruence|done|].
      exists s', ls'. do 5 (split; [done|]). by apply survives_same.
  - unfold effect. cbn [exec spec abs places]. destruct He as [Hi|Hi]; rewrite Hi.
    + rewrite decide_True by done. eexists _, ls. split; [done|]. split; [|do 3 (split; [done|]); by apply survives_same].
      apply move_inv; [done|by eapply lookup_lt_Some|by left].
    + rewrite decide_False by done.
      destruct (clear_inv s ls i Hs) as (h & ls1 & -> & Hs1 & Hk1); [by eapply lookup_lt_Some|]. run.
      eexists _, ls1. split; [done|]. split; [|do 3 (split; [done|]); exact Hk1].
      apply (move_inv _ ls1 i Idle) in Hs1; [done|by eapply lookup_lt_Some|by left].
  - unfold effect. cbn [exec spec abs places]. destruct He as [Hi|Hi]; rewrite Hi; eexists _, ls; (split; [done|]).
    + rewrite decide_True by done. split; [|do 3 (split; [done|]); by apply survives_same].
      apply move_inv; [done|by eapply lookup_lt_Some|by left].
    + rewrite decide_False by done. split; [|do 3 (split; [done|]); by apply survives_same].
      apply move_inv; [done|by eapply lookup_lt_Some|right; apply Hp; by left].
Qed.

(** ** No wake up is lost *)

Lemma pick_item kind l x l' : pick kind l = Some (x, l') -> zlen l = zlen l' + 1 /\
  (Forall is_Some l -> is_Some x /\ Forall is_Some l').
Proof.
  intros E. assert (l = x :: l' \/ l = l' ++ [x]) as [-> | ->].
  { revert E. unfold pick. destruct kind; [| |..]; try (destruct l; intros [= -> ->]; by left).
    destruct l as [|y l _] using rev_ind; rewrite ?list.last_snoc, ?removelast_last; [done|]. intros [= -> ->]. by right. }
  - rewrite zlen_cons, list.Forall_cons. split; [lia|done].
  - rewrite zlen_app, list.Forall_app, list.Forall_singleton. split; [done|tauto].
Qed.

Lemma pick_nothing kind l : pick kind l = None -> l = [].
Proof.
  unfold pick. destruct kind; try by destruct l.
  destruct l as [|y l _] using rev_ind; [done|]. by rewrite list.last_snoc.
Qed.

Definition pushing (c : pc) : Prop := c = PushWait \/ c = PushWoken.

(** What holds of a system in which no null object is pushed. *)
Record awaits (cap : Z) (b : abstract) : Prop := {
  aw_items : Forall is_Some (items b);
  aw_vars : forall i c, places b !! i = Some c -> pushing c -> exists l, vars b !! i = Some (Some l);
  aw_pull : PullWait ∈ places b -> items b = [];
  aw_push : PushWait ∈ places b -> cap - zlen (items b) <= cnt PushWoken (places b) }.

(** The object that is pushed is not null. *)
Definition proper (e : event) (b : abstract) : Prop :=
  match e with Push i => exists l, vars b !! i = Some (Some l) | _ => True end.

(** Moving one thread. *)
Lemma elem_insert (q c : pc) (l : list pc) i : q <> c -> q ∈ <[i := c]> l -> q ∈ l.
Proof.
  intros Hne Hin. apply list_elem_of_lookup in Hin as [j Hj]. destruct (decide (j = i)) as [->|Hji].
  - apply list_lookup_insert_Some in Hj as [(_ & ? & _)|[? _]]; done.
  - rewrite list_lookup_insert_ne in Hj by done. by eapply list_elem_of_lookup_2.
Qed.

Lemma pushing_insert b (i : nat) c (j : nat) d (vs : list (option loc)) : <[i := c]> (places b) !! j = Some d -> pushing d -> ~ pushing c ->
  (forall j, j <> i -> vs !! j = vars b !! j) ->
  (forall i c, places b !! i = Some c -> pushing c -> exists l, vars b !! i = Some (Some l)) ->
  exists l, vs !! j = Some (Some l).
Proof.
  intros Hj Hd Hc Hv Hb. apply list_lookup_insert_Some in Hj as [(-> & -> & _)|[Hne Hj]]; [done|].
  rewrite Hv by done. by eapply Hb.
Qed.

Lemma cnt_map_awake c l : c <> PullWait -> c <> PullWoken -> cnt c (map awake l) = cnt c l.
Proof.
  intros H1 H2. induction l as [|y l IH]; [done|]. cbn [map cnt]. rewrite IH. f_equal. f_equal.
  apply bool_decide_ext. by destruct y, c.
Qed.

Lemma elem_map_awake c l : c ∈ map awake l -> c <> PullWait /\ (c <> PullWoken -> c ∈ l).
Proof. intros Hin. apply list_elem_of_fmap in Hin as (y & -> & Hy). by destruct y. Qed.

Lemma put_awaits cap b i : awaits cap b -> 0 <= cap ->
  places b !! i = Some Idle /\ (exists l, vars b !! i = Some (Some l)) \/ places b !! i = Some PushWoken ->
  awaits cap (put cap b i).
Proof.
  intros [Hit Hva Hpl Hps] Hcap Hi.
  assert (exists l, vars b !! i = Some (Some l)) as [x Hx].
  { destruct Hi as [[_ Hi]|Hi]; [done|]. eapply Hva; [done|by right]. }
  assert (exists c, places b !! i = Some c /\ c <> PushWait) as (c & Hc & Hcw) by (destruct Hi as [[Hi _]|Hi]; by eexists).
  unfold put. destruct (Z.leb_spec cap (zlen (items b))) as [Hf|Hf].
  - split; cbn; [done| | |].
    + intros j d Hj Hd. apply list_lookup_insert_Some in Hj as [(-> & _ & _)|[_ Hj]]; [by exists x|by eapply Hva].
    + intros Hin. apply elem_insert in Hin; [by apply Hpl|done].
    + intros _. pose proof (cnt_nonneg PushWoken (<[i:=PushWait]> (places b))). lia.
  - rewrite Hx. cbn [default]. split; cbn.
    + apply list.Forall_app. split; [done|]. apply list.Forall_singleton. by eexists.
    + intros j d Hj Hd. rewrite list_lookup_fmap in Hj.
      destruct (<[i:=Idle]> (places b) !! j) as [y|] eqn:Ej; [|done]. cbn in Hj. injection Hj as <-.
      assert (awake y = y) as Ey by (destruct y; try done; destruct Hd as [Hd|Hd]; cbn in Hd; discriminate).
      rewrite Ey in Hd. apply (pushing_insert b i Idle j y (vars b) Ej Hd); [by intros [?|?]|done|done].
    + intros Hin. by apply elem_map_awake in Hin as [? _].
    + intros Hin. apply elem_map_awake in Hin as [_ Hin]. specialize (Hin ltac:(done)). apply elem_insert in Hin; [|done].
      specialize (Hps Hin). rewrite cnt_map_awake by done. rewrite (cnt_insert _ _ _ c) by done.
      rewrite zlen_app. change (zlen [Some x]) with 1. rewrite (bool_decide_false (Idle = PushWoken)) by done.
      destruct (bool_decide (c = PushWoken)); cbn; lia.
Qed.

Lemma signal_lookup w l j d : signal w l !! j = Some d -> l !! j = Some d \/ l !! j = Some PushWait /\ d = PushWoken.
Proof.
  unfold signal. case_decide as E; [|by left]. intros Hj.
  apply list_lookup_insert_Some in Hj as [(-> & -> & _)|[_ Hj]]; [by right|by left].
Qed.

Lemma signal_elem q w l : q ∈ signal w l -> q <> PushWoken -> q ∈ l.
Proof.
  intros Hin Hq. apply list_elem_of_lookup in Hin as [j Hj].
  destruct (signal_lookup _ _ _ _ Hj) as [Hl|[_ ->]]; [by eapply list_elem_of_lookup_2|done].
Qed.

Lemma signal_count w l : aims l w -> PushWait ∈ l -> cnt PushWoken (signal w l) = cnt PushWoken l + 1.
Proof.
  intros Hw Hin. unfold signal. rewrite decide_True by (by apply Hw). rewrite (cnt_insert _ _ _ PushWait) by (by apply Hw).
  rewrite bool_decide_false, bool_decide_true by done. cbn. lia.
Qed.

(** A place becomes free, and a thread that waits for one is woken. *)
Lemma free_awaits cap b vs l' (x : option loc) w ls : awaits cap b -> zlen (items b) = zlen l' + 1 /\
  (Forall is_Some (items b) -> is_Some x /\ Forall is_Some l') ->
  aims ls w -> (forall q, q ∈ ls -> q <> Idle -> q ∈ places b) -> cnt PushWoken ls = cnt PushWoken (places b) ->
  (forall i c, ls !! i = Some c -> pushing c -> exists l, vs !! i = Some (Some l)) ->
  awaits cap (Abs l' vs (signal w ls)).
Proof.
  intros [Hit Hva Hpl Hps] [Hz Hf] Hw Hin Hc Hvs. split; cbn.
  - by apply Hf.
  - intros j d Hj Hd. destruct (signal_lookup _ _ _ _ Hj) as [Hl|[Hl ->]]; [by eapply Hvs|].
    apply (Hvs j PushWait Hl). by left.
  - intros H. apply signal_elem in H; [|done]. apply Hin, Hpl in H; [|done]. rewrite H in Hz. cbn in Hz.
    pose proof (zlen_nonneg l'). change (zlen []) with 0 in Hz. lia.
  - intros H. apply signal_elem in H; [|done]. pose proof (Hps (Hin _ H ltac:(done))). rewrite signal_count by done. lia.
Qed.

Lemma fetch_awaits kind cap b i w c : awaits cap b -> places b !! i = Some c -> ~ pushing c -> aims (places b) w ->
  awaits cap (fetch kind (Abs (items b) (<[i := None]> (vars b)) (places b)) i w).
Proof.
  intros Hb Hi Hc Hw. pose proof Hb as [Hit Hva Hpl Hps]. unfold fetch. cbn [items vars places].
  assert (forall v j d q, ~ pushing q -> <[i := q]> (places b) !! j = Some d -> pushing d ->
    exists l, <[i := v]> (<[i := None]> (vars b)) !! j = Some (Some l)) as Hvs.
  { intros v j d q Hq Hj Hd. eapply pushing_insert; [done..| |done]. intros k Hk. by rewrite !list_lookup_insert_ne. }
  destruct (pick kind (items b)) as [[[x|] l']|] eqn:Ep.
  - apply (free_awaits cap b _ _ (Some x)); [done|by apply (pick_item kind)| | | |].
    + apply aims_insert; [done| |done]. rewrite Hi. intros [= ->]. apply Hc. by left.
    + intros q Hin Hq. by apply elem_insert in Hin.
    + rewrite (cnt_insert _ _ _ c), !bool_decide_false by (done || intros ->; apply Hc; by right). cbn. lia.
    + intros j d. apply (Hvs _ j d Idle). by intros [?|?].
  - apply pick_item in Ep as [_ [[] _]]; done.
  - apply pick_nothing in Ep. rewrite Ep. split; cbn; [done| |done|].
    + intros j d Hj Hd. rewrite <- (list_insert_insert_eq (vars b) i None None).
      apply (Hvs None j d PullWait); [by intros [?|?]|done..].
    + intros H. apply elem_insert in H; [|done]. pose proof (Hps H) as Hle. rewrite Ep in Hle.
      rewrite (cnt_insert _ _ _ c), !bool_decide_false by (done || intros ->; apply Hc; by right). cbn in *. lia.
Qed.

(** A thread stops waiting without having been given anything. *)
Lemma move_awaits cap b i c q vs : awaits cap b -> places b !! i = Some c -> q <> PushWait -> q <> PullWait ->
  c <> PushWoken -> (pushing q -> pushing c) -> (forall j, j <> i \/ pushing q -> vs !! j = vars b !! j) ->
  awaits cap (Abs (items b) vs (<[i := q]> (places b))).
Proof.
  intros [Hit Hva Hpl Hps] Hi H1 H2 H3 H4 Hv. split; cbn; [done| | |].
  - intros j d Hj Hd. apply list_lookup_insert_Some in Hj as [(-> & -> & _)|[Hne Hj]].
    + rewrite Hv by (by right). by eapply Hva; [|apply H4].
    + rewrite Hv by (left; congruence). by eapply Hva.
  - intros H. apply elem_insert in H; [|done]. by apply Hpl.
  - intros H. apply elem_insert in H; [|done]. pose proof (Hps H).
    rewrite (cnt_insert _ _ _ c), (bool_decide_false (c = _)) by done. destruct (bool_decide (q = PushWoken)); cbn; lia.
Qed.

Lemma spec_awaits kind cap b e : awaits cap b -> 0 <= cap -> enabled e (places b) -> proper e b ->
  (forall i, places b !! i = Some PullWait \/ places b !! i = Some PullWoken -> vars b !! i = Some None) ->
  awaits cap (spec kind cap b e).
Proof.
  intros Hb Hcap He Hp Hnull. pose proof Hb as [Hit Hva Hpl Hps].
  destruct e as [i|i w|i w|i w|i|i]; cbn [enabled proper spec] in *.
  - apply put_awaits; [done..|]. by left.
  - destruct He as [Hi Hw]. apply (fetch_awaits kind cap b i w Idle); [done..|by intros [?|?]|done].
  - destruct He as [Hi Hw]. destruct (pick kind (items b)) as [[x l']|] eqn:Ep; [|done].
    apply (free_awaits cap b _ _ x); [done|by apply (pick_item kind)|done..].
  - case_decide as E; [apply put_awaits; [done..|by right]|]. destruct He as [|[Hi Hw]]; [done|].
    assert (b = Abs (items b) (<[i := None]> (vars b)) (places b)) as ->.
    { rewrite list_insert_id by (apply Hnull; by right). by destruct b. }
    apply (fetch_awaits kind cap b i w PullWoken); [done..|by intros [?|?]|done].
  - case_decide as E.
    + by eapply move_awaits; [done|done|done|done|done|intros [?|?]|].
    + destruct He as [|Hi]; [done|].
      eapply move_awaits; [done|done|done|done|done|by intros [?|?]|].
      intros j [Hj|[?|?]]; [by rewrite list_lookup_insert_ne|done..].
  - case_decide as E.
    + eapply move_awaits; [done|done|done|done|done|by left|done].
    + destruct He as [|Hi]; [done|]. by eapply move_awaits; [done|done|done|done|done|intros [?|?]|].
Qed.

(** Threads that start outside, with an empty array of [n] places. *)
Definition start (p : program) (kind : arraytype) (n : Z) : option system :=
  a ← make_ref kind n; Some (System p a (replicate (length (refs p)) Idle)).

Inductive reach (s0 : system) : system -> Prop :=
  | reach_start : reach s0 s0
  | reach_next s e s' : reach s0 s -> enabled e (pcs s) -> proper e (abs s) -> exec s e = Some s' -> reach s0 s'.

Lemma start_inv p ls kind n s : ok p ls -> kind = STACK \/ kind = QUEUE -> 0 < n -> zlen (refs p) + n < 2 ^ 31 - 1 ->
  start p kind n = Some s -> inv s ls /\ awaits (n - 1) (abs s) /\ Array.size (arr s) = n.
Proof.
  intros [Hs Hz] Hk Hn Hb. unfold start, make_ref, create. destruct (Z.eqb_spec n 0); [lia|]. run. intros [= <-].
  pose proof (zlen_nonneg (refs p)).
  assert (forall k l, refs_to (replicate k None) l = 0) as H0.
  { intros k l. induction k as [|k IH]; [done|]. cbn. by rewrite one_other, IH. }
  assert (forall q j, replicate (length (refs p)) Idle !! j = Some q -> q = Idle) as Hid.
  { intros q j Hj. by apply lookup_replicate in Hj as [-> _]. }
  split; [|split; [|done]].
  - split; cbn; [| |eapply sound_ext; [done|]; intros l; unfold holds; cbn; rewrite H0; lia|lia|by rewrite length_replicate|].
    + split; [cbn; by destruct Hk as [-> | ->]|]. unfold zlen. cbn. rewrite length_replicate, decide_False; [lia|].
      by destruct Hk as [-> | ->].
    + done.
    + intros i [Hi|Hi]; by apply Hid in Hi.
  - assert (contents (Array.with_copies (Array.make kind n) 1) = []) as E.
    { unfold contents, Array.count. cbn. rewrite decide_False by (by destruct Hk as [-> | ->]). done. }
    unfold abs. cbn. rewrite E. split; cbn; [done| |done|].
    + intros i c Hi [-> | ->]; by apply Hid in Hi.
    + intros Hin. apply list_elem_of_lookup in Hin as [j Hj]. by apply Hid in Hj.
Qed.

Lemma reach_awaits n s0 s ls : inv s0 ls -> awaits (n - 1) (abs s0) -> Array.size (arr s0) = n -> 0 < n -> reach s0 s ->
  (exists ls', inv s ls') /\ awaits (n - 1) (abs s) /\ Array.size (arr s) = n.
Proof.
  intros Hi0 Ha0 Hz0 Hn. induction 1 as [|s e s' Hr IH He Hp Ex]; [by split; [eexists|]|].
  destruct IH as ((ls1 & Hi) & Ha & Hz).
  destruct (arrayref_step s ls1 e Hi He) as (s2 & ls2 & E & Hi2 & Habs & Ht & Hz2 & _).
  rewrite E in Ex. injection Ex as <-. split; [by exists ls2|]. rewrite Hz2. split; [|done].
  rewrite Habs, Hz. apply spec_awaits; [done|lia|done|done|]. cbn. intros i Hpull. by eapply inv_pull.
Qed.

(** C30.  No wake up is lost: of threads that share a queue or a stack of [n] places and
    push no null objects, a thread waits in [pull] only while the array is empty, and
    one waits in [push] only while it is full, or another one has been woken for the
    free place, which can run and returns from its [push]. *)
Theorem arrayref_progress (p : program) (ls : list loc) (kind : arraytype) (n : Z) (s0 s : system) (i : nat) :
  ok p ls -> kind = STACK \/ kind = QUEUE -> 0 < n -> zlen (refs p) + n < 2 ^ 31 - 1 -> start p kind n = Some s0 ->
  reach s0 s ->
  (pcs s !! i = Some PullWait -> Array.count (arr s) = 0) /\
  (pcs s !! i = Some PushWait -> Array.count (arr s) = n - 1 \/
    exists j s', pcs s !! j = Some PushWoken /\ exec s (Resume j 0) = Some s' /\ pcs s' !! j = Some Idle).
Proof.
  intros Hok Hk Hn Hb H0 Hr. destruct (start_inv _ _ _ _ _ Hok Hk Hn Hb H0) as (Hi0 & Ha0 & Hz0).
  destruct (reach_awaits n s0 s ls Hi0 Ha0 Hz0 Hn Hr) as ((ls' & Hi) & [Hit Hva Hpl Hps] & Hz).
  pose proof (inv_ring _ _ Hi) as Hring. pose proof (contents_length _ Hring) as Hc.
  destruct (count_range _ Hring) as [Hcr _]. cbn [abs items places vars] in *. split.
  - intros E. rewrite <- Hc, Hpl; [done|by eapply list_elem_of_lookup_2].
  - intros E. destruct (decide (Array.count (arr s) = n - 1)) as [|Hne]; [by left|right].
    assert (0 < cnt PushWoken (pcs s)) as Hw.
    { pose proof (Hps ltac:(by eapply list_elem_of_lookup_2)). lia. }
    apply cnt_pos, list_elem_of_lookup in Hw as [j Hj].
    destruct (arrayref_step s ls' (Resume j 0) Hi ltac:(by left)) as (s' & ls2 & E' & _ & Habs & _).
    exists j, s'. split; [done|]. split; [done|]. apply (f_equal places) in Habs. cbn [abs places spec] in Habs.
    rewrite decide_True in Habs by done. unfold put in Habs. cbn [abs items places vars] in Habs.
    destruct (Z.leb_spec (Array.size (arr s) - 1) (zlen (contents (arr s)))); [lia|]. cbn [places] in Habs.
    rewrite Habs, list_lookup_fmap, list_lookup_insert_eq by (by eapply lookup_lt_Some). done.
Qed.

(** Events that can happen one after the other, by the abstract machine. *)
Fixpoint follows (kind : arraytype) (cap : Z) (b : abstract) (es : list event) : Prop :=
  match es with [] => True | e :: es => enabled e (places b) /\ follows kind cap (spec kind cap b e) es end.

Fixpoint play (s : system) (es : list event) : option system :=
  match es with [] => Some s | e :: es => s ← exec s e; play s es end.

(** C29.  Threads that share a queue or a stack do to it what they would do to a list:
    [push] adds behind the last object or waits while the array is full, [pull] gives
    the first object of a queue and the last one of a stack or waits while there is
    none, [pop] drops that object, and signals and broadcasts wake the threads they are
    for.  Every order of enabled steps can be made; the counts stay exact, so that no
    object is freed that a thread or the array refers to, and none of these changes. *)
Theorem arrayref_refines (es : list event) (s : system) (ls : list loc) :
  let kind := Array.type (arr s) in
  let cap := Array.size (arr s) - 1 in
  inv s ls -> follows kind cap (abs s) es ->
  exists s' ls', play s es = Some s' /\ abs s' = fold_left (spec kind cap) es (abs s) /\ inv s' ls' /\ survives s s'.
Proof.
  revert s ls. induction es as [|e es IH]; intros s ls kind cap Hs; cbn [follows play fold_left].
  - intros _. exists s, ls. do 3 (split; [done|]). by apply survives_same.
  - intros [He Hf]. destruct (arrayref_step s ls e Hs He) as (s1 & ls1 & -> & Hs1 & Ha & Ht & Hz & Hk).
    unfold kind, cap in *. rewrite <- Ha in *. rewrite <- Ht, <- Hz in Hf |- *. run.
    destruct (IH s1 ls1 Hs1 Hf) as (s2 & ls2 & -> & Ha2 & Hs2 & Hk2). exists s2, ls2.
    do 3 (split; [done|]). by eapply survives_trans.
Qed.

(** ** Scenes *)

(** Thread 0 fills a queue of one place, 2 and 3 wait, 1 takes the object and wakes 2. *)
Definition first : system := default (System sample (Array.make QUEUE 2) []) (start sample QUEUE 2).
Definition scene : list event := [Push 0; Push 2; Push 3; Pull 1 2].

Definition at_step (k : nat) : system := default first (play first (list.take k scene)).

Lemma scene_reach : reach first (at_step 4).
Proof.
  apply (reach_next first (at_step 3) (Pull 1 2)); [|by split; [|intros _]|done|by vm_compute].
  apply (reach_next first (at_step 2) (Push 3)); [|done|by eexists|by vm_compute].
  apply (reach_next first (at_step 1) (Push 2)); [|done|by eexists|by vm_compute].
  apply (reach_next first first (Push 0)); [apply reach_start|done|by eexists|by vm_compute].
Qed.

Lemma arrayref_progress_witness : pcs (at_step 4) = [Idle; Idle; PushWoken; PushWait] /\
  (Array.count (arr (at_step 4)) = 1 \/
    exists j s', pcs (at_step 4) !! j = Some PushWoken /\ exec (at_step 4) (Resume j 0) = Some s' /\ pcs s' !! j = Some Idle).
Proof.
  split; [vm_compute; reflexivity|].
  exact (proj2 (arrayref_progress sample [] QUEUE 2 first (at_step 4) 3 sample_refs_ok (or_intror eq_refl) eq_refl
    eq_refl eq_refl scene_reach) eq_refl).
Defined.

Lemma first_inv : inv first [].
Proof. by destruct (start_inv sample [] QUEUE 2 first sample_refs_ok (or_intror eq_refl) eq_refl eq_refl eq_refl) as [H _]. Qed.

Lemma arrayref_refines_witness : exists s' ls', play first scene = Some s' /\
  abs s' = fold_left (spec QUEUE 1) scene (abs first) /\ inv s' ls' /\ survives first s'.
Proof.
  apply (arrayref_refines scene first []); [exact first_inv|].
  repeat split; try reflexivity; by intros _.
Defined.

(** ** What else the code does *)

(** [clear] and [reset] to a null reference do nothing. *)
Lemma clear_nothing p ref : clear p ref = Some (p, ref, NoWake).
Proof. unfold clear, reset. destruct ref as [a|]; [|done]. by rewrite bool_decide_true, orb_true_r by done. Qed.

(** The last object of an array with a fall back is pulled without being counted: the
    count is that of the array's own reference. *)
Definition fallback : system :=
  System (Program (Store {[ 1%positive := Counted.Mk 1 (autorelease (Some auto_release)) 1 (bytes "z" ++ [0]) ]} None []) [None])
    (Array.Mk [Some 1%positive; None; None] 0 1 FALLBACK 3 1) [Idle].

Example fallback_uncounted : exists s, exec fallback (Pull 0 0) = Some s /\ refs (prog s) = [Some 1%positive] /\
  contents (arr s) = [Some 1%positive] /\ copies (prog s) 0 = Some 1.
Proof. eexists. split; [vm_compute; reflexivity|]. by vm_compute. Qed.

(** An index counts from the head, but an object behind it is not found when the ring
    goes round. *)
Example get_wrapped : let a := Array.Mk [None; None; Some 1%positive] 2 0 QUEUE 3 1 in
  contents a = [Some 1%positive] /\ get_at (Some a) 0 = Some None.
Proof. by vm_compute. Qed.

(** A null array is dereferenced. *)
Example resize_zero p a : resize p (Some a) 0 = None.
Proof. reflexivity. Qed.

(** [reset] gives an array with a fall back an object and leaves the threads in [pull]
    waiting. *)
Example reset_pull : reset (prog fallback) (Some (Array.Mk [None; None; None] 0 0 FALLBACK 3 1)) (Some 1%positive) =
    Some (set_heap (prog fallback) (Store {[ 1%positive := Counted.Mk 2 (autorelease (Some auto_release)) 1 (bytes "z" ++ [0]) ]} None []),
      Some (Array.Mk [Some 1%positive; None; None] 0 1 FALLBACK 3 1), Signal) /\
  wake Signal 0 [PullWait] = Some [PullWait].
Proof. by vm_compute. Qed.

(** A null object is taken out and nobody is told that its place is free. *)
Example pull_null : exec (System (Program (Store ∅ None []) [None; None]) (Array.Mk [None; None] 0 1 QUEUE 2 1) [Idle; PushWait]) (Pull 0 1) =
  Some (System (Program (Store ∅ None []) [None; None]) (Array.Mk [None; None] 1 1 QUEUE 2 1) [PullWait; PushWait]).
Proof. by vm_compute. Qed.
