(* ===== verification/Persist.v ===== *)
(** * Persistence of object graphs (commoncpp/persist.cpp)

    A program's persistent objects are a store; an object is what its class writes and
    reads one after the other: plain values as their bytes in memory, strings, pointers
    to objects and vectors of these.  The methods [write] and [read] of the classes are
    the program's; the model takes that both go through the members in the same order,
    which is what the engine asks of them.  The host stores words with the low byte first.

    The stream takes everything that is written; a read past the end of the input gives
    what is left and spoils the stream. *)

From stdpp Require Import gmap list strings.
From S2P Require Import Prelude CLib StringObj.

Definition address := positive.

(** [Vec] has the element that [resize] makes. *)
Inductive member :=
  | Num (b : list Z) | Str (s : list Z) | Ptr (p : option address) | Vec (d : member) (l : list member).

Record object := Object { persistence_id : list Z; members : list member }.

(** ** The types of a program *)

Module TypeManager.

(** A class is what its constructor makes; no map while nothing is registered. *)
Record t := Mk { functions : option (gmap (list Z) (list member)); refCount : Z }.

Definition init : t := Mk None 0.

(** A failed assertion is [None]. *)
Definition add (m : t) (name : list Z) (construction : list member) : option t :=
  let fs := if refCount m =? 0 then Some ∅ else functions m in
  fs ← fs;
  match fs !! name with
  | Some _ => None
  | None => Some (Mk (Some (<[name := construction]> fs)) (refCount m + 1))
  end.

Definition remove (m : t) (name : list Z) : option t :=
  fs ← functions m;
  _ ← fs !! name;
  let n := refCount m - 1 in
  Some (Mk (if n =? 0 then None else Some (delete name fs)) n).

Definition createInstanceOf (m : t) (name : list Z) : option (list member) :=
  if refCount m =? 0 then None else fs ← functions m; fs !! name.

End TypeManager.

(** ** The engine *)

Module PersistEngine.

Inductive mode := modeRead | modeWrite.

Record engine := Engine {
  stream : list Z; good : bool; opmode : mode;
  archiveVector : list address; archiveMap : gmap address Z;
  classVector : list (list Z); classMap : gmap (list Z) Z }.

(** The engine and the objects of the program. *)
Record world := World { eng : engine; objects : gmap address object; types : TypeManager.t }.

Definition make (s : list Z) (m : mode) : engine := Engine s true m [] ∅ [] ∅.

(** A call ends, throws a [PersistException] or leaves what C++ defines; [OutOfFuel] is
    no outcome of the code, but that the fuel of the model was not enough. *)
Inductive outcome (A : Type) :=
  | Ok (a : A) (w : world) | Throw (reason : string) (w : world) | Undefined | OutOfFuel.
Arguments Ok {A} _ _.
Arguments Throw {A} _ _.
Arguments Undefined {A}.
Arguments OutOfFuel {A}.

Definition bind {A B} (r : outcome A) (f : A -> world -> outcome B) : outcome B :=
  match r with Ok a w => f a w | Throw s w => Throw s w | Undefined => Undefined | OutOfFuel => OutOfFuel end.

Definition of_option {A B} (o : option A) (f : A -> outcome B) : outcome B :=
  match o with Some a => f a | None => Undefined end.

Definition with_stream (e : engine) (s : list Z) (g : bool) : engine :=
  Engine s g (opmode e) (archiveVector e) (archiveMap e) (classVector e) (classMap e).
Definition set_stream (w : world) (s : list Z) (g : bool) : world := World (with_stream (eng w) s g) (objects w) (types w).
Definition set_object (w : world) (l : address) (o : object) : world := World (eng w) (<[l := o]> (objects w)) (types w).
Definition with_archive (e : engine) (v : list address) (m : gmap address Z) : engine :=
  Engine (stream e) (good e) (opmode e) v m (classVector e) (classMap e).
Definition with_classes (e : engine) (v : list (list Z)) (m : gmap (list Z) Z) : engine :=
  Engine (stream e) (good e) (opmode e) (archiveVector e) (archiveMap e) v m.
Definition set_engine (w : world) (e : engine) : world := World e (objects w) (types w).

Definition NullObject : Z := 0xffffffff.

(** *** Binary data *)

Definition writeBinary (w : world) (data : list Z) : outcome unit :=
  match opmode (eng w) with
  | modeRead => Throw "Cannot write to an input Engine" w
  | modeWrite => Ok tt (set_stream w (stream (eng w) ++ data) (good (eng w)))
  end.

(** The bytes that arrive, the first ones of the variable. *)
Definition readBinary (w : world) (size : Z) : outcome (list Z) :=
  match opmode (eng w) with
  | modeWrite => Throw "Cannot read from an output Engine" w
  | modeRead =>
      if good (eng w) then
        let s := stream (eng w) in
        Ok (take (Z.to_nat size) s) (set_stream w (drop (Z.to_nat size) s) (size <=? zlen s))
      else Ok [] w
  end.

(** A word of 32 bits in memory. *)
Definition word (z : Z) : list Z :=
  [z mod 256; z / 2 ^ 8 mod 256; z / 2 ^ 16 mod 256; z / 2 ^ 24 mod 256].

Fixpoint unword (b : list Z) : Z := match b with [] => 0 | x :: b => x + 256 * unword b end.

Definition overlay (old got : list Z) : list Z := got ++ drop (length got) old.

Definition write_word (w : world) (z : Z) : outcome unit := writeBinary w (word z).

(** The variable is initialised with 0. *)
Definition read_word (w : world) : outcome Z :=
  bind (readBinary w 4) (fun got w => Ok (unword (overlay [0; 0; 0; 0] got)) w).

(** The size of a vector is read into a variable that is not initialised: unless all of
    its bytes arrive, what is used is an indeterminate value. *)
Definition read_size (w : world) : outcome Z :=
  bind (readBinary w 4) (fun got w => if zlen got =? 4 then Ok (unword got) w else Undefined).

Definition write_string (w : world) (s : list Z) : outcome unit :=
  bind (write_word w (u32 (zlen s))) (fun _ w => writeBinary w s).

Section memory.
Context `{Malloc}.

(** The length of the new block is computed with 32 bits; the string ends at the first
    null byte. *)
Definition read_string (w : world) : outcome (list Z) :=
  bind (read_word w) (fun len w =>
    let buffer := junk (u32 (len + 1)) in
    bind (readBinary w len) (fun got w =>
      of_option (blit buffer 0 got) (fun buffer =>
      of_option (wr buffer len 0) (fun buffer =>
      of_option (cstr buffer) (fun s => Ok s w))))).

(** *** Members *)

(** [self] writes or reads a pointer. *)
Fixpoint write_member (self : world -> option address -> outcome unit) (w : world) (m : member) {struct m} : outcome unit :=
  match m with
  | Num b => writeBinary w b
  | Str s => write_string w s
  | Ptr p => self w p
  | Vec _ l =>
      bind (write_word w (u32 (zlen l))) (fun _ w =>
        (fix go (l : list member) (w : world) : outcome unit :=
          match l with [] => Ok tt w | x :: l => bind (write_member self w x) (fun _ w => go l w) end) l w)
  end.

Fixpoint write_members (self : world -> option address -> outcome unit) (w : world) (l : list member) : outcome unit :=
  match l with [] => Ok tt w | x :: l => bind (write_member self w x) (fun _ w => write_members self w l) end.

(** What a member of the object is read over. *)
Fixpoint read_member (self : world -> option address -> outcome (option address)) (w : world) (m : member) {struct m}
  : outcome member :=
  match m with
  | Num b => bind (readBinary w (zlen b)) (fun got w => Ok (Num (overlay b got)) w)
  | Str _ => bind (read_string w) (fun s w => Ok (Str s) w)
  | Ptr p => bind (self w p) (fun p w => Ok (Ptr p) w)
  | Vec d _ =>
      bind (read_size w) (fun size w =>
        bind ((fix go (n : nat) (w : world) : outcome (list member) :=
          match n with
          | O => Ok [] w
          | S n => bind (read_member self w d) (fun x w => bind (go n w) (fun l w => Ok (x :: l) w))
          end) (Z.to_nat size) w) (fun l w => Ok (Vec d l) w))
  end.

(** The members of the object at [l] from [i] on. *)
Fixpoint read_members (self : world -> option address -> outcome (option address)) (w : world) (l : address) (i n : nat)
  : outcome unit :=
  match n with
  | O => Ok tt w
  | S n =>
      of_option (objects w !! l) (fun o =>
      of_option (members o !! i) (fun m =>
      bind (read_member self w m) (fun m w =>
      of_option (objects w !! l) (fun o =>
        read_members self (set_object w l (Object (persistence_id o) (<[i := m]> (members o)))) l (S i) n))))
  end.

(** *** Objects *)

Definition write_class (w : world) (name : list Z) : outcome unit :=
  match classMap (eng w) !! name with
  | None =>
      let classId := u32 (Z.of_nat (size (classMap (eng w)))) in
      let w := set_engine w (with_classes (eng w) (classVector (eng w)) (<[name := s32 classId]> (classMap (eng w)))) in
      bind (write_word w classId) (fun _ w => write_string w name)
  | Some id => write_word w id
  end.

Definition write_object (self : world -> option address -> outcome unit) (w : world) (object : option address) : outcome unit :=
  match object with
  | None => write_word w NullObject
  | Some l =>
      match archiveMap (eng w) !! l with
      | Some id => write_word w id
      | None =>
          of_option (objects w !! l) (fun o =>
          let id := u32 (Z.of_nat (size (archiveMap (eng w)))) in
          let w := set_engine w (with_archive (eng w) (archiveVector (eng w)) (<[l := s32 id]> (archiveMap (eng w)))) in
          bind (write_word w id) (fun _ w =>
          bind (write_class w (persistence_id o)) (fun _ w =>
          bind (write_string w (bytes "OBST")) (fun _ w =>
          bind (write_members self w (members o)) (fun _ w =>
          write_string w (bytes "OBEN"))))))
      end
  end.

(** The recursion goes one object deeper with every step of the fuel. *)
Fixpoint write (fuel : nat) (w : world) (object : option address) : outcome unit :=
  match fuel with O => OutOfFuel | S n => write_object (write n) w object end.

Definition readClass (w : world) : outcome (list Z) :=
  bind (read_word w) (fun classId w =>
    if classId <? zlen (classVector (eng w)) then
      of_option (classVector (eng w) !! Z.to_nat classId) (fun name => Ok name w)
    else
      bind (read_string w) (fun name w =>
        Ok name (set_engine w (with_classes (eng w) (classVector (eng w) ++ [name]) (classMap (eng w)))))).

Definition check (w : world) (mark : string) (reason : string) : outcome unit :=
  bind (read_string w) (fun s w => if bool_decide (s = bytes mark) then Ok tt w else Throw reason w).

Definition readObject (self : world -> option address -> outcome (option address)) (w : world) (l : address) : outcome unit :=
  let w := set_engine w (with_archive (eng w) (archiveVector (eng w) ++ [l]) (archiveMap (eng w))) in
  bind (check w "OBST" "Missing Start-of-Object marker") (fun _ w =>
  of_option (objects w !! l) (fun o =>
  bind (read_members self w l 0 (length (members o))) (fun _ w =>
  check w "OBEN" "Missing End-of-Object marker"))).

(** [read] of a pointer, which may have an object already. *)
Definition read_object (self : world -> option address -> outcome (option address)) (w : world) (object : option address)
  : outcome (option address) :=
  bind (read_word w) (fun id w =>
    if id =? NullObject then Ok None w
    else if id <? zlen (archiveVector (eng w)) then
      of_option (archiveVector (eng w) !! Z.to_nat id) (fun l => Ok (Some l) w)
    else
      bind (readClass w) (fun className w =>
        match object with
        | Some l => bind (readObject self w l) (fun _ w => Ok (Some l) w)
        | None =>
            of_option (TypeManager.createInstanceOf (types w) className) (fun ms =>
              let l := fresh (dom (objects w)) in
              bind (readObject self (set_object w l (Object className ms)) l) (fun _ w => Ok (Some l) w))
        end)).

Fixpoint read (fuel : nat) (w : world) (object : option address) : outcome (option address) :=
  match fuel with O => OutOfFuel | S n => read_object (read n) w object end.

(** [read] of a reference.  An object that has been read is assigned as a
    [PersistObject], which has no members. *)
Definition read_reference (fuel : nat) (w : world) (object : address) : outcome unit :=
  bind (read_word w) (fun id w =>
    if id =? NullObject then Throw "Object Id should not be NULL when un-persisting to a reference" w
    else if id <? zlen (archiveVector (eng w)) then
      of_option (archiveVector (eng w) !! Z.to_nat id) (fun _ => Ok tt w)
    else bind (readClass w) (fun _ w => readObject (read fuel) w object)).

End memory.

End PersistEngine.
