(* ===== verification/PersistLaws.v ===== *)
(** * What is written is read back: the persistence of object graphs

    The reader of a stream follows its writer: the object with the number [k] in the
    writer's map is the one at [k] in the reader's vector. *)

From stdpp Require Import gmap list strings.
From S2P Require Import Prelude CLib StringObj Persist.
Import PersistEngine.

(** ** Bytes *)

Lemma word_length z : zlen (word z) = 4.
Proof. done. Qed.

Lemma word_unword z : 0 <= z < 2 ^ 32 -> unword (word z) = z.
Proof.
  intros Hz. unfold word, unword. rewrite Z.mul_0_r, Z.add_0_r.
  rewrite (Z.mod_small (z / 2 ^ 24)) by (split; [apply Z.div_pos; lia|apply Z.div_lt_upper_bound; lia]).
  assert (forall a, a mod 256 + 256 * (a / 256) = a) as E by (intros a; pose proof (Z.div_mod a 256); lia).
  replace (2 ^ 24) with (2 ^ 16 * 256) by done. rewrite <- Z.div_div, E by lia.
  replace (2 ^ 16) with (2 ^ 8 * 256) by done. rewrite <- Z.div_div, E by lia.
  replace (2 ^ 8) with (1 * 256) by done. rewrite <- Z.div_div, Z.div_1_r, E by lia. done.
Qed.

(** The type of the numbers in the maps does not matter for what is written. *)
Lemma word_s32 z : 0 <= z < 2 ^ 32 -> word (s32 z) = word z.
Proof.
  intros Hz. unfold s32. destruct (Z.ltb_spec z (2 ^ 31)) as [Hl|Hl]; [by rewrite Z.mod_small by lia; f_equal; f_equal; lia|].
  replace ((z + 2 ^ 31) mod 2 ^ 32 - 2 ^ 31) with (z + (-1) * 2 ^ 32).
  2: { replace (z + 2 ^ 31) with (z - 2 ^ 31 + 1 * 2 ^ 32) by lia. rewrite Z_mod_plus_full, Z.mod_small by lia. lia. }
  unfold word. replace ((-1) * 2 ^ 32) with ((- 2 ^ 24) * 256) at 1 by done. rewrite Z_mod_plus_full. f_equal.
  replace ((-1) * 2 ^ 32) with ((- 2 ^ 24) * 2 ^ 8) at 1 by done. rewrite Z_div_plus_full by lia.
  replace (- 2 ^ 24) with ((- 2 ^ 16) * 256) by done. rewrite Z_mod_plus_full. f_equal.
  replace ((-1) * 2 ^ 32) with ((- 2 ^ 16) * 2 ^ 16) at 1 by done. rewrite Z_div_plus_full by lia.
  replace (- 2 ^ 16) with ((- 2 ^ 8) * 256) by done. rewrite Z_mod_plus_full. f_equal.
  replace ((-1) * 2 ^ 32) with ((- 2 ^ 8) * 2 ^ 24) by done. rewrite Z_div_plus_full by lia.
  replace (- 2 ^ 8) with ((-1) * 256) by done. by rewrite Z_mod_plus_full.
Qed.

Lemma overlay_all old got : length old = length got -> overlay old got = got.
Proof. intros E. unfold overlay. rewrite <- E, drop_all. apply app_nil_r. Qed.

(** An engine that writes, and one that reads and has not failed. *)
Definition writes (w : world) : Prop := opmode (eng w) = modeWrite.
Definition reads (v : world) (s : list Z) : Prop := opmode (eng v) = modeRead /\ good (eng v) = true /\ stream (eng v) = s.

Definition wrote (w : world) (b : list Z) : world := set_stream w (stream (eng w) ++ b) (good (eng w)).
Definition advance (v : world) (k : list Z) : world := set_stream v k true.

Lemma advance_advance v k k' : advance (advance v k) k' = advance v k'.
Proof. done. Qed.

Lemma wrote_wrote w b b' : wrote (wrote w b) b' = wrote w (b ++ b').
Proof. unfold wrote, set_stream, with_stream. cbn. by rewrite app_assoc. Qed.

Lemma writeBinary_wrote w b : writes w -> writeBinary w b = Ok tt (wrote w b).
Proof. intros E. unfold writeBinary. by rewrite E. Qed.

Lemma readBinary_ok v b k n : reads v (b ++ k) -> zlen b = n -> readBinary v n = Ok b (advance v k).
Proof.
  intros (Em & Eg & Es) <-. unfold readBinary. rewrite Em, Eg, Es, zlen_to_nat.
  rewrite take_app_length, drop_app_length, zlen_app. pose proof (zlen_nonneg k).
  destruct (Z.leb_spec (zlen b) (zlen b + zlen k)); [done|lia].
Qed.

Lemma read_word_ok v z k : reads v (word z ++ k) -> 0 <= z < 2 ^ 32 -> read_word v = Ok z (advance v k).
Proof.
  intros Hv Hz. unfold read_word. rewrite (readBinary_ok v (word z) k) by done. cbn [bind].
  rewrite overlay_all, word_unword by done. done.
Qed.

Lemma read_size_ok v z k : reads v (word z ++ k) -> 0 <= z < 2 ^ 32 -> read_size v = Ok z (advance v k).
Proof.
  intros Hv Hz. unfold read_size. rewrite (readBinary_ok v (word z) k) by done. cbn [bind].
  rewrite word_length. change (4 =? 4) with true. cbv iota. by rewrite word_unword.
Qed.

Lemma reads_advance v s k : reads v s -> reads (advance v k) k.
Proof. intros (Em & _). done. Qed.

(** A string of the program, which has no null byte and a length the engine can store. *)
Definition text (s : list Z) : Prop := nonul s /\ zlen s < 2 ^ 32 - 1.

Definition coded (s : list Z) : list Z := word (zlen s) ++ s.

Lemma write_string_wrote w s : writes w -> zlen s < 2 ^ 32 -> write_string w s = Ok tt (wrote w (coded s)).
Proof.
  intros Hw Hs. unfold write_string, write_word. rewrite u32_id by (pose proof (zlen_nonneg s); lia).
  rewrite writeBinary_wrote by done. cbn [bind]. rewrite writeBinary_wrote by done. by rewrite wrote_wrote.
Qed.

Section memory.
Context `{Malloc}.

Lemma read_string_ok v s k : reads v (coded s ++ k) -> text s -> read_string v = Ok s (advance v k).
Proof.
  intros Hv [Hn Hl]. pose proof (zlen_nonneg s) as H0. unfold read_string, coded in *. rewrite <- app_assoc in Hv.
  rewrite (read_word_ok v _ (s ++ k)) by (done || lia). cbn [bind]. rewrite u32_id by lia.
  rewrite (readBinary_ok (advance v (s ++ k)) s k) by (done || by eapply reads_advance). cbn [bind].
  pose proof (junk_length (zlen s + 1) ltac:(lia)) as Hj.
  assert (exists j c, junk (zlen s + 1) = j ++ [c] /\ zlen j = zlen s) as (j & c & -> & Ej).
  { destruct (junk (zlen s + 1)) as [|c j _] using rev_ind; [change (zlen []) with 0 in Hj; lia|].
    rewrite zlen_app in Hj. change (zlen [c]) with 1 in Hj. exists j, c. split; [done|lia]. }
  assert (length j = length s) as El by (unfold zlen in Ej; lia).
  rewrite (blit_mid [] j s [c] 0 eq_refl (eq_sym El) : blit (j ++ [c]) 0 s = _). cbn [of_option].
  change ([] ++ s ++ [c]) with (s ++ [c]). rewrite wr_app_r by done. cbn [of_option].
  rewrite cstr_app by done. cbn [of_option]. by rewrite advance_advance.
Qed.

End memory.

(** ** Classes of members *)

Lemma member_ind_deep (P : member -> Prop) : (forall b, P (Num b)) -> (forall s, P (Str s)) -> (forall p, P (Ptr p)) ->
  (forall d l, P d -> Forall P l -> P (Vec d l)) -> forall m, P m.
Proof.
  intros Hn Hs Hp Hv. fix go 1. intros [b|s|p|d l]; [apply Hn|apply Hs|apply Hp|].
  apply Hv; [apply go|]. induction l as [|x l IH]; constructor; [apply go|exact IH].
Qed.

(** A member that the class makes as [t]; its pointers are in [D]. *)
Fixpoint fits (D : address -> Prop) (m t : member) {struct m} : Prop :=
  match m, t with
  | Num b, Num b' => zlen b' = zlen b
  | Str s, Str _ => text s
  | Ptr p, Ptr None => forall l, p = Some l -> D l
  | Vec d l, Vec d' _ =>
      d' = d /\ zlen l < 2 ^ 32 /\ (fix all (l : list member) := match l with [] => True | x :: l => fits D x d /\ all l end) l
  | _, _ => False
  end.

Lemma fits_vec D d l d' l' : fits D (Vec d l) (Vec d' l') -> d' = d /\ zlen l < 2 ^ 32 /\ Forall (fun x => fits D x d) l.
Proof.
  cbn [fits]. intros (E & Hl & Hf). split; [done|]. split; [done|]. clear Hl E.
  induction l as [|x l IH]; constructor; [apply Hf|]. apply IH, Hf.
Qed.

(** The same member but for the addresses of the objects. *)
Fixpoint same (R : address -> address -> Prop) (m m' : member) {struct m} : Prop :=
  match m, m' with
  | Num b, Num b' => b' = b
  | Str s, Str s' => s' = s
  | Ptr None, Ptr None => True
  | Ptr (Some l), Ptr (Some l') => R l l'
  | Vec d l, Vec d' l' =>
      d' = d /\ (fix all (l l' : list member) :=
        match l, l' with [], [] => True | x :: l, x' :: l' => same R x x' /\ all l l' | _, _ => False end) l l'
  | _, _ => False
  end.

Lemma same_vec R d l l' : same R (Vec d l) (Vec d l') <-> Forall2 (same R) l l'.
Proof.
  cbn [same]. split.
  - intros [_ Ha]. revert l' Ha. induction l as [|x l IH]; intros [|x' l'] Ha; try done; constructor; [apply Ha|apply IH, Ha].
  - intros Hf. split; [done|]. induction Hf; done.
Qed.

Lemma same_mono (R S : address -> address -> Prop) : (forall l l', R l l' -> S l l') -> forall m m', same R m m' -> same S m m'.
Proof.
  intros HRS m. induction m as [b|s|p|d l _ IH] using member_ind_deep; intros [b'|s'|p'|d' l']; try done.
  - destruct p, p'; cbn; try done. apply HRS.
  - intros Hs. assert (d' = d) as -> by apply Hs. rewrite same_vec in Hs |- *.
    revert IH. induction Hs as [|x x' l l' Hx Hl IHl]; intros IH; [constructor|].
    apply list.Forall_cons in IH as [Hi IH]. constructor; [by apply Hi|by apply IHl].
Qed.

(** ** The writer and its reader *)

Abbreviation ids w := (archiveMap (eng w)).
Abbreviation names w := (classMap (eng w)).
Abbreviation seen v := (archiveVector (eng v)).
Abbreviation known v := (classVector (eng v)).

(** The programs that can be persisted: their objects are made of members that fit what
    the constructor of their class makes. *)
Record persistable (h : gmap address object) (T : TypeManager.t) : Prop := {
  per_size : Z.of_nat (size h) < 2 ^ 32 - 1;
  per_object : forall l o, h !! l = Some o -> text (persistence_id o) /\
    exists ts, TypeManager.createInstanceOf T (persistence_id o) = Some ts /\
      Forall2 (fits (fun l => is_Some (h !! l))) (members o) ts }.

Definition numbered {A} `{Countable A} (m : gmap A Z) : Prop :=
  forall x z, m !! x = Some z -> exists k, (k < size m)%nat /\ z = s32 (Z.of_nat k).

Record writer (w : world) : Prop := {
  wr_mode : writes w;
  wr_objects : persistable (objects w) (types w);
  wr_dom : forall l, is_Some (ids w !! l) -> is_Some (objects w !! l);
  wr_ids : numbered (ids w);
  wr_inj : forall l l' z, ids w !! l = Some z -> ids w !! l' = Some z -> l = l';
  wr_names : numbered (names w);
  wr_count : (size (names w) <= size (ids w))%nat }.

(** What the writer calls [l] is [l'] for the reader. *)
Definition named (w v : world) (l l' : address) : Prop :=
  exists k, ids w !! l = Some (s32 (Z.of_nat k)) /\ seen v !! k = Some l'.

Record classes (w v : world) : Prop := {
  cl_size : length (known v) = size (names w);
  cl_known : forall c k, names w !! c = Some (s32 (Z.of_nat k)) -> (k < size (names w))%nat -> known v !! k = Some c }.

Record reader (w v : world) : Prop := {
  rd_types : types v = types w;
  rd_classes : classes w v;
  rd_size : length (seen v) = size (ids w);
  rd_distinct : NoDup (seen v);
  rd_dom : forall l', l' ∈ seen v -> is_Some (objects v !! l') }.

(** The writer goes from [w] to [w'] and writes [b]. *)
Record grows (w w' : world) (b : list Z) : Prop := {
  gr_objects : objects w' = objects w;
  gr_types : types w' = types w;
  gr_stream : stream (eng w') = stream (eng w) ++ b;
  gr_ids : ids w ⊆ ids w';
  gr_writer : writer w' }.

Record extends (v v' : world) : Prop := {
  ex_types : types v' = types v;
  ex_seen : seen v `prefix_of` seen v' }.

(** The objects that were written between [w] and [w'] are new ones of the reader. *)
Definition complete (w w' v v' : world) : Prop :=
  forall l, is_Some (ids w' !! l) -> ids w !! l = None -> exists l' o o',
    named w' v' l l' /\ objects v !! l' = None /\ objects w' !! l = Some o /\ objects v' !! l' = Some o' /\
    persistence_id o' = persistence_id o /\ Forall2 (same (named w' v')) (members o) (members o').

(** A reader of the bytes [b] that were written from [w] to [w'], and what it gives. *)
Definition receives {A} (w w' : world) (b : list Z) (v : world) (r : outcome A) (R : world -> A -> Prop) : Prop :=
  forall k, reads v (b ++ k) -> exists a v', r = Ok a v' /\ reads v' k /\ reader w' v' /\ extends v v' /\
    objects v ⊆ objects v' /\ complete w w' v v' /\ R v' a.

Lemma numbered_s32 k n : Z.of_nat n < 2 ^ 32 -> (k < n)%nat -> word (s32 (Z.of_nat k)) = word (Z.of_nat k).
Proof. intros Hn Hk. apply word_s32. lia. Qed.

Lemma named_mono w w' v v' l l' : ids w ⊆ ids w' -> seen v `prefix_of` seen v' -> named w v l l' -> named w' v' l l'.
Proof.
  intros Hm Hp (k & Hl & Hv). exists k. split; [by eapply lookup_weaken|by eapply prefix_lookup_Some].
Qed.

Lemma same_grows w w' v v' m m' : ids w ⊆ ids w' -> seen v `prefix_of` seen v' ->
  same (named w v) m m' -> same (named w' v') m m'.
Proof. intros Hm Hp. apply same_mono. intros l l'. by apply named_mono. Qed.

Lemma grows_refl w : writer w -> grows w w [].
Proof. intros Hw. split; [done..|by rewrite app_nil_r|done|done]. Qed.

Lemma grows_trans w1 w2 w3 b c : grows w1 w2 b -> grows w2 w3 c -> grows w1 w3 (b ++ c).
Proof.
  intros [O1 T1 S1 I1 W1] [O2 T2 S2 I2 W2]. split; [congruence..| |by etrans|done].
  by rewrite S2, S1, app_assoc.
Qed.

Lemma extends_refl v : extends v v.
Proof. split; [done|by exists []; rewrite app_nil_r]. Qed.

Lemma extends_trans v1 v2 v3 : extends v1 v2 -> extends v2 v3 -> extends v1 v3.
Proof. intros [T1 S1] [T2 S2]. split; [congruence|by etrans]. Qed.

Lemma complete_refl w v v' : complete w w v v'.
Proof. intros l [z Hz] Hn. congruence. Qed.

Lemma complete_trans w1 w2 w3 v1 v2 v3 b c : grows w1 w2 b -> grows w2 w3 c -> extends v2 v3 ->
  (forall x, objects v2 !! x = None -> objects v1 !! x = None) ->
  (forall x o, objects v1 !! x = None -> objects v2 !! x = Some o -> objects v3 !! x = Some o) ->
  complete w1 w2 v1 v2 -> complete w2 w3 v2 v3 -> complete w1 w3 v1 v3.
Proof.
  intros G1 G2 E2 O1 O2 C1 C2 l Hl Hn. destruct (ids w2 !! l) as [z|] eqn:Ez.
  - destruct (C1 l ltac:(by eexists) Hn) as (l' & o & o' & Hna & Hv & Ho & Ho' & Hp & Hm).
    exists l', o, o'. split; [eapply named_mono; [apply G2|apply E2|done]|]. split; [done|].
    split; [by rewrite (gr_objects _ _ _ G2)|]. split; [by apply O2|]. split; [done|].
    eapply list.Forall2_impl; [exact Hm|]. intros x x'. apply same_grows; [apply G2|apply E2].
  - destruct (C2 l Hl Ez) as (l' & o & o' & Hna & Hv & Ho & Ho' & Hp & Hm).
    exists l', o, o'. split; [done|]. split; [by apply O1|done].
Qed.

Lemma receives_bind {A B} w1 w2 w3 b c v (r : outcome A) (f : A -> world -> outcome B) R1 R2 :
  grows w1 w2 b -> grows w2 w3 c -> receives w1 w2 b v r R1 ->
  (forall a v', reader w2 v' -> extends v v' -> R1 v' a -> receives w2 w3 c v' (f a v') R2) ->
  receives w1 w3 (b ++ c) v (bind r f) R2.
Proof.
  intros G1 G2 Hr Hf k Hk. rewrite <- app_assoc in Hk.
  destruct (Hr (c ++ k) Hk) as (a & v1 & -> & Hk1 & Hrd & He & Ho & Hc & HR). cbn [bind].
  destruct (Hf a v1 Hrd He HR k Hk1) as (a2 & v2 & -> & Hk2 & Hrd2 & He2 & Ho2 & Hc2 & HR2).
  exists a2, v2. split; [done|]. split; [done|]. split; [done|]. split; [by eapply extends_trans|].
  split; [by etrans|]. split; [|done].
  eapply (complete_trans w1 w2 w3 v v1 v2); [done|done|done| | |done|done].
  - intros x Hx. by eapply lookup_weaken_None.
  - intros x o _ Hx. by eapply lookup_weaken.
Qed.

Lemma receives_ok {A} w v (a : A) (R : world -> A -> Prop) : reader w v -> R v a -> receives w w [] v (Ok a v) R.
Proof.
  intros Hr HR k Hk. exists a, v. split; [done|]. split; [done|]. split; [done|]. split; [apply extends_refl|].
  split; [done|]. split; [apply complete_refl|done].
Qed.

(** Plain data is written and read, and nothing else changes. *)
Lemma wrote_grows w b : writer w -> grows w (wrote w b) b.
Proof. intros []. split; [done..|]. by split. Qed.

Lemma advance_reader w v b k : reader w v -> reader (wrote w b) (advance v k).
Proof. by intros [? [? ?] ? ? ?]. Qed.

Lemma receives_data {A} w b v (r : outcome A) (a : A) (R : world -> A -> Prop) : reader w v ->
  (forall k, reads v (b ++ k) -> r = Ok a (advance v k)) -> (forall k, R (advance v k) a) ->
  receives w (wrote w b) b v r R.
Proof.
  intros Hr Ha HR k Hk. exists a, (advance v k). split; [by apply Ha|]. split; [by eapply reads_advance|].
  split; [by apply advance_reader|]. split; [split; [done|by exists []; rewrite app_nil_r]|]. split; [done|].
  split; [|apply HR]. intros l [z Hz] Hn. cbn in Hz. congruence.
Qed.

(** ** Members *)

Section members.
Context `{Malloc}.
Variables (wself : world -> option address -> outcome unit) (rself : world -> option address -> outcome (option address)).
Variable fuel : nat.

(** The fuel is enough for the objects that have no number yet. *)
Definition enough (n : nat) (w : world) : Prop := (size (objects w) < n + size (ids w))%nat.

Definition carries {A} (w : world) (r : outcome unit) (rd : world -> outcome A) (R : world -> world -> A -> Prop) : Prop :=
  exists w' b, r = Ok tt w' /\ grows w w' b /\ forall v, reader w v -> receives w w' b v (rd v) (R w').

Hypothesis self_carries : forall w p, writer w -> (forall l, p = Some l -> is_Some (objects w !! l)) -> enough fuel w ->
  carries w (wself w p) (fun v => rself v None) (fun w' v' p' => same (named w' v') (Ptr p) (Ptr p')).

Lemma enough_grows n w w' b : grows w w' b -> enough n w -> enough n w'.
Proof. intros [Ho _ _ Hi _]. unfold enough. rewrite Ho. apply map_subseteq_size in Hi. lia. Qed.

Lemma text_carries w s : writer w -> text s ->
  carries w (write_string w s) read_string (fun _ _ s' => s' = s).
Proof.
  intros Hw Hs. exists (wrote w (coded s)), (coded s). split.
  { apply write_string_wrote; [apply Hw|]. destruct Hs. lia. }
  split; [by apply wrote_grows|]. intros v Hv. apply (receives_data _ _ _ _ s); [done| |done].
  intros k Hk. by apply read_string_ok.
Qed.

Definition member_carried (m : member) : Prop := forall t w, writer w ->
  fits (fun l => is_Some (objects w !! l)) m t -> enough fuel w ->
  carries w (write_member wself w m) (fun v => read_member rself v t) (fun w' v' m' => same (named w' v') m m').

Lemma elements_carried l : Forall member_carried l -> forall d w, writer w ->
  Forall (fun x => fits (fun l => is_Some (objects w !! l)) x d) l -> enough fuel w ->
  carries w
    ((fix go (l : list member) (w : world) : outcome unit :=
      match l with [] => Ok tt w | x :: l => bind (write_member wself w x) (fun _ w => go l w) end) l w)
    (fun v => (fix go (n : nat) (w : world) : outcome (list member) :=
          match n with
          | O => Ok [] w
          | S n => bind (read_member rself w d) (fun x w => bind (go n w) (fun l w => Ok (x :: l) w))
          end) (length l) v)
    (fun w' v' l' => Forall2 (same (named w' v')) l l').
Proof.
  intros Hl d. induction Hl as [|x l Hx Hl IH]; intros w Hw Hf Hn.
  - exists w, []. split; [done|]. split; [by apply grows_refl|]. intros v Hv. by apply receives_ok.
  - apply list.Forall_cons in Hf as [Hfx Hf]. destruct (Hx d w Hw Hfx Hn) as (w1 & b & -> & G1 & R1). cbn [bind].
    destruct (IH w1) as (w2 & c & -> & G2 & R2); [apply G1|by rewrite (gr_objects _ _ _ G1)|by eapply enough_grows|].
    exists w2, (b ++ c). split; [done|]. split; [by eapply grows_trans|]. intros v Hv. cbn [length].
    eapply (receives_bind w w1 w2); [done..|by apply R1|]. intros x' v1 Hv1 _ Hx'.
    rewrite <- (app_nil_r c).
    eapply (receives_bind w1 w2 w2); [done|by apply grows_refl; apply G2|by apply R2|].
    intros l' v2 Hv2 He Hl'. apply receives_ok; [done|]. constructor; [|done].
    eapply same_grows; [apply G2|apply He|exact Hx'].
Qed.

Lemma members_carried m : member_carried m.
Proof.
  induction m as [b|s|p|d l _ IH] using member_ind_deep; intros t w Hw Hf Hn; destruct t as [b'|s'|p'|d' l']; try done.
  - exists (wrote w b), b. split; [by apply writeBinary_wrote, Hw|]. split; [by apply wrote_grows|].
    intros v Hv. apply (receives_data _ _ _ _ (Num b)); [done| |done]. intros k Hk. cbn [read_member].
    rewrite (readBinary_ok v b k) by done. cbn [bind]. rewrite overlay_all; [done|]. cbn in Hf. unfold zlen in Hf. lia.
  - cbn in Hf. destruct (text_carries w s Hw Hf) as (w1 & b & E & G & R). exists w1, b.
    split; [done|]. split; [done|]. intros v Hv. cbn [read_member]. rewrite <- (app_nil_r b).
    eapply (receives_bind w w1 w1); [done|apply grows_refl, G|by apply R|].
    intros a v' Hv' _ ->. by apply receives_ok.
  - destruct p'; [done|]. destruct (self_carries w p Hw Hf Hn) as (w1 & b & E & G & R). exists w1, b.
    split; [done|]. split; [done|]. intros v Hv. cbn [read_member]. rewrite <- (app_nil_r b).
    eapply (receives_bind w w1 w1); [done|apply grows_refl, G|by apply R|].
    intros a v' Hv' _ Ha. by apply receives_ok.
  - apply fits_vec in Hf as (-> & Hz & Hf). pose proof (zlen_nonneg l). cbn [write_member read_member].
    unfold write_word. rewrite writeBinary_wrote by apply Hw. cbn [bind]. rewrite u32_id by lia.
    pose proof (wrote_grows w (word (zlen l)) Hw) as G1.
    destruct (elements_carried l IH d (wrote w (word (zlen l)))) as (w2 & c & -> & G2 & R2); [apply G1|done|by eapply enough_grows|].
    eexists w2, (word (zlen l) ++ c). split; [done|]. split; [by eapply grows_trans|]. intros v Hv.
    eapply (receives_bind w _ w2); [done|done|eapply (receives_data _ _ _ _ (zlen l) (fun _ z => z = zlen l)); [done| |done]|].
    { intros k Hk. apply read_size_ok; [done|lia]. }
    intros z v1 Hv1 _ ->. rewrite zlen_to_nat, <- (app_nil_r c).
    eapply (receives_bind _ w2 w2); [done|apply grows_refl, G2|by apply R2|].
    intros l2 v2 Hv2 _ Hl2. apply receives_ok; [done|]. by apply same_vec.
Qed.

(** The members of an object that is being read. *)
Lemma object_members ms : forall ts w, writer w -> Forall2 (fits (fun l => is_Some (objects w !! l))) ms ts -> enough fuel w ->
  exists w' b, write_members wself w ms = Ok tt w' /\ grows w w' b /\ forall v l ds name k, reader w v ->
    objects v !! l = Some (Object name (ds ++ ts)) -> reads v (b ++ k) -> exists v' ms',
    read_members rself v l (length ds) (length ts) = Ok tt v' /\ reads v' k /\ reader w' v' /\ extends v v' /\
    (forall x o, x <> l -> objects v !! x = Some o -> objects v' !! x = Some o) /\
    objects v' !! l = Some (Object name (ds ++ ms')) /\ complete w w' v v' /\ Forall2 (same (named w' v')) ms ms'.
Proof.
  induction ms as [|m ms IH]; intros ts w Hw Hf Hn.
  - apply list.Forall2_nil_inv_l in Hf as ->. exists w, []. split; [done|]. split; [by apply grows_refl|].
    intros v l ds name k Hv Hl Hk. exists v, []. split; [done|]. split; [done|]. split; [done|]. split; [apply extends_refl|].
    split; [done|]. split; [done|]. split; [apply complete_refl|constructor].
  - apply list.Forall2_cons_inv_l in Hf as (t & ts' & Ht & Hf & ->). cbn [write_members].
    destruct (members_carried m t w Hw Ht Hn) as (w1 & b & -> & G1 & R1). cbn [bind].
    destruct (IH ts' w1) as (w2 & c & -> & G2 & R2); [apply G1|by rewrite (gr_objects _ _ _ G1)|by eapply enough_grows|].
    exists w2, (b ++ c). split; [done|]. split; [by eapply grows_trans|]. intros v l ds name k Hv Hl Hk.
    cbn [length read_members]. rewrite Hl. cbn [of_option members persistence_id].
    rewrite list_lookup_middle by done. cbn [of_option]. rewrite <- app_assoc in Hk.
    destruct (R1 v Hv _ Hk) as (m' & v1 & -> & Hk1 & Hv1 & He1 & Ho1 & Hc1 & Hm'). cbn [bind].
    rewrite (lookup_weaken _ _ _ _ Hl Ho1). cbn [of_option members persistence_id].
    rewrite insert_app_r_alt, Nat.sub_diag by done. cbn [insert list_insert].
    replace (ds ++ m' :: ts') with ((ds ++ [m']) ++ ts') by (by rewrite <- app_assoc).
    replace (S (length ds)) with (length (ds ++ [m'])) by (rewrite length_app; cbn; lia).
    set (v1' := set_object v1 l _). assert (reader w1 v1') as Hv1'.
    { destruct Hv1 as [H1 [H2 H2'] H3 H4 H5]. split; [done|by split|done|done|]. intros x Hx. cbn.
      destruct (decide (x = l)) as [->|Hne]; [rewrite lookup_insert_eq; by eexists|rewrite lookup_insert_ne by done; by apply H5]. }
    destruct (R2 v1' l (ds ++ [m']) name k Hv1') as (v2 & ms' & -> & Hk2 & Hv2 & He2 & Ho2 & Hl2 & Hc2 & Hms); [|exact Hk1|].
    { cbn. apply lookup_insert_eq. }
    assert (forall x o, x <> l -> objects v1 !! x = Some o -> objects v2 !! x = Some o) as Ho12.
    { intros x o Hne Hx. apply Ho2; [done|]. cbn. by rewrite lookup_insert_ne. }
    exists v2, (m' :: ms'). split; [done|]. split; [done|]. split; [done|].
    split; [eapply extends_trans; [exact He1|]; destruct He2; by split|].
    split; [intros x o Hne Hx; apply Ho12; [done|by eapply lookup_weaken]|].
    split; [rewrite Hl2; by rewrite <- app_assoc|].
    split.
    + eapply (complete_trans w w1 w2 v v1 v2); [done|done|by destruct He2| | |done|].
      * intros x Hx. by eapply lookup_weaken_None.
      * intros x o Hx. apply Ho12. intros ->. congruence.
      * intros x Hx Hx'. destruct (Hc2 x Hx Hx') as (l' & o & o' & Hna & Hv' & Hrest).
        exists l', o, o'. split; [done|]. split; [|done]. cbn in Hv'. apply lookup_insert_None in Hv'. apply Hv'.
    + constructor; [|done]. eapply same_grows; [apply G2|apply He2|exact Hm'].
Qed.

End members.

(** ** Objects *)

Lemma s32_inj a b : 0 <= a < 2 ^ 32 -> 0 <= b < 2 ^ 32 -> s32 a = s32 b -> a = b.
Proof. unfold s32. intros Ha Hb E. Z.to_euclidean_division_equations. lia. Qed.

Lemma numbered_insert {A} `{Countable A} (m : gmap A Z) x : numbered m -> m !! x = None ->
  numbered (<[x := s32 (Z.of_nat (size m))]> m).
Proof.
  intros Hm Hx y z Hy. rewrite map_size_insert_None by done. destruct (decide (y = x)) as [->|Hne].
  - rewrite lookup_insert_eq in Hy. injection Hy as <-. exists (size m). split; [lia|done].
  - rewrite lookup_insert_ne in Hy by done. destruct (Hm y z Hy) as (k & Hk & ->). exists k. split; [lia|done].
Qed.

Lemma numbered_new {A} `{Countable A} (m : gmap A Z) y : numbered m -> Z.of_nat (size m) < 2 ^ 32 ->
  m !! y <> Some (s32 (Z.of_nat (size m))).
Proof.
  intros Hm Hz Hy. destruct (Hm y _ Hy) as (k & Hk & E). apply s32_inj in E; lia.
Qed.

Lemma writer_sizes w : writer w -> (size (ids w) <= size (objects w))%nat /\ Z.of_nat (size (ids w)) < 2 ^ 32 - 1 /\
  Z.of_nat (size (names w)) < 2 ^ 32 - 1.
Proof.
  intros [_ [Hz _] Hd _ _ _ Hc].
  assert (size (ids w) <= size (objects w))%nat as Hi.
  { rewrite <- !size_dom. apply subseteq_size. apply elem_of_subseteq. intros x Hx. apply elem_of_dom, Hd, (elem_of_dom (D := gset address)), Hx. }
  split; [done|lia].
Qed.

(** The writer gives an object the next number. *)
Definition number (w : world) (l : address) : world :=
  set_engine w (with_archive (eng w) (seen w) (<[l := s32 (u32 (Z.of_nat (size (ids w))))]> (ids w))).

Lemma number_writer w l : writer w -> is_Some (objects w !! l) -> ids w !! l = None ->
  writer (number w l) /\ ids (number w l) !! l = Some (s32 (Z.of_nat (size (ids w)))) /\ ids w ⊆ ids (number w l) /\
  size (ids (number w l)) = S (size (ids w)).
Proof.
  intros Hw Ho Hl. pose proof (writer_sizes w Hw) as (_ & Hz & _). destruct Hw as [Hm Hp Hd Hi Hj Hn Hc].
  unfold number. rewrite u32_id by lia. cbn. rewrite map_size_insert_None by done.
  split; [|split; [apply lookup_insert_eq|split; [by apply insert_subseteq|done]]].
  split; [done|done| |by apply numbered_insert| |done|cbn; rewrite map_size_insert_None by done; lia]; cbn.
  - intros x Hx. destruct (decide (x = l)) as [->|Hne]; [done|]. rewrite lookup_insert_ne in Hx by done. by apply Hd.
  - pose proof (numbered_new (ids w) l Hi ltac:(lia)) as _.
    intros x y z Hx Hy. apply lookup_insert_Some in Hx as [[<- <-]|[Hx1 Hx]], Hy as [Hy|[Hy1 Hy]].
    + by destruct Hy.
    + by apply (numbered_new (ids w) y Hi ltac:(lia)) in Hy.
    + destruct Hy as [<- <-]. by apply (numbered_new (ids w) x Hi ltac:(lia)) in Hx.
    + by eapply Hj.
Qed.

(** What is left of the stream and the classes after a name has been read. *)
Definition learn (v : world) (k : list Z) (c : list (list Z)) : world :=
  World (Engine k true (opmode (eng v)) (seen v) (ids v) c (names v)) (objects v) (types v).

Section classes.
Context `{Malloc}.

Lemma class_carried w name : writer w -> text name -> (size (names w) < size (ids w))%nat -> exists w' b,
  write_class w name = Ok tt w' /\ grows w w' b /\ ids w' = ids w /\
  forall v k, classes w v -> reads v (b ++ k) -> exists c,
    readClass v = Ok name (learn v k c) /\ classes w' (learn v k c).
Proof.
  intros Hw Ht Hlt. pose proof (writer_sizes w Hw) as (_ & _ & Hz). pose proof Hw as [Hm Hp Hd Hi Hj Hn Hc].
  unfold write_class. destruct (names w !! name) as [z|] eqn:Ez.
  - destruct (Hn name z Ez) as (j & Hjl & ->). exists (wrote w (word (Z.of_nat j))), (word (Z.of_nat j)).
    unfold write_word. rewrite numbered_s32 with (n := size (names w)) by lia.
    split; [by apply writeBinary_wrote|]. split; [by apply wrote_grows|]. split; [done|].
    intros v k [Hs Hk] Hv. exists (known v). unfold readClass. rewrite (read_word_ok v _ k) by (done || lia). cbn [bind].
    destruct (Z.ltb_spec (Z.of_nat j) (zlen (known (advance v k)))) as [Hlj|Hge].
    2: { unfold zlen in Hge. cbn in Hge. lia. }
    rewrite Nat2Z.id. cbn. rewrite (Hk name j) by done. cbn. destruct v as [[] ? ?]. split; [done|]. by split.
  - set (n := size (names w)) in *. rewrite !u32_id by lia.
    set (w1 := set_engine w _). unfold write_word. rewrite writeBinary_wrote by done. cbn [bind].
    assert (zlen name < 2 ^ 32) as Hln by (destruct Ht; lia).
    rewrite write_string_wrote by done. eexists _, (word (Z.of_nat n) ++ coded name). split; [done|].
    rewrite wrote_wrote. split; [|split; [done|]].
    + split; [done..|]. split; [done..|by apply numbered_insert|]. cbn. rewrite map_size_insert_None by done. lia.
    + intros v k [Hs Hk] Hv. exists (known v ++ [name]). rewrite <- app_assoc in Hv. unfold readClass.
      rewrite (read_word_ok v _ (coded name ++ k)) by (done || lia). cbn [bind].
      destruct (Z.ltb_spec (Z.of_nat n) (zlen (known (advance v (coded name ++ k))))) as [Hlj|Hge].
      { unfold zlen in Hlj. cbn in Hlj. lia. }
      rewrite (read_string_ok _ name k) by (done || by eapply reads_advance). cbn [bind].
      split; [by destruct v as [[] ? ?]|]. split; cbn; rewrite map_size_insert_None by done.
      * rewrite length_app, Hs. cbn. lia.
      * intros c j Hc' Hjl. apply lookup_insert_Some in Hc' as [[<- E]|[Hne Hc']].
        -- apply s32_inj in E; [|lia..]. rewrite lookup_app_r by lia. rewrite Hs. by replace (j - _)%nat with 0%nat by lia.
        -- destruct (Hn c _ Hc') as (j' & Hj' & E). apply s32_inj in E; [|lia..].
           apply lookup_app_l_Some. apply (Hk c j Hc'). lia.
Qed.

End classes.

(** The reader makes an object of the class and gives it the next number. *)
Definition create (v : world) (l' : address) (name : list Z) (ts : list member) : world :=
  let v := set_object v l' (Object name ts) in
  set_engine v (with_archive (eng v) (seen v ++ [l']) (ids v)).

Section graphs.
Context `{Malloc}.

Lemma create_reader w w3 l v k c l' name ts b : reader w v -> writer w3 -> grows (number w l) w3 b ->
  size (ids (number w l)) = S (size (ids w)) -> ids w3 = ids (number w l) ->
  classes w3 (learn v k c) -> objects v !! l' = None -> reader w3 (create (learn v k c) l' name ts).
Proof.
  intros [Ht Hcl Hs Hd Hdom] Hw3 G Hz Ei [C1 C2] Hl'. split; cbn.
  - rewrite (gr_types _ _ _ G). done.
  - by split.
  - rewrite length_app, Hs, Ei, Hz. cbn. lia.
  - apply list.NoDup_app. split; [done|]. split; [|apply list.NoDup_singleton].
    intros x Hx Hx'. apply list_elem_of_singleton in Hx' as ->. apply Hdom in Hx. rewrite Hl' in Hx. by destruct Hx.
  - intros x Hx. destruct (decide (x = l')) as [->|Hne]; [rewrite lookup_insert_eq; by eexists|].
    rewrite lookup_insert_ne by done. apply elem_of_app in Hx as [Hx|Hx]; [by apply Hdom|].
    by apply list_elem_of_singleton in Hx.
Qed.

(** A pointer to an object that has been written: its number. *)
Lemma number_carried n w l : writer w -> is_Some (ids w !! l) ->
  carries w (write (S n) w (Some l)) (fun v => read (S n) v None)
    (fun w' v' p' => same (named w' v') (Ptr (Some l)) (Ptr p')).
Proof.
  intros Hw [z Hz]. pose proof (writer_sizes w Hw) as (_ & Hb & _). destruct (wr_ids _ Hw l z Hz) as (j & Hj & ->).
  cbn [write write_object]. rewrite Hz. unfold write_word. rewrite (numbered_s32 _ (size (ids w))) by lia.
  rewrite writeBinary_wrote by apply Hw. do 2 eexists. split; [done|]. split; [by apply wrote_grows|].
  intros v Hv k Hk. pose proof Hv as [_ _ Hs _ _].
  destruct (lookup_lt_is_Some_2 (seen v) j) as [l' Hl']; [lia|].
  revert k Hk. apply (receives_data _ _ _ _ (Some l')); [done| |].
  - intros k Hk. cbn [read read_object]. unfold read_object. rewrite (read_word_ok v _ k) by (done || lia). cbn [bind].
    unfold NullObject. destruct (Z.eqb_spec (Z.of_nat j) 0xffffffff); [lia|].
    destruct (Z.ltb_spec (Z.of_nat j) (zlen (seen (advance v k)))) as [Hlt|Hge].
    + rewrite Nat2Z.id. cbn. by rewrite Hl'.
    + unfold zlen in Hge. cbn in Hge. lia.
  - intros k. exists j. done.
Qed.

(** A null pointer. *)
Lemma null_carried n w : writer w ->
  carries w (write (S n) w None) (fun v => read (S n) v None) (fun w' v' p' => same (named w' v') (Ptr None) (Ptr p')).
Proof.
  intros Hw. cbn [write write_object]. unfold write_word. rewrite writeBinary_wrote by apply Hw.
  do 2 eexists. split; [done|]. split; [by apply wrote_grows|]. intros v Hv.
  apply (receives_data _ _ _ _ None); [done| |done]. intros k Hk. cbn [read]. unfold read_object.
  rewrite (read_word_ok v NullObject k) by done. done.
Qed.

Lemma mark_text s : bytes s = bytes "OBST" \/ bytes s = bytes "OBEN" -> text (bytes s).
Proof. intros [-> | ->]; (split; [by apply (bool_decide_unpack _)|done]). Qed.

Lemma check_ok v (s reason : string) k : bytes s = bytes "OBST" \/ bytes s = bytes "OBEN" -> reads v (coded (bytes s) ++ k) ->
  check v s reason = Ok tt (advance v k).
Proof.
  intros Hs Hv. unfold check. rewrite (read_string_ok v _ k) by (done || by apply mark_text). cbn [bind].
  by rewrite bool_decide_true.
Qed.

Definition carries_all (n : nat) : Prop := forall w p, writer w -> (forall l, p = Some l -> is_Some (objects w !! l)) ->
  enough n w -> carries w (write n w p) (fun v => read n v None) (fun w' v' p' => same (named w' v') (Ptr p) (Ptr p')).

Lemma write_new n w l o : carries_all n -> writer w -> objects w !! l = Some o -> ids w !! l = None -> enough (S n) w ->
  exists ts w3 b3 w4 b4, TypeManager.createInstanceOf (types w) (persistence_id o) = Some ts /\
    write (S n) w (Some l) = Ok tt (wrote w4 (coded (bytes "OBEN"))) /\
    grows (number w l) w3 (word (Z.of_nat (size (ids w))) ++ b3) /\ ids w3 = ids (number w l) /\
    grows (wrote w3 (coded (bytes "OBST"))) w4 b4 /\
    (forall v k, classes w v -> reads v (b3 ++ k) -> exists c,
      readClass v = Ok (persistence_id o) (learn v k c) /\ classes w3 (learn v k c)) /\
    (forall v l' k, reader (wrote w3 (coded (bytes "OBST"))) v ->
      objects v !! l' = Some (Object (persistence_id o) ts) -> reads v (b4 ++ k) -> exists v' ms',
      read_members (read n) v l' 0 (length ts) = Ok tt v' /\ reads v' k /\ reader w4 v' /\ extends v v' /\
      (forall x o, x <> l' -> objects v !! x = Some o -> objects v' !! x = Some o) /\
      objects v' !! l' = Some (Object (persistence_id o) ms') /\
      complete (wrote w3 (coded (bytes "OBST"))) w4 v v' /\ Forall2 (same (named w4 v')) (members o) ms').
Proof.
  intros IH Hw Ho Hl Hn. destruct (number_writer w l Hw ltac:(by eexists) Hl) as (Hw1 & El & Hsub & Hz).
  pose proof (writer_sizes w Hw) as (_ & Hb & _).
  destruct (per_object _ _ (wr_objects _ Hw) l o Ho) as (Ht & ts & Ets & Hf).
  cbn [write write_object]. rewrite Hl, Ho. cbn [of_option]. fold (number w l). rewrite u32_id by lia.
  unfold write_word. rewrite writeBinary_wrote by apply Hw1. cbn [bind].
  set (w2 := wrote (number w l) _). pose proof (wrote_grows (number w l) (word (Z.of_nat (size (ids w)))) Hw1) as G2. fold w2 in G2.
  destruct (class_carried w2 (persistence_id o)) as (w3 & b3 & -> & G3 & Ei & R3); [apply G2|done| |].
  { change (size (names w) < size (ids (number w l)))%nat. rewrite Hz. pose proof (wr_count _ Hw). lia. }
  cbn [bind]. rewrite write_string_wrote by (apply G3 || done). cbn [bind].
  set (w3' := wrote w3 _) in *. pose proof (wrote_grows w3 (coded (bytes "OBST")) (gr_writer _ _ _ G3)) as G3'. fold w3' in G3'.
  assert (objects w3' = objects w) as Eo by (by rewrite (gr_objects _ _ _ G3'), (gr_objects _ _ _ G3)).
  destruct (object_members (write n) (read n) n IH (members o) ts w3') as (w4 & b4 & -> & G4 & R4).
  { apply G3'. } { by rewrite Eo. }
  { unfold enough in *. rewrite Eo. change (ids w3') with (ids w3). rewrite Ei. change (ids w2) with (ids (number w l)). lia. }
  cbn [bind]. rewrite write_string_wrote by (apply G4 || done).
  exists ts, w3, b3, w4, b4. split; [done|]. split; [done|]. split; [by eapply grows_trans|]. split; [done|]. split; [done|].
  split; [|intros v l' k Hv Hl'; by apply (R4 v l' [] (persistence_id o) k)].
  intros v k [C1 C2] Hv. apply R3; [by split|done].
Qed.

Lemma new_carried n w l o : carries_all n -> writer w -> objects w !! l = Some o -> ids w !! l = None -> enough (S n) w ->
  carries w (write (S n) w (Some l)) (fun v => read (S n) v None) (fun w' v' p' => same (named w' v') (Ptr (Some l)) (Ptr p')).
Proof.
  intros IH Hw Ho Hl Hn. destruct (number_writer w l Hw ltac:(by eexists) Hl) as (Hw1 & El & Hsub & Hz).
  pose proof (writer_sizes w Hw) as (_ & Hb & _).
  destruct (write_new n w l o IH Hw Ho Hl Hn) as (ts & w3 & b3 & w4 & b4 & Ets & -> & G3 & Ei & G4 & R3 & R4).
  pose proof (wrote_grows w3 (coded (bytes "OBST")) (gr_writer _ _ _ G3)) as G3'.
  pose proof (wrote_grows w4 (coded (bytes "OBEN")) (gr_writer _ _ _ G4)) as G5.
  pose proof (grows_trans _ _ _ _ _ (grows_trans _ _ _ _ _ (grows_trans _ _ _ _ _ G3 G3') G4) G5) as G.
  assert (grows w (number w l) []) as G1 by (split; [done|done|by rewrite app_nil_r|done|done]).
  pose proof (grows_trans _ _ _ _ _ G1 G) as Gw. rewrite app_nil_l in Gw.
  do 2 eexists. split; [done|]. split; [exact Gw|]. intros v Hv k Hk. rewrite <- !app_assoc in Hk.
  pose proof Hv as [Hty Hcl Hs Hd Hdom]. cbn [read]. unfold read_object.
  set (k3 := b4 ++ coded (bytes "OBEN") ++ k) in *. set (k2 := coded (bytes "OBST") ++ k3) in *. set (k1 := b3 ++ k2) in *.
  rewrite (read_word_ok v _ _ Hk) by lia. cbn [bind]. unfold NullObject.
  destruct (Z.eqb_spec (Z.of_nat (size (ids w))) 0xffffffff); [lia|].
  destruct (Z.ltb_spec (Z.of_nat (size (ids w))) (zlen (seen (advance v k1)))) as [Hlt|_].
  { unfold zlen in Hlt. cbn in Hlt. lia. }
  destruct (R3 (advance v k1) k2) as (c & -> & Hc3); [by destruct Hcl; split|by eapply reads_advance|].
  cbn [bind]. change (types (learn (advance v k1) k2 c)) with (types v).
  rewrite Hty, Ets. cbn [of_option]. set (l' := fresh _).
  assert (objects v !! l' = None) as Hl' by (apply not_elem_of_dom, is_fresh).
  unfold readObject. fold (create (learn (advance v k1) k2 c) l' (persistence_id o) ts).
  set (v3 := create _ _ _ _). assert (reader w3 v3) as Hv3.
  { eapply (create_reader w w3 l (advance v k1)); try done; [|apply G3]. split; [done|by destruct Hcl; split|done..]. }
  rewrite (check_ok v3 _ _ k3) by (auto || by split; [apply Hk|]). cbn [bind].
  change (objects (advance v3 k3) !! l') with (<[l' := Object (persistence_id o) ts]> (objects v) !! l').
  rewrite lookup_insert_eq. cbn [of_option members].
  destruct (R4 (advance v3 k3) l' (coded (bytes "OBEN") ++ k)) as (v5 & ms' & -> & Hk5 & Hv5 & He5 & Ho5 & Hl5 & Hc5 & Hms).
  { by apply advance_reader. } { apply lookup_insert_eq. } { by split; [apply Hk|]. }
  cbn [bind]. rewrite (check_ok v5 _ _ k) by auto. cbn [bind].
  assert (seen v ++ [l'] `prefix_of` seen v5) as Hpre by apply He5.
  assert (named w4 v5 l l') as Hnm.
  { exists (size (ids w)). split.
    - eapply lookup_weaken; [|apply G4]. change (ids w3 !! l = Some (s32 (Z.of_nat (size (ids w))))). by rewrite Ei.
    - eapply prefix_lookup_Some; [|done]. rewrite <- Hs. by apply list_lookup_middle. }
  exists (Some l'), (advance v5 k). split; [done|]. split; [by eapply reads_advance|]. split; [by apply advance_reader|].
  split; [|split; [|split; [|done]]].
  - split; [rewrite (ex_types _ _ He5 : types (advance v5 k) = _); done|]. etrans; [|exact Hpre]. by eexists.
  - apply map_subseteq_spec. intros x y Hx. apply Ho5; [intros ->; congruence|]. cbn. rewrite lookup_insert_ne; [done|].
    intros ->. congruence.
  - intros x Hx Hnx. destruct (decide (x = l)) as [->|Hne].
    + exists l', o, (Object (persistence_id o) ms'). do 2 (split; [done|]).
      split; [by rewrite (gr_objects _ _ _ Gw)|done].
    + destruct (Hc5 x Hx) as (x' & y & y' & Hna & Hxv & Hrest).
      { change (ids w3 !! x = None). rewrite Ei. cbn. by rewrite lookup_insert_ne. }
      exists x', y, y'. split; [done|]. split; [|done]. cbn in Hxv. apply lookup_insert_None in Hxv. apply Hxv.
Qed.

Lemma graph_carried n : carries_all n.
Proof.
  induction n as [|n IH]; intros w p Hw Hp Hn.
  - pose proof (writer_sizes w Hw) as [Hs _]. unfold enough in Hn. lia.
  - destruct p as [l|]; [|by apply null_carried]. destruct (ids w !! l) as [z|] eqn:Ez.
    + apply number_carried; [done|by eexists].
    + destruct (Hp l eq_refl) as [o Ho]. by apply (new_carried n w l o).
Qed.

End graphs.

(** ** Round trip *)

Section programs.
Context `{Malloc}.

(** Several pointers, one after the other with one engine. *)
Fixpoint write_all (fuel : nat) (w : world) (ps : list (option address)) : outcome unit :=
  match ps with [] => Ok tt w | p :: ps => bind (write fuel w p) (fun _ w => write_all fuel w ps) end.

Fixpoint read_all (fuel : nat) (v : world) (n : nat) : outcome (list (option address)) :=
  match n with
  | O => Ok [] v
  | S n => bind (read fuel v None) (fun p v => bind (read_all fuel v n) (fun ps v => Ok (p :: ps) v))
  end.

Lemma all_carried fuel ps : forall w, writer w -> Forall (fun p => forall l, p = Some l -> is_Some (objects w !! l)) ps ->
  enough fuel w -> carries w (write_all fuel w ps) (fun v => read_all fuel v (length ps))
    (fun w' v' ps' => Forall2 (fun p p' => same (named w' v') (Ptr p) (Ptr p')) ps ps').
Proof.
  induction ps as [|p ps IH]; intros w Hw Hps Hn.
  - exists w, []. split; [done|]. split; [by apply grows_refl|]. intros v Hv. by apply receives_ok.
  - apply list.Forall_cons in Hps as [Hp Hps]. cbn [write_all length read_all].
    destruct (graph_carried fuel w p Hw Hp Hn) as (w1 & b & -> & G1 & R1). cbn [bind].
    destruct (IH w1) as (w2 & c & -> & G2 & R2); [apply G1|by rewrite (gr_objects _ _ _ G1)|by eapply enough_grows|].
    exists w2, (b ++ c). split; [done|]. split; [by eapply grows_trans|]. intros v Hv.
    eapply (receives_bind w w1 w2); [done..|by apply R1|]. intros p' v1 Hv1 _ Hp'. rewrite <- (app_nil_r c).
    eapply (receives_bind w1 w2 w2); [done|by apply grows_refl; apply G2|by apply R2|].
    intros l' v2 Hv2 He Hl'. apply receives_ok; [done|]. constructor; [|done].
    eapply same_grows; [apply G2|apply He|exact Hp'].
Qed.

(** The objects of [h] in the domain of [f] are copied to new objects of [h'], which
    share what the originals share and refer to copies only. *)
Record copies (f : gmap address address) (h h0 h' : gmap address object) : Prop := {
  cp_inj : forall l1 l2 l', f !! l1 = Some l' -> f !! l2 = Some l' -> l1 = l2;
  cp_kept : h0 ⊆ h';
  cp_object : forall l l', f !! l = Some l' -> exists o o', h !! l = Some o /\ h0 !! l' = None /\ h' !! l' = Some o' /\
    persistence_id o' = persistence_id o /\ Forall2 (same (fun a b => f !! a = Some b)) (members o) (members o') }.

(** The copies by their numbers. *)
Definition copy_of (w v : world) : gmap address address := omap (fun z => seen v !! Z.to_nat (u32 z)) (ids w).

Lemma u32_s32 z : 0 <= z < 2 ^ 32 -> u32 (s32 z) = z.
Proof. unfold u32, s32. intros Hz. Z.to_euclidean_division_equations. lia. Qed.

Lemma copy_of_named w v l l' : writer w -> length (seen v) = size (ids w) -> copy_of w v !! l = Some l' <-> named w v l l'.
Proof.
  intros Hw Hs. pose proof (writer_sizes w Hw) as (_ & Hz & _). unfold copy_of. rewrite lookup_omap. split.
  - destruct (ids w !! l) as [z|] eqn:E; [|done]. cbn. destruct (wr_ids _ Hw l z E) as (k & Hk & ->).
    rewrite u32_s32, Nat2Z.id by lia. intros El. by exists k.
  - intros (k & E & El). pose proof (lookup_lt_Some _ _ _ El). rewrite E. cbn. by rewrite u32_s32, Nat2Z.id by lia.
Qed.

(** The engines at the start. *)
Definition writing (h : gmap address object) (T : TypeManager.t) : world := World (make [] modeWrite) h T.
Definition reading (s : list Z) (h : gmap address object) (T : TypeManager.t) : world := World (make s modeRead) h T.

Lemma writing_writer h T : persistable h T -> writer (writing h T).
Proof. intros Hp. split; try done; cbn; intros l; by intros []. Qed.

(** C31.  What is written is read back.  For every program of objects that fit their
    classes, with shared objects and cycles, and every list of pointers into it: the
    calls of [write] end, and as many calls of [read] on the bytes they have written,
    followed by any others, end with the stream behind them and give pointers to a copy
    of all that can be reached, made of new objects, in which two pointers are equal
    where they were equal before.  One step of the fuel for each object and one more are
    enough. *)
Theorem persist_roundtrip (h : gmap address object) (T : TypeManager.t) (ps : list (option address)) (fuel : nat) :
  persistable h T -> Forall (fun p => forall l, p = Some l -> is_Some (h !! l)) ps -> (size h < fuel)%nat ->
  exists w', write_all fuel (writing h T) ps = Ok tt w' /\
    forall h0 k, exists ps' v' f, read_all fuel (reading (stream (eng w') ++ k) h0 T) (length ps) = Ok ps' v' /\
      stream (eng v') = k /\ copies f h h0 (objects v') /\
      Forall2 (fun p p' => same (fun a b => f !! a = Some b) (Ptr p) (Ptr p')) ps ps'.
Proof.
  intros Hp Hps Hn. pose proof (writing_writer h T Hp) as Hw.
  destruct (all_carried fuel ps (writing h T) Hw Hps) as (w' & b & E & G & R); [unfold enough; cbn; lia|].
  exists w'. split; [done|]. intros h0 k. rewrite (gr_stream _ _ _ G). cbn [stream eng writing make app].
  assert (reader (writing h T) (reading (b ++ k) h0 T)) as Hv.
  { split; [done|split; done|done|constructor|]. intros l' Hl'. by apply elem_of_nil in Hl'. }
  destruct (R _ Hv k) as (ps' & v' & E' & Hk & Hv' & _ & Ho & Hc & Hps'); [done|].
  pose proof (fun l l' => copy_of_named w' v' l l' (gr_writer _ _ _ G) (rd_size _ _ Hv')) as Hcp.
  exists ps', v', (copy_of w' v'). split; [done|]. split; [apply Hk|]. split.
  - split; [|done|].
    + intros l1 l2 l' H1 H2. apply Hcp in H1 as (k1 & I1 & S1), H2 as (k2 & I2 & S2).
      assert (k1 = k2) as -> by (by eapply NoDup_lookup; [apply Hv'|..]). by eapply wr_inj; [apply G|..].
    + intros l l' Hl. apply Hcp in Hl as Hnm. destruct Hnm as (j & Hj & Hs).
      destruct (Hc l) as (l2 & o & o' & Hnm & Hn0 & Hh & Ho' & Hid & Hm); [by eexists|done|].
      assert (l2 = l') as ->.
      { apply Hcp in Hnm. congruence. }
      exists o, o'. split; [by rewrite <- (gr_objects _ _ _ G : objects w' = h)|]. do 3 (split; [done|]).
      eapply list.Forall2_impl; [exact Hm|]. intros x x'. apply same_mono. intros a a'. apply Hcp.
  - eapply list.Forall2_impl; [exact Hps'|]. intros p p'. apply same_mono. intros a a'. apply Hcp.
Qed.

End programs.

(** Two objects that refer to each other and share one of them. *)
Definition kinds : TypeManager.t :=
  TypeManager.Mk (Some {[ bytes "Node" := [Num [0; 0]; Str []; Ptr None; Vec (Ptr None) []] ]}) 1.

Definition ring : gmap address object :=
  <[1%positive := Object (bytes "Node") [Num [7; 0]; Str (bytes "one"); Ptr (Some 2%positive); Vec (Ptr None) [Ptr (Some 1%positive); Ptr None]]]>
  {[ 2%positive := Object (bytes "Node") [Num [8; 1]; Str []; Ptr (Some 1%positive); Vec (Ptr None) []] ]}.

Lemma ring_persistable : persistable ring kinds.
Proof.
  split; [done|]. intros l o Hl.
  assert (text (bytes "Node") /\ text (bytes "one") /\ text []) as (T1 & T2 & T3).
  { repeat split; by apply (bool_decide_unpack _). }
  unfold ring in Hl; apply lookup_insert_Some in Hl as [[<- <-]|[_ Hl]]; [|apply lookup_singleton_Some in Hl as [<- <-]].
  all: split; [exact T1|]; eexists; split; [vm_compute; reflexivity|].
  all: assert (forall p, p = Some 1%positive \/ p = Some 2%positive \/ p = None ->
    fits (fun l => is_Some (ring !! l)) (Ptr p) (Ptr None)) as Hptr
    by (intros p Hp l ->; destruct Hp as [[= ->]|[[= ->]|?]]; try done; by eexists).
  all: repeat constructor; try done; try (apply Hptr; tauto).
  all: cbn; intros l [= <-]; by eexists.
Qed.

Lemma persist_roundtrip_witness : exists w', @write_all 3 (writing ring kinds) [Some 2%positive; Some 1%positive] = Ok tt w' /\
  forall h0 k, exists ps' v' f, @read_all zero_malloc 3 (reading (stream (eng w') ++ k) h0 kinds) 2 = Ok ps' v' /\
    stream (eng v') = k /\ copies f ring h0 (objects v') /\
    Forall2 (fun p p' => same (fun a b => f !! a = Some b) (Ptr p) (Ptr p')) [Some 2%positive; Some 1%positive] ps'.
Proof.
  apply (@persist_roundtrip zero_malloc ring kinds [Some 2%positive; Some 1%positive] 3 ring_persistable); [|vm_compute; lia].
  repeat constructor; intros l [= <-]; by eexists.
Defined.

(** ** Errors *)

(** A string with a null byte is cut there. *)
Example null_byte_lost : exists v, @read_string zero_malloc (reading (coded [65; 0; 66]) ∅ TypeManager.init) = Ok [65] v.
Proof. eexists. vm_compute. reflexivity. Qed.

(** The room for the longest string is computed as 0 bytes. *)
Lemma longest_string `{Malloc} v k : reads v (word 0xffffffff ++ k) -> read_string v = Undefined.
Proof.
  intros Hv. pose proof (reads_advance _ _ k Hv) as (Em & Eg & Es).
  unfold read_string. rewrite (read_word_ok v 0xffffffff k) by done. cbn [bind].
  unfold readBinary. rewrite Em, Eg. generalize (Z.to_nat 0xffffffff). intros n. cbn [bind].
  assert (junk (u32 (0xffffffff + 1)) = []) as ->.
  { apply length_zero_iff_nil. pose proof (junk_length 0 ltac:(done)) as Hj. unfold zlen in Hj.
    change (u32 (0xffffffff + 1)) with 0. lia. }
  destruct (blit [] 0 _) as [b|] eqn:E; [|done]. apply blit_length in E. destruct b; [|done]. done.
Qed.

(** An object that has been read already is not copied to a reference: it keeps what
    it had. *)
Example reference_kept : exists v, @read_reference zero_malloc 1
    (World (Engine (word 0) true modeRead [1%positive] ∅ [] ∅) ring kinds) 2%positive = Ok tt v /\ objects v = ring.
Proof. eexists. split; [vm_compute; reflexivity|]. done. Qed.

(** A null pointer is not read into a reference, an engine is used one way, and the
    marks are looked at. *)
Lemma null_reference `{Malloc} fuel v l k : reads v (word NullObject ++ k) ->
  read_reference fuel v l = Throw "Object Id should not be NULL when un-persisting to a reference" (advance v k).
Proof. intros Hv. unfold read_reference. by rewrite (read_word_ok v NullObject k). Qed.

Lemma wrong_mark `{Malloc} v s k mark reason : reads v (coded s ++ k) -> text s -> s <> bytes mark ->
  check v mark reason = Throw reason (advance v k).
Proof. intros Hv Hs Hne. unfold check. rewrite (read_string_ok v s k) by done. cbn [bind]. by rewrite bool_decide_false. Qed.

(** ** The registry *)

(** The count is the number of classes, and there is a map while there are some. *)
Definition balanced (m : TypeManager.t) : Prop :=
  match TypeManager.functions m with
  | None => TypeManager.refCount m = 0
  | Some fs => TypeManager.refCount m = Z.of_nat (size fs) /\ fs <> ∅
  end.

Lemma types_add m name c : balanced m -> TypeManager.createInstanceOf m name = None -> exists m',
  TypeManager.add m name c = Some m' /\ balanced m' /\
  forall x, TypeManager.createInstanceOf m' x = if decide (x = name) then Some c else TypeManager.createInstanceOf m x.
Proof.
  unfold balanced, TypeManager.createInstanceOf, TypeManager.add. destruct m as [[fs|] n]; cbn.
  - intros [-> Hne]. destruct (Z.eqb_spec (Z.of_nat (size fs)) 0) as [E|E].
    { apply Nat2Z.inj with (m := 0%nat), map_size_empty_inv in E. done. }
    run. intros Hn. rewrite Hn. eexists. split; [done|]. cbn. rewrite map_size_insert_None by done.
    split; [split; [lia|apply insert_non_empty]|]. intros x.
    destruct (Z.eqb_spec (Z.of_nat (size fs) + 1) 0); [lia|]. run. case_decide as Ex.
    + subst. apply lookup_insert_eq.
    + by apply lookup_insert_ne.
  - intros -> _. cbn [Z.eqb]. run. rewrite lookup_empty. eexists. split; [done|]. cbn.
    split; [split; [by rewrite insert_empty, map_size_singleton|apply insert_non_empty]|]. intros x. case_decide as Ex.
    + subst. apply lookup_insert_eq.
    + by rewrite lookup_insert_ne.
Qed.

Lemma types_remove m name : balanced m -> is_Some (TypeManager.createInstanceOf m name) -> exists m',
  TypeManager.remove m name = Some m' /\ balanced m' /\
  forall x, TypeManager.createInstanceOf m' x = if decide (x = name) then None else TypeManager.createInstanceOf m x.
Proof.
  unfold balanced, TypeManager.createInstanceOf, TypeManager.remove. destruct m as [[fs|] n]; cbn; [|by intros -> []].
  intros [-> Hne]. destruct (Z.eqb_spec (Z.of_nat (size fs)) 0) as [E|E]; [by intros []|]. run. intros [c Hc].
  rewrite Hc. run. pose proof (map_size_delete_Some name fs ltac:(by eexists)) as Hd. eexists. split; [done|]. cbn.
  destruct (Z.eqb_spec (Z.of_nat (size fs) - 1) 0) as [E1|E1].
  - split; [done|]. intros x. case_decide as Ex; [done|].
    assert (size (delete name fs) = 0%nat) as Hz by lia. apply map_size_empty_inv in Hz.
    rewrite <- (lookup_delete_ne fs name x) by done. by rewrite Hz, lookup_empty.
  - split; [split; [lia|]|].
    + intros Hz. rewrite Hz, map_size_empty in Hd. lia.
    + intros x. run. case_decide as Ex.
      * subst. apply lookup_delete_eq.
      * by apply lookup_delete_ne.
Qed.
