(* ===== verification/PersistReads.v ===== *)
(** * Reading what anybody may have written

    [PersistLaws] is about the archives that the engine has written.  Here the stream is
    arbitrary: reading ends, and says what is wrong by exceptions. *)

From stdpp Require Import gmap list strings.
From S2P Require Import Prelude CLib StringObj Persist PersistLaws.
Import PersistEngine.

(** ** Reading ends *)

(** The bytes a reader can still get. *)
Definition left (v : world) : nat := if good (eng v) then length (stream (eng v)) else 0.

(** The call does not put bytes back. *)
Definition quiet {A} (r : outcome A) (v : world) : Prop :=
  match r with Ok _ v' => (left v' <= left v)%nat | _ => True end.

Lemma quiet_bind {A B} (r : outcome A) (f : A -> world -> outcome B) v : quiet r v ->
  (forall a v', (left v' <= left v)%nat -> quiet (f a v') v') -> quiet (bind r f) v.
Proof.
  intros Hr Hf. destruct r as [a v'| | |]; [|done..]. cbn in *. specialize (Hf a v' Hr).
  destruct (f a v'); cbn in *; [lia|done..].
Qed.

Lemma quiet_option {A B} (o : option A) (f : A -> outcome B) v : (forall a, o = Some a -> quiet (f a) v) -> quiet (of_option o f) v.
Proof. intros Hf. destruct o; [by apply Hf|done]. Qed.

Lemma quiet_ok {A} (a : A) v v' : (left v' <= left v)%nat -> quiet (Ok a v') v.
Proof. done. Qed.

Lemma readBinary_quiet v n : quiet (readBinary v n) v.
Proof.
  unfold readBinary. destruct (opmode (eng v)); [|done]. destruct (good (eng v)) eqn:E; cbn; [|lia].
  unfold left. cbn. rewrite E. destruct (n <=? _); rewrite ?length_drop; lia.
Qed.

Lemma read_word_quiet v : quiet (read_word v) v.
Proof. apply quiet_bind; [apply readBinary_quiet|]. intros. by apply quiet_ok. Qed.

Lemma read_size_quiet v : quiet (read_size v) v.
Proof. apply quiet_bind; [apply readBinary_quiet|]. intros got v1 _. case_match; [by apply quiet_ok|done]. Qed.

Section memory.
Context `{Malloc}.

Lemma read_string_quiet v : quiet (read_string v) v.
Proof.
  apply quiet_bind; [apply read_word_quiet|]. intros n v1 _. apply quiet_bind; [apply readBinary_quiet|].
  intros got v2 _. do 3 (apply quiet_option; intros ? _). by apply quiet_ok.
Qed.

Lemma read_string_zero v v1 s v' : read_word v = Ok 0 v1 -> read_string v = Ok s v' -> s = [].
Proof.
  intros E. unfold read_string. rewrite E. cbn [bind].
  destruct (readBinary v1 0) as [got v2| | |] eqn:Eb; [|done..]. cbn [bind].
  destruct (blit _ 0 got) as [b|]; [|done]. cbn [of_option]. destruct b as [|x b]; [done|]. cbn. by intros [= <- _].
Qed.

(** A string that is not empty has taken bytes from the stream. *)
Lemma read_string_takes v s v' : read_string v = Ok s v' -> s <> [] -> (left v' < left v)%nat.
Proof.
  intros E Hs. destruct (read_word v) as [n v1| | |] eqn:Ew; [|by unfold read_string in E; rewrite Ew in E..].
  destruct (decide (n = 0)) as [->|Hn]; [by destruct (Hs (read_string_zero _ _ _ _ Ew E))|].
  assert (left v1 < left v)%nat as H1.
  { unfold read_word, readBinary in Ew. destruct (opmode (eng v)); [|done]. unfold left.
    destruct (good (eng v)); [|by injection Ew as <- <-]. cbn [bind] in Ew. injection Ew as <- <-. cbn.
    destruct (stream (eng v)) as [|x st]; [done|].
    destruct (4 <=? _); rewrite ?length_drop; cbn [length]; lia. }
  pose proof (read_string_quiet v) as _. unfold read_string in E. rewrite Ew in E. cbn [bind] in E.
  pose proof (readBinary_quiet v1 n) as Hq. destruct (readBinary v1 n) as [got v2| | |]; [|done..]. cbn [bind quiet] in *.
  do 3 (match type of E with of_option ?o _ = _ => destruct o; [|done]; cbn [of_option] in E end).
  injection E as _ <-. lia.
Qed.

(** *** Members *)

Definition calm (self : world -> option address -> outcome (option address)) : Prop := forall v p, quiet (self v p) v.

(** Two ways to read a pointer that do the same when less than [k] bytes are left. *)
Definition agree (k : nat) (f g : world -> option address -> outcome (option address)) : Prop :=
  forall v p, (left v < k)%nat -> f v p = g v p.

Lemma bind_agree {A B} (r : outcome A) (f g : A -> world -> outcome B) v k : quiet r v -> (left v < k)%nat ->
  (forall a v', (left v' < k)%nat -> f a v' = g a v') -> bind r f = bind r g.
Proof. intros Hq Hk Hf. destruct r as [a v'| | |]; [|done..]. apply Hf. cbn in Hq. lia. Qed.

Lemma member_quiet self m : calm self -> forall v, quiet (read_member self v m) v.
Proof.
  intros Hs. induction m as [b|s|p|d l IH _] using member_ind_deep; intros v; cbn [read_member].
  - apply quiet_bind; [apply readBinary_quiet|]. intros. by apply quiet_ok.
  - apply quiet_bind; [apply read_string_quiet|]. intros. by apply quiet_ok.
  - apply quiet_bind; [apply Hs|]. intros. by apply quiet_ok.
  - apply quiet_bind; [apply read_size_quiet|]. intros n v1 _. apply quiet_bind; [|intros; by apply quiet_ok].
    generalize (Z.to_nat n). clear n. intros n. revert v1. induction n as [|n IHn]; intros v1; [by apply quiet_ok|].
    apply quiet_bind; [apply IH|]. intros x v2 _. apply quiet_bind; [apply IHn|]. intros. by apply quiet_ok.
Qed.

Lemma member_agree k f g m : calm f -> agree k f g -> forall v, (left v < k)%nat -> read_member f v m = read_member g v m.
Proof.
  intros Hq Ha. induction m as [b|s|p|d l IH _] using member_ind_deep; intros v Hv; cbn [read_member]; [done|done| |].
  - by rewrite <- Ha.
  - apply (bind_agree _ _ _ v k); [apply read_size_quiet|done|]. intros n v1 Hv1. f_equal.
    generalize (Z.to_nat n). clear n. intros n. revert v1 Hv1. induction n as [|n IHn]; intros v1 Hv1; [done|].
    rewrite <- IH by done. apply (bind_agree _ _ _ v1 k); [by apply member_quiet|done|]. intros x v2 Hv2. by rewrite IHn.
Qed.

Lemma members_quiet self l : calm self -> forall n i v, quiet (read_members self v l i n) v.
Proof.
  intros Hs. induction n as [|n IH]; intros i v; [by apply quiet_ok|]. cbn [read_members].
  do 2 (apply quiet_option; intros ? _). apply quiet_bind; [by apply member_quiet|]. intros m v1 _.
  apply quiet_option. intros o _. pose proof (IH (S i) (set_object v1 l (Object (persistence_id o) (<[i := m]> (members o))))) as Hq.
  exact Hq.
Qed.

Lemma members_agree k f g l : calm f -> agree k f g -> forall n i v, (left v < k)%nat ->
  read_members f v l i n = read_members g v l i n.
Proof.
  intros Hq Ha. induction n as [|n IH]; intros i v Hv; [done|]. cbn [read_members].
  destruct (objects v !! l) as [o|]; [|done]. cbn [of_option]. destruct (members o !! i) as [m|]; [|done]. cbn [of_option].
  rewrite <- (member_agree k f g m Hq Ha v Hv). apply (bind_agree _ _ _ v k); [by apply member_quiet|done|].
  intros m' v1 Hv1. destruct (objects v1 !! l) as [o1|]; [|done]. cbn [of_option]. by apply IH.
Qed.

(** *** Objects *)

Lemma check_quiet v mark reason : quiet (check v mark reason) v.
Proof. apply quiet_bind; [apply read_string_quiet|]. intros s v1 _. case_bool_decide; [by apply quiet_ok|done]. Qed.

(** A mark is not empty. *)
Lemma check_takes v (mark reason : string) v' : check v mark reason = Ok tt v' -> bytes mark <> [] -> (left v' < left v)%nat.
Proof.
  unfold check. destruct (read_string v) as [s v1| | |] eqn:E; [|done..]. cbn [bind]. case_bool_decide as Em; [|done].
  intros [= <-] Hm. eapply read_string_takes; [exact E|by rewrite Em].
Qed.

Lemma readClass_quiet v : quiet (readClass v) v.
Proof.
  apply quiet_bind; [apply read_word_quiet|]. intros n v1 _. destruct (n <? _).
  - apply quiet_option. intros name _. by apply quiet_ok.
  - apply quiet_bind; [apply read_string_quiet|]. intros name v2 _. by apply quiet_ok.
Qed.

Lemma readObject_quiet self v l : calm self -> quiet (readObject self v l) v.
Proof.
  intros Hs. unfold readObject. set (v0 := set_engine v _).
  assert (quiet (bind (check v0 "OBST" "Missing Start-of-Object marker") (fun _ w =>
    of_option (objects w !! l) (fun o => bind (read_members self w l 0 (length (members o))) (fun _ w =>
    check w "OBEN" "Missing End-of-Object marker")))) v0) as Hq; [|exact Hq].
  apply quiet_bind; [apply check_quiet|]. intros _ v1 _. apply quiet_option. intros o _.
  apply quiet_bind; [by apply members_quiet|]. intros _ v2 _. apply check_quiet.
Qed.

(** The members are read with less than is left for the object. *)
Lemma readObject_agree k f g v l : calm f -> agree k f g -> (left v <= k)%nat -> readObject f v l = readObject g v l.
Proof.
  intros Hq Ha Hv. unfold readObject. set (v0 := set_engine v _). assert (left v0 = left v) as E0 by done.
  destruct (check v0 "OBST" _) as [[] v1| | |] eqn:E; [|done..]. cbn [bind].
  apply check_takes in E; [|done]. destruct (objects v1 !! l) as [o|]; [|done]. cbn [of_option].
  rewrite <- (members_agree k f g l Hq Ha) by lia. done.
Qed.

Lemma read_object_quiet self v p : calm self -> quiet (read_object self v p) v.
Proof.
  intros Hs. apply quiet_bind; [apply read_word_quiet|]. intros id v1 _. destruct (id =? NullObject); [by apply quiet_ok|].
  destruct (id <? _); [apply quiet_option; intros ? _; by apply quiet_ok|]. apply quiet_bind; [apply readClass_quiet|]. intros name v2 _. destruct p as [l|].
  - apply quiet_bind; [by apply readObject_quiet|]. intros _ v3 _. by apply quiet_ok.
  - apply quiet_option. intros ms _. cbv zeta. set (v3 := set_object v2 _ _).
    assert (forall A (r : outcome A), quiet r v3 -> quiet r v2) as E by done. apply E, quiet_bind; [by apply readObject_quiet|]. intros _ v4 _. by apply quiet_ok.
Qed.

Lemma read_calm n : calm (read n).
Proof. induction n as [|n IH]; intros v p; [done|]. by apply read_object_quiet. Qed.

Lemma read_object_agree k f g v p : calm f -> agree k f g -> (left v <= k)%nat -> read_object f v p = read_object g v p.
Proof.
  intros Hq Ha Hv. unfold read_object. apply (bind_agree _ _ _ v (S k)); [apply read_word_quiet|lia|]. intros id v1 Hv1.
  destruct (id =? NullObject); [done|]. destruct (id <? _); [done|].
  apply (bind_agree _ _ _ v1 (S k)); [apply readClass_quiet|done|]. intros name v2 Hv2.
  destruct p as [l|]; [by rewrite (readObject_agree k f g) by (done || lia)|].
  destruct (TypeManager.createInstanceOf (types v2) name) as [ms|]; [|done]. cbn [of_option].
  f_equal. apply (readObject_agree k); [done|done|]. change (left v2 <= k)%nat. lia.
Qed.

(** *** Enough fuel *)

Section ends.
Context (k : nat).

(** A way to read a pointer for which the fuel is enough when less than [k] bytes are left. *)
Definition ends (f : world -> option address -> outcome (option address)) : Prop :=
  forall v p, (left v < k)%nat -> f v p <> OutOfFuel.

Lemma bind_ends {A B} (r : outcome A) (f : A -> world -> outcome B) v : quiet r v -> (left v < k)%nat ->
  r <> OutOfFuel -> (forall a v', (left v' < k)%nat -> f a v' <> OutOfFuel) -> bind r f <> OutOfFuel.
Proof. intros Hq Hk Hr Hf. destruct r as [a v'| | |]; [|done..]. apply Hf. cbn in Hq. lia. Qed.

Lemma option_ends {A B} (o : option A) (f : A -> outcome B) : (forall a, f a <> OutOfFuel) -> of_option o f <> OutOfFuel.
Proof. intros Hf. destruct o; [apply Hf|done]. Qed.

Lemma readBinary_ends v n : readBinary v n <> OutOfFuel.
Proof. unfold readBinary. by repeat case_match. Qed.

Lemma read_word_ends v : read_word v <> OutOfFuel.
Proof. unfold read_word. pose proof (readBinary_ends v 4). by destruct (readBinary v 4). Qed.

Lemma read_size_ends v : read_size v <> OutOfFuel.
Proof.
  unfold read_size. pose proof (readBinary_ends v 4). destruct (readBinary v 4); [|done..]. cbn. by case_match.
Qed.

Lemma read_string_ends v : read_string v <> OutOfFuel.
Proof.
  unfold read_string. pose proof (read_word_ends v). destruct (read_word v) as [n v1| | |]; [|done..]. cbn [bind].
  pose proof (readBinary_ends v1 n). destruct (readBinary v1 n); [|done..]. cbn [bind].
  do 3 (apply option_ends; intros ?). done.
Qed.

Lemma check_ends v mark reason : check v mark reason <> OutOfFuel.
Proof.
  unfold check. pose proof (read_string_ends v). destruct (read_string v); [|done..]. cbn [bind]. by case_match.
Qed.

Lemma readClass_ends v : readClass v <> OutOfFuel.
Proof.
  unfold readClass. pose proof (read_word_ends v). destruct (read_word v) as [n v1| | |]; [|done..]. cbn [bind].
  case_match; [by apply option_ends|]. pose proof (read_string_ends v1). by destruct (read_string v1).
Qed.

Context (self : world -> option address -> outcome (option address)).
Context (Hcalm : calm self) (Hself : ends self).

Lemma member_ends m : forall v, (left v < k)%nat -> read_member self v m <> OutOfFuel.
Proof.
  induction m as [b|s|p|d l IH _] using member_ind_deep; intros v Hv; cbn [read_member].
  - apply (bind_ends _ _ v); [apply readBinary_quiet|done|apply readBinary_ends|done].
  - apply (bind_ends _ _ v); [apply read_string_quiet|done|apply read_string_ends|done].
  - apply (bind_ends _ _ v); [apply Hcalm|done|by apply Hself|done].
  - apply (bind_ends _ _ v); [apply read_size_quiet|done|apply read_size_ends|]. intros n v1 Hv1.
    set (go := fix go (n : nat) (w : world) : outcome (list member) := _).
    assert (forall n v, (left v < k)%nat -> go n v <> OutOfFuel) as Hgo.
    { clear - IH Hcalm Hself. induction n as [|n IHn]; intros v Hv; [done|].
      apply (bind_ends _ _ v); [by apply member_quiet|done|by apply IH|]. intros x v2 Hv2.
      specialize (IHn v2 Hv2). fold go in IHn |- *. by destruct (go n v2). }
    specialize (Hgo (Z.to_nat n) v1 Hv1). fold go. by destruct (go (Z.to_nat n) v1).
Qed.

Lemma members_ends l n : forall i v, (left v < k)%nat -> read_members self v l i n <> OutOfFuel.
Proof.
  induction n as [|n IH]; intros i v Hv; [done|]. cbn [read_members].
  apply option_ends. intros o. apply option_ends. intros m.
  apply (bind_ends _ _ v); [by apply member_quiet|done|by apply member_ends|]. intros m' v1 Hv1.
  apply option_ends. intros o1. by apply IH.
Qed.

Lemma readObject_ends v l : (left v <= k)%nat -> readObject self v l <> OutOfFuel.
Proof.
  intros Hv. unfold readObject. set (v0 := set_engine v _). assert (left v0 = left v) as E0 by done.
  pose proof (check_ends v0 "OBST" "Missing Start-of-Object marker") as Hc.
  destruct (check v0 "OBST" _) as [[] v1| | |] eqn:E; [|done..]. cbn [bind].
  apply check_takes in E; [|done]. apply option_ends. intros o.
  apply (bind_ends _ _ v1); [by apply members_quiet|lia|apply members_ends; lia|]. intros _ v2 _. apply check_ends.
Qed.
End ends.

Lemma read_object_ends k f v p : calm f -> ends k f -> (left v <= k)%nat -> read_object f v p <> OutOfFuel.
Proof.
  intros Hq Ha Hv. unfold read_object.
  apply (bind_ends (S k) _ _ v); [apply read_word_quiet|lia|apply read_word_ends|]. intros id v1 Hv1.
  destruct (id =? NullObject); [done|]. destruct (id <? _); [by apply option_ends|].
  apply (bind_ends (S k) _ _ v1); [apply readClass_quiet|done|apply readClass_ends|]. intros name v2 Hv2.
  destruct p as [l|].
  - pose proof (readObject_ends k f Hq Ha v2 l ltac:(lia)) as Hr. by destruct (readObject f v2 l).
  - apply option_ends. intros ms. cbv zeta. set (v3 := set_object _ _ _).
    pose proof (readObject_ends k f Hq Ha v3 (fresh (dom (objects v2)))) as Hr.
    assert (left v3 <= k)%nat as H3 by (change (left v2 <= k)%nat; lia). specialize (Hr H3).
    by destruct (readObject f v3 _).
Qed.

Lemma read_ends n : ends n (read n).
Proof.
  induction n as [|n IH]; intros v p Hv; [lia|]. cbn [read]. apply (read_object_ends n); [apply read_calm|done|lia].
Qed.

(** With more fuel than bytes the fuel does not matter. *)
Lemma read_fuel k : forall n m v p, (left v <= k)%nat -> (k <= n)%nat -> (k <= m)%nat -> read (S n) v p = read (S m) v p.
Proof.
  induction k as [k IH] using lt_wf_ind. intros n m v p Hv Hn Hm. cbn [read].
  apply (read_object_agree (left v)); [apply read_calm| |done]. intros v' p' Hv'.
  destruct n as [|n]; [lia|]. destruct m as [|m]; [lia|]. apply (IH (left v')); lia.
Qed.

Lemma reference_ends n v l : (left v < n)%nat -> read_reference n v l <> OutOfFuel.
Proof.
  intros Hv. unfold read_reference.
  apply (bind_ends n _ _ v); [apply read_word_quiet|lia|apply read_word_ends|]. intros id v1 Hv1.
  destruct (id =? NullObject); [done|]. destruct (id <? _); [by apply option_ends|].
  apply (bind_ends n _ _ v1); [apply readClass_quiet|done|apply readClass_ends|]. intros name v2 Hv2.
  apply (readObject_ends n); [apply read_calm|apply read_ends|lia].
Qed.

Lemma reference_fuel n m v l : (left v < n)%nat -> (left v < m)%nat -> read_reference n v l = read_reference m v l.
Proof.
  intros Hn Hm. unfold read_reference. apply (bind_agree _ _ _ v (S (left v))); [apply read_word_quiet|lia|]. intros id v1 Hv1.
  destruct (id =? NullObject); [done|]. destruct (id <? _); [done|].
  apply (bind_agree _ _ _ v1 (S (left v))); [apply readClass_quiet|done|]. intros name v2 Hv2.
  apply (readObject_agree (left v)); [apply read_calm| |lia]. intros v' p Hv'.
  destruct n as [|n]; [lia|]. destruct m as [|m]; [lia|]. apply (read_fuel (left v')); lia.
Qed.

(** C32.  Reading ends, whatever the stream holds: a call of [read], on a fresh or a used
    engine, spoiled or not, into a null or a given pointer or into a reference, has one
    outcome, which it reaches with any fuel above the number of bytes that are left, and
    which is not that the fuel was not enough: it returns, throws, or does what C++
    does not define. *)
Theorem persist_read_ends (v : world) (p : option address) (l : address) :
  (exists r, r <> OutOfFuel /\ forall fuel, (left v < fuel)%nat -> read fuel v p = r) /\
  (exists r, r <> OutOfFuel /\ forall fuel, (left v < fuel)%nat -> read_reference fuel v l = r).
Proof.
  split.
  - exists (read (S (left v)) v p). split; [by apply read_ends; lia|].
    intros [|n] Hn; [lia|]. apply (read_fuel (left v)); lia.
  - exists (read_reference (S (left v)) v l). split; [by apply reference_ends; lia|].
    intros n Hn. apply reference_fuel; lia.
Qed.

(** ** Exceptions *)

(** A pointer that is null, one that has an object, and a reference. *)
Inductive target := Fresh | Into (l : address) | Over (l : address).

Definition unpersist (fuel : nat) (v : world) (t : target) : outcome unit :=
  match t with
  | Fresh => bind (read (S fuel) v None) (fun _ w => Ok tt w)
  | Into l => bind (read (S fuel) v (Some l)) (fun _ w => Ok tt w)
  | Over l => read_reference fuel v l
  end.

(** The bytes that name a class, one that the engine knows or a new one, and the classes
    it knows then. *)
Definition class_coded (v : world) (name b : list Z) (ks : list (list Z)) : Prop :=
  (exists c, known v !! c = Some name /\ Z.of_nat c < 2 ^ 32 /\ b = word (Z.of_nat c) /\ ks = known v) \/
  (exists c, zlen (known v) <= c < 2 ^ 32 /\ text name /\ b = word c ++ coded name /\ ks = known v ++ [name]).

(** The object that is read into: a new one of the class for a null pointer. *)
Definition placed (v : world) (name : list Z) (t : target) (l : address) (o : object) : Prop :=
  match t with
  | Fresh => l = fresh (dom (objects v)) /\
      exists ms, TypeManager.createInstanceOf (types v) name = Some ms /\ o = Object name ms
  | Into l' | Over l' => l = l' /\ objects v !! l = Some o
  end.

(** The object has its number, and [k] is left of the stream. *)
Definition opened (v : world) (k : list Z) (ks : list (list Z)) (l : address) (o : object) : world :=
  World (Engine k true modeRead (seen v ++ [l]) (ids v) ks (names v)) (<[l := o]> (objects v)) (types v).

Lemma readClass_ok v name b ks k : class_coded v name b ks -> reads v (b ++ k) -> readClass v = Ok name (learn v k ks).
Proof.
  intros [(c & Hc & Hlc & -> & ->)|(c & Hc & Ht & -> & ->)] Hv; unfold readClass.
  - rewrite (read_word_ok v _ k) by (done || lia). cbn [bind]. change (known (advance v k)) with (known v).
    pose proof (lookup_lt_Some _ _ _ Hc) as Hl. destruct (Z.ltb_spec (Z.of_nat c) (zlen (known v))) as [_|Hge].
    2: { unfold zlen in Hge. lia. }
    rewrite Nat2Z.id, Hc. cbn [of_option]. by destruct v as [[] ? ?].
  - rewrite <- app_assoc in Hv. pose proof (zlen_nonneg (known v)).
    rewrite (read_word_ok v _ (coded name ++ k)) by (done || lia). cbn [bind].
    change (known (advance v _)) with (known v). destruct (Z.ltb_spec c (zlen (known v))); [lia|].
    rewrite (read_string_ok _ name k) by (done || by eapply reads_advance). cbn [bind]. by destruct v as [[] ? ?].
Qed.

(** An object that has not been read yet is read between its marks. *)
Lemma unpersist_opens fuel v t id name b ks l o r : reads v (word id ++ b ++ r) -> zlen (seen v) <= id < NullObject ->
  class_coded v name b ks -> placed v name t l o ->
  unpersist fuel v t = bind (check (opened v r ks l o) "OBST" "Missing Start-of-Object marker") (fun _ w =>
    of_option (objects w !! l) (fun o => bind (read_members (read fuel) w l 0 (length (members o))) (fun _ w =>
    check w "OBEN" "Missing End-of-Object marker"))).
Proof.
  intros Hv Hid Hc Hp. pose proof Hv as (Em & _). pose proof (zlen_nonneg (seen v)) as H0. unfold NullObject in Hid.
  assert (read_word v = Ok id (advance v (b ++ r))) as Hw by (apply read_word_ok; [done|lia]).
  assert ((id =? NullObject) = false /\ (id <? zlen (seen v)) = false) as [E1 E2] by (unfold NullObject; lia).
  assert (readClass (advance v (b ++ r)) = Ok name (learn v r ks)) as Hk.
  { rewrite (readClass_ok _ name b ks r) by (by eapply reads_advance || exact Hc). done. }
  assert (forall l, placed v name (Over l) l o -> set_engine (learn v r ks)
    (with_archive (eng (learn v r ks)) (seen (learn v r ks) ++ [l]) (ids (learn v r ks))) = opened v r ks l o) as Ho.
  { intros l' [_ Hl']. unfold opened, learn, set_engine, with_archive. cbn. rewrite Em. by rewrite insert_id. }
  assert (forall (r : outcome unit), bind r (fun _ w => Ok tt w) = r) as Hret by by intros [[]| | |].
  assert (forall (A : Type) (a : A) (r : outcome unit), bind (bind r (fun _ w => Ok a w)) (fun _ w => Ok tt w) = r) as Hpt
    by by intros A a [[]| | |].
  destruct t as [|l'|l']; cbn [placed] in Hp; cbn [unpersist read]; unfold read_object, read_reference;
    rewrite Hw; cbn [bind]; rewrite E1; change (seen (advance v _)) with (seen v); rewrite E2, Hk; cbn [bind].
  - destruct Hp as (-> & ms & Hms & ->). change (types (learn v r ks)) with (types v). rewrite Hms. cbn [of_option]. cbv zeta.
    rewrite Hpt. unfold readObject. f_equal. unfold opened, learn, set_object, set_engine, with_archive. cbn. by rewrite Em.
  - destruct Hp as [<- Hl]. rewrite Hpt. unfold readObject. by rewrite Ho.
  - destruct Hp as [<- Hl]. unfold readObject. by rewrite Ho.
Qed.

(** C33.  What is wrong is thrown.  An engine is used one way: on the other one every call
    throws, and the stream stays.  A null pointer is not read into a reference.  An
    object that comes for the first time stands between its marks, whether it is read into
    a null pointer, into an object or into a reference, and whether its class is known or
    new: another text in place of the start mark throws before a member is read, when the
    object has been made and has its number, and behind the members another text in place
    of the end mark throws, where the end mark lets the call return. *)
Theorem persist_errors (fuel : nat) (v : world) (p : option address) :
  (opmode (eng v) = modeWrite -> read (S fuel) v p = Throw "Cannot read from an output Engine" v) /\
  (opmode (eng v) = modeRead -> (forall l, p = Some l -> is_Some (objects v !! l)) -> exists v',
    write (S fuel) v p = Throw "Cannot write to an input Engine" v' /\ stream (eng v') = stream (eng v)) /\
  (forall l k, reads v (word NullObject ++ k) -> exists v',
    read_reference fuel v l = Throw "Object Id should not be NULL when un-persisting to a reference" v' /\ reads v' k /\
    objects v' = objects v) /\
  (forall t id name b ks l o s k, reads v (word id ++ b ++ coded s ++ k) -> zlen (seen v) <= id < NullObject ->
    class_coded v name b ks -> placed v name t l o -> text s -> s <> bytes "OBST" ->
    unpersist fuel v t = Throw "Missing Start-of-Object marker" (opened v k ks l o)) /\
  (forall t id name b ks l o body v' s k, reads v (word id ++ b ++ coded (bytes "OBST") ++ body) ->
    zlen (seen v) <= id < NullObject -> class_coded v name b ks -> placed v name t l o ->
    read_members (read fuel) (opened v body ks l o) l 0 (length (members o)) = Ok tt v' ->
    reads v' (coded s ++ k) -> text s ->
    unpersist fuel v t = if bool_decide (s = bytes "OBEN") then Ok tt (advance v' k)
                         else Throw "Missing End-of-Object marker" (advance v' k)).
Proof.
  split; [|split; [|split; [|split]]].
  - intros E. cbn [read]. unfold read_object, read_word, readBinary. by rewrite E.
  - intros E Hp. cbn [write]. unfold write_object, write_word, writeBinary. destruct p as [l|]; [|rewrite E; by eexists].
    destruct (ids v !! l) as [z|]; [rewrite E; by eexists|]. destruct (Hp l eq_refl) as [o Ho]. rewrite Ho. cbn. rewrite E. by eexists.
  - intros l k Hv. rewrite (null_reference fuel v l k Hv). eexists. split; [done|]. split; [by eapply reads_advance|done].
  - intros t id name b ks l o s k Hv Hid Hc Hp Ht Hs. rewrite (unpersist_opens fuel v t id name b ks l o (coded s ++ k)) by done.
    rewrite (wrong_mark _ s k) by done. done.
  - intros t id name b ks l o body v' s k Hv Hid Hc Hp Hm Hv' Ht.
    rewrite (unpersist_opens fuel v t id name b ks l o (coded (bytes "OBST") ++ body)) by done.
    rewrite (check_ok _ _ _ body) by (done || by left). cbn [bind].
    change (advance (opened v (coded (bytes "OBST") ++ body) ks l o) body) with (opened v body ks l o).
    change (objects (opened v body ks l o)) with (<[l := o]> (objects v)). rewrite lookup_insert_eq. cbn [of_option].
    rewrite Hm. cbn [bind]. unfold check. rewrite (read_string_ok v' s k) by done. done.
Qed.

End memory.

(** ** Scenes *)

Lemma persist_read_ends_witness : let v := reading (word 0 ++ word 0 ++ coded (bytes "Node")) ∅ kinds in
  @read zero_malloc 100 v None = @read zero_malloc 17 v None /\ @read zero_malloc 100 v None <> OutOfFuel.
Proof.
  intros v. destruct (@persist_read_ends zero_malloc v None 1%positive) as [(r & Hr & H) _].
  rewrite (H 100%nat), (H 17%nat); [done|vm_compute; lia..].
Defined.

(** A vector whose size is not there: what happens is not defined. *)
Example vector_size_missing : @read zero_malloc 1 (reading (word 0 ++ word 0 ++ coded (bytes "List") ++ coded (bytes "OBST"))
  ∅ (TypeManager.Mk (Some {[ bytes "List" := [Vec (Num [0]) []] ]}) 1)) None = Undefined.
Proof. vm_compute. reflexivity. Qed.

(** An object without members whose start mark, or end mark, is another text. *)
Definition plain : TypeManager.t := TypeManager.Mk (Some {[ bytes "Plain" := [] ]}) 1.

Lemma persist_errors_witness : let head := word 0 ++ word 0 ++ coded (bytes "Plain") in
  (exists v', @unpersist zero_malloc 1 (reading (head ++ coded (bytes "OOPS")) ∅ plain) Fresh =
     Throw "Missing Start-of-Object marker" v') /\
  (exists v', @unpersist zero_malloc 1 (reading (head ++ coded (bytes "OBST") ++ coded (bytes "OOPS")) ∅ plain) Fresh =
     Throw "Missing End-of-Object marker" v').
Proof.
  assert (text (bytes "OOPS") /\ text (bytes "Plain")) as [T1 T2] by (split; (split; [by apply (bool_decide_unpack _)|done])).
  assert (forall s, class_coded (reading s ∅ plain) (bytes "Plain") (word 0 ++ coded (bytes "Plain")) [bytes "Plain"]) as Hc.
  { intros s. right. by exists 0. }
  split.
  - set (v := reading _ ∅ plain). eexists.
    apply (proj1 (proj2 (proj2 (proj2 (@persist_errors zero_malloc 1 v None)))) Fresh 0 (bytes "Plain")
      (word 0 ++ coded (bytes "Plain")) [bytes "Plain"] 1%positive (Object (bytes "Plain") []) (bytes "OOPS") []).
    + split; [done|]. split; [done|]. reflexivity.
    + done.
    + apply Hc.
    + split; [reflexivity|]. by eexists.
    + done.
    + by apply (bool_decide_unpack _).
  - set (v := reading _ ∅ plain). eexists.
    apply (proj2 (proj2 (proj2 (proj2 (@persist_errors zero_malloc 1 v None)))) Fresh 0 (bytes "Plain")
      (word 0 ++ coded (bytes "Plain")) [bytes "Plain"] 1%positive (Object (bytes "Plain") []) (coded (bytes "OOPS"))
      (opened v (coded (bytes "OOPS")) [bytes "Plain"] 1%positive (Object (bytes "Plain") [])) (bytes "OOPS") []).
    + split; [done|]. split; [done|]. reflexivity.
    + done.
    + apply Hc.
    + split; [reflexivity|]. by eexists.
    + reflexivity.
    + split; [done|]. split; [done|]. reflexivity.
    + done.
Defined.
