(* ===== verification/Shell.v ===== *)
(** * The command line (corelib/shell.cpp)

    An argument is its text; behind the last one of [argv] is the null pointer, and
    nothing behind that.  A call of [errexit] ends the program with what it prints.  The
    messages are those of the table, which a program may set; they are not translated. *)

From stdpp Require Import list strings.
From S2P Require Import Prelude CLib Strings.

(** What a call does: it ends, it prints a text and exits with the code 1, or it leaves
    what C++ defines. *)
Inductive outcome (A : Type) := Done (a : A) | Exit (message : list Z) | Undefined.
Arguments Done {A} _.
Arguments Exit {A} _.
Arguments Undefined {A}.

Definition bind {A B} (r : outcome A) (f : A -> outcome B) : outcome B :=
  match r with Done a => f a | Exit m => Exit m | Undefined => Undefined end.

Definition of_option {A} (o : option A) : outcome A := match o with Some a => Done a | None => Undefined end.

(** The character at an offset of a text: the terminator is there too. *)
Definition char_at (s : list Z) (i : Z) : option Z := rd (s ++ [0]) i.

(** ** [strtol (s, &end, 0)]

    The value, which stays within a [long], and the text behind it. *)

Definition digit_value (c : Z) : Z :=
  if isdigit c then c - 48 else if islower c then c - 87 else if isupper c then c - 55 else 99.

Fixpoint digits_in (base : Z) (s : list Z) (acc : Z) : Z * list Z :=
  match s with
  | c :: s' => if digit_value c <? base then digits_in base s' (acc * base + digit_value c) else (acc, s)
  | [] => (acc, [])
  end.

Definition clamp (z : Z) : Z := Z.max (- 2 ^ 63) (Z.min (2 ^ 63 - 1) z).

Definition sign_of (s : list Z) : bool * list Z :=
  match s with 45 :: t => (true, t) | 43 :: t => (false, t) | _ => (false, s) end.

Definition base_of (s : list Z) : Z * list Z :=
  match s with
  | 48 :: x :: d :: r => if ((x =? 120) || (x =? 88)) && (digit_value d <? 16) then (16, d :: r) else (8, s)
  | 48 :: _ => (8, s)
  | _ => (10, s)
  end.

Definition strtol (s : list Z) : Z * list Z :=
  let '(neg, t) := sign_of (skip_space s) in
  let '(base, t) := base_of t in
  match t with
  | d :: _ =>
      if digit_value d <? base then
        let '(v, r) := digits_in base t 0 in (clamp (if neg : bool then - v else v), r)
      else (0, s)
  | [] => (0, s)
  end.

Module shell.

Inductive errmsg_t := NOARGS | NOARGUMENT | INVARGUMENT | BADOPTION | OPTION_USED | BAD_VALUE | NUMERIC_SET.
Inductive numeric_t := NO_NUMERIC | NUMERIC_PLUS | NUMERIC_DASH | NUMERIC_ALL.

#[export] Instance errmsg_eq_dec : EqDecision errmsg_t.
Proof. solve_decision. Defined.

Definition msgs (id : errmsg_t) : list Z :=
  match id with
  | NOARGS => bytes "missing command line arguments"
  | NOARGUMENT => bytes "missing argument for option"
  | INVARGUMENT => bytes "option does not have argument"
  | BADOPTION => bytes "unknown command option"
  | OPTION_USED => bytes "option already used"
  | BAD_VALUE => bytes "invalid argument used"
  | NUMERIC_SET => bytes "numeric value already set"
  end.

(** [errmsg (id, text)] *)
Definition set_errmsg (m : errmsg_t -> list Z) (id : errmsg_t) (text : list Z) : errmsg_t -> list Z :=
  fun x => if decide (x = id) then text else m x.

(** ** Options

    What the classes of options keep. *)
Inductive kind :=
  | flagopt (single : bool) (counter : Z)
  | numericopt (used : bool) (number : Z)
  | counteropt (used : bool) (number : Z)
  | groupopt
  | stringopt (used : bool) (text : option (list Z))
  | charopt (used : bool) (code : Z).

Record Option := Opt {
  short_option : Z; long_option : option (list Z); uses_option : option (list Z); help_string : option (list Z);
  trigger_option : bool; state : kind }.

Definition with_state (o : Option) (k : kind) : Option :=
  Opt (short_option o) (long_option o) (uses_option o) (help_string o) (trigger_option o) k.

(** The base constructor: dashes in front of the long name go. *)
Fixpoint skip_dashes (s : list Z) : list Z := match s with c :: s' => if c =? 45 then skip_dashes s' else s | [] => [] end.

Definition make (shortopt : Z) (longopt value help : option (list Z)) (k : kind) : Option :=
  Opt shortopt (skip_dashes <$> longopt) value help (match k with counteropt _ _ => true | _ => false end) k.

Definition make_flag (c : Z) (l help : option (list Z)) (single_use : bool) : Option := make c l None help (flagopt single_use 0).
Definition make_numeric (c : Z) (l help type : option (list Z)) (def_value : Z) : Option := make c l type help (numericopt false def_value).
Definition make_counter (c : Z) (l help type : option (list Z)) (def_value : Z) : Option := make c l type help (counteropt false def_value).
Definition make_group (help : option (list Z)) : Option := make 0 None None help groupopt.
Definition make_string (c : Z) (l help type def_value : option (list Z)) : Option := make c l type help (stringopt false def_value).
Definition make_char (c : Z) (l help type : option (list Z)) (def_value : Z) : Option := make c l type help (charopt false def_value).

Definition disable (o : Option) : Option := Opt 0 None None None (trigger_option o) (state o).

(** The list of options: a new one goes behind the last one. *)
Definition enlist (opts : list Option) (o : Option) : list Option := opts ++ [o].
Definition reset (opts : list Option) : list Option := [].

(** [assign] of each class: the new state, and the message when it refuses.  A null
    value is dereferenced by those that read a number or a character; the character
    behind the first one is read even when that is the terminator. *)
Definition number_of (value : list Z) : Z * option errmsg_t :=
  let '(n, rest) := strtol value in (n, match rest with [] => None | _ => Some BAD_VALUE end).

Definition assign (k : kind) (value : option (list Z)) : option (kind * option errmsg_t) :=
  match k with
  | flagopt single counter =>
      if single && negb (counter =? 0) then Some (k, Some OPTION_USED) else Some (flagopt single (u32 (counter + 1)), None)
  | numericopt used n =>
      if used : bool then Some (k, Some OPTION_USED)
      else v ← value; let '(n, err) := number_of v in Some (numericopt true n, err)
  | counteropt used n =>
      match value with
      | None => Some (counteropt true (n + 1), None)
      | Some v =>
          if used : bool then Some (k, Some OPTION_USED)
          else let '(n, err) := number_of v in Some (counteropt true n, err)
      end
  | groupopt => Some (k, None)
  | stringopt used _ => if used : bool then Some (k, Some OPTION_USED) else Some (stringopt true value, None)
  | charopt used code =>
      if used : bool then Some (k, Some OPTION_USED)
      else
        v ← value;
        c1 ← char_at v 1;
        if c1 =? 0 then c0 ← char_at v 0; Some (charopt true c0, None)
        else
          let '(n, err) := number_of v in
          match err with
          | Some e => Some (charopt true code, Some e)
          | None => if (n <? 0) || (255 <? n) then Some (charopt true code, Some BAD_VALUE) else Some (charopt true n, None)
          end
  end.

(** ** Parsing *)

Section parsing.
Context (argv0 : list Z) (text : errmsg_t -> list Z).

(** The message of an exit: of an option with dashes in front of it, or of an argument. *)
Definition errexit (dashes option : list Z) (e : errmsg_t) : list Z :=
  bytes "*** " ++ argv0 ++ bytes ": " ++ dashes ++ option ++ bytes ": " ++ text e ++ [10].

Record parser := Parser { options : list Option; numeric_value : Z }.

Definition set_option (p : parser) (i : nat) (o : Option) : parser := Parser (<[i := o]> (options p)) (numeric_value p).

(** What the search for a long option ends with: the option and its value, an option
    that takes the next argument, an exit, or nothing. *)
Inductive found := Value (i : nat) (value : option (list Z)) | Next (i : nat) | Refuse (o : list Z) | Nothing.

Fixpoint find_long (opts : list Option) (i : nat) (opt : list Z) : option found :=
  match opts with
  | [] => Some Nothing
  | op :: opts =>
      match long_option op with
      | None => find_long opts (S i) opt
      | Some l =>
          let len := zlen l in
          same ← Str.equal_len (Some (l ++ [0])) (Some (opt ++ [0])) len;
          if same : bool then
            c ← char_at opt len;
            if (c =? 61) && bool_decide (uses_option op = None) then Some (Refuse l)
            else if c =? 61 then Some (Value i (Some (drop (Z.to_nat (len + 1)) opt)))
            else if c =? 0 then Some (if decide (uses_option op = None) then Value i None else Next i)
            else find_long opts (S i) opt
          else find_long opts (S i) opt
      end
  end.

Fixpoint find_short (opts : list Option) (i : nat) (c : Z) : option nat :=
  match opts with [] => None | op :: opts => if short_option op =? c then Some i else find_short opts (S i) c end.

(** [assign] of the option [i], and the exit when it refuses; [name] is what is printed. *)
Definition give (p : parser) (i : nat) (value : option (list Z)) (dashes name : list Z) : outcome parser :=
  bind (of_option (options p !! i)) (fun op =>
  bind (of_option (assign (state op) value)) (fun '(k, err) =>
    match err with
    | Some e => Exit (errexit dashes name e)
    | None => Done (set_option p i (with_state op k))
    end)).

(** The letters of an argument with one dash; [args] are those behind it. *)
Fixpoint letters (p : parser) (arg : list Z) (args : list (list Z)) : outcome (parser * list (list Z)) :=
  match arg with
  | [] => Done (p, args)
  | c :: arg =>
      match find_short (options p) 0 c with
      | None => Exit (errexit (bytes "-") [c] BADOPTION)
      | Some i =>
          bind (of_option (options p !! i)) (fun op =>
          if trigger_option op then
            bind (give p i None (bytes "-") [short_option op]) (fun p => letters p arg args)
          else
            match uses_option op with
            | None => bind (give p i None (bytes "-") [short_option op]) (fun p => letters p arg args)
            | Some _ =>
                match arg, args with
                | [], [] => Exit (errexit (bytes "-") [short_option op] NOARGUMENT)
                | [], v :: args => bind (give p i (Some v) (bytes "-") [short_option op]) (fun p => Done (p, args))
                | _, _ => bind (give p i (Some arg) (bytes "-") [short_option op]) (fun p => Done (p, args))
                end
            end)
      end
  end.

(** A long option, with one dash or two. *)
Definition name_of (p : parser) (i : nat) : list Z := default [] (op ← options p !! i; long_option op).

Definition long (p : parser) (f : found) (args : list (list Z)) : outcome (option (parser * list (list Z))) :=
  match f with
  | Refuse l => Exit (errexit (bytes "--") l INVARGUMENT)
  | Value i value => bind (give p i value (bytes "--") (name_of p i)) (fun p => Done (Some (p, args)))
  | Next i =>
      match args with
      | [] => Exit (errexit (bytes "--") (name_of p i) NOARGUMENT)
      | v :: args => bind (give p i (Some v) (bytes "--") (name_of p i)) (fun p => Done (Some (p, args)))
      end
  | Nothing => Done None
  end.

(** The argument up to an equals sign, which is overwritten. *)
Definition up_to_equals (arg : list Z) : list Z :=
  match strchr arg 61 with Some i => take (Z.to_nat i) arg | None => arg end.

(** A number with its sign, where the mode takes it for one. *)
Definition is_number (mode : numeric_t) (arg : list Z) : bool :=
  match arg with
  | s :: d :: _ =>
      isdigit d &&
      (((s =? 45) && match mode with NUMERIC_DASH | NUMERIC_ALL => true | _ => false end) ||
       ((s =? 43) && match mode with NUMERIC_PLUS | NUMERIC_ALL => true | _ => false end))
  | _ => false
  end.

Definition number_arg (p : parser) (arg : list Z) : outcome parser :=
  if negb (numeric_value p =? 0) then
    Exit (errexit [] arg NUMERIC_SET)
  else
    let arg := match arg with 43 :: arg => arg | _ => arg end in
    Done (Parser (options p) (atol arg)).

(** One turn of the loop, for the argument [arg]: [None] ends it before that argument. *)
Definition argument (mode : numeric_t) (p : parser) (arg : list Z) (args : list (list Z))
  : outcome (option (parser * list (list Z))) :=
  if is_number mode arg then bind (number_arg p arg) (fun p => Done (Some (p, args)))
  else
    match arg with
    | 45 :: opt =>
        let opt := match opt with 45 :: opt => opt | _ => opt end in
        bind (of_option (find_long (options p) 0 opt)) (fun f =>
        bind (long p f args) (fun r =>
          match r with
          | Some r => Done (Some r)
          | None =>
              if eqn arg (bytes "--") 2 then Exit (errexit [] (up_to_equals arg) BADOPTION)
              else bind (letters p (drop 1 arg) args) (fun r => Done (Some r))
          end))
    | _ => Done None
    end.

(** The loop of [getargv]: the arguments it leaves.  Each turn takes one at least. *)
Fixpoint getargv_loop (fuel : nat) (mode : numeric_t) (p : parser) (argv : list (list Z)) : outcome (parser * list (list Z)) :=
  match fuel with
  | O => Undefined
  | S fuel =>
      match argv with
      | [] => Done (p, [])
      | arg :: args =>
          if bool_decide (arg = bytes "--") then Done (p, args)
          else
            bind (argument mode p arg args) (fun r =>
              match r with
              | None => Done (p, argv)
              | Some (p, args) => getargv_loop fuel mode p args
              end)
      end
  end.

Definition getargv (mode : numeric_t) (p : parser) (argv : list (list Z)) : outcome (parser * list (list Z)) :=
  getargv_loop (S (length argv)) mode p argv.

Definition getargv0 (argv : list (list Z)) : outcome (list Z) :=
  match argv with [] => Exit (bytes "*** " ++ text NOARGS ++ [10]) | a :: _ => Done a end.

End parsing.

(** [count] of the arguments in front of the null pointer. *)
Definition count (argv : list (list Z)) : Z := u32 (zlen argv).

End shell.
