(* ===== verification/ShellLaws.v ===== *)
(** * What a command line does to the options

    The uses of options that a command line can hold are printed as arguments; parsing
    gives the options their values in that order and leaves the other arguments. *)

From stdpp Require Import list strings.
From S2P Require Import Prelude CLib Strings Shell.
Import shell.

(** ** Names *)

(** What the search looks at. *)
Definition face (o : Option) : Z * option (list Z) * option (list Z) * bool :=
  (short_option o, long_option o, uses_option o, trigger_option o).

(** The options do not change but for what they keep. *)
Definition alike (opts opts' : list Option) : Prop := map face opts' = map face opts.

Lemma alike_lookup opts opts' i o : alike opts opts' -> opts !! i = Some o -> exists o', opts' !! i = Some o' /\ face o' = face o.
Proof.
  intros Ha Hi. assert (map face opts' !! i = Some (face o)) as E by (by rewrite Ha, list_lookup_fmap, Hi).
  rewrite list_lookup_fmap in E. destruct (opts' !! i) as [o'|]; [|done]. exists o'. split; [done|]. by apply (inj Some) in E.
Qed.

Lemma alike_set opts i o k : opts !! i = Some o -> alike opts (<[i := with_state o k]> opts).
Proof.
  intros Hi. unfold alike. apply list_eq. intros j. rewrite !list_lookup_fmap. destruct (decide (j = i)) as [->|Hne].
  - rewrite list_lookup_insert_eq by (by eapply lookup_lt_Some). by rewrite Hi.
  - by rewrite list_lookup_insert_ne.
Qed.

Lemma find_short_alike opts : forall opts' i c, alike opts opts' -> find_short opts' i c = find_short opts i c.
Proof.
  induction opts as [|o opts IH]; intros [|o' opts'] i c Ha; try done. injection Ha as E1 E2 E3 E4 Ha. cbn.
  rewrite E1. by rewrite (IH opts').
Qed.

Lemma find_long_alike opts : forall opts' i t, alike opts opts' -> find_long opts' i t = find_long opts i t.
Proof.
  induction opts as [|o opts IH]; intros [|o' opts'] i t Ha; try done. injection Ha as E1 E2 E3 E4 Ha. cbn [find_long].
  rewrite E2, E3. destruct (long_option o) as [l|]; [|by rewrite (IH opts')]. destruct (Str.equal_len _ _ _) as [b|]; [|done]. run.
  destruct b; [|by rewrite (IH opts')]. destruct (char_at t (zlen l)) as [c|]; [|done]. run. by rewrite (IH opts').
Qed.

(** The text of a name is the start of another text. *)
Lemma same_name l t : nonul l -> nonul t -> Str.equal_len (Some (l ++ [0])) (Some (t ++ [0])) (zlen l) =
  Some (bool_decide (l `prefix_of` t)).
Proof.
  intros Hl Ht. unfold Str.equal_len, Str.text. rewrite !cstr_app by done. run. f_equal. rewrite zlen_to_nat.
  revert t Ht. induction l as [|x l IH]; intros t Ht.
  - cbn. symmetry. apply bool_decide_true. apply prefix_nil.
  - apply list.Forall_cons in Hl as [_ Hl]. destruct t as [|y t]; cbn [length eqn].
    + symmetry. apply bool_decide_false. apply prefix_nil_not.
    + apply list.Forall_cons in Ht as [_ Ht]. rewrite IH by done. destruct (Z.eqb_spec x y) as [->|Hne].
      * cbn. apply bool_decide_ext. split; [apply prefix_cons|apply prefix_cons_inv_2].
      * cbn. symmetry. apply bool_decide_false. intros Hp. by apply prefix_cons_inv_1 in Hp.
Qed.

Lemma char_at_behind l t : char_at (l ++ t) (zlen l) = Some (match t with c :: _ => c | [] => 0 end).
Proof.
  unfold char_at. rewrite <- app_assoc. rewrite rd_app_r by done. by destruct t.
Qed.

(** A long name the search can stop at. *)
Definition names (l t : list Z) : Prop := t = l \/ (l ++ [61]) `prefix_of` t.

#[export] Instance names_dec l t : Decision (names l t).
Proof. unfold names. apply _. Defined.

Definition no_name (opts : list Option) (t : list Z) : Prop :=
  Forall (fun o => match long_option o with Some l => nonul l /\ ~ names l t | None => True end) opts.

#[export] Instance no_name_dec opts t : Decision (no_name opts t).
Proof. apply list.Forall_dec. intros o. destruct (long_option o); apply _. Defined.

(** What is behind a name decides. *)
Lemma names_cons l c t : c <> 0 -> names l (l ++ c :: t) <-> c = 61.
Proof.
  intros Hc. unfold names. split.
  - intros [E|Hp]; [apply (f_equal length) in E; rewrite length_app in E; cbn in E; lia|].
    apply prefix_app_inv in Hp. by apply prefix_cons_inv_1 in Hp.
  - intros ->. right. apply prefix_app. apply prefix_cons, prefix_nil.
Qed.

Lemma find_long_step o l opts i t : long_option o = Some l -> nonul l -> nonul t -> ~ names l t ->
  find_long (o :: opts) i t = find_long opts (S i) t.
Proof.
  intros El Hl Ht Hn. cbn [find_long]. rewrite El, same_name by done. run. case_bool_decide as Hp; [|done].
  destruct Hp as [k ->]. rewrite char_at_behind. run. apply list.Forall_app in Ht as [_ Hk]. destruct k as [|c k].
  - destruct Hn. left. by rewrite app_nil_r.
  - apply list.Forall_cons in Hk as [Hc _]. rewrite names_cons in Hn by done.
    destruct (Z.eqb_spec c 61); [done|]. by destruct (Z.eqb_spec c 0).
Qed.

Lemma find_long_nothing opts : forall i t, no_name opts t -> nonul t -> find_long opts i t = Some Nothing.
Proof.
  induction opts as [|o opts IH]; intros i t Hn Ht; [done|]. apply list.Forall_cons in Hn as [Ho Hn].
  destruct (long_option o) as [l|] eqn:El.
  - rewrite (find_long_step o l) by (done || apply Ho). by apply IH.
  - cbn [find_long]. rewrite El. by apply IH.
Qed.

(** The option at [i] is the first one that is named. *)
Definition found_as (o : Option) (i : nat) (l t : list Z) : found :=
  if decide (t = l) then (if decide (uses_option o = None) then Value i None else Next i)
  else if decide (uses_option o = None) then Refuse l else Value i (Some (drop (length l + 1) t)).

Lemma find_long_here o l opts i t : long_option o = Some l -> nonul l -> nonul t -> names l t ->
  find_long (o :: opts) i t = Some (found_as o i l t).
Proof.
  intros El Hl Ht Hn. cbn [find_long]. rewrite El, same_name by done. run. unfold found_as.
  destruct Hn as [->|[k ->]].
  - rewrite (bool_decide_true (l `prefix_of` l)) by reflexivity. assert (char_at l (zlen l) = Some 0) as ->.
    { pose proof (char_at_behind l []) as E. by rewrite app_nil_r in E. }
    run. cbn [Z.eqb andb]. by rewrite (decide_True (P := l = l)).
  - rewrite <- app_assoc. cbn [app]. rewrite (bool_decide_true (l `prefix_of` _)) by (by apply prefix_app_r). rewrite char_at_behind. run. cbn [Z.eqb Pos.eqb andb].
    rewrite decide_False by (intros E; apply (f_equal length) in E; rewrite length_app in E; cbn in E; lia).
    replace (Z.to_nat (zlen l + 1)) with (length l + 1)%nat by (unfold zlen; lia). run.
    case_decide as Eu; [by rewrite bool_decide_true|by rewrite bool_decide_false].
Qed.

Lemma find_long_at opts : forall i j o l t, opts !! j = Some o -> long_option o = Some l -> nonul l -> nonul t -> names l t ->
  no_name (take j opts) t -> find_long opts i t = Some (found_as o (i + j) l t).
Proof.
  induction opts as [|o' opts IH]; intros i [|j] o l t Hj El Hl Ht Hn Hno; try done.
  - injection Hj as ->. rewrite Nat.add_0_r. by apply find_long_here.
  - apply list.Forall_cons in Hno as [Ho Hno]. replace (i + S j)%nat with (S i + j)%nat by lia.
    destruct (long_option o') as [l'|] eqn:El'.
    + rewrite (find_long_step o' l') by (done || apply Ho). by apply IH.
    + cbn [find_long]. rewrite El'. by apply IH.
Qed.

Lemma find_short_at opts : forall i j o, opts !! j = Some o ->
  Forall (fun o' => short_option o' <> short_option o) (take j opts) -> find_short opts i (short_option o) = Some (i + j)%nat.
Proof.
  induction opts as [|o' opts IH]; intros i [|j] o Hj Hn; try done; cbn.
  - injection Hj as ->. by rewrite Z.eqb_refl, Nat.add_0_r.
  - apply list.Forall_cons in Hn as [Ho Hn]. destruct (Z.eqb_spec (short_option o') (short_option o)); [done|].
    rewrite (IH (S i) j o) by done. f_equal. lia.
Qed.

(** ** The loop ends *)

Section parsing.
Context (argv0 : list Z) (text : errmsg_t -> list Z).

Lemma letters_shrink arg : forall p args p' args', letters argv0 text p arg args = Done (p', args') ->
  (length args' <= length args)%nat.
Proof.
  induction arg as [|c arg IH]; intros p args p' args'; cbn [letters]; [intros [= _ <-]; lia|].
  destruct (find_short _ 0 c) as [i|]; [|done]. destruct (options p !! i) as [op|]; [|done]. cbn [of_option bind].
  destruct (trigger_option op).
  { destruct (give _ _ _ _ _ _ _) as [p1| |]; [|done..]. apply IH. }
  destruct (uses_option op).
  2: { destruct (give _ _ _ _ _ _ _) as [p1| |]; [|done..]. apply IH. }
  destruct arg, args; try (destruct (give _ _ _ _ _ _ _) as [p1| |]; [|done..]; cbn [bind]; intros [= _ <-]; cbn; lia); done.
Qed.

Lemma argument_shrinks mode p arg args p' args' : argument argv0 text mode p arg args = Done (Some (p', args')) ->
  (length args' <= length args)%nat.
Proof.
  unfold argument. destruct (is_number mode arg).
  { destruct (number_arg _ _ _ _) as [p1| |]; [|done..]. cbn [bind]. intros [= _ <-]. lia. }
  destruct arg as [|d opt]; [done|]. destruct (decide (d = 45)) as [->|Hd].
  2: { intros E. exfalso. revert E. destruct d as [|d|d]; try done. repeat (destruct d as [d|d|]; try done). }
  match goal with |- context [find_long _ 0 ?o] => destruct (find_long (options p) 0 o) as [f|] end; [|done]. cbn [of_option bind].
  destruct (long argv0 text p f args) as [[[p1 a1]|]| |] eqn:El; [|  |done..]; cbn [bind].
  - intros [= _ <-]. unfold long in El. destruct f as [i v|i|o|]; try done.
    + destruct (give _ _ _ _ _ _ _); [|done..]. cbn [bind] in El. injection El as _ <-. lia.
    + destruct args as [|v args]; [done|]. destruct (give _ _ _ _ _ _ _); [|done..]. cbn [bind] in El. injection El as _ <-. cbn. lia.
  - destruct (eqn _ _ 2); [done|]. destruct (letters _ _ _ _ _) as [[p1 a1]| |] eqn:E; [|done..]. cbn [bind].
    intros [= _ <-]. by apply letters_shrink in E.
Qed.

Lemma loop_fuel mode n : forall m p argv, (length argv < n)%nat -> (length argv < m)%nat ->
  getargv_loop argv0 text n mode p argv = getargv_loop argv0 text m mode p argv.
Proof.
  induction n as [|n IH]; intros [|m] p argv Hn Hm; [lia..|]. cbn [getargv_loop]. destruct argv as [|arg args]; [done|].
  case_bool_decide; [done|]. destruct (argument _ _ _ _ _ _) as [[[p1 a1]|]| |] eqn:E; [|done..]. cbn [bind].
  apply argument_shrinks in E. cbn in Hn, Hm. apply IH; lia.
Qed.

(** One turn. *)
Lemma getargv_step mode p arg args : arg <> bytes "--" -> getargv argv0 text mode p (arg :: args) =
  bind (argument argv0 text mode p arg args) (fun r =>
    match r with None => Done (p, arg :: args) | Some (p, args) => getargv argv0 text mode p args end).
Proof.
  intros Ha. unfold getargv. cbn [length getargv_loop]. rewrite bool_decide_false by done.
  destruct (argument _ _ _ _ _ _) as [[[p1 a1]|]| |] eqn:E; [|done..]. cbn [bind]. apply argument_shrinks in E.
  apply (loop_fuel mode (S (length args)) (S (length a1))); lia.
Qed.


(** ** Tables of options *)

(** Names that tell the options apart and are written as they are. *)
Record table (opts : list Option) : Prop := {
  tb_long : forall i o l, opts !! i = Some o -> long_option o = Some l -> nonul l /\ (61 ∉ l) /\ exists c l', l = c :: l' /\ c <> 45;
  tb_long_inj : forall i j o o' l, opts !! i = Some o -> opts !! j = Some o' -> long_option o = Some l ->
    long_option o' = Some l -> i = j;
  tb_short : forall i o, opts !! i = Some o -> short_option o <> 45 /\ isdigit (short_option o) = false;
  tb_short_inj : forall i j o o', opts !! i = Some o -> opts !! j = Some o' -> short_option o = short_option o' ->
    short_option o <> 0 -> i = j }.

(** A use of an option, as the index in the table. *)
Inductive use :=
  | LongValue (i : nat) (v : list Z)
  | LongNext (i : nat) (v : list Z)
  | LongFlag (i : nat)
  | Letters (flags : list nat)
  | LettersValue (flags : list nat) (i : nat) (v : list Z)
  | LettersNext (flags : list nat) (i : nat) (v : list Z).

Section uses.
Context (opts : list Option).

Definition long_name (i : nat) : list Z := default [] (o ← opts !! i; long_option o).
Definition letter (i : nat) : Z := default 0 (short_option <$> opts !! i).

(** How it is written. *)
Definition print (u : use) : list (list Z) :=
  match u with
  | LongValue i v => [bytes "--" ++ long_name i ++ 61 :: v]
  | LongNext i v => [bytes "--" ++ long_name i; v]
  | LongFlag i => [bytes "--" ++ long_name i]
  | Letters flags => [45 :: map letter flags]
  | LettersValue flags i v => [45 :: map letter flags ++ letter i :: v]
  | LettersNext flags i v => [45 :: map letter flags ++ [letter i]; v]
  end.

(** What it gives: options, values, and how an error names them. *)
Definition flag_gifts (flags : list nat) : list (nat * option (list Z) * list Z * list Z) :=
  map (fun i => (i, None, bytes "-", [letter i])) flags.

Definition gifts (u : use) : list (nat * option (list Z) * list Z * list Z) :=
  match u with
  | LongValue i v | LongNext i v => [(i, Some v, bytes "--", long_name i)]
  | LongFlag i => [(i, None, bytes "--", long_name i)]
  | Letters flags => flag_gifts flags
  | LettersValue flags i v | LettersNext flags i v => flag_gifts flags ++ [(i, Some v, bytes "-", [letter i])]
  end.

(** The options have such names and take values or do not. *)
Definition takes_long (i : nat) (value : bool) : Prop :=
  exists o l, opts !! i = Some o /\ long_option o = Some l /\ bool_decide (uses_option o = None) = negb value.

Definition takes_letter (i : nat) (value : bool) : Prop :=
  exists o, opts !! i = Some o /\ short_option o <> 0 /\
    (trigger_option o || bool_decide (uses_option o = None)) = negb value.

(** The letters of one argument are not the start of a long name. *)
Definition apart (t : list Z) : Prop := t <> [] /\ no_name opts t /\ nonul t.

Definition usable (u : use) : Prop :=
  match u with
  | LongValue i v => takes_long i true /\ nonul v
  | LongNext i v => takes_long i true
  | LongFlag i => takes_long i false
  | Letters flags => apart (map letter flags) /\ Forall (fun i => takes_letter i false) flags
  | LettersValue flags i v =>
      v <> [] /\ apart (map letter flags ++ letter i :: v) /\ Forall (fun i => takes_letter i false) flags /\ takes_letter i true
  | LettersNext flags i v =>
      apart (map letter flags ++ [letter i]) /\ Forall (fun i => takes_letter i false) flags /\ takes_letter i true
  end.

End uses.

(** Giving the values one after the other. *)
Fixpoint run (p : parser) (l : list (nat * option (list Z) * list Z * list Z)) : outcome parser :=
  match l with
  | [] => Done p
  | (i, v, dashes, name) :: l => bind (give argv0 text p i v dashes name) (fun p => run p l)
  end.

Lemma run_app l k : forall p, run p (l ++ k) = bind (run p l) (fun p => run p k).
Proof.
  induction l as [|[[[i v] d] n] l IH]; intros p; [done|]. cbn. destruct (give _ _ _ _ _ _ _); [apply IH|done..].
Qed.

Lemma give_alike p i v d n p' : give argv0 text p i v d n = Done p' -> alike (options p) (options p').
Proof.
  unfold give. destruct (options p !! i) as [o|] eqn:Ho; [|done]. cbn [of_option bind].
  destruct (assign _ _) as [[k [e|]]|]; [done| |done]. cbn [of_option bind]. intros [= <-]. cbn. by apply alike_set.
Qed.

Lemma run_alike l : forall p p', run p l = Done p' -> alike (options p) (options p').
Proof.
  induction l as [|[[[i v] d] n] l IH]; intros p p'; cbn; [by intros [= <-]|].
  destruct (give _ _ _ _ _ _ _) as [p1| |] eqn:E; [|done..]. cbn. intros Hr. apply give_alike in E. apply IH in Hr.
  unfold alike in *. congruence.
Qed.

Lemma names_unique l : forall l' t, 61 ∉ l -> 61 ∉ l' -> names l t -> names l' t -> l' = l.
Proof.
  assert (forall l t, names l t -> exists k, t = l ++ k /\ (k = [] \/ exists r, k = 61 :: r)) as Hs.
  { intros l0 t [->|[r ->]]; [exists []; rewrite app_nil_r; auto|]. exists (61 :: r). rewrite <- app_assoc. eauto. }
  intros l' t He He' Hn Hn'. apply Hs in Hn as (k & -> & Hk), Hn' as (k' & E & Hk'). clear Hs.
  revert l' E He'. induction l as [|x l IH]; intros [|y l'] E He'; try done; cbn in E.
  - destruct Hk as [->|[r ->]]; [done|]. injection E as <- _. destruct He'. by left.
  - destruct Hk' as [->|[r ->]]; [done|]. injection E as -> _. destruct He. by left.
  - injection E as -> E. f_equal. rewrite not_elem_of_cons in He, He'. apply IH; tauto.
Qed.

Lemma no_name_other opts i o l t : table opts -> opts !! i = Some o -> long_option o = Some l -> names l t -> no_name (take i opts) t.
Proof.
  intros Ht Hi Hl Hn. apply list.Forall_lookup. intros j o' Hj. apply lookup_take_Some in Hj as [Hj Hlt].
  destruct (long_option o') as [l'|] eqn:El'; [|done]. destruct (tb_long _ Ht j o' l' Hj El') as (Hn' & He' & _). split; [done|].
  intros Hnm. destruct (tb_long _ Ht i o l Hi Hl) as (_ & He & _). enough (l' = l) as ->.
  { pose proof (tb_long_inj _ Ht i j o o' l Hi Hj Hl El'). lia. }
  by eapply names_unique.
Qed.

Lemma find_letter opts i o : table opts -> opts !! i = Some o -> short_option o <> 0 ->
  find_short opts 0 (short_option o) = Some i.
Proof.
  intros Ht Hi H0. apply (find_short_at opts 0 i o Hi). apply list.Forall_lookup. intros j o' Hj E.
  apply lookup_take_Some in Hj as [Hj Hlt]. pose proof (tb_short_inj _ Ht j i o' o Hj Hi E ltac:(congruence)). lia.
Qed.

Lemma letter_of opts i o : opts !! i = Some o -> letter opts i = short_option o.
Proof. intros Hi. unfold letter. by rewrite Hi. Qed.

(** A letter of an argument, with the option it stands for. *)
Lemma letters_step opts p i o t args : table opts -> alike opts (options p) -> opts !! i = Some o -> short_option o <> 0 ->
  letters argv0 text p (letter opts i :: t) args =
  if trigger_option o || bool_decide (uses_option o = None) then
    bind (give argv0 text p i None (bytes "-") [letter opts i]) (fun p => letters argv0 text p t args)
  else
    match t, args with
    | [], [] => Exit (errexit argv0 text (bytes "-") [letter opts i] NOARGUMENT)
    | [], v :: args => bind (give argv0 text p i (Some v) (bytes "-") [letter opts i]) (fun p => Done (p, args))
    | _, _ => bind (give argv0 text p i (Some t) (bytes "-") [letter opts i]) (fun p => Done (p, args))
    end.
Proof.
  intros Ht Ha Hi H0. cbn [letters]. rewrite (letter_of _ _ _ Hi), (find_short_alike opts) by done.
  rewrite (find_letter opts i o) by done. destruct (alike_lookup _ _ _ _ Ha Hi) as (o' & Ho' & Ef). rewrite Ho'. cbn [of_option bind].
  injection Ef as -> _ -> ->. destruct (trigger_option o); [done|]. cbn [orb]. by destruct (uses_option o), t, args.
Qed.

Lemma letters_flags opts flags : forall p t args, table opts -> alike opts (options p) ->
  Forall (fun i => takes_letter opts i false) flags ->
  letters argv0 text p (map (letter opts) flags ++ t) args =
  bind (run p (flag_gifts opts flags)) (fun p => letters argv0 text p t args).
Proof.
  induction flags as [|i flags IH]; intros p t args Ht Ha Hf; [done|]. apply list.Forall_cons in Hf as [(o & Hi & H0 & Hu) Hf].
  cbn [map app flag_gifts run]. rewrite (letters_step opts p i o) by done. rewrite Hu. cbn [negb].
  destruct (give _ _ _ _ _ _ _) as [p1| |] eqn:E; [|done..]. cbn [bind]. apply IH; [done| |done].
  apply give_alike in E. unfold alike in *. congruence.
Qed.

(** An argument that begins with a dash is no number. *)
Lemma argument_dash mode p t args : 
  match t with d :: _ => isdigit d = false | [] => True end ->
  argument argv0 text mode p (45 :: t) args =
  bind (of_option (find_long (options p) 0 (match t with 45 :: t => t | _ => t end))) (fun f =>
  bind (long argv0 text p f args) (fun r =>
    match r with
    | Some r => Done (Some r)
    | None => if eqn (45 :: t) (bytes "--") 2 then Exit (errexit argv0 text [] (up_to_equals (45 :: t)) BADOPTION)
              else bind (letters argv0 text p t args) (fun r => Done (Some r))
    end)).
Proof.
  intros Ht. unfold argument. assert (is_number mode (45 :: t) = false) as ->.
  { destruct t as [|d t]; [done|]. cbn. by rewrite Ht. }
  done.
Qed.

(** Long options. *)
Lemma find_name opts p i o l t : table opts -> alike opts (options p) -> opts !! i = Some o -> long_option o = Some l ->
  nonul t -> names l t -> find_long (options p) 0 t = Some (found_as o i l t).
Proof.
  intros Ht Ha Hi Hl Hn Hnm. rewrite (find_long_alike opts) by done.
  apply (find_long_at opts 0 i o l t); [done|done|by eapply tb_long|done|done|by eapply no_name_other].
Qed.

Lemma long_name_of opts i o l : opts !! i = Some o -> long_option o = Some l -> long_name opts i = l.
Proof. intros Hi Hl. unfold long_name. rewrite Hi. run. by rewrite Hl. Qed.

Lemma name_of_alike opts p i : alike opts (options p) -> name_of p i = long_name opts i.
Proof.
  intros Ha. unfold name_of, long_name. assert (map face (options p) !! i = map face opts !! i) as E by (by rewrite Ha).
  rewrite !list_lookup_fmap in E. destruct (options p !! i), (opts !! i); try done. cbn in *. by injection E as _ -> _ _.
Qed.

(** An argument with two dashes. *)
Lemma argument_dashes mode p t args :
  argument argv0 text mode p (bytes "--" ++ t) args =
  bind (of_option (find_long (options p) 0 t)) (fun f =>
  bind (long argv0 text p f args) (fun r =>
    match r with
    | Some r => Done (Some r)
    | None => Exit (errexit argv0 text [] (up_to_equals (bytes "--" ++ t)) BADOPTION)
    end)).
Proof.
  change (bytes "--" ++ t) with (45 :: 45 :: t). by rewrite argument_dash.
Qed.

(** What the parser does with a use of an option. *)
Definition handles (opts : list Option) (mode : numeric_t) (p : parser) (u : use) (rest : list (list Z)) : Prop :=
  exists arg more, print opts u = arg :: more /\ arg <> bytes "--" /\
    argument argv0 text mode p arg (more ++ rest) = bind (run p (gifts opts u)) (fun p => Done (Some (p, rest))).

Lemma found_value opts p i v : table opts -> alike opts (options p) -> takes_long opts i true -> nonul v ->
  find_long (options p) 0 (long_name opts i ++ 61 :: v) = Some (Value i (Some v)).
Proof.
  intros Ht Ha (o & l & Ho & Hl & Hu) Hv. rewrite (long_name_of opts i o l) by done.
  destruct (tb_long _ Ht i o l Ho Hl) as (Hnl & _).
  rewrite (find_name opts p i o l); [|done|done|done|done| |].
  - unfold found_as. rewrite decide_False.
    2: { intros E. apply (f_equal length) in E. rewrite length_app in E. cbn in E. lia. }
    apply bool_decide_eq_false in Hu. rewrite decide_False by done. do 3 f_equal.
    rewrite drop_app_add. done.
  - apply list.Forall_app. split; [done|]. by constructor.
  - right. apply prefix_app, prefix_cons, prefix_nil.
Qed.

Lemma found_name opts p i value : table opts -> alike opts (options p) -> takes_long opts i value ->
  find_long (options p) 0 (long_name opts i) = Some (if value : bool then Next i else Value i None).
Proof.
  intros Ht Ha (o & l & Ho & Hl & Hu). rewrite (long_name_of opts i o l) by done.
  destruct (tb_long _ Ht i o l Ho Hl) as (Hnl & _).
  rewrite (find_name opts p i o l); [|done|done|done|done|done|by left].
  unfold found_as. rewrite decide_True by done. destruct value; cbn [negb] in Hu.
  - apply bool_decide_eq_false in Hu. by rewrite decide_False.
  - apply bool_decide_eq_true in Hu. by rewrite decide_True.
Qed.

Lemma long_not_end opts i value t : table opts -> takes_long opts i value -> bytes "--" ++ long_name opts i ++ t <> bytes "--".
Proof.
  intros Ht (o & l & Ho & Hl & _) E. rewrite (long_name_of opts i o l) in E by done.
  destruct (tb_long _ Ht i o l Ho Hl) as (_ & _ & (c & l' & -> & _)). done.
Qed.

Lemma give_done p i v d n (rest : list (list Z)) :
  bind (bind (give argv0 text p i v d n) (fun p => Done (Some (p, rest)))) (fun r =>
    match r with Some r => Done (Some r) | None => Undefined end) =
  bind (run p [(i, v, d, n)]) (fun p => Done (Some (p, rest))).
Proof. cbn. by destruct (give _ _ _ _ _ _ _). Qed.

Lemma use_long opts mode p u rest : table opts -> alike opts (options p) -> usable opts u ->
  match u with LongValue _ _ | LongNext _ _ | LongFlag _ => handles opts mode p u rest | _ => True end.
Proof.
  intros Ht Ha Hu. destruct u as [i v|i v|i|flags|flags i v|flags i v]; try done.
  - destruct Hu as [Hu Hv]. do 2 eexists. split; [done|]. split; [by eapply long_not_end|].
    rewrite argument_dashes, found_value by done. cbn. rewrite (name_of_alike opts) by done. by destruct (give _ _ _ _ _ _ _).
  - do 2 eexists. split; [done|]. split; [rewrite <- (app_nil_r (long_name opts i)); by eapply long_not_end|].
    rewrite argument_dashes, (found_name opts p i true) by done. cbn. rewrite (name_of_alike opts) by done. by destruct (give _ _ _ _ _ _ _).
  - do 2 eexists. split; [done|]. split; [rewrite <- (app_nil_r (long_name opts i)); by eapply long_not_end|].
    rewrite argument_dashes, (found_name opts p i false) by done. cbn. rewrite (name_of_alike opts) by done. by destruct (give _ _ _ _ _ _ _).
Qed.

(** Letters that the table has are not digits and not dashes. *)
Lemma argument_letters opts mode p t args : alike opts (options p) -> apart opts t ->
  match t with c :: _ => isdigit c = false /\ c <> 45 | [] => False end ->
  argument argv0 text mode p (45 :: t) args = bind (letters argv0 text p t args) (fun r => Done (Some r)).
Proof.
  intros Ha (_ & Hn & Hnul) Hc. destruct t as [|c t]; [done|]. destruct Hc as [Hd Hc]. rewrite argument_dash by done.
  assert (match c :: t with 45 :: t => t | _ => c :: t end = c :: t) as ->.
  { destruct c as [|c|c]; try done. repeat (destruct c as [c|c|]; try done). }
  rewrite (find_long_alike opts), find_long_nothing by done. cbn [of_option bind long].
  assert (eqn (45 :: c :: t) (bytes "--") 2 = false) as ->; [|done].
  change (bytes "--") with [45; 45]. cbn [eqn]. rewrite (proj2 (Z.eqb_neq c 45) Hc). by rewrite andb_false_r.
Qed.

Lemma letter_table opts i value : table opts -> takes_letter opts i value -> isdigit (letter opts i) = false /\ letter opts i <> 45.
Proof. intros Ht (o & Ho & _). rewrite (letter_of _ _ _ Ho). destruct (tb_short _ Ht i o Ho). done. Qed.

Lemma first_letter opts flags t : table opts -> Forall (fun i => takes_letter opts i false) flags -> map (letter opts) flags ++ t <> [] ->
  match t with c :: _ => isdigit c = false /\ c <> 45 | [] => True end ->
  match map (letter opts) flags ++ t with c :: _ => isdigit c = false /\ c <> 45 | [] => False end.
Proof.
  intros Ht Hf Hne Hc. destruct flags as [|i flags]; [by destruct t|]. apply list.Forall_cons in Hf as [Hi _]. by eapply letter_table.
Qed.

Lemma use_letters opts mode p u rest : table opts -> alike opts (options p) -> usable opts u -> handles opts mode p u rest.
Proof.
  intros Ht Ha Hu. destruct u as [i v|i v|i|flags|flags i v|flags i v]; try by apply (use_long opts mode p _ rest Ht Ha Hu).
  - destruct Hu as [Hap Hf]. do 2 eexists. split; [done|]. pose proof (first_letter opts flags [] Ht Hf) as Hc. rewrite app_nil_r in Hc.
    specialize (Hc (proj1 Hap) I). split; [destruct (map _ flags); [done|]; intros [= -> _]; by destruct Hc|].
    rewrite (argument_letters opts) by done. rewrite <- (app_nil_r (map (letter opts) flags)), letters_flags by done. cbn [gifts app].
    by destruct (run _ _).
  - destruct Hu as (Hv & Hap & Hf & Hi). pose proof (letter_table opts i true Ht Hi) as Hl.
    pose proof (first_letter opts flags (letter opts i :: v) Ht Hf (proj1 Hap) Hl) as Hc.
    do 2 eexists. split; [done|]. split.
    { destruct (map _ flags); cbn [app] in *; [intros [= E _]; by destruct Hl|intros [= -> _]; by destruct Hc]. }
    rewrite (argument_letters opts) by done. rewrite letters_flags by done. cbn [gifts app]. rewrite run_app.
    destruct (run p (flag_gifts opts flags)) as [p1| |] eqn:E; [|done..]. cbn [bind run]. apply run_alike in E.
    destruct Hi as (o & Ho & H0 & Hu). rewrite (letters_step opts p1 i o) by (done || (unfold alike in *; congruence)). rewrite Hu. cbn [negb].
    destruct v as [|c v]; [done|]. by destruct (give _ _ _ _ _ _ _).
  - destruct Hu as (Hap & Hf & Hi). pose proof (letter_table opts i true Ht Hi) as Hl.
    pose proof (first_letter opts flags [letter opts i] Ht Hf (proj1 Hap) Hl) as Hc.
    do 2 eexists. split; [done|]. split.
    { destruct (map _ flags); cbn [app] in *; [intros [= E]; by destruct Hl|intros [= -> _]; by destruct Hc]. }
    rewrite (argument_letters opts) by done. rewrite letters_flags by done. cbn [gifts app]. rewrite run_app.
    destruct (run p (flag_gifts opts flags)) as [p1| |] eqn:E; [|done..]. cbn [bind run]. apply run_alike in E.
    destruct Hi as (o & Ho & H0 & Hu). rewrite (letters_step opts p1 i o) by (done || (unfold alike in *; congruence)). rewrite Hu. cbn [negb].
    by destruct (give _ _ _ _ _ _ _).
Qed.

(** What is behind the options: two dashes and anything, or nothing, or an argument that
    is no option. *)
Definition ends (mode : numeric_t) (tail rest : list (list Z)) : Prop :=
  tail = bytes "--" :: rest \/
  tail = rest /\ match rest with [] => True | a :: _ => match a with c :: _ => c <> 45 | [] => True end /\ is_number mode a = false end.

Lemma argument_other mode p a args : match a with c :: _ => c <> 45 | [] => True end -> is_number mode a = false ->
  argument argv0 text mode p a args = Done None.
Proof.
  intros Ha Hn. unfold argument. rewrite Hn. destruct a as [|c a]; [done|].
  destruct c as [|c|c]; try done. repeat (destruct c as [c|c|]; try done).
Qed.

Lemma getargv_ends mode p tail rest : ends mode tail rest -> getargv argv0 text mode p tail = Done (p, rest).
Proof.
  intros [->|[-> Hr]]; [done|]. destruct rest as [|a rest]; [done|]. destruct Hr as [Ha Hn].
  rewrite getargv_step by (intros ->; done). by rewrite argument_other.
Qed.

(** C34.  A command line gives the options their values.  With options that have names of
    their own, every sequence of uses, written as [--name=value], [--name value],
    [--name], letters in one argument and letters whose last one has a value attached or
    behind it, is parsed into just these gifts in this order, whether they succeed or
    one is refused; what follows the options is left to the program. *)
Theorem shell_options (mode : numeric_t) (p : parser) (us : list use) (tail rest : list (list Z)) :
  table (options p) -> Forall (usable (options p)) us -> ends mode tail rest ->
  getargv argv0 text mode p (concat (map (print (options p)) us) ++ tail) =
  bind (run p (concat (map (gifts (options p)) us))) (fun p => Done (p, rest)).
Proof.
  assert (forall opts, table opts -> Forall (usable opts) us -> ends mode tail rest -> forall p, alike opts (options p) ->
    getargv argv0 text mode p (concat (map (print opts) us) ++ tail) =
    bind (run p (concat (map (gifts opts) us))) (fun p => Done (p, rest))) as H.
  { clear p. intros opts Ht Hus Hend. induction Hus as [|u us Hu Hus IH]; intros p Ha; [by apply getargv_ends|].
    destruct (use_letters opts mode p u (concat (map (print opts) us) ++ tail) Ht Ha Hu) as (arg & more & Ep & Hne & E).
    cbn [map concat]. rewrite <- app_assoc, Ep. cbn [app]. rewrite getargv_step by done. rewrite E, run_app.
    destruct (run p (gifts opts u)) as [p1| |] eqn:Er; [|done..]. cbn [bind]. apply IH.
    apply run_alike in Er. unfold alike in *. congruence. }
  intros Ht Hus Hend. by apply H.
Qed.

(** C35.  A command line that makes no sense ends the program with a message that names
    what is wrong: an option nobody has, by its name or its letter, a value for an
    option that takes none, and no value for one that needs it. *)
Theorem shell_errors (mode : numeric_t) (p : parser) (args : list (list Z)) : table (options p) ->
  (forall t, t <> [] -> no_name (options p) t -> nonul t ->
    getargv argv0 text mode p ((bytes "--" ++ t) :: args) = Exit (errexit argv0 text [] (up_to_equals (bytes "--" ++ t)) BADOPTION)) /\
  (forall c t, isdigit c = false -> c <> 45 -> apart (options p) (c :: t) -> Forall (fun o => short_option o <> c) (options p) ->
    getargv argv0 text mode p ((45 :: c :: t) :: args) = Exit (errexit argv0 text (bytes "-") [c] BADOPTION)) /\
  (forall i v, takes_long (options p) i false -> nonul v ->
    getargv argv0 text mode p ((bytes "--" ++ long_name (options p) i ++ 61 :: v) :: args) =
      Exit (errexit argv0 text (bytes "--") (long_name (options p) i) INVARGUMENT)) /\
  (forall i, takes_long (options p) i true ->
    getargv argv0 text mode p [bytes "--" ++ long_name (options p) i] =
      Exit (errexit argv0 text (bytes "--") (long_name (options p) i) NOARGUMENT)) /\
  (forall i, takes_letter (options p) i true -> apart (options p) [letter (options p) i] ->
    getargv argv0 text mode p [[45; letter (options p) i]] =
      Exit (errexit argv0 text (bytes "-") [letter (options p) i] NOARGUMENT)).
Proof.
  intros Ht. assert (alike (options p) (options p)) as Ha by done. split; [|split; [|split; [|split]]].
  - intros t Hne Hn Hnul. rewrite getargv_step by (by destruct t). by rewrite argument_dashes, find_long_nothing.
  - intros c t Hd Hc Hap Hs. rewrite getargv_step by (intros [= E _]; done). rewrite (argument_letters (options p)) by done. cbn [letters].
    assert (forall i, find_short (options p) i c = None) as ->; [|done]. clear - Hs.
    induction Hs as [|o opts Ho Hs IH]; intros i; [done|]. cbn. destruct (Z.eqb_spec (short_option o) c); [done|]. apply IH.
  - intros i v (o & l & Ho & Hl & Hu) Hv. rewrite (long_name_of _ i o l) by done. destruct (tb_long _ Ht i o l Ho Hl) as (Hnl & _ & (c & l' & El & _)).
    rewrite getargv_step by (by rewrite El). rewrite argument_dashes.
    rewrite (find_name (options p) p i o l); [|done|done|done|done|by apply list.Forall_app; split; [|constructor]|right; apply prefix_app, prefix_cons, prefix_nil].
    unfold found_as. apply bool_decide_eq_true in Hu. rewrite decide_False, decide_True; [done|done|].
    intros E. apply (f_equal length) in E. rewrite length_app in E. cbn in E. lia.
  - intros i Hi. pose proof (long_not_end _ i true [] Ht Hi) as Hne. rewrite app_nil_r in Hne. rewrite getargv_step by done.
    rewrite argument_dashes, (found_name (options p) p i true) by done. cbn. by rewrite (name_of_alike (options p)).
  - intros i Hi Hap. destruct (letter_table _ i true Ht Hi) as [Hd Hc]. rewrite getargv_step by (intros [= E]; done).
    rewrite (argument_letters (options p)) by done. destruct Hi as (o & Ho & H0 & Hu).
    rewrite (letters_step (options p) p i o) by done. by rewrite Hu.
Qed.

(** The parser ends: no command line needs more turns than it has arguments. *)
Lemma shell_ends (mode : numeric_t) (p : parser) (argv : list (list Z)) (fuel : nat) : (length argv < fuel)%nat ->
  getargv_loop argv0 text fuel mode p argv = getargv argv0 text mode p argv.
Proof. intros Hf. apply loop_fuel; [done|lia]. Qed.

End parsing.

(** ** A program *)

Definition sample : parser := Parser
  [make_flag 118 (Some (bytes "verbose")) None false; make_string 111 (Some (bytes "--output")) None (Some (bytes "file")) None;
   make_numeric 110 (Some (bytes "count")) None (Some (bytes "number")) 1; make_group (Some (bytes "Others"));
   make_counter 100 None None (Some (bytes "level")) 0] 0.

Lemma sample_table : table (options sample).
Proof.
  split.
  - intros i o l Ho Hl. do 5 (destruct i as [|i]; [injection Ho as <-; first [done|injection Hl as <-;
      split; [by apply (bool_decide_unpack _)|split; [by apply (bool_decide_unpack _)|by do 2 eexists]]]|]). done.
  - intros i j o o' l Ho Ho' Hl Hl'.
    do 5 (destruct i as [|i]; [injection Ho as <-; first [done|injection Hl as <-;
      do 5 (destruct j as [|j]; [injection Ho' as <-; done|]); done]|]). done.
  - intros i o Ho. do 5 (destruct i as [|i]; [by injection Ho as <-|]). done.
  - intros i j o o' Ho Ho' Hs H0.
    do 5 (destruct i as [|i]; [injection Ho as <-; do 5 (destruct j as [|j]; [injection Ho' as <-; done|]); done|]). done.
Qed.

(** [-vvofile --count=12 -d -d5 -- -x] *)
Definition sample_uses : list use :=
  [LettersValue [0; 0]%nat 1 (bytes "file"); LongValue 2 (bytes "12"); Letters [0]%nat].

Lemma shell_options_witness :
  getargv (bytes "prog") msgs NO_NUMERIC sample [bytes "-vvofile"; bytes "--count=12"; bytes "-v"; bytes "--"; bytes "-x"] =
  bind (run (bytes "prog") msgs sample (concat (map (gifts (options sample)) sample_uses))) (fun p => Done (p, [bytes "-x"])).
Proof.
  apply (shell_options (bytes "prog") msgs NO_NUMERIC sample sample_uses [bytes "--"; bytes "-x"] [bytes "-x"] sample_table); [|by left].
  constructor; [|constructor; [|constructor; [|constructor]]].
  - split; [done|]. split; [split; [done|split; by apply (bool_decide_unpack _)]|].
    split; [|by eexists]. by repeat constructor; eexists.
  - split; [by do 2 eexists|by apply (bool_decide_unpack _)].
  - split; [split; [done|split; by apply (bool_decide_unpack _)]|]. by repeat constructor; eexists.
Defined.

Lemma shell_errors_witness :
  getargv (bytes "prog") msgs NO_NUMERIC sample [bytes "--size=3"; bytes "x"] =
  Exit (bytes "*** prog: --size: unknown command option" ++ [10]).
Proof.
  apply (proj1 (shell_errors (bytes "prog") msgs NO_NUMERIC sample [bytes "x"] sample_table) (bytes "size=3")); [done| |];
    by apply (bool_decide_unpack _).
Defined.
