(* ===== verification/ShellText.v ===== *)
(** * Command texts, help and input of the shell (corelib/shell.cpp)

    The text of a command is split in a copy of it, in which the words end with null
    bytes.  What is written to a terminal is a text; what a user types is one too. *)

From stdpp Require Import list strings.
From S2P Require Import Prelude CLib Strings StringObj Shell.
Import shell.

Module words.

(** The copy, the place in it, the quote that is open, whether a word is, and where the
    words begin. *)
Record splitter := Split { mem : list Z; cp : Z; quote : Z; active : bool; items : list Z }.

(** The word ends at [cp]. *)
Definition inactive (s : splitter) (cp : Z) : option splitter :=
  m ← wr (mem s) cp 0; Some (Split m (cp + 1) (quote s) false (items s)).

(** A word begins at [cp]. *)
Definition argument (s : splitter) (quote cp : Z) : splitter := Split (mem s) (cp + 1) quote true (items s ++ [cp]).

Definition skip (s : splitter) : splitter := Split (mem s) (cp s + 1) (quote s) (active s) (items s).

(** One turn for the character [c] at [cp].  A quote that has been seen stays the
    quote. *)
Definition turn (s : splitter) (c : Z) : option splitter :=
  if isspace c && active s && (quote s =? 0) then inactive s (cp s)
  else if (c =? 39) && negb (active s) then Some (argument s c (cp s))
  else if (c =? 34) && negb (active s) then Some (argument s c (cp s + 1))
  else
    let rest := if negb (isspace c) && negb (active s) then argument s (quote s) (cp s) else skip s in
    if (c =? quote s) && active s then
      if quote s =? 34 then inactive s (cp s)
      else
        c1 ← rd (mem s) (cp s + 1);
        if isspace c1 then inactive s (cp s + 1) else Some rest
    else Some rest.

Fixpoint split_loop (fuel : nat) (s : splitter) : option splitter :=
  match fuel with
  | O => None
  | S fuel => c ← rd (mem s) (cp s); if c =? 0 then Some s else s ← turn s c; split_loop fuel s
  end.

Section memory.
Context `{Malloc}.

(** [mempager::dup]: nothing is stored in a piece of one byte. *)
Definition dup (s : list Z) : list Z := match s with [] => junk 1 | _ => s ++ [0] end.

(** [collapse]: the words as they stand in the copy. *)
Fixpoint collapse (m : list Z) (items : list Z) : option (list (list Z)) :=
  match items with
  | [] => Some []
  | i :: items => w ← cstr (drop (Z.to_nat i) m); l ← collapse m items; Some (w :: l)
  end.

Definition parse (string : list Z) : option (list (list Z)) :=
  s ← split_loop (S (length string)) (Split (dup string) 0 0 false []); collapse (mem s) (items s).

(** The name of the program and its directory, from the working directory [cwd]: the
    character behind the first one is looked at when that is no slash, be it the
    terminator or not. *)
Definition set0 (cwd : list Z) (argv0 : option (list Z)) : option (list Z * list Z) :=
  let prefix := junk 256 in
  relative ← match argv0 with
    | None => Some false
    | Some a => c0 ← char_at a 0; if (c0 =? 47) || (c0 =? 92) then Some false else c1 ← char_at a 1; Some (negb (c1 =? 58))
    end;
  prefix ← (if relative : bool then
      p ← Str.set prefix 256 (Some (cwd ++ [0]));
      p ← Str.add p 256 (Some (bytes "/" ++ [0]));
      Str.add p 256 (option_map (fun a => a ++ [0]) argv0)
    else Str.set prefix 256 (option_map (fun a => a ++ [0]) argv0));
  a ← cstr prefix;
  let '(exedir, name) := match strrchr a 47 with
    | Some i => (take (Z.to_nat i) a, drop (Z.to_nat (i + 1)) a)
    | None => (a, a)
    end in
  Some (exedir, if eqn name (bytes "lt-") 3 then drop 3 name else name).

End memory.

End words.

(** ** Help *)

Module help.

Definition spaces (n : Z) : list Z := replicate (Z.to_nat n) 32.

(** The column of a tab stop. *)
Definition tab_to (hp : Z) : Z := if hp mod 8 =? 0 then hp + 8 else hp + (8 - hp mod 8).

(** The text of an option.  The column does not move with the characters. *)
Fixpoint describe (hs : list Z) (hp : Z) : list Z :=
  match hs with
  | [] => []
  | c :: hs =>
      if (c =? 10) || (((c =? 32) || (c =? 9)) && (75 <? hp)) then (10 :: spaces 30) ++ describe hs 30
      else if c =? 9 then spaces (tab_to hp - hp) ++ describe hs (tab_to hp)
      else c :: describe hs hp
  end.

(** The letter of an option, with the column behind it; [None] for a group. *)
Definition form (op : Option) : option (list Z * Z) :=
  let c := short_option op in
  match long_option op, uses_option op with
  | Some _, Some _ =>
      if negb (c =? 0) && negb (trigger_option op) then Some (bytes "  -" ++ [c] ++ bytes " .., ", 9)
      else if negb (c =? 0) then Some (bytes "  -" ++ [c] ++ bytes ", ", 6) else Some (bytes "  ", 2)
  | Some _, None => if negb (c =? 0) then Some (bytes "  -" ++ [c] ++ bytes ", ", 6) else Some (bytes "  ", 2)
  | None, Some u => Some (bytes "  -" ++ [c] ++ bytes " " ++ u, 5 + zlen u)
  | None, None => if negb (c =? 0) then Some (bytes "  -" ++ [c] ++ bytes " ", 5) else None
  end.

(** The name, behind the column [hp]. *)
Definition name (op : Option) (hp : Z) : list Z * Z :=
  match long_option op, uses_option op with
  | Some l, Some u => (bytes "--" ++ l ++ bytes "=" ++ u, hp + (zlen l + zlen u + 3))
  | Some l, None => (bytes "--" ++ l, hp + (zlen l + 2))
  | None, _ => ([], hp)
  end.

(** The way to column 30. *)
Definition pad (hp : Z) : list Z := let '(line, hp) := if 29 <? hp then ([10], 0) else ([], hp) in line ++ spaces (30 - hp).

(** [shell::text] looks a text up in the messages of the system. *)
Section messages.
Context (text : list Z -> list Z).

(** What is printed for an option, and whether it counts. *)
Definition entry (op : Option) (count : Z) : list Z * bool :=
  match help_string op with
  | None => ([], false)
  | Some help =>
      match form op with
      | None => ((if count =? 0 then [] else [10]) ++ help ++ bytes ":" ++ [10], false)
      | Some (out, hp) =>
          let '(name, hp) := name op hp in (out ++ name ++ pad hp ++ describe (text help) 30 ++ [10], true)
      end
  end.

Fixpoint help (opts : list Option) (count : Z) : list Z :=
  match opts with
  | [] => []
  | op :: opts => let '(out, counts) := entry op count in out ++ help opts (if counts : bool then count + 1 else count)
  end.

End messages.

End help.

(** ** A line from a terminal *)

Module terminal.

(** [getline] with the buffer of [size] bytes, of which [pos] hold [buf]; the end of the
    input is read as the character 255.  What is shown goes to [out]. *)
Fixpoint getline_loop (input : list Z) (size : Z) (buf out : list Z) : list Z * list Z * list Z :=
  if zlen buf <? size - 1 then
    match input with
    | [] => (buf ++ replicate (Z.to_nat (size - 1 - zlen buf)) 255, out ++ replicate (Z.to_nat (size - 1 - zlen buf)) 255, [])
    | c :: input =>
        if (c =? 13) || (c =? 10) then (buf, out, input)
        else if (c =? 8) && negb (zlen buf =? 0) then getline_loop input size (removelast buf) (out ++ [8; 32; 8])
        else getline_loop input size (buf ++ [c]) (out ++ [c])
    end
  else (buf, out, input).

Definition getline (prompt : list Z) (input : list Z) (size : Z) : list Z * list Z * list Z :=
  let '(buf, out, input) := getline_loop input size [] prompt in (buf, out ++ [10], input).

End terminal.

(** ** Symbols *)

Module symbols.

(** The list of [_syms]; a pointer to a part of it. *)
Abbreviation chain := (list (list Z * list Z)).

(** [linked_pointer<syms> sp] without an initialiser is a null pointer: the searches of
    [is_sym] and [setsym] begin there. *)
Definition no_pointer : chain := [].

Fixpoint is_sym_loop (sp : chain) (name : list Z) : bool :=
  match sp with
  | [] => false
  | (n, v) :: sp => if strcmp n name =? 0 then true else is_sym_loop sp name
  end.

Definition is_sym (syms : chain) (name : list Z) : bool := is_sym_loop no_pointer name.

(** The chain with the new value, when the search finds the name. *)
Fixpoint setsym_loop (sp : chain) (name value : list Z) : option chain :=
  match sp with
  | [] => None
  | (n, v) :: sp => if strcmp n name =? 0 then Some ((n, value) :: sp) else cons (n, v) <$> setsym_loop sp name value
  end.

Definition setsym (syms : chain) (name value : list Z) : chain :=
  match setsym_loop no_pointer name value with Some syms => syms | None => (name, value) :: syms end.

(** Of the environment when there is no symbol. *)
Fixpoint getsym (getenv : list Z -> option (list Z) -> option (list Z)) (syms : list (list Z * list Z)) (name : list Z)
  (value : option (list Z)) : option (list Z) :=
  match syms with
  | [] => getenv name value
  | (n, v) :: syms => if strcmp n name =? 0 then Some v else getsym getenv syms name value
  end.

End symbols.
