(* ===== verification/ShellWords.v ===== *)
(** * The words of a command text, the help text, a typed line (corelib/shell.cpp)

    What [shell::parse] makes of a text of words, quoted or not; where the lines that
    [shell::help] prints begin; what [shell::getline] makes of a typed line. *)

From stdpp Require Import list strings relations.
From S2P Require Import Prelude CLib Strings StringObj Shell ShellText.
Import shell words.

(** ** Turns of the loop *)

(** The text read so far and the text to come. *)
Definition at_ (d t : list Z) (q : Z) (a : bool) (its : list Z) : splitter := Split (d ++ t ++ [0]) (zlen d) q a its.

Definition turns (s s' : splitter) : Prop := exists c, rd (mem s) (cp s) = Some c /\ c <> 0 /\ turn s c = Some s'.

Lemma loop_turns n : forall s s' fuel, nsteps turns n s s' -> split_loop (n + fuel) s = split_loop fuel s'.
Proof.
  induction n as [|n IH]; intros s s' fuel Hn; inversion Hn as [|? ? y ? (c & Ec & Hc & Et) Hs]; subst; [done|].
  cbn [Nat.add split_loop]. rewrite Ec. run. destruct (Z.eqb_spec c 0); [done|]. rewrite Et. run. by apply IH.
Qed.

Lemma loop_end d q a its fuel : split_loop (S fuel) (at_ d [] q a its) = Some (at_ d [] q a its).
Proof. cbn [split_loop at_ mem cp app]. by rewrite rd_app_r. Qed.

Lemma at_snoc d c t q a its : Split (d ++ (c :: t) ++ [0]) (zlen d + 1) q a its = at_ (d ++ [c]) t q a its.
Proof. unfold at_. rewrite zlen_app, <- app_assoc. reflexivity. Qed.

Lemma turns_at d c t q a its s' : c <> 0 -> turn (at_ d (c :: t) q a its) c = Some s' -> turns (at_ d (c :: t) q a its) s'.
Proof. intros Hc Et. exists c. split; [|done]. cbn. by rewrite rd_app_r. Qed.

(** Characters that are passed over. *)
Definition quiet (q : Z) (a : bool) (c : Z) : Prop :=
  c <> 0 /\ if a then (isspace c = true -> q <> 0) /\ c <> q else isspace c = true.

Lemma turns_quiet d c t q a its : quiet q a c -> turns (at_ d (c :: t) q a its) (at_ (d ++ [c]) t q a its).
Proof.
  intros [Hc Hq]. apply turns_at; [done|]. rewrite <- at_snoc. unfold turn. cbn [active quote at_]. destruct a; cbn [andb negb].
  - destruct Hq as [Hs Hn]. rewrite !andb_false_r, (proj2 (Z.eqb_neq c q) Hn). cbn [andb].
    destruct (isspace c); [|done]. rewrite (proj2 (Z.eqb_neq q 0) (Hs eq_refl)). done.
  - rewrite Hq. cbn [andb negb]. rewrite !andb_false_r.
    assert ((c =? 39) = false /\ (c =? 34) = false) as [-> ->] by (unfold isspace in Hq; lia). done.
Qed.

Lemma over_quiet w : forall d t q a its, Forall (quiet q a) w -> nsteps turns (length w) (at_ d (w ++ t) q a its) (at_ (d ++ w) t q a its).
Proof.
  induction w as [|c w IH]; intros d t q a its Hw; [rewrite app_nil_r; constructor|].
  inversion Hw; subst. econstructor; [by apply turns_quiet|]. rewrite (cons_middle c d w), app_assoc. by apply IH.
Qed.

(** A null byte is stored at the place of [c]. *)
Lemma inactive_at d x c t q a its : inactive (at_ d (x ++ c :: t) q a its) (zlen d + zlen x) =
  Some (at_ (d ++ x ++ [0]) t q false its).
Proof.
  unfold inactive, at_. cbn [mem quote items]. rewrite <- app_assoc, app_assoc. cbn [app].
  rewrite wr_app_r by (by rewrite zlen_app). run. do 2 f_equal; [by rewrite <- !app_assoc|]. by rewrite !zlen_app, Z.add_assoc.
Qed.

Lemma inactive_here d c t q a its : inactive (at_ d (c :: t) q a its) (zlen d) = Some (at_ (d ++ [0]) t q false its).
Proof.
  replace (zlen d) with (zlen d + zlen (@nil Z)) by (rewrite zlen_nil; lia). exact (inactive_at d [] c t q a its).
Qed.

(** ** Words as they are written *)

Inductive form := Plain (w : list Z) | Double (w : list Z) | Single (w : list Z).

(** The text of a word, and what [parse] makes of it: apostrophes stay. *)
Definition spell (f : form) : list Z :=
  match f with Plain w => w | Double w => 34 :: w ++ [34] | Single w => 39 :: w ++ [39] end.

Definition word_of (f : form) : list Z := match f with Plain w | Double w => w | Single w => 39 :: w ++ [39] end.

Definition quoted (f : form) : bool := match f with Plain _ => false | _ => true end.

Definition well (f : form) : Prop :=
  nonul (word_of f) /\
  match f with
  | Plain w => Forall (fun c => isspace c = false) w /\ match w with c :: _ => c <> 34 /\ c <> 39 | [] => False end
  | Double w => match w with _ :: w => 34 ∉ w | [] => False end
  | Single w => 39 ∉ w
  end.

Definition blank (g : list Z) : Prop := Forall (fun c => isspace c = true) g.

(** Words with the white space behind each; nothing needs to stand behind a word in
    double quotes, and behind the last one. *)
Fixpoint line (l : list (form * list Z)) : list Z := match l with [] => [] | (f, g) :: l => spell f ++ g ++ line l end.

Fixpoint spaced (l : list (form * list Z)) : Prop :=
  match l with
  | [] => True
  | (f, g) :: l => well f /\ blank g /\ (g <> [] \/ l = [] \/ exists w, f = Double w) /\ spaced l
  end.

(** The words without quotes come first. *)
Fixpoint plain_first (q : bool) (l : list (form * list Z)) : Prop :=
  match l with [] => True | (f, _) :: l => (q = true -> quoted f = true) /\ plain_first (q || quoted f) l end.

(** ** Words in the copy *)

Definition stands (m : list Z) (i : Z) (w : list Z) : Prop := nonul w /\ exists a b, m = a ++ w ++ 0 :: b /\ i = zlen a.

Lemma stands_app m k i w : stands m i w -> stands (m ++ k) i w.
Proof. intros (Hw & a & b & -> & ->). split; [done|]. exists a, (b ++ k). by rewrite <- !app_assoc. Qed.

Lemma stands_all m k its ws : Forall2 (stands m) its ws -> Forall2 (stands (m ++ k)) its ws.
Proof. induction 1; constructor; [by apply stands_app|done]. Qed.

Lemma collapse_words m its ws : Forall2 (stands m) its ws -> collapse m its = Some ws.
Proof.
  induction 1 as [|i w its ws (Hw & a & b & -> & ->) _ IH]; [done|]. cbn [collapse].
  rewrite zlen_to_nat, drop_app_length, cstr_app by done. run. rewrite IH. done.
Qed.

Lemma quiet_blank q g : blank g -> Forall (quiet q false) g.
Proof. apply Forall_impl. intros c Hc. split; [|done]. intros ->. discriminate. Qed.

Lemma quiet_word q w : nonul w -> q <> 0 -> q ∉ w -> Forall (quiet q true) w.
Proof.
  intros Hw Hq Hn. rewrite list.Forall_forall. intros c Hc. split; [by apply (proj1 (list.Forall_forall _ _) Hw)|].
  split; [done|]. intros ->. done.
Qed.

Lemma quiet_plain w : nonul w -> Forall (fun c => isspace c = false) w -> Forall (quiet 0 true) w.
Proof.
  intros Hw Hs. rewrite list.Forall_forall. intros c Hc. pose proof (proj1 (list.Forall_forall _ _) Hw c Hc).
  pose proof (proj1 (list.Forall_forall _ _) Hs c Hc). split; [done|]. split; [congruence|done].
Qed.

(** ** One word *)

Lemma open_plain d c t its : c <> 0 -> isspace c = false -> c <> 34 -> c <> 39 ->
  turns (at_ d (c :: t) 0 false its) (at_ (d ++ [c]) t 0 true (its ++ [zlen d])).
Proof.
  intros Hc Hs H34 H39. apply turns_at; [done|]. rewrite <- at_snoc. unfold turn. cbn [active quote at_].
  rewrite Hs, (proj2 (Z.eqb_neq c 39) H39), (proj2 (Z.eqb_neq c 34) H34), (proj2 (Z.eqb_neq c 0) Hc). done.
Qed.

Lemma open_single d t q its : turns (at_ d (39 :: t) q false its) (at_ (d ++ [39]) t 39 true (its ++ [zlen d])).
Proof. apply turns_at; [done|]. by rewrite <- at_snoc. Qed.

Lemma open_double d c t q its : turns (at_ d (34 :: c :: t) q false its) (at_ (d ++ [34; c]) t 34 true (its ++ [zlen d + 1])).
Proof.
  apply turns_at; [done|]. rewrite (app_assoc d [34] [c] : d ++ [34; c] = _), <- at_snoc, zlen_app, <- app_assoc. done.
Qed.

Lemma close_plain d s t its : isspace s = true -> turns (at_ d (s :: t) 0 true its) (at_ (d ++ [0]) t 0 false its).
Proof.
  intros Hs. apply turns_at; [intros ->; discriminate|]. unfold turn. rewrite Hs. cbn [active quote at_ andb Z.eqb].
  apply inactive_here.
Qed.

Lemma close_double d t its : turns (at_ d (34 :: t) 34 true its) (at_ (d ++ [0]) t 34 false its).
Proof.
  apply turns_at; [done|]. unfold turn. cbn.
  apply inactive_here.
Qed.

Lemma close_single d s t its : isspace s = true ->
  turns (at_ d (39 :: s :: t) 39 true its) (at_ (d ++ [39; 0]) t 39 false its).
Proof.
  intros Hs. apply turns_at; [done|]. unfold turn. cbn -[isspace rd inactive]. rewrite (cons_middle 39 d), app_assoc.
  rewrite rd_app_r by (by rewrite zlen_app). cbn [lookup list_lookup app]. run. rewrite Hs.
  exact (inactive_at d [39] s t 39 true its).
Qed.

Lemma stay_single d its : turns (at_ d [39] 39 true its) (at_ (d ++ [39]) [] 39 true its).
Proof.
  apply turns_at; [done|]. rewrite <- at_snoc. unfold turn. cbn -[isspace rd inactive].
  rewrite (cons_middle 39 d), app_assoc, rd_app_r by (by rewrite zlen_app). cbn [lookup list_lookup app]. run. by rewrite <- app_assoc.
Qed.

(** The beginning of a word [f], up to what ends it. *)
Definition tail_of (f : form) : list Z := match f with Plain _ => [] | Double _ => [34] | Single _ => [39] end.

(** What of that stays in the word. *)
Definition kept (f : form) : list Z := match f with Single _ => [39] | _ => [] end.

Lemma word_begins f d q t its : well f -> (q <> 0 -> quoted f = true) -> exists n q' x i,
  nsteps turns n (at_ d (spell f ++ t) q false its) (at_ (d ++ x) (tail_of f ++ t) q' true (its ++ [i])) /\
  spell f = x ++ tail_of f /\ (n <= length x)%nat /\ q' = match f with Plain _ => 0 | Double _ => 34 | Single _ => 39 end /\
  exists a, x ++ kept f = a ++ word_of f /\ i = zlen d + zlen a.
Proof.
  intros [Hn Hw] Hq. destruct f as [w|w|w]; cbn [spell word_of tail_of quoted kept app] in *.
  - destruct Hw as [Hs Hw]. destruct w as [|c w]; [done|]. destruct Hw as [H34 H39].
    assert (q = 0) as -> by (destruct (decide (q = 0)); [done|]; by specialize (Hq ltac:(done))).
    inversion Hn; inversion Hs; subst. exists (S (length w)), 0, (c :: w), (zlen d). split_and!; [|by rewrite app_nil_r|done|done|].
    + econstructor; [by apply open_plain|]. rewrite (cons_middle c d w), app_assoc. by apply over_quiet, quiet_plain.
    + exists []. rewrite app_nil_r, zlen_nil. split; [done|lia].
  - destruct w as [|c w]; [done|]. inversion Hn; subst. exists (S (length w)), 34, (34 :: c :: w), (zlen d + 1).
    split_and!; [|done|cbn; lia|done|].
    + cbn [app]. rewrite <- app_assoc. econstructor; [apply open_double|].
      replace (d ++ 34 :: c :: w) with ((d ++ [34; c]) ++ w) by (by rewrite <- app_assoc).
      by apply over_quiet, quiet_word.
    + exists [34]. by rewrite app_nil_r.
  - exists (S (length w)), 39, (39 :: w), (zlen d). split_and!; [|done|cbn; lia|done|].
    + cbn [app]. rewrite <- app_assoc. econstructor; [apply open_single|].
      rewrite (cons_middle 39 d w), (app_assoc d [39] w). apply over_quiet, quiet_word; [|done|done].
      unfold nonul in *. inversion Hn as [|? ? _ Hn']; subst. by apply Forall_app in Hn' as [? _].
    + exists []. rewrite zlen_nil. split; [done|lia].
Qed.

Lemma stands_at d x e i a w k : x ++ e = a ++ w -> i = zlen d + zlen a -> nonul w -> stands (d ++ x ++ e ++ 0 :: k) i w.
Proof.
  intros E -> Hw. split; [done|]. exists (d ++ a), k. split; [|by rewrite zlen_app].
  by rewrite (app_assoc x), E, <- !app_assoc.
Qed.

(** A word that ends, with the white space behind it. *)
Lemma word_closed f g d q t its : well f -> blank g -> (q <> 0 -> quoted f = true) -> (g <> [] \/ exists w, f = Double w) ->
  exists n q' k i, nsteps turns n (at_ d (spell f ++ g ++ t) q false its) (at_ (d ++ k) t q' false (its ++ [i])) /\
    (n <= length (spell f ++ g))%nat /\ (q' <> 0 -> quoted f = true) /\ stands (d ++ k) i (word_of f).
Proof.
  intros Hf Hg Hq He. destruct (word_begins f d q (g ++ t) its Hf Hq) as (n & q' & x & i & Hn & Ex & Hl & Eq & a & Ea & Ei).
  assert (exists g', blank g' /\ (S (length g') <= length (tail_of f ++ g))%nat /\
    turns (at_ (d ++ x) (tail_of f ++ g ++ t) q' true (its ++ [i])) (at_ (d ++ x ++ kept f ++ [0]) (g' ++ t) q' false (its ++ [i])))
    as (g' & Hg' & Hl' & Ht).
  { destruct f as [w|w|w]; subst q'; cbn [tail_of kept app].
    - destruct He as [He|[? He]]; [|done]. destruct g as [|s g]; [done|]. inversion Hg; subst.
      exists g. split_and!; [done|done|]. rewrite app_assoc. by apply close_plain.
    - exists g. split_and!; [done|done|]. rewrite app_assoc. apply close_double.
    - destruct He as [He|[? He]]; [|done]. destruct g as [|s g]; [done|]. inversion Hg; subst.
      exists g. split_and!; [done|cbn; lia|]. rewrite app_assoc. by apply close_single. }
  exists (n + (1 + length g'))%nat, q', (x ++ kept f ++ 0 :: g'), i. split_and!.
  - eapply nsteps_trans; [exact Hn|]. eapply nsteps_l; [exact Ht|].
    replace (d ++ x ++ kept f ++ 0 :: g') with ((d ++ x ++ kept f ++ [0]) ++ g') by (rewrite <- !app_assoc; done).
    by apply over_quiet, quiet_blank.
  - rewrite Ex, !length_app in *. cbn [length] in *. lia.
  - rewrite Eq. by destruct f.
  - by apply (stands_at d x (kept f) i a (word_of f) g' Ea Ei (proj1 Hf)).
Qed.

(** The last word, which the end of the text ends. *)
Lemma word_last f d q its : well f -> (q <> 0 -> quoted f = true) -> (forall w, f <> Double w) ->
  exists n q' k i, nsteps turns n (at_ d (spell f) q false its) (at_ (d ++ k) [] q' true (its ++ [i])) /\
    (n <= length (spell f))%nat /\ stands ((d ++ k) ++ [0]) i (word_of f).
Proof.
  intros Hf Hq He. destruct (word_begins f d q [] its Hf Hq) as (n & q' & x & i & Hn & Ex & Hl & Eq & a & Ea & Ei).
  rewrite !app_nil_r in Hn.
  assert (nsteps turns (length (tail_of f)) (at_ (d ++ x) (tail_of f) q' true (its ++ [i])) (at_ (d ++ x ++ kept f) [] q' true (its ++ [i])))
    as Ht.
  { destruct f as [w|w|w]; subst q'; cbn [tail_of kept length].
    - rewrite app_nil_r. constructor.
    - by destruct (He w).
    - rewrite app_assoc. eapply nsteps_l; [apply stay_single|constructor]. }
  exists (n + length (tail_of f))%nat, q', (x ++ kept f), i. split_and!.
  - by eapply nsteps_trans.
  - rewrite Ex, length_app. lia.
  - rewrite <- !app_assoc. by apply (stands_at d x (kept f) i a (word_of f) [] Ea Ei (proj1 Hf)).
Qed.

(** ** All words *)

Definition words_of (l : list (form * list Z)) : list (list Z) := map (fun x => word_of (fst x)) l.

Lemma words_found l : forall d q its ws, spaced l -> plain_first (negb (q =? 0)) l -> Forall2 (stands d) its ws ->
  exists n q' a d' its', nsteps turns n (at_ d (line l) q false its) (at_ d' [] q' a its') /\
    (n <= length (line l))%nat /\ Forall2 (stands (d' ++ [0])) its' (ws ++ words_of l).
Proof.
  induction l as [|[f g] l IH]; intros d q its ws Hl Hp Hits.
  { exists 0%nat, q, false, d, its. cbn. rewrite app_nil_r. split_and!; [constructor|done|by apply stands_all]. }
  destruct Hl as (Hf & Hg & He & Hl), Hp as [Hq Hp].
  assert (q <> 0 -> quoted f = true) as Hq' by (intros Hz; apply Hq; by destruct (Z.eqb_spec q 0)).
  assert ((g <> [] \/ exists w, f = Double w) \/ (g = [] /\ l = [] /\ forall w, f <> Double w)) as [Hc|(-> & -> & Hd)].
  { destruct g; [|by left; left]. destruct He as [He|[->|He]]; [done| |by left; right].
    destruct f as [w|w|w]; [by right|by left; right; exists w|by right]. }
  - destruct (word_closed f g d q (line l) its Hf Hg Hq' Hc) as (n & q' & k & i & Hn & Hlen & Hq2 & Hst).
    destruct (IH (d ++ k) q' (its ++ [i]) (ws ++ [word_of f]) Hl) as (m & q2 & a & d' & its' & Hm & Hlen' & Hits').
    + destruct (Z.eqb_spec q' 0) as [->|Hz]; cbn [negb] in *; [|by rewrite (Hq2 Hz), orb_true_r in Hp].
      revert Hp. destruct (negb (q =? 0) || quoted f); [|done]. clear. intros Hp. destruct l as [|[h e] l]; [done|].
      cbn in *. destruct Hp as [Hh Hp]. split; [done|]. by rewrite (Hh eq_refl) in *.
    + apply Forall2_app; [by apply stands_all|]. by constructor.
    + exists (n + m)%nat, q2, a, d', its'. split_and!; [by eapply nsteps_trans| |].
      * cbn [line]. rewrite !length_app in *. lia.
      * by rewrite <- app_assoc in Hits'.
  - destruct (word_last f d q its Hf Hq' Hd) as (n & q' & k & i & Hn & Hlen & Hst).
    exists n, q', true, (d ++ k), (its ++ [i]). cbn [line app]. rewrite app_nil_r. split_and!; [done|done|].
    apply Forall2_app; [|by constructor]. apply stands_all. by apply stands_all.
Qed.

(** C36.  A command text that is written as words, those without quotes first, with
    white space between them is parsed to these words: a word in double quotes is what
    stands between them, one in apostrophes keeps them. *)
Theorem shell_parse `{Malloc} (lead : list Z) (l : list (form * list Z)) :
  blank lead -> spaced l -> plain_first false l -> lead ++ line l <> [] ->
  parse (lead ++ line l) = Some (map (fun x => word_of (fst x)) l).
Proof.
  intros Hb Hl Hp Hn. unfold parse.
  assert (dup (lead ++ line l) = (lead ++ line l) ++ [0]) as -> by (by destruct (lead ++ line l)).
  destruct (words_found l lead 0 [] []) as (n & q & a & d & its & Hs & Hlen & Hits); [done|done|constructor|].
  replace (S (length (lead ++ line l))) with (length lead + (n + S (length (line l) - n)))%nat by (rewrite length_app; lia).
  change (Split ((lead ++ line l) ++ [0]) 0 0 false []) with (at_ [] (lead ++ line l) 0 false []).
  rewrite (loop_turns _ _ (at_ lead (line l) 0 false [])).
  - rewrite (loop_turns _ _ _ _ Hs), loop_end. run. cbn [at_ mem items app]. by apply collapse_words.
  - apply (over_quiet lead [] (line l)), quiet_blank, Hb.
Qed.

(** [  ls -l "a b"'c d'  "e"] *)
Definition sample_line : list (form * list Z) :=
  [(Plain (bytes "ls"), bytes " "); (Plain (bytes "-l"), bytes " "); (Double (bytes "a b"), []); (Single (bytes "c d"), bytes "  ");
   (Double (bytes "e"), [])].

Lemma shell_parse_witness : @parse zero_malloc (bytes "  " ++ line sample_line) =
  Some [bytes "ls"; bytes "-l"; bytes "a b"; bytes "'c d'"; bytes "e"].
Proof.
  apply (@shell_parse zero_malloc (bytes "  ") sample_line); [repeat constructor| |by cbn|done].
  cbn. split_and!; try done; try (by repeat constructor); try (by apply (bool_decide_unpack _)); try (by left); try (by right; left).
  right; right; by eexists.
Defined.

(** ** What the words come to otherwise *)

(** Behind a word in quotes white space does not end a word any more. *)
Example quote_stays : @parse zero_malloc (34 :: bytes "a b" ++ 34 :: bytes " c d") = Some [bytes "a b"; bytes "c d"].
Proof. reflexivity. Qed.

(** An empty word in double quotes, and a quotation mark at the end: what stands behind
    the mark is taken as the first character, whatever it is. *)
Example empty_quotes : @parse zero_malloc (34 :: 34 :: bytes " a") = Some [34 :: bytes " a"] /\ @parse zero_malloc [34] = None.
Proof. done. Qed.

(** The copy of an empty text is not stored. *)
Example empty_text : @parse zero_malloc [] = Some [].
Proof. done. Qed.

(** The second character of an empty name of the program is read. *)
Example empty_name : @set0 zero_malloc (bytes "/tmp") (Some []) = None.
Proof. done. Qed.

(** ** Help *)

(** The length of the last line. *)
Fixpoint column (l : list Z) (n : Z) : Z := match l with [] => n | c :: l => column l (if c =? 10 then 0 else n + 1) end.

Lemma column_app l k n : column (l ++ k) n = column k (column l n).
Proof. revert n. by induction l as [|c l IH]; intros n; cbn; [|rewrite IH]. Qed.

Lemma column_line l n : 10 ∉ l -> column l n = n + zlen l.
Proof.
  revert n. induction l as [|c l IH]; intros n Hl; cbn [column]; [rewrite zlen_nil; lia|].
  rewrite not_elem_of_cons in Hl. destruct (Z.eqb_spec c 10); [by destruct Hl|]. rewrite IH, zlen_cons by tauto. lia.
Qed.

Lemma column_spaces k n : 0 <= k -> column (help.spaces k) n = n + k.
Proof.
  intros Hk. rewrite column_line; unfold help.spaces, zlen.
  - rewrite length_replicate. lia.
  - intros H. by apply elem_of_replicate_inv in H.
Qed.

Definition one_line (o : option (list Z)) : Prop := match o with Some l => 10 ∉ l | None => True end.

Lemma column_form op out hp : short_option op <> 10 -> one_line (uses_option op) -> help.form op = Some (out, hp) ->
  column out 0 = hp.
Proof.
  unfold help.form. intros Hc Hu. change (bytes "  -") with [32; 32; 45]. change (bytes " .., ") with [32; 46; 46; 44; 32].
  change (bytes ", ") with [44; 32]. change (bytes "  ") with [32; 32]. change (bytes " ") with [32].
  repeat case_match; intros [= <- <-]; cbn [one_line] in Hu; try done;
    cbn; rewrite (proj2 (Z.eqb_neq _ 10) Hc); rewrite ?column_line by done; lia.
Qed.

Lemma column_name op name hp hp' : one_line (long_option op) -> one_line (uses_option op) -> help.name op hp = (name, hp') ->
  column name hp = hp'.
Proof.
  unfold help.name. intros Hl Hu. change (bytes "--") with [45; 45]. change (bytes "=") with [61].
  repeat case_match; intros [= <- <-]; cbn [one_line] in *; cbn; rewrite ?column_app; cbn; rewrite ?column_line by done; lia.
Qed.

Lemma column_pad hp : 0 <= hp -> column (help.pad hp) hp = 30.
Proof.
  unfold help.pad. destruct (Z.ltb_spec 29 hp); cbn [app column Z.eqb Pos.eqb]; rewrite column_spaces; lia.
Qed.

(** The text of every option that counts begins in column 30 of a line: behind its
    names when they end before that column, below them otherwise. *)
Theorem help_column (text : list Z -> list Z) (op : Option) (count : Z) (out : list Z) :
  short_option op <> 10 -> one_line (long_option op) -> one_line (uses_option op) ->
  help.entry text op count = (out, true) ->
  exists head h, out = head ++ help.describe (text h) 30 ++ [10] /\ help_string op = Some h /\ column head 0 = 30.
Proof.
  intros Hc Hl Hu. unfold help.entry. destruct (help_string op) as [h|]; [|done].
  destruct (help.form op) as [[f hp]|] eqn:Ef; [|done]. destruct (help.name op hp) as [name hp'] eqn:En. intros [= <-].
  exists (f ++ name ++ help.pad hp'), h. rewrite <- !app_assoc. split_and!; [done|done|].
  rewrite !column_app, (column_form op f hp Hc Hu Ef), (column_name op name hp hp' Hl Hu En). apply column_pad.
  revert Ef En. unfold help.form, help.name. pose proof (zlen_nonneg (default [] (long_option op))).
  pose proof (zlen_nonneg (default [] (uses_option op))). repeat case_match; intros [= _ <-] [= _ <-]; cbn [default id] in *; lia.
Qed.

Definition sample_option : Option := make_numeric 118 (Some (bytes "verbose")) (Some (bytes "show more of it")) (Some (bytes "LEVEL")) 0.

Lemma help_column_witness : exists head h,
  (help.entry (fun x => x) sample_option 0).1 =
    head ++ help.describe h 30 ++ [10] /\ Some (bytes "show more of it") = Some h /\ column head 0 = 30.
Proof.
  refine (help_column (fun x => x) sample_option 0 _ _ _ _ _);
    [done|by apply (bool_decide_unpack _)|by apply (bool_decide_unpack _)|reflexivity].
Defined.

(** The column does not move with the characters of the text: a long text stays on its
    line. *)
Example help_never_wraps : help.describe (concat (repeat (bytes "word ") 30)) 30 = concat (repeat (bytes "word ") 30).
Proof. reflexivity. Qed.

(** ** Typed lines *)

Definition typed (c : Z) : Prop := c <> 13 /\ c <> 10 /\ c <> 8.

Lemma getline_line size l : forall rest buf out, Forall typed l -> zlen buf + zlen l < size - 1 ->
  terminal.getline_loop (l ++ 10 :: rest) size buf out = (buf ++ l, out ++ l, rest).
Proof.
  induction l as [|c l IH]; intros rest buf out Hl Hs; cbn [app terminal.getline_loop].
  - rewrite zlen_nil in Hs. rewrite (proj2 (Z.ltb_lt _ _)) by lia. cbn. by rewrite !app_nil_r.
  - inversion Hl as [|? ? (H13 & H10 & H8)]; subst. rewrite zlen_cons in Hs. pose proof (zlen_nonneg l).
    rewrite (proj2 (Z.ltb_lt _ _)), (proj2 (Z.eqb_neq c 13)), (proj2 (Z.eqb_neq c 10)), (proj2 (Z.eqb_neq c 8)) by (done || lia).
    cbn [orb andb]. rewrite IH, <- !app_assoc; [done|done|]. rewrite zlen_app, zlen_cons, zlen_nil. lia.
Qed.

(** A backspace takes the character before it away. *)
Lemma getline_backspace size l c rest buf out : Forall typed l -> typed c -> zlen buf + zlen l + 1 < size - 1 ->
  terminal.getline_loop (l ++ c :: 8 :: rest) size buf out =
  terminal.getline_loop rest size (buf ++ l) (out ++ l ++ [c; 8; 32; 8]).
Proof.
  revert buf out. induction l as [|d l IH]; intros buf out Hl Hc Hs; cbn [app].
  - destruct Hc as (H13 & H10 & H8). rewrite zlen_nil in Hs. cbn [terminal.getline_loop].
    rewrite (proj2 (Z.ltb_lt (zlen buf) _)), (proj2 (Z.eqb_neq c 13)), (proj2 (Z.eqb_neq c 10)), (proj2 (Z.eqb_neq c 8)) by (done || lia).
    cbn [orb andb]. rewrite zlen_app, zlen_cons, zlen_nil. pose proof (zlen_nonneg buf).
    rewrite (proj2 (Z.ltb_lt _ _)), (proj2 (Z.eqb_neq (zlen buf + (0 + 1)) 0)) by lia. cbn [Z.eqb Pos.eqb orb andb negb].
    by rewrite removelast_last, app_nil_r, <- !app_assoc.
  - inversion Hl as [|? ? (H13 & H10 & H8)]; subst. rewrite zlen_cons in Hs. pose proof (zlen_nonneg l). cbn [terminal.getline_loop].
    rewrite (proj2 (Z.ltb_lt _ _)), (proj2 (Z.eqb_neq d 13)), (proj2 (Z.eqb_neq d 10)), (proj2 (Z.eqb_neq d 8)) by (done || lia).
    cbn [orb andb]. rewrite IH, <- !app_assoc; [done|done|done|]. rewrite zlen_app, zlen_cons, zlen_nil. lia.
Qed.

(** At the beginning of the line it is a character of the line. *)
Example getline_lone_backspace : terminal.getline [] ([8; 97; 10]) 16 = ([8; 97], [8; 97; 10], []).
Proof. reflexivity. Qed.

(** ** Symbols *)

(** A symbol that has been set is not found by [is_sym], and a second value hides the
    first one. *)
Example symbols_not_found :
  symbols.is_sym (symbols.setsym [] (bytes "A") (bytes "1")) (bytes "A") = false /\
  symbols.setsym (symbols.setsym [] (bytes "A") (bytes "1")) (bytes "A") (bytes "2") = [(bytes "A", bytes "2"); (bytes "A", bytes "1")].
Proof. done. Qed.

Lemma getsym_set getenv syms n v d : nonul n -> symbols.getsym getenv (symbols.setsym syms n v) n d = Some v.
Proof. intros Hn. cbn. by rewrite (proj2 (strcmp_eq n n Hn Hn) eq_refl). Qed.

(** ** What the options come to otherwise *)

(** A lone dash, which stands for the standard input in many programs, is dropped. *)
Example lone_dash : getargv [] (fun _ => []) NO_NUMERIC (Parser [] 0) [bytes "-"; bytes "a"] = Done (Parser [] 0, [bytes "a"]).
Proof. reflexivity. Qed.

(** An empty number is the number 0. *)
Example empty_number : assign (numericopt false 7) (Some []) = Some (numericopt true 0, None).
Proof. done. Qed.

(** For an empty character the place behind the terminator is read. *)
Example empty_character : assign (charopt false 7) (Some []) = None.
Proof. done. Qed.
