(* ===== verification/Mapref.v ===== *)
(** * Shared maps and lists of counted objects (corelib/mapref.cpp, inc/ucommon/mapref.h)

    A map is an array of chains of [Index] objects, each with a key and a value; those
    taken out stay in a chain of free ones.  The chains are those of [Linked], the keys
    and values are counted objects of [Typeref].  The templates are modelled for keys
    and members that are texts.  A call runs as a whole in the thread [self], with the
    lock of [Condition]; a call that would wait for another thread is [None]. *)

From stdpp Require Import gmap list strings.
From S2P Require Import Prelude CLib Strings StringObj Typeref Condition ArrayRef Linked.
Import TypeRef.

(** Key and value of an [Index]. *)
Abbreviation object := StringObj.loc.
Abbreviation entry := (option object * option object)%type.

Module Map.

(** [copies] is the number of references to the map, [pool] is the memory of the
    [Index] objects: their links and their keys and values. *)
Record t := Mk {
  lists : list (option loc); pool : Linked.mem; entries : gmap loc entry; free : option loc; last : option loc;
  count : Z; alloc : Z; size : Z; copies : Z; lock : ConditionalLock.monitor }.

Definition with_chains (m : t) (l : list (option loc)) (n : Linked.mem) : t :=
  Mk l n (entries m) (free m) (last m) (count m) (alloc m) (size m) (copies m) (lock m).
Definition with_entry (m : t) (x : loc) (e : entry) : t :=
  Mk (lists m) (pool m) (<[x := e]> (entries m)) (free m) (last m) (count m) (alloc m) (size m) (copies m) (lock m).
Definition with_free (m : t) (f : option loc) : t :=
  Mk (lists m) (pool m) (entries m) f (last m) (count m) (alloc m) (size m) (copies m) (lock m).
Definition with_last (m : t) (l : option loc) : t :=
  Mk (lists m) (pool m) (entries m) (free m) l (count m) (alloc m) (size m) (copies m) (lock m).
Definition with_count (m : t) (n : Z) : t :=
  Mk (lists m) (pool m) (entries m) (free m) (last m) n (alloc m) (size m) (copies m) (lock m).
Definition with_alloc (m : t) (n : Z) : t :=
  Mk (lists m) (pool m) (entries m) (free m) (last m) (count m) n (size m) (copies m) (lock m).
Definition with_copies (m : t) (n : Z) : t :=
  Mk (lists m) (pool m) (entries m) (free m) (last m) (count m) (alloc m) (size m) n (lock m).
Definition with_lock (m : t) (s : ConditionalLock.monitor) : t :=
  Mk (lists m) (pool m) (entries m) (free m) (last m) (count m) (alloc m) (size m) (copies m) s.

(** The constructor. *)
Definition make (indexes : Z) : t :=
  Mk (replicate (Z.to_nat indexes) None) (Linked.Mem ∅ ∅) ∅ None None 0 0 indexes 0 ConditionalLock.make.

(** Memory for an [Index]: a free one, or a new piece of the pool. *)
Definition take (m : t) : option (t * loc) :=
  match free m with
  | Some x => n ← Linked.get_node (pool m) x; Some (with_free m (Next n), x)
  | None => Some (with_alloc m (u64 (alloc m + 1)), fresh (dom (nodes (pool m))))
  end.

Definition blank : node := Node None None None None None.

(** [create]: a new [Index] at the head of the chain of [key]. *)
Definition create (m : t) (key : Z) : option (t * loc) :=
  '(m, x) ← take m;
  let m := with_count m (u64 (count m + 1)) in
  root ← rd (lists m) (key mod size m);
  '(n, root) ← LinkedObject.enlist (Linked.put_node (pool m) x blank) x root;
  l ← wr (lists m) (key mod size m) root;
  Some (with_entry (with_chains m l n) x (None, None), x).

(** [append]: a new one behind the last one of the first chain. *)
Definition append (m : t) : option (t * loc) :=
  '(m, x) ← take m;
  let m := with_entry (with_count m (u64 (count m + 1))) x (None, None) in
  let n := Linked.put_node (pool m) x blank in
  match last m with
  | Some l => n ← Linked.set_next n l (Some x); n ← Linked.set_next n x None; Some (with_last (with_chains m (lists m) n) (Some x), x)
  | None =>
      l ← wr (lists m) 0 (Some x); n ← Linked.set_next n x None; Some (with_last (with_chains m l n) (Some x), x)
  end.

(** The object in front of [index]. *)
Fixpoint last_loop (fuel : nat) (n : Linked.mem) (last : option loc) (index : loc) : option (option loc) :=
  match fuel with
  | O => None
  | S f =>
      match last with
      | None => Some None
      | Some l => x ← Linked.get_node n l; if decide (Next x = Some index) then Some last else last_loop f n (Next x) index
      end
  end.

Definition remove (p : program) (m : t) (index : option loc) (path : Z) : option (program * t) :=
  match index with
  | None => Some (p, m)
  | Some x =>
      e ← entries m !! x;
      p ← Array.release p (fst e);
      p ← Array.release p (snd e);
      root ← rd (lists m) (path mod size m);
      let m := with_count m (u64 (count m - 1)) in
      m ← (if decide (last m = Some x) then
             if decide (root = Some x) then Some (with_last m None)
             else l ← last_loop (chain_fuel (pool m)) (pool m) root x; Some (with_last m l)
           else Some m);
      '(n, root) ← LinkedObject.delist (pool m) x root;
      l ← wr (lists m) (path mod size m) root;
      '(n, f) ← LinkedObject.enlist n x (free m);
      Some (p, with_free (with_chains m l n) f)
  end.

(** The keys and values of a chain are released. *)
Fixpoint release_chain (fuel : nat) (p : program) (m : t) (ip : option loc) : option program :=
  match fuel with
  | O => None
  | S f =>
      match ip with
      | None => Some p
      | Some x =>
          e ← entries m !! x;
          p ← Array.release p (fst e);
          p ← Array.release p (snd e);
          n ← Linked.get_node (pool m) x; release_chain f p m (Next n)
      end
  end.

Fixpoint release_lists (p : program) (m : t) (l : list (option loc)) : option program :=
  match l with [] => Some p | ip :: l => p ← release_chain (chain_fuel (pool m)) p m ip; release_lists p m l end.

Definition dealloc (p : program) (m : t) : option (program * t) :=
  if size m =? 0 then Some (p, m)
  else
    p ← release_lists p m (lists m);
    Some (p, Mk (lists m) (Linked.Mem ∅ ∅) ∅ None None (count m) (alloc m) 0 (copies m) (lock m)).

(** [Counted::release] of the map *)
Definition drop (p : program) (m : t) : option (program * t) :=
  let n := copies m in
  let m := with_copies m (s32 (n - 1)) in
  if n <? 2 then dealloc p m else Some (p, m).

Definition retain (m : t) : t := with_copies m (s32 (copies m + 1)).

Section thread.
Context (self : nat).

(** [access] and [modify] of the map, from the lock to the chain. *)
Definition access (m : t) (key : Z) : option (t * option loc) :=
  let '(s, _, entered) := ConditionalLock.access (lock m) self in
  if (entered : bool) then ip ← rd (lists m) (key mod size m); Some (with_lock m s, ip) else None.

Definition modify (m : t) (key : Z) : option (t * option loc) :=
  let '(s, _, entered) := ConditionalLock.modify (lock m) self in
  if (entered : bool) then ip ← rd (lists m) (key mod size m); Some (with_lock m s, ip) else None.

End thread.

End Map.

Module MapRef.
Import Map.

(** What a call does with a reference to nothing, or to a map that is gone. *)
Definition usable (ref : option t) : option t := match ref with Some m => if size m =? 0 then None else Some m | None => None end.

Definition create (indexes : Z) : option t := if indexes =? 0 then None else Some (make indexes).

(** The constructor: the map it refers to. *)
Definition make_ref (indexes : Z) : option t := (fun m => retain m) <$> create indexes.

Definition used (ref : option t) : Z := match ref with Some m => alloc m | None => 0 end.
Definition count (ref : option t) : Z := match ref with Some m => Map.count m | None => 0 end.

Definition remove (p : program) (ref : option t) (ind : option loc) (path : Z) : option (program * option t) :=
  match ref with None => Some (p, ref) | Some m => '(p, m) ← Map.remove p m ind path; Some (p, Some m) end.

(** [update]: the old value is released first. *)
Definition update (p : program) (m : t) (ind : option loc) (value : option object) : option (program * t) :=
  match ind with
  | None => Some (p, m)
  | Some x =>
      e ← entries m !! x;
      p ← Array.release p (snd e);
      p ← TypeRef.retain p value;
      Some (p, with_entry m x (fst e, value))
  end.

Definition add (p : program) (ref : option t) (keypath : Z) (key value : option object) : option (program * option t) :=
  match usable ref with
  | None => Some (p, ref)
  | Some m =>
      '(m, x) ← Map.create m keypath;
      p ← TypeRef.retain p key;
      p ← TypeRef.retain p value;
      Some (p, Some (with_entry m x (key, value)))
  end.

(** [index]: the hash of the bytes of a key. *)
Fixpoint index (key : Z) (addr : list Z) (i : Z) (len : nat) : option Z :=
  match len with
  | O => Some key
  | S len => c ← rd addr i; index (Z.lxor key (Z.lxor (u64 (Z.shiftl key 3)) c)) addr (i + 1) len
  end.

(** [mapkeypath] of a text; a reference to nothing has no bytes. *)
Definition mapkeypath (c : option Counted.t) : option Z :=
  match c with None => Some 1 | Some v => n ← strlen (Counted.mem v); index 1 (Counted.mem v) 0 (Z.to_nat n) end.

Section thread.
Context (self : nat).

Definition access (ref : option t) (key : Z) : option (option t * option loc) :=
  match usable ref with
  | None => Some (ref, None)
  | Some m => '(m, ip) ← Map.access self (retain m) key; Some (Some m, ip)
  end.

Definition modify (ref : option t) (key : Z) : option (option t * option loc) :=
  match usable ref with
  | None => Some (ref, None)
  | Some m => '(m, ip) ← Map.modify self (retain m) key; Some (Some m, ip)
  end.

Definition commit (p : program) (ref : option t) : option (program * option t) :=
  match usable ref with
  | None => Some (p, ref)
  | Some m => '(p, m) ← drop p (with_lock m (fst (ConditionalLock.commit (lock m) self))); Some (p, Some m)
  end.

Definition release (p : program) (ref : option t) : option (program * option t) :=
  match usable ref with
  | None => Some (p, ref)
  | Some m => '(p, m) ← drop p (with_lock m (fst (ConditionalLock.release (lock m) self))); Some (p, Some m)
  end.

(** [append] *)
Definition append (p : program) (ref : option t) (value : option object) : option (program * option t) :=
  match usable ref with
  | None => Some (p, ref)
  | Some m =>
      let '(s, _, entered) := ConditionalLock.modify (lock m) self in
      if (entered : bool) then
        '(m, x) ← Map.append (with_lock m s);
        p ← TypeRef.retain p value;
        let m := with_entry m x (None, value) in
        Some (p, Some (with_lock m (fst (ConditionalLock.commit (lock m) self))))
      else None
  end.

End thread.

End MapRef.

(** [typeref<K> kv (ip->...)]: the object of the field is retained while it is compared. *)
Definition object_of (p : program) (r : option object) : option (option Counted.t) :=
  match r with None => Some None | Some l => c ← cells (heap p) !! l; Some (Some c) end.

Section search.
Context (field : entry -> option object).

(** The chain from [ip] to the first object whose [field] is not null and equal to the
    object of [key]: where it was found that object is still retained. *)
Fixpoint search (fuel : nat) (p : program) (m : Map.t) (ip : option loc) (key : option Counted.t)
  : option (program * option (loc * option object)) :=
  match fuel with
  | O => None
  | S f =>
      match ip with
      | None => Some (p, None)
      | Some x =>
          e ← Map.entries m !! x;
          p ← TypeRef.retain p (field e);
          kv ← object_of p (field e);
          same ← chars.eq kv key;
          if (same : bool) then Some (p, Some (x, field e))
          else n ← Linked.get_node (Map.pool m) x; p ← Array.release p (field e); search f p m (Next n) key
      end
  end.

End search.

Definition chain_fuel (ref : option Map.t) : nat := match ref with Some m => Linked.chain_fuel (Map.pool m) | None => 1 end.

(** The map of a usable reference; one to nothing has no chain to search. *)
Definition the_map (ref : option Map.t) : Map.t := default (Map.make 0) ref.

Module mapref.
Section thread.
Context (self : nat).

(** The reference [k] of the program as an argument. *)
Definition key_of (p : program) (k : nat) : option (option Counted.t) := TypeRef.object p k.

(** [value]: a new value for a key. *)
Definition value (p : program) (ref : option Map.t) (k v : nat) : option (program * option Map.t) :=
  key ← key_of p k;
  kl ← refs p !! k;
  val ← refs p !! v;
  path ← MapRef.mapkeypath key;
  '(ref, ip) ← MapRef.modify self ref path;
  '(p, found) ← search fst (chain_fuel ref) p (the_map ref) ip key;
  match found with
  | Some (x, kv) =>
      '(p, m) ← MapRef.update p (the_map ref) (Some x) val;
      '(p, ref) ← MapRef.commit self p (Some m);
      p ← Array.release p kv;
      Some (p, ref)
  | None =>
      '(p, ref) ← MapRef.add p ref path kl val;
      MapRef.commit self p ref
  end.

(** [at]: the result is a new reference at the end of the program's. *)
Definition at_ (p : program) (ref : option Map.t) (k : nat) : option (program * option Map.t) :=
  key ← key_of p k;
  path ← MapRef.mapkeypath key;
  '(ref, ip) ← MapRef.access self ref path;
  '(p, found) ← search fst (chain_fuel ref) p (the_map ref) ip key;
  match found with
  | Some (x, kv) =>
      e ← Map.entries (the_map ref) !! x;
      p ← TypeRef.make_object p (snd e);
      '(p, ref) ← MapRef.release self p ref;
      p ← Array.release p kv;
      Some (p, ref)
  | None => '(p, ref) ← MapRef.release self p ref; Some (TypeRef.make p, ref)
  end.

(** [erase], which is [remove] of the program *)
Definition erase (p : program) (ref : option Map.t) (k : nat) : option (program * option Map.t * bool) :=
  key ← key_of p k;
  path ← MapRef.mapkeypath key;
  '(ref, ip) ← MapRef.modify self ref path;
  '(p, found) ← search fst (chain_fuel ref) p (the_map ref) ip key;
  match found with
  | Some (x, kv) =>
      '(p, ref) ← MapRef.remove p ref (Some x) path;
      '(p, ref) ← MapRef.commit self p ref;
      p ← Array.release p kv;
      Some (p, ref, true)
  | None => '(p, ref) ← MapRef.commit self p ref; Some (p, ref, false)
  end.

End thread.
End mapref.

Module listref.
Section thread.
Context (self : nat).

Definition make_ref : option Map.t := MapRef.make_ref 1.

Definition append (p : program) (ref : option Map.t) (v : nat) : option (program * option Map.t) :=
  val ← refs p !! v; MapRef.append self p ref val.

(** The object at an offset of the chain, or the null pointer behind its end. *)
Fixpoint walk (n : Linked.mem) (ip : option loc) (offset : nat) : option (option loc) :=
  match ip, offset with
  | Some x, S k => nd ← Linked.get_node n x; walk n (Next nd) k
  | _, _ => Some ip
  end.

(** [ip->value]: a null pointer is dereferenced behind the end of the list. *)
Definition at_ (p : program) (ref : option Map.t) (offset : nat) : option (program * option Map.t) :=
  '(ref, ip) ← MapRef.access self ref 0;
  ip ← walk (Map.pool (the_map ref)) ip offset;
  x ← ip;
  e ← Map.entries (the_map ref) !! x;
  p ← TypeRef.make_object p (snd e);
  MapRef.release self p ref.

Definition take (p : program) (ref : option Map.t) (offset : nat) : option (program * option Map.t) :=
  '(ref, ip) ← MapRef.modify self ref 0;
  ip ← walk (Map.pool (the_map ref)) ip offset;
  x ← ip;
  e ← Map.entries (the_map ref) !! x;
  p ← TypeRef.make_object p (snd e);
  '(p, ref) ← (match snd e with None => Some (p, ref) | Some _ => MapRef.remove p ref (Some x) 0 end);
  MapRef.commit self p ref.

Definition erase (p : program) (ref : option Map.t) (v : nat) : option (program * option Map.t * bool) :=
  val ← mapref.key_of p v;
  '(ref, ip) ← MapRef.modify self ref 0;
  '(p, found) ← search snd (chain_fuel ref) p (the_map ref) ip val;
  match found with
  | Some (x, kv) =>
      '(p, ref) ← MapRef.remove p ref (Some x) 0;
      '(p, ref) ← MapRef.commit self p ref;
      p ← Array.release p kv;
      Some (p, ref, true)
  | None => '(p, ref) ← MapRef.commit self p ref; Some (p, ref, false)
  end.

End thread.
End listref.

(** ** Iteration *)

Module Instance.
Import Map.

(** A place in a map, which it keeps locked against changes: [attached] says whether it
    has a map.  Without one the constructors leave the rest as it was. *)
Record t := Mk { attached : bool; index : option loc; path : Z }.

Definition none : t := Mk false None 0.

Section thread.
Context (self : nat).

Fixpoint next_loop (fuel : nat) (m : Map.t) (path : Z) : option (t * bool) :=
  match fuel with
  | O => None
  | S f =>
      let path := path + 1 in
      if path <? size m then
        index ← rd (lists m) path;
        match index with Some x => Some (Mk true (Some x) path, true) | None => next_loop f m path end
      else Some (Mk true None path, false)
  end.

Definition next (m : Map.t) (it : t) : option (t * bool) :=
  if attached it then
    index ← match index it with Some x => n ← Linked.get_node (pool m) x; Some (Next n) | None => Some None end;
    match index with
    | Some x => Some (Mk true (Some x) (path it), true)
    | None => next_loop (S (Z.to_nat (size m))) m (path it)
    end
  else Some (it, false).

Definition rewind (m : Map.t) (it : t) : option t :=
  if attached it then
    index ← rd (lists m) 0;
    match index with
    | Some x => Some (Mk true (Some x) 0)
    | None => '(it, _) ← next m (Mk true None 0); Some it
    end
  else Some it.

Definition top (m : Map.t) (it : t) : option bool :=
  if attached it then
    if 0 <? path it then Some false else first ← rd (lists m) 0; Some (bool_decide (index it = first))
  else Some false.

Definition eol (m : Map.t) (it : t) : bool := attached it && (size m <=? path it).

Definition key (m : Map.t) (it : t) : option (option object) :=
  match index it with None => Some None | Some x => e ← entries m !! x; Some (fst e) end.
Definition value (m : Map.t) (it : t) : option (option object) :=
  match index it with None => Some None | Some x => e ← entries m !! x; Some (snd e) end.

Definition enter (m : Map.t) : option Map.t :=
  let '(s, _, entered) := ConditionalLock.access (lock m) self in
  if (entered : bool) then Some (with_lock (retain m) s) else None.

(** The constructor from a map, which is [assign] behind [drop]. *)
Definition make (m : Map.t) : option (Map.t * t) := m ← enter m; it ← rewind m (Mk true None 0); Some (m, it).

Definition copy (m : Map.t) (it : t) : option (Map.t * t) :=
  if attached it then m ← enter m; Some (m, it) else Some (m, it).

Definition drop (p : program) (m : Map.t) (it : t) : option (program * Map.t * t) :=
  if attached it then
    '(p, m) ← Map.drop p (with_lock m (fst (ConditionalLock.release (lock m) self)));
    Some (p, m, none)
  else Some (p, m, it).

(** [assign] of another place of the same map. *)
Definition assign (p : program) (m : Map.t) (it other : t) : option (program * Map.t * t) :=
  '(p, m, _) ← drop p m it; '(m, it) ← copy m other; Some (p, m, it).

(** [assign] of itself: what is read behind [drop] is gone. *)
Definition assign_self (p : program) (m : Map.t) (it : t) : option (program * Map.t * t) :=
  '(p, m, it) ← drop p m it; '(m, it) ← copy m it; Some (p, m, it).

End thread.
End Instance.
