(* ===== verification/MaprefLaws.v ===== *)
(** * Laws of the shared maps: the lock, the chains and the searches

    A call of one thread leaves the lock as it found it.  The chains of a map are lists
    of objects with their keys and values; another list are the free objects. *)

From stdpp Require Import gmap list strings.
From S2P Require Import Prelude CLib Strings StringObj Condition Typeref TyperefLaws ArrayRef ArrayRefLaws Linked LinkedLaws Mapref.
Import TypeRef.
Local Open Scope Z_scope.

(** ** The lock *)

Section lock.
Import ConditionalLock.
Context (self : nat).

(** Nobody has the lock or waits for it. *)
Definition idle (s : monitor) : Prop :=
  sharing s = 0 /\ pending s = 0 /\ waiting s = 0 /\ Forall (fun c => ConditionalLock.count c = 0) (contexts s).

(** Only the context [c] is used, by this thread and once. *)
Definition taken (s : monitor) (c : nat) : Prop :=
  pending s = 0 /\ waiting s = 0 /\ contexts s !! c = Some (Context self 1) /\
  forall j x, j <> c -> contexts s !! j = Some x -> ConditionalLock.count x = 0.

Lemma context_free l i : forall slot, (i <= length l)%nat -> Forall (fun c => ConditionalLock.count c = 0) l ->
  context_loop l self slot i = inr (match i with O => slot | S _ => Some 0%nat end).
Proof.
  induction i as [|i IH]; intros slot Hi Hl; [done|]. cbn [context_loop].
  destruct (lookup_lt_is_Some_2 l i) as [x Hx]; [lia|]. rewrite Hx.
  pose proof (proj1 (Forall_lookup _ _) Hl i x Hx) as E. cbn in E. rewrite E. cbn [Z.eqb negb andb].
  rewrite IH by (done || lia). by destruct i.
Qed.

Lemma context_used l c i : forall slot, (c < i <= length l)%nat -> l !! c = Some (Context self 1) ->
  (forall j x, j <> c -> l !! j = Some x -> ConditionalLock.count x = 0) -> context_loop l self slot i = inl c.
Proof.
  induction i as [|i IH]; intros slot Hi Hc Ho; [lia|]. cbn [context_loop].
  destruct (decide (i = c)) as [->|Hne].
  - rewrite Hc. cbn. by rewrite bool_decide_true.
  - destruct (lookup_lt_is_Some_2 l i) as [x Hx]; [lia|]. rewrite Hx, (Ho i x Hne Hx). cbn. apply IH; [lia|done..].
Qed.

Lemma context_of s c : taken s c -> getContext s self = (s, c).
Proof.
  intros (_ & _ & Hc & Ho). pose proof (lookup_lt_Some _ _ _ Hc). unfold getContext. by rewrite (context_used _ c) by (done || lia).
Qed.

(** The thread takes a context. *)
Lemma context_new s : idle s -> exists s' c, getContext s self = (s', c) /\ sharing s' = 0 /\ held s' c = 0 /\
  taken (set_held s' c 1) c.
Proof.
  intros (Hs & Hp & Hw & Hl). unfold getContext. rewrite context_free by done.
  destruct (contexts s) as [|x l] eqn:E; cbn [length].
  - exists (with_contexts s [Context self 0]), 0%nat. split_and!; [done|done|done|]. split_and!; [done..|].
    intros [|j] y Hj Hy; [done|]. by destruct j.
  - inversion Hl as [|? ? Hx Hl']; subst. exists (with_contexts s (Context self 0 :: l)), 0%nat. cbn [alter list_alter]. rewrite Hx.
    split_and!; [done|done|done|]. split_and!; [done..|]. intros [|j] y Hj Hy; [done|]. cbn in Hy.
    by apply (proj1 (Forall_lookup _ _) Hl' j y).
Qed.

Lemma free_context s c : taken s c -> sharing s = 0 -> held s c = 1 /\ idle (set_held s c 0).
Proof.
  intros (Hp & Hw & Hc & Ho) Hs. split; [by unfold held; rewrite Hc|]. split_and!; [done..|]. cbn.
  apply Forall_lookup. intros j x. rewrite list_lookup_alter. case_decide as E.
  - subst j. rewrite Hc. by intros [= <-].
  - intros Hx. by eapply Ho.
Qed.

Lemma modify_idle s : idle s -> exists s1 c, modify s self = (s1, c, true) /\ idle (fst (commit s1 self)).
Proof.
  intros Hi. destruct (context_new s Hi) as (s' & c & Eg & Hs & Hh & Ht). unfold modify. rewrite Eg, Hs, Hh.
  assert (with_sharing s' (0 - 0) = s') as E0 by (destruct s'; cbn in *; by rewrite Hs). rewrite E0. unfold modify_test. rewrite Hs, Hh. cbn [Z.eqb Z.add].
  exists (set_held s' c 1), c. split; [done|]. unfold commit. rewrite (context_of _ c Ht).
  destruct (free_context _ c Ht Hs) as [-> Hi']. change (1 - 1) with 0.
  assert (held (set_held (set_held s' c 1) c 0) c = 0) as ->.
  { destruct Ht as (_ & _ & Hc & _). unfold held. cbn. rewrite list_lookup_alter_eq. cbn in Hc. by rewrite Hc. }
  done.
Qed.

Lemma access_idle s : idle s -> exists s1 c, access s self = (s1, c, true) /\ idle (fst (release s1 self)).
Proof.
  intros Hi. destruct (context_new s Hi) as (s' & c & Eg & Hs & Hh & Ht). unfold access. rewrite Eg, Hh. cbn [Z.add].
  pose proof Ht as (Hp & Hw & Hc & Ho). unfold access_test. cbn [pending set_held with_contexts] in *. rewrite Hp. rewrite andb_false_r.
  change (sharing (set_held s' c (0 + 1))) with (sharing s'). rewrite Hs. change (0 + 1) with 1.
  exists (with_sharing (set_held s' c 1) 1), c. split; [done|].
  assert (taken (with_sharing (set_held s' c 1) 1) c) as Ht' by done. unfold release. rewrite (context_of _ c Ht').
  assert (with_sharing (with_sharing (set_held s' c 1) 1) (sharing (with_sharing (set_held s' c 1) 1) - 1) = set_held s' c 1) as ->
    by (destruct s'; cbn in *; by rewrite Hs).
  destruct (free_context _ c Ht Hs) as [-> Hi']. done.
Qed.

End lock.

(** ** Chains *)

Definition items (b : list (loc * entry)) : list loc := map fst b.

(** The chains [bs] of a map, with the keys and values, and its free objects. *)
Record shape (m : Map.t) (bs : list (list (loc * entry))) (fr : list loc) : Prop := {
  sh_size : zlen (Map.lists m) = Map.size m;
  sh_chains : Forall2 (fun root b => lst (Map.pool m) root (items b)) (Map.lists m) bs;
  sh_free : lst (Map.pool m) (Map.free m) fr;
  sh_distinct : NoDup (items (concat bs) ++ fr);
  sh_entries : Forall (fun xe => Map.entries m !! fst xe = Some (snd xe)) (concat bs);
  sh_count : Map.count m = zlen (concat bs);
  sh_alloc : Map.alloc m = zlen (concat bs) + zlen fr }.

(** What calls leave alone. *)
Definition same_map (m m' : Map.t) : Prop :=
  Map.size m' = Map.size m /\ Map.copies m' = Map.copies m /\ Map.lock m' = Map.lock m.

Lemma items_app b c : items (b ++ c) = items b ++ items c.
Proof. apply map_app. Qed.

Lemma items_mid (B1 : list (list (loc * entry))) b B2 : items (concat (B1 ++ b :: B2)) = items (concat B1) ++ items b ++ items (concat B2).
Proof. rewrite concat_app. cbn [concat]. by rewrite !items_app. Qed.

Lemma zlen_items b : zlen (items b) = zlen b.
Proof. unfold zlen, items. by rewrite length_map. Qed.

(** The other chains do not see what happens in one of them. *)
Lemma chains_frame n n' ls bs : (forall y, y ∈ items (concat bs) -> Next <$> nodes n' !! y = Next <$> nodes n !! y) ->
  Forall2 (fun root b => lst n root (items b)) ls bs -> Forall2 (fun root b => lst n' root (items b)) ls bs.
Proof.
  intros Hf H. induction H as [|root b ls bs Hb H IH]; constructor.
  - eapply seg_frame; [|exact Hb]. intros y Hy. apply Hf. cbn [concat]. rewrite items_app. apply elem_of_app. by left.
  - apply IH. intros y Hy. apply Hf. cbn [concat]. rewrite items_app. apply elem_of_app. by right.
Qed.

Lemma delist_chain n root l1 x l2 : lst n root (l1 ++ x :: l2) ->
  exists n' root', LinkedObject.delist n x root = Some (n', root') /\ lst n' root' (l1 ++ l2) /\
    (forall z, z ∉ l1 -> nodes n' !! z = nodes n !! z).
Proof.
  intros Hl. unfold LinkedObject.delist. rewrite (walk_this_in n x l1 l2 root Hl). run.
  destruct (unlink_spec n root l1 x l2 Hl) as (nx & Hn & Hu). unfold get_node. rewrite Hn. run.
  destruct (last_split None l1) as [[-> ->]|(k & y & -> & Ey)].
  - destruct Hu as [_ Hl']. by exists n, (Next nx).
  - rewrite Ey in Hu |- *. destruct Hu as (n' & -> & _ & Hl' & Ho). run. exists n', root. split_and!; [done|done|].
    intros z Hz. apply Ho. intros ->. apply Hz, elem_of_app. right. left.
Qed.

Lemma last_loop_spec n x l1 : forall fuel root l2, lst n root (l1 ++ x :: l2) -> l1 <> [] -> (length l1 < fuel)%nat ->
  Map.last_loop fuel n root x = Some (last_of None l1).
Proof.
  induction l1 as [|y l1 IH]; intros [|fuel] root l2 Hl Hne Hf; [done|done|cbn in Hf; lia|].
  pose proof (lst_NoDup _ _ _ Hl) as Hd. destruct Hl as (-> & ny & Hy & Hl). cbn [Map.last_loop]. unfold get_node. rewrite Hy. run.
  destruct l1 as [|z l1].
  - destruct Hl as [E _]. by rewrite decide_True.
  - pose proof (seg_first _ _ _ _ Hl) as E. rewrite decide_False.
    + rewrite (IH fuel _ l2 Hl) by (done || cbn in *; lia). cbn [last_of foldl]. done.
    + rewrite E. cbn. intros [= ->]. cbn [app] in Hd. apply list.NoDup_cons in Hd as [_ Hd]. apply list.NoDup_cons in Hd as [Hx _].
      apply Hx, elem_of_app. right. left.
Qed.

(** A new object, which is in no chain. *)
Lemma take_shape m bs fr : shape m bs fr -> zlen (concat bs) + zlen fr < 2 ^ 63 -> exists m' x fr',
  Map.take m = Some (m', x) /\ (x ∉ items (concat bs)) /\ (x ∉ fr') /\ (zlen fr' <= zlen fr <= zlen fr' + 1) /\
  Map.lists m' = Map.lists m /\ Map.pool m' = Map.pool m /\ Map.entries m' = Map.entries m /\
  Map.last m' = Map.last m /\ Map.count m' = Map.count m /\ same_map m m' /\
  lst (Map.pool m) (Map.free m') fr' /\ NoDup (items (concat bs) ++ fr') /\ Map.alloc m' = zlen (concat bs) + 1 + zlen fr'.
Proof.
  intros Hs Hroom. pose proof (sh_free _ _ _ Hs) as Hf. pose proof (sh_distinct _ _ _ Hs) as Hd. pose proof (sh_alloc _ _ _ Hs) as Ha.
  unfold Map.take. destruct fr as [|x fr].
  - cbn in Hf. rewrite Hf. eexists _, _, []. split; [done|]. cbn. rewrite app_nil_r in *. rewrite zlen_nil in *. split_and!; try done; try lia.
    + intros Hin. apply list_elem_of_fmap in Hin as ([y e] & E & Hin). cbn in E. apply (is_fresh (dom (nodes (Map.pool m)))).
      rewrite E. apply elem_of_dom. apply list_elem_of_In, in_concat in Hin as (b & Hb & Hin). apply list_elem_of_In in Hb, Hin.
      apply list_elem_of_lookup in Hb as [i Hi]. destruct (Forall2_lookup_r _ _ _ _ _ (sh_chains _ _ _ Hs) Hi) as (root & _ & Hl).
      eapply seg_nodes; [exact Hl|]. apply list_elem_of_fmap. by exists (y, e).
    + by apply not_elem_of_nil.
    + rewrite Ha, u64_id; [lia|]. pose proof (zlen_nonneg (concat bs)). lia.
  - destruct Hf as (-> & n & Hn & Hf). unfold get_node. rewrite Hn. run. exists (Map.with_free m (Next n)), x, fr. rewrite zlen_cons in *.
    apply list.NoDup_app in Hd as (Hd1 & Hd2 & Hd3). apply list.NoDup_cons in Hd3 as [Hx Hd3].
    split_and!; try done; try lia.
    + intros Hin. by apply (Hd2 x Hin), elem_of_cons; left.
    + apply list.NoDup_app. split_and!; [done| |done]. intros y Hy Hy'. by apply (Hd2 y Hy), elem_of_cons; right.
    + cbn. lia.
Qed.

Lemma rd_mid {A} (l : list A) x r i : i = zlen l -> rd (l ++ x :: r) i = Some x.
Proof. intros ->. by rewrite rd_app_r. Qed.

(** The chain that [path] is the number of. *)
Definition at_path (m : Map.t) (B1 : list (list (loc * entry))) (path : Z) : Prop := zlen B1 = path mod Map.size m.

Lemma chains_split m B1 b B2 fr : shape m (B1 ++ b :: B2) fr -> exists L1 root L2, Map.lists m = L1 ++ root :: L2 /\
  zlen L1 = zlen B1 /\ Forall2 (fun root b => lst (Map.pool m) root (items b)) L1 B1 /\ lst (Map.pool m) root (items b) /\
  Forall2 (fun root b => lst (Map.pool m) root (items b)) L2 B2.
Proof.
  intros Hs. destruct (Forall2_app_inv_r _ _ (sh_chains _ _ _ Hs)) as (L1 & L & H1 & H2 & E).
  inversion H2 as [|root ? L2 ? Hr H3]; subst. exists L1, root, L2. split_and!; try done.
  unfold zlen. by rewrite (Forall2_length H1).
Qed.

(** The chains when the one in the middle changes. *)
Lemma chains_join n n' L1 root L2 B1 b B2 : Forall2 (fun root b => lst n root (items b)) L1 B1 -> lst n' root (items b) ->
  Forall2 (fun root b => lst n root (items b)) L2 B2 ->
  (forall y, y ∈ items (concat B1) ++ items (concat B2) -> Next <$> nodes n' !! y = Next <$> nodes n !! y) ->
  Forall2 (fun root b => lst n' root (items b)) (L1 ++ root :: L2) (B1 ++ b :: B2).
Proof.
  intros H1 Hr H2 Hf. apply Forall2_app; [|constructor; [done|]].
  - apply (chains_frame n); [|done]. intros y Hy. apply Hf, elem_of_app. by left.
  - apply (chains_frame n); [|done]. intros y Hy. apply Hf, elem_of_app. by right.
Qed.

Lemma distinct_mid (B1 : list (list (loc * entry))) b B2 fr : NoDup (items (concat (B1 ++ b :: B2)) ++ fr) ->
  NoDup (items b ++ (items (concat B1) ++ items (concat B2)) ++ fr).
Proof.
  rewrite items_mid. intros H. eapply NoDup_Permutation_proper; [|exact H]. rewrite <- !app_assoc.
  rewrite (Permutation_app_swap_app (items b)). done.
Qed.

Lemma distinct_back (B1 : list (list (loc * entry))) b B2 fr : NoDup (items b ++ (items (concat B1) ++ items (concat B2)) ++ fr) ->
  NoDup (items (concat (B1 ++ b :: B2)) ++ fr).
Proof.
  rewrite items_mid. intros H. eapply NoDup_Permutation_proper; [|exact H]. rewrite <- !app_assoc.
  apply Permutation_app_swap_app.
Qed.

Lemma entries_mid (P : loc * entry -> Prop) (B1 : list (list (loc * entry))) b B2 :
  Forall P (concat (B1 ++ b :: B2)) <-> Forall P b /\ Forall P (concat B1 ++ concat B2).
Proof. rewrite concat_app. cbn [concat]. rewrite !list.Forall_app. tauto. Qed.

Lemma zlen_mid (B1 : list (list (loc * entry))) b B2 : zlen (concat (B1 ++ b :: B2)) = zlen b + zlen (concat B1 ++ concat B2).
Proof. rewrite concat_app. cbn [concat]. rewrite !zlen_app. lia. Qed.

Lemma entries_other (es : gmap loc entry) x e l : x ∉ items l -> Forall (fun xe => es !! fst xe = Some (snd xe)) l ->
  Forall (fun xe => <[x := e]> es !! fst xe = Some (snd xe)) l.
Proof.
  intros Hx. rewrite !list.Forall_forall. intros H [y f] Hy. rewrite lookup_insert_ne; [by apply H|].
  intros ->. apply Hx. apply list_elem_of_fmap. by exists (y, f).
Qed.

Lemma create_shape m B1 b B2 fr key : shape m (B1 ++ b :: B2) fr -> at_path m B1 key ->
  zlen (concat (B1 ++ b :: B2)) + zlen fr < 2 ^ 63 -> exists m' x fr',
  Map.create m key = Some (m', x) /\ (forall e, shape (Map.with_entry m' x e) (B1 ++ ((x, e) :: b) :: B2) fr') /\
  (x ∉ items (concat (B1 ++ b :: B2))) /\ same_map m m' /\ Map.last m' = Map.last m /\ zlen fr' <= zlen fr.
Proof.
  intros Hs Hk Hroom. destruct (take_shape m _ fr Hs Hroom) as (m1 & x & fr' & Et & Hx & Hxf & Hfr & El & Ep & Ee & Ela & Ec & Hsame & Hfree & Hd & Ea).
  destruct (chains_split _ _ _ _ _ Hs) as (L1 & root & L2 & EL & Hz & H1 & Hr & H2). unfold Map.create. rewrite Et. run. cbn [Map.with_count Map.lists Map.size Map.pool].
  destruct Hsame as (Hsz & Hco & Hlk). rewrite Hsz, El, EL, rd_mid by (unfold at_path in Hk; lia). run.
  unfold LinkedObject.enlist.
  destruct (set_next_some (Linked.put_node (Map.pool m1) x Map.blank) x root) as (n & -> & _ & Ho & nx & Hnx & Hnx').
  { cbn. rewrite lookup_insert_eq. by eexists. }
  run. rewrite wr_app_r by (unfold at_path in Hk; lia). run. eexists _, x, fr'. split; [done|].
  assert (forall y, y <> x -> nodes n !! y = nodes (Map.pool m) !! y) as Hn.
  { intros y Hy. rewrite Ho by done. cbn. rewrite lookup_insert_ne by done. by rewrite Ep. }
  apply distinct_mid in Hd. pose proof (sh_entries _ _ _ Hs) as Hen. rewrite items_mid in Hx.
  split; [|split_and!; [by rewrite items_mid|done|done|lia]]. intros e. split; cbn.
  - rewrite <- (sh_size _ _ _ Hs), EL, !zlen_app, !zlen_cons in *. lia.
  - eapply chains_join; [exact H1| |exact H2|].
    + split; [done|]. exists (with_next nx root). split; [done|]. cbn [with_next Next]. eapply seg_frame; [|exact Hr].
      intros y Hy. rewrite Hn; [done|]. intros ->. apply Hx, elem_of_app. right. apply elem_of_app. by left.
    + intros y Hy. rewrite Hn; [done|]. intros ->. apply Hx. apply elem_of_app in Hy as [Hy|Hy]; apply elem_of_app; [by left|right].
      apply elem_of_app. by right.
  - eapply seg_frame; [|exact Hfree]. intros y Hy. rewrite Hn; [done|]. by intros ->.
  - apply distinct_back. cbn. apply list.NoDup_cons. split; [|done]. rewrite !elem_of_app in *. tauto.
  - apply (entries_other _ x e) in Hen; [|by rewrite items_mid]. apply entries_mid in Hen as [Hb Hrest]. rewrite <- Ee in Hb, Hrest.
    rewrite insert_insert_eq. apply entries_mid. split; [constructor; [cbn; by rewrite lookup_insert_eq|]|]; done.
  - pose proof (sh_count _ _ _ Hs) as Hc. rewrite Ec, Hc. rewrite !zlen_mid in *. rewrite zlen_cons, u64_id; [lia|].
    pose proof (zlen_nonneg b). pose proof (zlen_nonneg (concat B1 ++ concat B2)). pose proof (zlen_nonneg fr). lia.
  - rewrite Ea, !zlen_mid, zlen_cons. lia.
Qed.

(** The object goes to the free ones. *)
Lemma remove_shape p p1 p2 m B1 b1 x e b2 B2 fr path : shape m (B1 ++ (b1 ++ (x, e) :: b2) :: B2) fr -> at_path m B1 path ->
  zlen (concat (B1 ++ (b1 ++ (x, e) :: b2) :: B2)) < 2 ^ 63 ->
  Array.release p (fst e) = Some p1 -> Array.release p1 (snd e) = Some p2 -> exists m',
  Map.remove p m (Some x) path = Some (p2, m') /\ shape m' (B1 ++ (b1 ++ b2) :: B2) (x :: fr) /\ same_map m m' /\
  Map.last m' = if decide (Map.last m = Some x) then last_of None (items b1) else Map.last m.
Proof.
  intros Hs Hk Hsmall E1 E2. destruct (chains_split _ _ _ _ _ Hs) as (L1 & root & L2 & EL & Hz & H1 & Hr & H2).
  pose proof (sh_entries _ _ _ Hs) as Hen. pose proof (sh_distinct _ _ _ Hs) as Hd. apply distinct_mid in Hd.
  rewrite items_app in Hr, Hd. cbn [items map fst] in Hr, Hd. fold (items b2) in Hr, Hd.
  unfold Map.remove. rewrite entries_mid in Hen. destruct Hen as [Hb Hrest]. apply list.Forall_app in Hb as [Hb1 Hb2].
  inversion Hb2 as [|? ? Hx Hb2']; subst. cbn [fst snd] in Hx. rewrite Hx. run. rewrite E1. run. rewrite E2. run.
  rewrite EL, rd_mid by (unfold at_path in Hk; lia). run.
  assert (forall mm, Map.pool mm = Map.pool m -> Map.last mm = Map.last m -> (if decide (Map.last mm = Some x) then
      if decide (root = Some x) then Some (Map.with_last mm None)
      else l ← Map.last_loop (Linked.chain_fuel (Map.pool mm)) (Map.pool mm) root x; Some (Map.with_last mm l)
    else Some mm) = Some (Map.with_last mm (if decide (Map.last m = Some x) then last_of None (items b1) else Map.last m))) as Hlast.
  { intros mm Ep El. rewrite El, Ep. case_decide as Ed; [|f_equal; destruct mm; cbn in *; by rewrite El].
    pose proof (seg_first _ _ _ _ Hr) as Eroot. destruct (decide (items b1 = [])) as [Eb|Hne].
    - rewrite Eb in Eroot |- *. by rewrite decide_True.
    - rewrite decide_False.
      + erewrite last_loop_spec; [done|exact Hr|done|]. pose proof (lst_fuel _ _ _ Hr) as Hf. rewrite length_app in Hf. lia.
      + rewrite Eroot. destruct (items b1) as [|y l] eqn:Eb; [done|]. cbn. intros [= ->]. apply list.NoDup_app in Hd as (Hd & _).
        apply list.NoDup_app in Hd as (_ & Hd & _). apply (Hd x); left. }
  rewrite Hlast by done. run. cbn [Map.with_last Map.with_count Map.lists Map.pool Map.size Map.free].
  destruct (delist_chain _ _ _ _ _ Hr) as (n & root' & -> & Hr' & Hn). run. rewrite EL, wr_app_r by (unfold at_path in Hk; lia). run.
  unfold LinkedObject.enlist. apply list.NoDup_app in Hd as (Hd1 & Hd2 & Hd3). apply list.NoDup_app in Hd1 as (Hdb1 & Hdb & Hdb2).
  apply list.NoDup_cons in Hdb2 as [Hxb2 Hdb2].
  assert (x ∉ items b1) as Hxb1 by (intros Hin; apply (Hdb x Hin); left).
  destruct (set_next_some n x (Map.free m)) as (n' & -> & _ & Ho & nx & Hnx & Hnx').
  { rewrite Hn by done. eapply seg_nodes; [exact Hr|]. apply elem_of_app. right. left. }
  run. eexists. split; [done|].
  assert (forall y, y ∈ (items (concat B1) ++ items (concat B2)) ++ fr -> nodes n' !! y = nodes (Map.pool m) !! y) as Hkeep.
  { intros y Hy. rewrite Ho by (intros ->; eapply Hd2; [|exact Hy]; apply elem_of_app; right; left). apply Hn.
    intros Hin. eapply Hd2; [|exact Hy]. apply elem_of_app. by left. }
  split; [|split; done]. split; cbn.
  - rewrite <- (sh_size _ _ _ Hs), EL, !zlen_app, !zlen_cons in *. lia.
  - eapply chains_join; [exact H1| |exact H2|].
    + rewrite items_app. eapply (seg_other n); [exact Ho| |exact Hr']. rewrite elem_of_app. tauto.
    + intros y Hy. rewrite Hkeep; [done|]. apply elem_of_app. by left.
  - split; [done|]. exists (with_next nx (Map.free m)). split; [done|]. cbn. eapply seg_frame; [|exact (sh_free _ _ _ Hs)].
    intros y Hy. rewrite Hkeep; [done|]. apply elem_of_app. by right.
  - apply distinct_back. rewrite items_app. eapply NoDup_Permutation_proper.
    + rewrite app_assoc. symmetry. apply Permutation_middle.
    + apply list.NoDup_cons. rewrite !elem_of_app in *. split.
      * intros [[[Hin|Hin]|Hin]|Hin]; [done|done| |]; (apply (Hd2 x); [|by rewrite !elem_of_app; tauto]);
          rewrite elem_of_app, elem_of_cons; tauto.
      * rewrite <- (app_assoc (items b1 ++ items b2)). apply list.NoDup_app. split_and!; [apply list.NoDup_app; split_and!; [done| |done]| |done].
        -- intros y Hy Hy'. apply (Hdb y Hy). by right.
        -- intros y Hy. apply Hd2. rewrite elem_of_app in *. rewrite elem_of_cons. tauto.
  - apply entries_mid. split; [by apply list.Forall_app|done].
  - rewrite (sh_count _ _ _ Hs). rewrite !zlen_mid in *. rewrite !zlen_app, zlen_cons in *. rewrite u64_id; [lia|].
    pose proof (zlen_nonneg b1). pose proof (zlen_nonneg b2). pose proof (zlen_nonneg (concat B1)). pose proof (zlen_nonneg (concat B2)). lia.
  - rewrite (sh_alloc _ _ _ Hs). rewrite !zlen_mid, !zlen_app, !zlen_cons. lia.
Qed.

(** ** Searches *)

(** The text of an object. *)
Definition text_of (h : store) (l : StringObj.loc) : option (list Z) := c ← cells h !! l; cstr (Counted.mem c).

Lemma hold_drop h R ls l : sound h R ls -> 0 < R l < 2 ^ 31 - 1 -> exists h',
  counted.retain h l = Some h' /\ counted.release h' l = Some h /\ sound h' (fun k => R k + one (Some l) k) ls /\
  (exists c n, cells h !! l = Some c /\ h' = put h l (Counted.with_count c n)).
Proof.
  intros Hs Hl. destruct (retain_spec h R ls l Hs Hl) as (h' & E & Hs' & _). exists h'. split; [done|].
  destruct (sound_cell h R ls l Hs ltac:(lia)) as (c & Hc & Hw & (Hcount & r & Hr) & Hn).
  unfold counted.retain in E. rewrite Hc in E. cbn in E. injection E as <-. split; [|split; [done|by exists c, (s32 (Counted.count c + 1))]].
  unfold counted.release. cbn. rewrite lookup_insert_eq. run. cbn. rewrite Hcount, (s32_id (R l + 1)) by lia.
  destruct (Z.ltb_spec (R l + 1) 2); [lia|]. rewrite s32_id by lia. f_equal. destruct h as [cs la f]. unfold put. cbn. f_equal.
  rewrite insert_insert_eq. rewrite insert_id; [done|]. cbn in Hc. rewrite Hc. f_equal. destruct c; cbn in *. unfold Counted.with_count. cbn. f_equal. lia.
Qed.

(** Two texts are compared. *)
Lemma eq_texts c d s t : cstr (Counted.mem c) = Some s -> cstr (Counted.mem d) = Some t -> chars.eq (Some c) (Some d) = Some (bool_decide (s = t)).
Proof.
  intros Hs Ht. unfold chars.eq, Str.equal, Str.text. rewrite Hs, Ht. run. f_equal. destruct (cstr_inv _ _ Hs) as [Ns _], (cstr_inv _ _ Ht) as [Nt _].
  pose proof (strcmp_eq s t Ns Nt). case_bool_decide; destruct (Z.eqb_spec (strcmp s t) 0); tauto.
Qed.

Section search.
Context (field : entry -> option StringObj.loc) (key : Counted.t) (t : list Z) (Hkey : cstr (Counted.mem key) = Some t).

Definition hit (h : store) (e : entry) : bool :=
  match field e with Some l => bool_decide (text_of h l = Some t) | None => false end.

(** The objects that are compared are referred to, and texts. *)
Definition readable (R : StringObj.loc -> Z) (h : store) (xe : loc * entry) : Prop :=
  forall l, field (snd xe) = Some l -> 0 < R l < 2 ^ 31 - 1 /\ exists s, text_of h l = Some s.

(** One object of the chain. *)
Lemma compare_spec p R ls e : sound (heap p) R ls ->
  (forall l, field e = Some l -> 0 < R l < 2 ^ 31 - 1 /\ exists s, text_of (heap p) l = Some s) -> exists p' kv,
  TypeRef.retain p (field e) = Some p' /\ object_of p' (field e) = Some kv /\ chars.eq kv (Some key) = Some (hit (heap p) e) /\
  Array.release p' (field e) = Some p.
Proof.
  intros Hs He. unfold hit. destruct (field e) as [l|]; [|by exists p, None]. destruct (He l eq_refl) as (Hl & s & Ht).
  destruct (hold_drop _ _ _ l Hs Hl) as (h & E1 & E2 & _ & c & n & Hc & Eh). cbn [TypeRef.retain object_of Array.release]. rewrite E1. run.
  exists (set_heap p h), (Some (Counted.with_count c n)). cbn [set_heap heap]. rewrite E2. subst h. unfold put. cbn [heap set_heap cells]. rewrite lookup_insert_eq. run.
  unfold text_of in Ht |- *. rewrite Hc in Ht |- *. run. cbn in Ht. split_and!; [done|done| |by destruct p].
  rewrite (eq_texts (Counted.with_count c n) key s t Ht Hkey), Ht. f_equal. apply bool_decide_ext. split; congruence.
Qed.

Lemma search_miss R ls m b : forall fuel p ip, lst (Map.pool m) ip (items b) -> (length b < fuel)%nat ->
  Forall (fun xe => Map.entries m !! fst xe = Some (snd xe)) b -> sound (heap p) R ls -> Forall (readable R (heap p)) b ->
  Forall (fun xe => hit (heap p) (snd xe) = false) b -> search field fuel p m ip (Some key) = Some (p, None).
Proof.
  induction b as [|[x e] b IH]; intros [|fuel] p ip Hl Hf Hen Hs Hr Hh; cbn [length] in Hf; try lia.
  - cbn in Hl. by subst ip.
  - destruct Hl as (-> & n & Hn & Hl). inversion Hen as [|? ? He Hen']; inversion Hr as [|? ? Hre Hr']; inversion Hh as [|? ? Hhe Hh']; subst.
    cbn [search]. cbn [fst snd] in *. rewrite He. run. destruct (compare_spec p R ls e Hs Hre) as (p' & kv & -> & E2 & E3 & E4). run.
    rewrite E2. run. rewrite E3. run. rewrite Hhe. unfold get_node. rewrite Hn. run. rewrite E4. run. by apply IH; [|lia|..].
Qed.

Lemma search_hit R ls m b1 x e l b2 : forall fuel p ip, lst (Map.pool m) ip (items (b1 ++ (x, e) :: b2)) ->
  (length b1 < fuel)%nat -> Forall (fun xe => Map.entries m !! fst xe = Some (snd xe)) (b1 ++ (x, e) :: b2) ->
  sound (heap p) R ls -> Forall (readable R (heap p)) (b1 ++ (x, e) :: b2) ->
  Forall (fun xe => hit (heap p) (snd xe) = false) b1 -> field e = Some l -> hit (heap p) e = true -> exists p',
  TypeRef.retain p (Some l) = Some p' /\ search field fuel p m ip (Some key) = Some (p', Some (x, Some l)).
Proof.
  induction b1 as [|[y f] b1 IH]; intros [|fuel] p ip Hl Hf Hen Hs Hr Hh El Hhit; cbn [length] in Hf; try lia.
  - destruct Hl as (-> & n & Hn & Hl). inversion Hen as [|? ? He Hen']; inversion Hr as [|? ? Hre Hr']; subst.
    cbn [search]. cbn [fst snd] in *. rewrite He. run. destruct (compare_spec p R ls e Hs Hre) as (p' & kv & E1 & E2 & E3 & E4).
    exists p'. rewrite <- El. rewrite E1. run. rewrite E2. run. rewrite E3. run. by rewrite Hhit.
  - destruct Hl as (-> & n & Hn & Hl). inversion Hen as [|? ? He Hen']; inversion Hr as [|? ? Hre Hr']; inversion Hh as [|? ? Hhe Hh']; subst.
    cbn [search]. cbn [fst snd] in *. rewrite He. run. destruct (compare_spec p R ls f Hs Hre) as (p1 & kv & -> & E2 & E3 & E4). run.
    rewrite E2. run. rewrite E3. run. rewrite Hhe. unfold get_node. rewrite Hn. run. rewrite E4. run. by apply IH; [|lia|..].
Qed.

End search.
