(* ===== verification/MaprefRuns.v ===== *)
(** * Shared maps are finite maps

    A [mapref] whose keys are texts is a finite map from texts to objects: setting a
    value, looking it up and erasing a key are the operations of [gmap], the counts of
    all objects stay exact, and every reference of the program shows what it showed. *)

From stdpp Require Import gmap list strings.
From S2P Require Import Prelude CLib Strings StringObj Condition Typeref TyperefLaws TyperefRuns ArrayRef ArrayRefLaws Linked LinkedLaws Mapref MaprefLaws.
Import TypeRef.
Local Open Scope Z_scope.

(** ** Objects that are kept *)

(** What is referred to afterwards was so before, and shows what it showed. *)
Definition survive (h : store) (R : StringObj.loc -> Z) (h' : store) (R' : StringObj.loc -> Z) : Prop :=
  forall l, 0 < R' l -> 0 < R l /\ forall c, cells h !! l = Some c -> exists c', cells h' !! l = Some c' /\ view c' = view c.

Lemma survive_trans h1 R1 h2 R2 h3 R3 : survive h1 R1 h2 R2 -> survive h2 R2 h3 R3 -> survive h1 R1 h3 R3.
Proof.
  intros H12 H23 l Hl. destruct (H23 l Hl) as [H2 K2]. destruct (H12 l H2) as [H1 K1]. split; [done|].
  intros c Hc. destruct (K1 c Hc) as (c2 & Hc2 & E2). destruct (K2 c2 Hc2) as (c3 & Hc3 & E3). exists c3. split; [done|congruence].
Qed.

(** The references stay, the counts become [R']. *)
Definition leads (p : program) (R : StringObj.loc -> Z) (p' : program) (R' : StringObj.loc -> Z) : Prop :=
  refs p' = refs p /\ (exists ls, sound (heap p') R' ls) /\ survive (heap p) R (heap p') R'.

Lemma leads_refl p R ls : sound (heap p) R ls -> leads p R p R.
Proof. intros Hs. split; [done|]. split; [by exists ls|]. intros l Hl. split; [done|]. intros c Hc. by exists c. Qed.

Lemma leads_trans p1 R1 p2 R2 p3 R3 : leads p1 R1 p2 R2 -> leads p2 R2 p3 R3 -> leads p1 R1 p3 R3.
Proof. intros (E1 & _ & K1) (E2 & H2 & K2). split; [congruence|]. split; [done|]. by eapply survive_trans. Qed.

Lemma leads_ext p R p' R' R2 : leads p R p' R' -> (forall l, R2 l = R' l) -> leads p R p' R2.
Proof.
  intros (E & (ls & Hs) & K) He. split; [done|]. split; [exists ls; by eapply sound_ext|]. intros l. rewrite He. apply K.
Qed.

Lemma retain_leads p R ls r : sound (heap p) R ls -> (forall l, r = Some l -> 0 < R l < 2 ^ 31 - 1) -> exists p',
  TypeRef.retain p r = Some p' /\ leads p R p' (fun l => R l + one r l).
Proof.
  intros Hs Hr. destruct (retain_option p r R ls Hs Hr) as (h & -> & Hs' & Hk). eexists. split; [done|]. split; [done|].
  split; [by exists ls|]. intros l Hl. split.
  - unfold one in Hl. case_decide as E; [destruct (Hr l E); lia|lia].
  - intros c Hc. destruct (Hk l c Hc) as (c' & Hc' & Hd & Ho); [tauto|]. exists c'. split; [done|]. unfold view. congruence.
Qed.

Lemma release_leads p R ls r : sound (heap p) R ls -> (forall l, r = Some l -> 0 < R l) -> exists p',
  Array.release p r = Some p' /\ leads p R p' (fun l => R l - one r l).
Proof.
  intros Hs Hr. destruct (release_option p r R ls Hs Hr) as (h & ls' & -> & Hs' & Hk). eexists. split; [done|]. split; [done|].
  split; [by exists ls'|]. intros l Hl. pose proof (one_bound r l). split; [lia|]. intros c Hc. by apply (Hk l c Hc).
Qed.

Lemma survive_text h R h' R' l s : survive h R h' R' -> 0 < R' l -> text_of h l = Some s -> text_of h' l = Some s.
Proof.
  intros H Hl. unfold text_of. destruct (H l Hl) as [_ K]. destruct (cells h !! l) as [c|]; [|done].
  destruct (K c eq_refl) as (c' & -> & E). cbn. unfold view, data in E. by injection E as _ _ ->.
Qed.

(** ** What a map has *)

Definition flat (es : list (loc * entry)) : list (option StringObj.loc) := concat (map (fun xe => [fst (snd xe); snd (snd xe)]) es).

Lemma flat_app es fs : flat (es ++ fs) = flat es ++ flat fs.
Proof. unfold flat. by rewrite map_app, concat_app. Qed.

Lemma flat_length es : zlen (flat es) = 2 * zlen es.
Proof.
  unfold flat. induction es as [|e es IH]; [done|]. cbn [map concat app]. rewrite !zlen_cons, IH. lia.
Qed.

Lemma refs_in rs (r : StringObj.loc) : Some r ∈ rs -> 0 < refs_to rs r.
Proof. intros [i Hi]%list_elem_of_lookup. by eapply refs_to_pos. Qed.

Lemma flat_key es x (l : StringObj.loc) v : (x, (Some l, v)) ∈ es -> 0 < refs_to (flat es) l.
Proof.
  intros Hin. apply refs_in. unfold flat. apply list_elem_of_In, in_concat. exists [Some l; v]. split; [|by left].
  apply in_map_iff. exists (x, (Some l, v)). split; [done|]. by apply list_elem_of_In.
Qed.

Lemma flat_value es x k (l : StringObj.loc) : (x, (k, Some l)) ∈ es -> 0 < refs_to (flat es) l.
Proof.
  intros Hin. apply refs_in. unfold flat. apply list_elem_of_In, in_concat. exists [k; Some l]. split; [|by right; left].
  apply in_map_iff. exists (x, (k, Some l)). split; [done|]. by apply list_elem_of_In.
Qed.

(** The references of the program and of the map. *)
Definition owned (p : program) (es : list (loc * entry)) (l : StringObj.loc) : Z := refs_to (refs p) l + refs_to (flat es) l.

Lemma owned_bound p es l : 0 <= owned p es l <= zlen (refs p) + 2 * zlen es.
Proof.
  unfold owned. pose proof (refs_to_bound (refs p) l). pose proof (refs_to_bound (flat es) l). rewrite flat_length in *. lia.
Qed.

(** A map of the program that no call is using; [room] counts what is in use. *)
Record whole_map (p : program) (m : Map.t) (bs : list (list (loc * entry))) (fr : list loc) : Prop := {
  wm_shape : shape m bs fr;
  wm_size : 0 < Map.size m;
  wm_sound : exists ls, sound (heap p) (owned p (concat bs)) ls;
  wm_copies : 0 < Map.copies m < 2 ^ 31 - 1;
  wm_idle : idle (Map.lock m) }.

Definition room (p : program) (bs : list (list (loc * entry))) (fr : list loc) : Z :=
  zlen (refs p) + 2 * zlen (concat bs) + zlen fr.

(** ** A call *)

Section call.
Context (self : nat).

(** The lock is taken, the map cannot go, and the chain of the key is found. *)
Definition entered (m m1 : Map.t) : Prop := exists s, m1 = Map.with_lock (Map.retain m) s.

(** What [commit] and [release] do to the map [m1], which a call has changed in the meantime. *)
Definition left_idle (fin : program -> option Map.t -> option (program * option Map.t)) (m m1 : Map.t) : Prop :=
  forall p m2, same_map m1 m2 -> exists s, idle s /\ fin p (Some m2) = Some (p, Some (Map.with_copies (Map.with_lock m2 s) (Map.copies m))).

Lemma leave_call p m m1 m2 s : 0 < Map.size m -> 0 < Map.copies m < 2 ^ 31 - 1 -> entered m m1 -> same_map m1 m2 ->
  Map.drop p (Map.with_lock m2 s) = Some (p, Map.with_copies (Map.with_lock m2 s) (Map.copies m)).
Proof.
  intros Hz Hc [s1 ->] (_ & Hco & _). unfold Map.drop. cbn in Hco |- *. rewrite Hco, (s32_id (Map.copies m + 1)) by lia.
  destruct (Z.ltb_spec (Map.copies m + 1) 2); [lia|]. rewrite Z.add_simpl_r, s32_id by lia. done.
Qed.

Lemma usable_map m : 0 < Map.size m -> MapRef.usable (Some m) = Some m.
Proof. intros Hz. unfold MapRef.usable. destruct (Z.eqb_spec (Map.size m) 0); [lia|done]. Qed.

Lemma modify_call m path root : idle (Map.lock m) -> 0 < Map.size m -> 0 < Map.copies m < 2 ^ 31 - 1 ->
  rd (Map.lists m) (path mod Map.size m) = Some root -> exists m1,
  MapRef.modify self (Some m) path = Some (Some m1, root) /\ entered m m1 /\ left_idle (MapRef.commit self) m m1.
Proof.
  intros Hi Hz Hc Hr. unfold MapRef.modify. rewrite usable_map by done. unfold Map.modify. cbn [Map.retain Map.with_copies Map.lock].
  destruct (modify_idle self _ Hi) as (s1 & c & -> & Hi'). cbn [Map.lists Map.size Map.retain Map.with_copies]. rewrite Hr. run.
  exists (Map.with_lock (Map.retain m) s1). split; [done|]. assert (entered m (Map.with_lock (Map.retain m) s1)) as He by (by exists s1).
  split; [done|]. intros p m2 Hm. pose proof Hm as (Hs2 & _ & Hl2). exists (fst (ConditionalLock.commit s1 self)). split; [done|].
  unfold MapRef.commit. rewrite usable_map by (rewrite Hs2; done). rewrite Hl2. cbn [Map.with_lock Map.lock].
  by rewrite (leave_call p m _ m2 _ Hz Hc He Hm).
Qed.

Lemma access_call m path root : idle (Map.lock m) -> 0 < Map.size m -> 0 < Map.copies m < 2 ^ 31 - 1 ->
  rd (Map.lists m) (path mod Map.size m) = Some root -> exists m1,
  MapRef.access self (Some m) path = Some (Some m1, root) /\ entered m m1 /\ left_idle (MapRef.release self) m m1.
Proof.
  intros Hi Hz Hc Hr. unfold MapRef.access. rewrite usable_map by done. unfold Map.access. cbn [Map.retain Map.with_copies Map.lock].
  destruct (access_idle self _ Hi) as (s1 & c & -> & Hi'). cbn [Map.lists Map.size Map.retain Map.with_copies]. rewrite Hr. run.
  exists (Map.with_lock (Map.retain m) s1). split; [done|]. assert (entered m (Map.with_lock (Map.retain m) s1)) as He by (by exists s1).
  split; [done|]. intros p m2 Hm. pose proof Hm as (Hs2 & _ & Hl2). exists (fst (ConditionalLock.release s1 self)). split; [done|].
  unfold MapRef.release. rewrite usable_map by (rewrite Hs2; done). rewrite Hl2. cbn [Map.with_lock Map.lock].
  by rewrite (leave_call p m _ m2 _ Hz Hc He Hm).
Qed.

End call.

(** ** Keys *)

Definition mix (key c : Z) : Z := Z.lxor key (Z.lxor (u64 (Z.shiftl key 3)) c).
Definition hash (s : list Z) : Z := foldl mix 1 s.

Lemma index_text s r : forall key p, MapRef.index key (p ++ s ++ r) (zlen p) (length s) = Some (foldl mix key s).
Proof.
  induction s as [|c s IH]; intros key p; [done|]. cbn [length MapRef.index]. rewrite rd_app_r by done. run.
  specialize (IH (mix key c) (p ++ [c])). rewrite zlen_app, <- app_assoc in IH. exact IH.
Qed.

Lemma mapkeypath_text v s : cstr (Counted.mem v) = Some s -> MapRef.mapkeypath (Some v) = Some (hash s).
Proof.
  intros Hs. unfold MapRef.mapkeypath, strlen. rewrite Hs. cbn [fmap option_fmap option_map]. run.
  destruct (cstr_inv _ _ Hs) as (_ & r & ->). rewrite zlen_to_nat. exact (index_text s (0 :: r) 1 []).
Qed.

(** Every entry is in the chain that the text of its key is for. *)
Definition placed (h : store) (size i : Z) (xe : loc * entry) : Prop :=
  exists l s, fst (snd xe) = Some l /\ text_of h l = Some s /\ hash s mod size = i.

Fixpoint keyed (h : store) (size i : Z) (bs : list (list (loc * entry))) : Prop :=
  match bs with [] => True | b :: bs => Forall (placed h size i) b /\ keyed h size (i + 1) bs end.

Lemma keyed_app h size bs1 bs2 : forall i, keyed h size i (bs1 ++ bs2) <-> keyed h size i bs1 /\ keyed h size (i + zlen bs1) bs2.
Proof.
  induction bs1 as [|b bs1 IH]; intros i; cbn [keyed app]; [rewrite zlen_nil, Z.add_0_r; tauto|].
  rewrite IH, zlen_cons. replace (i + 1 + zlen bs1) with (i + (zlen bs1 + 1)) by lia. tauto.
Qed.

Lemma keyed_mid h size B1 b B2 : keyed h size 0 (B1 ++ b :: B2) <->
  Forall (placed h size (zlen B1)) b /\ keyed h size 0 B1 /\ keyed h size (zlen B1 + 1) B2.
Proof. rewrite keyed_app. cbn [keyed]. rewrite Z.add_0_l. tauto. Qed.

Lemma keyed_in h size bs xe : forall i, keyed h size i bs -> xe ∈ concat bs -> exists B1 b B2, bs = B1 ++ b :: B2 /\ xe ∈ b /\
  placed h size (i + zlen B1) xe.
Proof.
  induction bs as [|b bs IH]; intros i; cbn [keyed concat]; [by intros _ ?%elem_of_nil|].
  intros [Hb Hbs] [Hin|Hin]%elem_of_app.
  - exists [], b, bs. rewrite zlen_nil, Z.add_0_r. split_and!; [done|done|]. by apply (proj1 (list.Forall_forall _ _) Hb).
  - destruct (IH _ Hbs Hin) as (B1 & c & B2 & -> & Hc & Hp). exists (b :: B1), c, B2. split_and!; [done|done|].
    rewrite zlen_cons. by replace (i + (zlen B1 + 1)) with (i + 1 + zlen B1) by lia.
Qed.

(** The texts stay, as far as they belong to entries. *)
Lemma placed_frame h h' size i xe : (forall l s, fst (snd xe) = Some l -> text_of h l = Some s -> text_of h' l = Some s) ->
  placed h size i xe -> placed h' size i xe.
Proof. intros Hf (l & s & El & Et & Eh). exists l, s. split_and!; [done|by apply Hf|done]. Qed.

Lemma keyed_frame h h' size bs : (forall xe l s, xe ∈ concat bs -> fst (snd xe) = Some l -> text_of h l = Some s -> text_of h' l = Some s) ->
  forall i, keyed h size i bs -> keyed h' size i bs.
Proof.
  induction bs as [|b bs IH]; intros Hf i; cbn [keyed]; [done|]. intros [Hb Hbs]. split.
  - rewrite list.Forall_forall in *. intros xe Hx. eapply placed_frame; [|by apply Hb]. intros l s. apply Hf. cbn. apply elem_of_app. by left.
  - apply IH; [|done]. intros xe l s Hx. apply Hf. cbn. apply elem_of_app. by right.
Qed.

(** ** The finite map *)

Abbreviation dict := (gmap (list Z) (option StringObj.loc)).

Definition reads (h : store) (xe : loc * entry) (tv : list Z * option StringObj.loc) : Prop :=
  exists l, snd xe = (Some l, snd tv) /\ text_of h l = Some (fst tv).

Definition bound (h : store) (es : list (loc * entry)) (M : dict) : Prop :=
  exists tvs, Forall2 (reads h) es tvs /\ tvs ≡ₚ map_to_list M.

Lemma bound_in h es M xe l s : bound h es M -> xe ∈ es -> fst (snd xe) = Some l -> text_of h l = Some s -> M !! s = Some (snd (snd xe)).
Proof.
  intros (tvs & H2 & Hp) [i Hi]%list_elem_of_lookup El Et. destruct (Forall2_lookup_l _ _ _ _ _ H2 Hi) as ([t v] & Htv & l' & Ex & Et').
  rewrite Ex in El |- *. cbn in *. injection El as ->. rewrite Et in Et'. injection Et' as ->. apply elem_of_map_to_list.
  rewrite <- Hp. by eapply list_elem_of_lookup_2.
Qed.

Lemma bound_entry h es M s v : bound h es M -> M !! s = Some v -> exists x l, (x, (Some l, v)) ∈ es /\ text_of h l = Some s.
Proof.
  intros (tvs & H2 & Hp) Hs. apply elem_of_map_to_list in Hs. rewrite <- Hp in Hs. apply list_elem_of_lookup in Hs as [i Hi].
  destruct (Forall2_lookup_r _ _ _ _ _ H2 Hi) as ([x e] & Hx & l & Ex & Et). cbn in *. subst e. exists x, l. split; [|done].
  by eapply list_elem_of_lookup_2.
Qed.

Lemma bound_size h es M : bound h es M -> zlen es = Z.of_nat (base.size M).
Proof.
  intros (tvs & H2 & Hp). unfold zlen. by rewrite (Forall2_length H2), Hp, length_map_to_list.
Qed.

Lemma bound_insert h es1 es2 M x l s v : bound h (es1 ++ es2) M -> text_of h l = Some s -> M !! s = None ->
  bound h (es1 ++ (x, (Some l, v)) :: es2) (<[s := v]> M).
Proof.
  intros (tvs & H2 & Hp) Ht Hs. apply Forall2_app_inv_l in H2 as (t1 & t2 & H1 & H2 & ->). exists (t1 ++ (s, v) :: t2). split.
  - apply Forall2_app; [done|]. constructor; [by exists l|done].
  - rewrite map_to_list_insert by done. rewrite <- Permutation_middle. by constructor.
Qed.

Lemma bound_delete h es1 es2 M x l s v : bound h (es1 ++ (x, (Some l, v)) :: es2) M -> text_of h l = Some s ->
  bound h (es1 ++ es2) (delete s M).
Proof.
  intros Hb Ht. assert (M !! s = Some v) as Hs by (eapply (bound_in _ _ _ (x, (Some l, v))); [done| |done|done]; apply elem_of_app; right; left).
  destruct Hb as (tvs & H2 & Hp). apply Forall2_app_inv_l in H2 as (t1 & t2 & H1 & H2 & ->). inversion H2 as [|? [t w] ? t3 (l' & E & Et) H3]; subst.
  cbn in E, Et. injection E as <- <-. rewrite Ht in Et. injection Et as <-. exists (t1 ++ t3). split; [by apply Forall2_app|].
  rewrite <- (map_to_list_delete M s v Hs), <- Permutation_middle in Hp. by apply Permutation_cons_inv in Hp.
Qed.

Lemma bound_update h es1 es2 M x l s v w : bound h (es1 ++ (x, (Some l, v)) :: es2) M -> text_of h l = Some s ->
  bound h (es1 ++ (x, (Some l, w)) :: es2) (<[s := w]> M).
Proof.
  intros Hb Ht. rewrite <- insert_delete_eq. apply bound_insert; [by eapply bound_delete|done|by rewrite lookup_delete_eq].
Qed.

Lemma bound_frame h h' es M : (forall xe l s, xe ∈ es -> fst (snd xe) = Some l -> text_of h l = Some s -> text_of h' l = Some s) ->
  bound h es M -> bound h' es M.
Proof.
  intros Hf (tvs & H2 & Hp). exists tvs. split; [|done]. clear Hp.
  induction H2 as [|xe tv es tvs (l & E & Et) H2 IH]; constructor.
  - exists l. split; [done|]. apply (Hf xe); [by left|by rewrite E|done].
  - apply IH. intros xe' l' s Hx. apply Hf. by right.
Qed.

(** ** Maps of a program *)

Record maps (p : program) (m : Map.t) (bs : list (list (loc * entry))) (fr : list loc) (M : dict) : Prop := {
  mp_whole : whole_map p m bs fr;
  mp_keyed : keyed (heap p) (Map.size m) 0 bs;
  mp_bound : bound (heap p) (concat bs) M }.

Lemma bucket m bs fr path : shape m bs fr -> 0 < Map.size m -> exists B1 b B2 root, bs = B1 ++ b :: B2 /\ at_path m B1 path /\
  rd (Map.lists m) (path mod Map.size m) = Some root /\ lst (Map.pool m) root (items b).
Proof.
  intros Hs Hz. pose proof (Z.mod_pos_bound path (Map.size m) Hz) as Hr. pose proof (sh_size _ _ _ Hs) as Hl.
  destruct (lookup_lt_is_Some_2 bs (Z.to_nat (path mod Map.size m))) as [b Hb].
  { rewrite <- (Forall2_length (sh_chains _ _ _ Hs)). unfold zlen in Hl. lia. }
  apply list_elem_of_split_length in Hb as (B1 & B2 & -> & Eb).
  destruct (chains_split _ _ _ _ _ Hs) as (L1 & root & L2 & EL & Ez & _ & Hroot & _). exists B1, b, B2, root.
  assert (zlen B1 = path mod Map.size m) as E by (unfold zlen; lia). split_and!; [done|done| |done]. by rewrite EL, rd_mid by lia.
Qed.

(** The first object that is hit. *)
Lemma first_hit (f : entry -> bool) (b : list (loc * entry)) : Forall (fun xe => f (snd xe) = false) b \/
  exists b1 x e b2, b = b1 ++ (x, e) :: b2 /\ Forall (fun xe => f (snd xe) = false) b1 /\ f e = true.
Proof.
  induction b as [|[x e] b [IH|(b1 & y & g & b2 & -> & H1 & Hg)]]; [by left| |].
  - destruct (f e) eqn:E; [right; by exists [], x, e, b|left; by constructor].
  - destruct (f e) eqn:E; [right; by exists [], x, e, (b1 ++ (y, g) :: b2)|]. right. exists ((x, e) :: b1), y, g, b2.
    split_and!; [done|by constructor|done].
Qed.

Lemma in_bucket (B1 : list (list (loc * entry))) b B2 xe : xe ∈ b -> xe ∈ concat (B1 ++ b :: B2).
Proof. intros Hx. rewrite concat_app. cbn. rewrite !elem_of_app. tauto. Qed.

Lemma maps_readable p m bs fr M es : maps p m bs fr M -> room p bs fr < 2 ^ 31 - 1 -> (forall xe, xe ∈ es -> xe ∈ concat bs) ->
  Forall (readable fst (owned p (concat bs)) (heap p)) es.
Proof.
  intros [[_ _ _ _ _] Hk _] Hr Hin. rewrite list.Forall_forall. intros [x [k v]] Hx l El. cbn in El. subst k.
  apply Hin in Hx. pose proof (flat_key _ _ _ _ Hx) as Hp. pose proof (owned_bound p (concat bs) l) as Hb. unfold room in Hr.
  pose proof (zlen_nonneg fr). pose proof (refs_to_bound (refs p) l). split; [unfold owned in *; lia|].
  destruct (keyed_in _ _ _ _ _ Hk Hx) as (B1 & b & B2 & _ & _ & l' & s & E & Et & _). cbn in E. injection E as ->. by exists s.
Qed.

(** The search for a key finds its entry, if there is one. *)
Lemma find_key p m m1 B1 b B2 fr M root kc s : maps p m (B1 ++ b :: B2) fr M -> room p (B1 ++ b :: B2) fr < 2 ^ 31 - 1 ->
  at_path m B1 (hash s) -> lst (Map.pool m) root (items b) -> Map.pool m1 = Map.pool m -> Map.entries m1 = Map.entries m ->
  cstr (Counted.mem kc) = Some s ->
  (M !! s = None /\ search fst (chain_fuel (Some m1)) p m1 root (Some kc) = Some (p, None)) \/
  exists b1 x l v b2 p1, b = b1 ++ (x, (Some l, v)) :: b2 /\ M !! s = Some v /\ text_of (heap p) l = Some s /\
    TypeRef.retain p (Some l) = Some p1 /\ search fst (chain_fuel (Some m1)) p m1 root (Some kc) = Some (p1, Some (x, Some l)).
Proof.
  intros Hm Hr Hat Hl Ep Ee Hkc. pose proof Hm as [[Hs Hz [ls Hsound] Hc Hi] Hk Hb].
  assert (Forall (readable fst (owned p (concat (B1 ++ b :: B2))) (heap p)) b) as Hread by (eapply maps_readable; [done..|]; intros; by apply in_bucket).
  assert (Forall (fun xe => Map.entries m1 !! fst xe = Some (snd xe)) b) as Hen.
  { rewrite Ee. pose proof (sh_entries _ _ _ Hs) as He. by apply entries_mid in He as [He _]. }
  rewrite <- Ep in Hl. assert (length b < chain_fuel (Some m1))%nat as Hfuel.
  { pose proof (lst_fuel _ _ _ Hl) as Hf. unfold items in Hf. by rewrite length_map in Hf. }
  destruct (first_hit (hit fst s (heap p)) b) as [Hmiss|(b1 & x & [k v] & b2 & -> & Hmiss & Hhit)].
  - left. split; [|by apply (search_miss fst kc s Hkc (owned p (concat (B1 ++ b :: B2))) ls _ b)]. apply eq_None_not_Some. intros [v Hv].
    destruct (bound_entry _ _ _ _ _ Hb Hv) as (x & l & Hx & Et).
    destruct (keyed_in _ _ _ _ _ Hk Hx) as (C1 & c & C2 & EC & Hxc & l' & s' & E & Et' & Eh). cbn in E. injection E as <-.
    rewrite Et in Et'. injection Et' as <-. rewrite Z.add_0_l, <- Hat in Eh.
    assert (c = b) as ->.
    { apply app_inj_1 in EC; [|unfold zlen in Eh; lia]. by destruct EC as [_ [= -> _]]. }
    apply (proj1 (list.Forall_forall _ _) Hmiss) in Hxc. unfold hit in Hxc. cbn in Hxc. rewrite bool_decide_true in Hxc; done.
  - right. unfold hit in Hhit. cbn in Hhit. destruct k as [l|]; [|done]. apply bool_decide_eq_true in Hhit.
    destruct (search_hit fst kc s Hkc (owned p (concat (B1 ++ (b1 ++ (x, (Some l, v)) :: b2) :: B2))) ls m1 b1 x (Some l, v) l b2 (chain_fuel (Some m1)) p root)
      as (p1 & E1 & E2); try done; [rewrite length_app in Hfuel; cbn [length] in Hfuel; lia|unfold hit; cbn; by apply bool_decide_eq_true|].
    exists b1, x, l, v, b2, p1. split_and!; try done.
    eapply (bound_in _ _ _ (x, (Some l, v)) l s Hb); [|done|done]. apply in_bucket, elem_of_app. right. left.
Qed.

(** ** One call after the other *)

Lemma concat_mid (B1 : list (list (loc * entry))) b1 y b2 B2 : concat (B1 ++ (b1 ++ y :: b2) :: B2) = (concat B1 ++ b1) ++ y :: (b2 ++ concat B2).
Proof. rewrite concat_app. cbn [concat]. by rewrite <- !app_assoc. Qed.

Lemma concat_out (B1 : list (list (loc * entry))) b1 b2 B2 : concat (B1 ++ (b1 ++ b2) :: B2) = (concat B1 ++ b1) ++ (b2 ++ concat B2).
Proof. rewrite concat_app. cbn [concat]. by rewrite <- !app_assoc. Qed.

Lemma concat_front (B1 : list (list (loc * entry))) y b B2 : concat (B1 ++ (y :: b) :: B2) = concat B1 ++ y :: (b ++ concat B2).
Proof. by rewrite concat_app. Qed.

Lemma concat_bucket (B1 : list (list (loc * entry))) b B2 : concat (B1 ++ b :: B2) = concat B1 ++ (b ++ concat B2).
Proof. by rewrite concat_app. Qed.

Lemma owned_mid p C1 x k v C2 l : owned p (C1 ++ (x, (k, v)) :: C2) l = owned p (C1 ++ C2) l + one k l + one v l.
Proof.
  unfold owned. rewrite !flat_app. change (flat ((x, (k, v)) :: C2)) with (k :: v :: flat C2). rewrite !refs_to_app. cbn [refs_to]. lia.
Qed.

Lemma owned_refs p p' es l : refs p' = refs p -> owned p' es l = owned p es l.
Proof. intros E. unfold owned. by rewrite E. Qed.

Lemma map_shape_same m m' bs fr : shape m bs fr -> Map.lists m' = Map.lists m -> Map.pool m' = Map.pool m ->
  Map.entries m' = Map.entries m -> Map.free m' = Map.free m -> Map.count m' = Map.count m -> Map.alloc m' = Map.alloc m ->
  Map.size m' = Map.size m -> shape m' bs fr.
Proof. intros [] E1 E2 E3 E4 E5 E6 E7. by split; rewrite ?E1, ?E2, ?E3, ?E4, ?E5, ?E6, ?E7. Qed.

Lemma shape_update m B1 b1 x e f b2 B2 fr : shape m (B1 ++ (b1 ++ (x, e) :: b2) :: B2) fr ->
  shape (Map.with_entry m x f) (B1 ++ (b1 ++ (x, f) :: b2) :: B2) fr.
Proof.
  intros [Hs Hc Hf Hd He Hn Ha]. assert (items (concat (B1 ++ (b1 ++ (x, f) :: b2) :: B2)) = items (concat (B1 ++ (b1 ++ (x, e) :: b2) :: B2))) as Ei.
  { rewrite !concat_mid, !items_app. done. }
  assert (zlen (concat (B1 ++ (b1 ++ (x, f) :: b2) :: B2)) = zlen (concat (B1 ++ (b1 ++ (x, e) :: b2) :: B2))) as Ez.
  { by rewrite <- !zlen_items, Ei. }
  split; cbn; rewrite ?Ei, ?Ez; try done.
  - apply Forall2_app_inv_r in Hc as (L1 & L & H1 & H2 & ->). inversion H2 as [|r ? L2 ? Hr H3]; subst. apply Forall2_app; [done|].
    constructor; [|done]. rewrite items_app in *. exact Hr.
  - rewrite concat_mid in *. apply list.Forall_app in He as [He1 He2]. inversion He2 as [|? ? _ He3]; subst.
    rewrite items_app, <- app_assoc in Hd. cbn in Hd. apply list.NoDup_app in Hd as (_ & Hd1 & Hd2).
    apply list.NoDup_cons in Hd2 as [Hx _]. apply list.Forall_app. split; [|constructor; [cbn; by rewrite lookup_insert_eq|]].
    + apply entries_other; [|done]. intros Hin. apply (Hd1 x Hin). left.
    + apply entries_other; [|done]. intros Hin. apply Hx, elem_of_app. by left.
Qed.

(** What a call leaves. *)
Lemma settle p R p' m m' bs' fr' M' : (exists ls, sound (heap p') (owned p' (concat bs')) ls) /\ survive (heap p) R (heap p') (owned p' (concat bs')) -> shape m' bs' fr' -> 0 < Map.size m ->
  Map.size m' = Map.size m -> Map.copies m' = Map.copies m -> 0 < Map.copies m < 2 ^ 31 - 1 -> idle (Map.lock m') ->
  keyed (heap p) (Map.size m) 0 bs' -> bound (heap p) (concat bs') M' -> maps p' m' bs' fr' M'.
Proof.
  intros (Hsound & Hsurv) Hs Hz Ez Ec Hc Hi Hk Hb.
  assert (forall xe l s, xe ∈ concat bs' -> fst (snd xe) = Some l -> text_of (heap p) l = Some s -> text_of (heap p') l = Some s) as Ht.
  { intros [x [k v]] l s Hx El Et. cbn in El. subst k. eapply survive_text; [exact Hsurv| |done]. unfold owned.
    pose proof (flat_key _ _ _ _ Hx). pose proof (refs_to_bound (refs p') l). lia. }
  split; [split; [done|lia|done|lia|done]| |].
  - rewrite Ez. eapply keyed_frame; [exact Ht|done].
  - eapply bound_frame; [exact Ht|done].
Qed.

(** The objects that the references show. *)
Lemma kept_value p R p' R' i r : (exists ls, sound (heap p) R ls) -> survive (heap p) R (heap p') R' ->
  refs p !! i = Some r -> refs p' !! i = Some r -> (forall l, r = Some l -> 0 < R' l) -> TyperefLaws.value p' i = TyperefLaws.value p i.
Proof.
  intros (ls & Hs) Hk Hr Hr' Hp. apply (value_keeps _ _ _ r); [done|done| |].
  - intros l El (c & Hc). destruct (Hk l (Hp l El)) as [_ K]. destruct (K c Hc) as (c' & Hc' & E). by exists c, c'.
  - intros l El. eapply sound_refs; [exact Hs|]. apply (Hk l (Hp l El)).
Qed.

Lemma leads_values p R p' es : (exists ls, sound (heap p) R ls) -> leads p R p' (owned p' es) ->
  forall i, (i < length (refs p))%nat -> TyperefLaws.value p' i = TyperefLaws.value p i.
Proof.
  intros Hs (E & _ & Hk) i Hi. destruct (lookup_lt_is_Some_2 _ _ Hi) as [r Hr]. eapply kept_value; [exact Hs|exact Hk|exact Hr|by rewrite E|].
  intros l ->. unfold owned. rewrite E. pose proof (refs_to_pos _ _ _ Hr). pose proof (refs_to_bound (flat es) l). lia.
Qed.

Section commands.
Context (self : nat).

(** A key of the program, with its text. *)
Definition key_text (p : program) (k : nat) (s : list Z) : Prop := exists l, refs p !! k = Some (Some l) /\ text_of (heap p) l = Some s.

Lemma key_object p k s : key_text p k s -> exists l c, refs p !! k = Some (Some l) /\ cells (heap p) !! l = Some c /\
  cstr (Counted.mem c) = Some s /\ mapref.key_of p k = Some (Some c) /\ MapRef.mapkeypath (Some c) = Some (hash s).
Proof.
  intros (l & Hk & Ht). unfold text_of in Ht. destruct (cells (heap p) !! l) as [c|] eqn:Hc; [|done]. cbn in Ht. exists l, c.
  split_and!; [done|done|done| |by apply mapkeypath_text]. unfold mapref.key_of, object. rewrite Hk. run. by rewrite Hc.
Qed.

Lemma entered_shape m m1 bs fr : entered m m1 -> shape m bs fr -> shape m1 bs fr.
Proof. intros [s ->] Hs. by eapply map_shape_same. Qed.

Lemma room_mid p B1 b1 y b2 B2 fr : room p (B1 ++ (b1 ++ y :: b2) :: B2) fr = room p (B1 ++ (b1 ++ b2) :: B2) fr + 2.
Proof. unfold room. rewrite concat_mid, concat_out, !zlen_app, zlen_cons, !zlen_app. lia. Qed.

Lemma owned_room p bs fr l : 0 <= owned p (concat bs) l <= room p bs fr.
Proof. unfold room. pose proof (owned_bound p (concat bs) l). pose proof (zlen_nonneg fr). lia. Qed.

Lemma ref_owned p k l es : refs p !! k = Some (Some l) -> 0 < owned p es l.
Proof. intros Hk. unfold owned. pose proof (refs_to_pos _ _ _ Hk). pose proof (refs_to_bound (flat es) l). lia. Qed.

(** The entry that was found is given another value. *)
Lemma update_found p m m1 B1 b1 x l v b2 B2 fr vi val p1 : whole_map p m (B1 ++ (b1 ++ (x, (Some l, v)) :: b2) :: B2) fr ->
  room p (B1 ++ (b1 ++ (x, (Some l, v)) :: b2) :: B2) fr < 2 ^ 31 - 3 -> entered m m1 ->
  refs p !! vi = Some val -> TypeRef.retain p (Some l) = Some p1 -> exists p2 p3,
    MapRef.update p1 m1 (Some x) val = Some (p2, Map.with_entry m1 x (Some l, val)) /\ Array.release p2 (Some l) = Some p3 /\
    leads p (owned p (concat (B1 ++ (b1 ++ (x, (Some l, v)) :: b2) :: B2))) p3
      (owned p3 (concat (B1 ++ (b1 ++ (x, (Some l, val)) :: b2) :: B2))).
Proof.
  intros [Hs Hz [ls Hsound] Hc Hi] Hroom [sl ->] Hval E1. rewrite room_mid in Hroom.
  assert (forall w k, owned p (concat (B1 ++ (b1 ++ (x, (Some l, w)) :: b2) :: B2)) k =
    owned p (concat (B1 ++ (b1 ++ b2) :: B2)) k + one (Some l) k + one w k) as HR by (intros w k; rewrite concat_mid, concat_out; apply owned_mid).
  pose proof (owned_room p (B1 ++ (b1 ++ b2) :: B2) fr) as Hb.
  destruct (retain_leads p _ ls (Some l) Hsound) as (q & Eq & L1).
  { intros k [= <-]. rewrite HR, one_eq. specialize (Hb l). pose proof (one_bound v l). lia. }
  rewrite E1 in Eq. injection Eq as <-. pose proof L1 as (Er1 & (ls1 & Hs1) & _).
  destruct (release_leads p1 _ ls1 v Hs1) as (p2 & E2 & L2).
  { intros k ->. rewrite HR, one_eq. specialize (Hb k). pose proof (one_bound (Some l) k). lia. }
  pose proof L2 as (Er2 & (ls2 & Hs2) & _).
  destruct (retain_leads p2 _ ls2 val Hs2) as (p3 & E3 & L3).
  { intros k ->. rewrite HR. specialize (Hb k). pose proof (one_bound (Some l) k). pose proof (ref_owned _ _ _ (concat (B1 ++ (b1 ++ b2) :: B2)) Hval). lia. }
  pose proof L3 as (Er3 & (ls3 & Hs3) & _).
  destruct (release_leads p3 _ ls3 (Some l) Hs3) as (p4 & E4 & L4).
  { intros k [= <-]. rewrite HR, one_eq. specialize (Hb l). pose proof (one_bound val l). lia. }
  exists p3, p4. split; [|split; [done|]].
  - unfold MapRef.update. assert (Map.entries (Map.with_lock (Map.retain m) sl) !! x = Some (Some l, v)) as ->.
    { pose proof (sh_entries _ _ _ Hs) as He. rewrite concat_mid in He. apply list.Forall_app in He as [_ He]. by inversion He. }
    run. cbn [snd fst]. rewrite E2. run. rewrite E3. run. done.
  - pose proof L4 as (Er4 & _). eapply leads_ext; [eapply leads_trans; [exact L1|eapply leads_trans; [exact L2|eapply leads_trans; [exact L3|exact L4]]]|].
    intros k. rewrite (owned_refs p) by congruence. rewrite !HR. lia.
Qed.

(** A key that the map does not have gets an entry of its own. *)
Lemma entry_new p m m1 B1 b B2 fr M kl s val : maps p m (B1 ++ b :: B2) fr M -> room p (B1 ++ b :: B2) fr < 2 ^ 31 - 5 ->
  entered m m1 -> left_idle (MapRef.commit self) m m1 -> at_path m B1 (hash s) -> M !! s = None ->
  Some kl ∈ refs p -> text_of (heap p) kl = Some s -> val ∈ refs p -> exists p' m2 m' bs' fr',
  MapRef.add p (Some m1) (hash s) (Some kl) val = Some (p', Some m2) /\ MapRef.commit self p' (Some m2) = Some (p', Some m') /\
  maps p' m' bs' fr' (<[s := val]> M) /\ room p' bs' fr' <= room p (B1 ++ b :: B2) fr + 2 /\
  leads p (owned p (concat (B1 ++ b :: B2))) p' (owned p' (concat bs')).
Proof.
  intros Hm Hroom He Hleft Hat Hnone [kk Hkr]%list_elem_of_lookup Hkt [vv Hval]%list_elem_of_lookup.
  pose proof Hm as [[Hs Hz [ls Hsound] Hc Hi] Hk Hb]. pose proof (entered_shape _ _ _ _ He Hs) as Hs1.
  assert (Map.size m1 = Map.size m /\ Map.copies m1 = s32 (Map.copies m + 1)) as [Ez1 _] by (by destruct He as [? ->]).
  destruct (create_shape m1 B1 b B2 fr (hash s) Hs1) as (m2 & x & fr2 & Ec & Hs2 & Hx & Hsame & Hlast & Hfr).
  { unfold at_path. by rewrite Ez1. }
  { unfold room in Hroom. pose proof (zlen_nonneg (refs p)). pose proof (zlen_nonneg (concat (B1 ++ b :: B2))). lia. }
  unfold MapRef.add. rewrite usable_map by lia. rewrite Ec. run.
  pose proof (owned_room p (B1 ++ b :: B2) fr) as Hbnd.
  destruct (retain_leads p _ ls (Some kl) Hsound) as (p2 & E2 & L2).
  { intros j [= <-]. specialize (Hbnd kl). pose proof (ref_owned _ _ _ (concat (B1 ++ b :: B2)) Hkr). lia. }
  pose proof L2 as (Er2 & (ls2 & Hs2') & _).
  destruct (retain_leads p2 _ ls2 val Hs2') as (p3 & E3 & L3).
  { intros j ->. specialize (Hbnd j). pose proof (one_bound (Some kl) j). pose proof (ref_owned _ _ _ (concat (B1 ++ b :: B2)) Hval). lia. }
  pose proof L3 as (Er3 & _). rewrite E2. run. rewrite E3. run.
  destruct (Hleft p3 (Map.with_entry m2 x (Some kl, val)) Hsame) as (s2 & Hi2 & E4).
  eexists p3, _, _, (B1 ++ ((x, (Some kl, val)) :: b) :: B2), fr2. split; [done|]. split; [exact E4|].
  assert (leads p (owned p (concat (B1 ++ b :: B2))) p3 (owned p3 (concat (B1 ++ ((x, (Some kl, val)) :: b) :: B2)))) as HL.
  { eapply leads_ext; [eapply leads_trans; [exact L2|exact L3]|]. intros j. rewrite (owned_refs p) by congruence.
    rewrite concat_front, concat_bucket, owned_mid. done. }
  split; [|split; [|exact HL]].
  - destruct Hsame as (Hsz & Hco & Hlk). apply (settle p _ p3 m _ _ _ _ (proj2 HL)); [|done|cbn; congruence|done|done|done| |].
    + eapply map_shape_same; [apply (Hs2 (Some kl, val))|..]; done.
    + apply keyed_mid in Hk as (Hkb & Hk1 & Hk2). apply keyed_mid. split; [|done]. constructor; [|done].
      exists kl, s. by rewrite <- Hat.
    + rewrite concat_front. rewrite concat_bucket in Hb. by apply bound_insert.
  - unfold room. rewrite Er3, Er2, concat_front, concat_bucket, !zlen_app, zlen_cons, !zlen_app. lia.
Qed.

(** The search of a call for a key. *)
Lemma call_search p m bs fr M k s (enter : option Map.t -> Z -> option (option Map.t * option loc))
    (fin : program -> option Map.t -> option (program * option Map.t)) :
  maps p m bs fr M -> room p bs fr < 2 ^ 31 - 5 -> key_text p k s ->
  (forall path root, rd (Map.lists m) (path mod Map.size m) = Some root -> exists m1, enter (Some m) path = Some (Some m1, root) /\
    entered m m1 /\ left_idle fin m m1) ->
  exists kl kc m1 root B1 b B2, refs p !! k = Some (Some kl) /\ text_of (heap p) kl = Some s /\ mapref.key_of p k = Some (Some kc) /\
    MapRef.mapkeypath (Some kc) = Some (hash s) /\ enter (Some m) (hash s) = Some (Some m1, root) /\ entered m m1 /\ left_idle fin m m1 /\
    bs = B1 ++ b :: B2 /\ at_path m B1 (hash s) /\
    ((M !! s = None /\ search fst (chain_fuel (Some m1)) p m1 root (Some kc) = Some (p, None)) \/
     exists b1 x l v b2 p1, b = b1 ++ (x, (Some l, v)) :: b2 /\ M !! s = Some v /\ text_of (heap p) l = Some s /\
       TypeRef.retain p (Some l) = Some p1 /\ search fst (chain_fuel (Some m1)) p m1 root (Some kc) = Some (p1, Some (x, Some l))).
Proof.
  intros Hm Hroom Hkey Hcall. pose proof Hm as [[Hs Hz _ _ _] _ _].
  destruct (key_object p k s Hkey) as (kl & kc & Hkr & Hkc & Hkt & Eko & Epath).
  destruct (bucket m bs fr (hash s) Hs Hz) as (B1 & b & B2 & root & -> & Hat & Hrd & Hl).
  destruct (Hcall _ _ Hrd) as (m1 & Em & He & Hleft). exists kl, kc, m1, root, B1, b, B2. split_and!; try done.
  - unfold text_of. by rewrite Hkc.
  - apply (find_key p m m1 B1 b B2 fr M root kc s); [done|lia|done|done|by destruct He as [? ->]|by destruct He as [? ->]|done].
Qed.

(** [value] *)
Lemma put_value_spec p m bs fr M k v s val : maps p m bs fr M -> room p bs fr < 2 ^ 31 - 5 -> key_text p k s -> refs p !! v = Some val ->
  exists p' m' bs' fr', mapref.value self p (Some m) k v = Some (p', Some m') /\ maps p' m' bs' fr' (<[s := val]> M) /\
    room p' bs' fr' <= room p bs fr + 2 /\ leads p (owned p (concat bs)) p' (owned p' (concat bs')).
Proof.
  intros Hm Hroom Hkey Hval. pose proof Hm as [[Hs Hz _ Hc Hi] Hk Hb].
  destruct (call_search p m bs fr M k s (MapRef.modify self) (MapRef.commit self) Hm Hroom Hkey) as
    (kl & kc & m1 & root & B1 & b & B2 & Hkr & Hkt & Eko & Epath & Em & He & Hleft & -> & Hat & Hcase).
  { intros path root. by apply modify_call. }
  unfold mapref.value. rewrite Eko. run. rewrite Hkr. run. rewrite Hval. run. rewrite Epath. run. rewrite Em. run.
  change (the_map (Some m1)) with m1. destruct Hcase as [[Hnone Es]|(b1 & x & l & w & b2 & p1 & -> & Hsome & Ht & E1 & Es)]; rewrite Es; run.
  - destruct (entry_new p m m1 B1 b B2 fr M kl s val) as (p' & m2 & m' & bs' & fr' & E2 & E3 & H); [done..| |done| |].
    1,2: by eapply list_elem_of_lookup_2. rewrite E2. run. by exists p', m', bs', fr'.
  - destruct (update_found p m m1 B1 b1 x l w b2 B2 fr v val p1 (mp_whole _ _ _ _ _ Hm)) as (p2 & p3 & Eu & Er & HL); [lia|done..|].
    rewrite Eu. run. destruct (Hleft p2 (Map.with_entry m1 x (Some l, val)) ltac:(done)) as (s2 & Hi2 & ->). run. rewrite Er. run.
    eexists p3, _, (B1 ++ (b1 ++ (x, (Some l, val)) :: b2) :: B2), fr. split; [done|]. split; [|split; [|exact HL]].
    + apply (settle p _ p3 m _ _ _ _ (proj2 HL)); [|done|by destruct He as [? ->]|done|done|done| |].
      * eapply map_shape_same; [apply (shape_update _ _ _ _ _ _ _ _ _ (entered_shape _ _ _ _ He Hs))|..]; done.
      * apply keyed_mid in Hk as (Hkb & Hk1 & Hk2). apply keyed_mid. split; [|done]. apply list.Forall_app in Hkb as [Hkb1 Hkb2].
        apply list.Forall_app. split; [done|]. inversion Hkb2 as [|? ? (l' & s' & El & Et & Eh) Hkb3]; subst. constructor; [by exists l', s'|done].
      * rewrite concat_mid in *. by eapply bound_update.
    + destruct HL as (Er3 & _). unfold room. rewrite Er3, !concat_mid, !zlen_app, !zlen_cons. lia.
Qed.

Lemma owned_snoc p p' r es l : refs p' = refs p ++ [r] -> owned p' es l = owned p es l + one r l.
Proof. intros E. unfold owned. rewrite E, refs_to_app. cbn. lia. Qed.

(** [at] *)
Lemma look_up_spec p m bs fr M k s : maps p m bs fr M -> room p bs fr < 2 ^ 31 - 5 -> key_text p k s -> exists p' m',
  mapref.at_ self p (Some m) k = Some (p', Some m') /\ maps p' m' bs fr M /\ refs p' = refs p ++ [default None (M !! s)] /\
  survive (heap p) (owned p (concat bs)) (heap p') (owned p' (concat bs)).
Proof.
  intros Hm Hroom Hkey. pose proof Hm as [[Hs Hz [ls Hsound] Hc Hi] Hk Hb].
  destruct (call_search p m bs fr M k s (MapRef.access self) (MapRef.release self) Hm Hroom Hkey) as
    (kl & kc & m1 & root & B1 & b & B2 & Hkr & Hkt & Eko & Epath & Em & He & Hleft & -> & Hat & Hcase).
  { intros path root. by apply access_call. }
  pose proof (entered_shape _ _ _ _ He Hs) as Hs1. assert (same_map m1 m1) as Hsame by done.
  assert (forall p', (exists ls, sound (heap p') (owned p' (concat (B1 ++ b :: B2))) ls) /\
    survive (heap p) (owned p (concat (B1 ++ b :: B2))) (heap p') (owned p' (concat (B1 ++ b :: B2))) ->
    forall si, idle si -> maps p' (Map.with_copies (Map.with_lock m1 si) (Map.copies m)) (B1 ++ b :: B2) fr M) as Hdone.
  { intros p' Hl si Hsi. apply (settle p _ p' m _ _ _ _ Hl); [by eapply map_shape_same|done|by destruct He as [? ->]|done|done|done|done|done]. }
  unfold mapref.at_. rewrite Eko. run. rewrite Epath. run. rewrite Em. run. change (the_map (Some m1)) with m1.
  destruct Hcase as [[Hnone Es]|(b1 & x & l & w & b2 & p1 & -> & Hsome & Ht & E1 & Es)]; rewrite Es; run.
  - destruct (Hleft p m1 Hsame) as (si & Hsi & ->). run. eexists _, _. split; [done|]. rewrite Hnone.
    assert (forall l, owned (TypeRef.make p) (concat (B1 ++ b :: B2)) l = owned p (concat (B1 ++ b :: B2)) l) as Ho.
    { intros l. rewrite (owned_snoc p _ None) by done. rewrite one_other by done. lia. }
    assert (survive (heap p) (owned p (concat (B1 ++ b :: B2))) (heap (TypeRef.make p)) (owned (TypeRef.make p) (concat (B1 ++ b :: B2)))) as Hsurv.
    { intros l. rewrite Ho. intros Hl. split; [done|]. intros c Hcl. by exists c. }
    split_and!; [|done|done]. apply Hdone; [|done]. split; [|done]. exists ls. by eapply sound_ext.
  - assert (Map.entries m1 !! x = Some (Some l, w)) as ->.
    { pose proof (sh_entries _ _ _ Hs1) as Hen. rewrite concat_mid in Hen. apply list.Forall_app in Hen as [_ Hen]. by inversion Hen. }
    run. cbn [snd]. set (es := concat (B1 ++ (b1 ++ (x, (Some l, w)) :: b2) :: B2)) in *.
    assert (forall j, 0 <= owned p es j < 2 ^ 31 - 4) as Hbnd by (intros j; pose proof (owned_room p _ fr j : _ <= owned p es j <= _); lia).
    assert ((x, (Some l, w)) ∈ es) as Hin by (apply in_bucket, elem_of_app; right; left).
    destruct (retain_leads p _ ls (Some l) Hsound) as (q & Eq & L1).
    { intros j [= <-]. pose proof (flat_key _ _ _ _ Hin). pose proof (refs_to_bound (refs p) l). specialize (Hbnd l). unfold owned in *. lia. }
    rewrite E1 in Eq. injection Eq as <-. pose proof L1 as (Er1 & (ls1 & Hs1') & Sv1).
    destruct (retain_leads p1 _ ls1 w Hs1') as (p2 & E2 & L2).
    { intros j ->. pose proof (flat_value _ _ _ _ Hin). pose proof (refs_to_bound (refs p) j). specialize (Hbnd j). pose proof (one_bound (Some l) j).
      unfold owned in *. lia. }
    pose proof L2 as (Er2 & (ls2 & Hs2) & Sv2). unfold TypeRef.make_object. rewrite E2. run.
    destruct (Hleft (Program (heap p2) (refs p2 ++ [w])) m1 Hsame) as (si & Hsi & ->). run.
    destruct (release_leads (Program (heap p2) (refs p2 ++ [w])) _ ls2 (Some l) Hs2) as (p3 & E3 & Er3 & Hs3 & Sv3).
    { intros j [= <-]. rewrite one_eq. specialize (Hbnd l). pose proof (one_bound w l). lia. }
    rewrite E3. run. eexists p3, _. split; [done|]. rewrite Hsome. cbn [default from_option id]. cbn [refs] in Er3.
    assert (refs p3 = refs p ++ [w]) as Er by congruence.
    assert (survive (heap p) (owned p es) (heap p3) (owned p3 es)) as Hsurv.
    { intros j. rewrite (owned_snoc p p3 w es j Er). intros Hj. eapply (survive_trans _ _ _ _ _ _ Sv1 (survive_trans _ _ _ _ _ _ Sv2 Sv3)). lia. }
    split_and!; [|done|done]. apply Hdone; [|done]. split; [|done]. destruct Hs3 as [ls3 Hs3]. exists ls3. eapply sound_ext; [exact Hs3|].
    intros j. rewrite (owned_snoc p p3 w es j Er). lia.
Qed.

(** [erase] *)
Lemma del_spec p m bs fr M k s : maps p m bs fr M -> room p bs fr < 2 ^ 31 - 5 -> key_text p k s -> exists p' m' bs' fr',
  mapref.erase self p (Some m) k = Some (p', Some m', bool_decide (is_Some (M !! s))) /\ maps p' m' bs' fr' (delete s M) /\
  room p' bs' fr' <= room p bs fr /\ leads p (owned p (concat bs)) p' (owned p' (concat bs')).
Proof.
  intros Hm Hroom Hkey. pose proof Hm as [[Hs Hz [ls Hsound] Hc Hi] Hk Hb].
  destruct (call_search p m bs fr M k s (MapRef.modify self) (MapRef.commit self) Hm Hroom Hkey) as
    (kl & kc & m1 & root & B1 & b & B2 & Hkr & Hkt & Eko & Epath & Em & He & Hleft & -> & Hat & Hcase).
  { intros path root. by apply modify_call. }
  pose proof (entered_shape _ _ _ _ He Hs) as Hs1. assert (Map.size m1 = Map.size m) as Ez1 by (by destruct He as [? ->]).
  unfold mapref.erase. rewrite Eko. run. rewrite Epath. run. rewrite Em. run. change (the_map (Some m1)) with m1.
  destruct Hcase as [[Hnone Es]|(b1 & x & l & w & b2 & p1 & -> & Hsome & Ht & E1 & Es)]; rewrite Es; run.
  - destruct (Hleft p m1) as (si & Hsi & ->); [done|]. run. rewrite Hnone, bool_decide_false by (by intros [? ?]).
    eexists p, _, (B1 ++ b :: B2), fr. split; [done|]. pose proof (leads_refl _ _ _ Hsound) as HL. rewrite delete_id by done.
    split; [|split; [lia|exact HL]].
    apply (settle p _ p m _ _ _ _ (proj2 HL)); [by eapply map_shape_same|done|by destruct He as [? ->]|done|done|done|done|done].
  - rewrite Hsome, bool_decide_true by (by eexists). pose proof (owned_room p (B1 ++ (b1 ++ b2) :: B2) fr) as Hbnd. rewrite room_mid in Hroom.
    assert (forall j, owned p (concat (B1 ++ (b1 ++ (x, (Some l, w)) :: b2) :: B2)) j =
      owned p (concat (B1 ++ (b1 ++ b2) :: B2)) j + one (Some l) j + one w j) as HR by (intros j; rewrite concat_mid, concat_out; apply owned_mid).
    destruct (retain_leads p _ ls (Some l) Hsound) as (q & Eq & L1).
    { intros j [= <-]. rewrite HR, one_eq. specialize (Hbnd l). pose proof (one_bound w l). lia. }
    rewrite E1 in Eq. injection Eq as <-. pose proof L1 as (Er1 & (ls1 & Hs1') & _).
    destruct (release_leads p1 _ ls1 (Some l) Hs1') as (p2 & E2 & L2).
    { intros j [= <-]. rewrite HR, one_eq. specialize (Hbnd l). pose proof (one_bound w l). lia. }
    pose proof L2 as (Er2 & (ls2 & Hs2) & _).
    destruct (release_leads p2 _ ls2 w Hs2) as (p3 & E3 & L3).
    { intros j ->. rewrite HR, one_eq. specialize (Hbnd j). pose proof (one_bound (Some l) j). lia. }
    pose proof L3 as (Er3 & (ls3 & Hs3) & _).
    destruct (release_leads p3 _ ls3 (Some l) Hs3) as (p4 & E4 & L4).
    { intros j [= <-]. rewrite HR, one_eq. specialize (Hbnd l). pose proof (one_bound w l). lia. }
    pose proof L4 as (Er4 & _).
    assert (leads p (owned p (concat (B1 ++ (b1 ++ (x, (Some l, w)) :: b2) :: B2))) p4 (owned p4 (concat (B1 ++ (b1 ++ b2) :: B2)))) as HL.
    { eapply leads_ext; [eapply leads_trans; [exact L1|eapply leads_trans; [exact L2|eapply leads_trans; [exact L3|exact L4]]]|].
      intros j. rewrite (owned_refs p) by congruence. rewrite HR. lia. }
    destruct (remove_shape p1 p2 p3 m1 B1 b1 x (Some l, w) b2 B2 fr (hash s) Hs1) as (m2 & Erm & Hs2' & Hsame & _); [|pose proof (zlen_nonneg fr) as Hfr; pose proof (zlen_nonneg (refs p))|done|done|].
    { unfold at_path. by rewrite Ez1. }
    { rewrite concat_mid, !zlen_app, zlen_cons, !zlen_app. unfold room in Hroom. rewrite concat_out, !zlen_app in Hroom. lia. }
    unfold MapRef.remove. rewrite Erm. run. destruct (Hleft p3 m2 Hsame) as (si & Hsi & ->). run. rewrite E4. run.
    eexists p4, _, (B1 ++ (b1 ++ b2) :: B2), (x :: fr). split; [done|]. destruct Hsame as (Hsz & Hco & Hlk). split; [|split; [|exact HL]].
    + apply (settle p _ p4 m _ _ _ _ (proj2 HL)); [by eapply map_shape_same|done|cbn; congruence|done|done|done| |].
      * apply keyed_mid in Hk as (Hkb & Hk1 & Hk2). apply keyed_mid. split; [|done]. apply list.Forall_app in Hkb as [Hkb1 Hkb2].
        inversion Hkb2; subst. by apply list.Forall_app.
      * rewrite concat_mid in Hb. rewrite concat_out. by eapply bound_delete.
    + rewrite room_mid. unfold room. rewrite (proj1 HL), zlen_cons. lia.
Qed.

(** ** Sessions *)

(** What a program does with a map: set the value of key [k] to what reference [v] has,
    look key [k] up, which gives a new reference, and erase it. *)
Inductive command := Put (k v : nat) | Get (k : nat) | Del (k : nat).

(** [erased] has what the calls of [erase] returned. *)
Record session := Session { prog : program; map_of : option Map.t; erased : list bool }.

Definition exec (s : session) (c : command) : option session :=
  match c with
  | Put k v => '(p, m) ← mapref.value self (prog s) (map_of s) k v; Some (Session p m (erased s))
  | Get k => '(p, m) ← mapref.at_ self (prog s) (map_of s) k; Some (Session p m (erased s))
  | Del k => '(p, m, b) ← mapref.erase self (prog s) (map_of s) k; Some (Session p m (erased s ++ [b]))
  end.

Fixpoint execs (s : session) (cs : list command) : option session :=
  match cs with [] => Some s | c :: cs => s ← exec s c; execs s cs end.

(** The abstract machine, where [T] has the texts of the objects. *)
Record machine := Machine { table : dict; vars : list (option StringObj.loc); found : list bool }.

Definition key_at (T : StringObj.loc -> option (list Z)) (vs : list (option StringObj.loc)) (k : nat) : option (list Z) :=
  r ← vs !! k; l ← r; T l.

Definition spec (T : StringObj.loc -> option (list Z)) (a : machine) (c : command) : option machine :=
  match c with
  | Put k v => s ← key_at T (vars a) k; val ← vars a !! v; Some (Machine (<[s := val]> (table a)) (vars a) (found a))
  | Get k => s ← key_at T (vars a) k; Some (Machine (table a) (vars a ++ [default None (table a !! s)]) (found a))
  | Del k => s ← key_at T (vars a) k;
      Some (Machine (delete s (table a)) (vars a) (found a ++ [bool_decide (is_Some (table a !! s))]))
  end.

Fixpoint specs (T : StringObj.loc -> option (list Z)) (a : machine) (cs : list command) : option machine :=
  match cs with [] => Some a | c :: cs => a ← spec T a c; specs T a cs end.

(** A session that has come from the program [p0] represents the machine. *)
Record stands_for (p0 : program) (R0 : StringObj.loc -> Z) (n : Z) (s : session) (a : machine) : Prop := {
  st_map : exists m bs fr, map_of s = Some m /\ maps (prog s) m bs fr (table a) /\ room (prog s) bs fr <= n /\
    survive (heap p0) R0 (heap (prog s)) (owned (prog s) (concat bs));
  st_vars : refs (prog s) = vars a;
  st_found : erased s = found a;
  st_old : refs p0 `prefix_of` refs (prog s) }.

Lemma key_stands p0 R0 n s a k t : stands_for p0 R0 n s a -> key_at (text_of (heap p0)) (vars a) k = Some t -> key_text (prog s) k t.
Proof.
  intros [(m & bs & fr & _ & _ & _ & Hsv) Ev _ _] Hk. unfold key_at in Hk. rewrite <- Ev in Hk.
  destruct (refs (prog s) !! k) as [[l|]|] eqn:Hr; try done. cbn in Hk. exists l. split; [done|].
  eapply survive_text; [exact Hsv| |done]. by eapply ref_owned.
Qed.

Lemma exec_spec p0 R0 n s a c a' : stands_for p0 R0 n s a -> n < 2 ^ 31 - 5 -> spec (text_of (heap p0)) a c = Some a' ->
  exists s', exec s c = Some s' /\ stands_for p0 R0 (n + 2) s' a'.
Proof.
  intros Hst Hn Hsp. pose proof Hst as [(m & bs & fr & Em & Hm & Hroom & Hsv) Ev Ef Hold].
  destruct c as [k v|k|k]; cbn [spec] in Hsp; destruct (key_at _ _ k) as [t|] eqn:Hk; try done; cbn in Hsp;
    pose proof (key_stands _ _ _ _ _ _ _ Hst Hk) as Hkey; cbn [exec]; rewrite Em.
  - destruct (vars a !! v) as [val|] eqn:Hv; [|done]. cbn in Hsp. injection Hsp as <-. rewrite <- Ev in Hv.
    destruct (put_value_spec _ m bs fr _ k v t val Hm ltac:(lia) Hkey Hv) as (p' & m' & bs' & fr' & -> & Hm' & Hr' & HL).
    run. eexists. split; [done|]. pose proof (proj1 HL) as Er. split; cbn; [|congruence|done|by rewrite Er].
    exists m', bs', fr'. split_and!; [done|done|lia|]. eapply survive_trans; [exact Hsv|apply HL].
  - injection Hsp as <-. destruct (look_up_spec _ m bs fr _ k t Hm ltac:(lia) Hkey) as (p' & m' & -> & Hm' & Er & Hsv').
    run. eexists. split; [done|]. split; cbn; [|congruence|done|rewrite Er; by apply prefix_app_r].
    exists m', bs, fr. split_and!; [done|done| |by eapply survive_trans]. unfold room in *. rewrite Er, zlen_app. cbn. unfold zlen at 2. cbn. lia.
  - injection Hsp as <-. destruct (del_spec _ m bs fr _ k t Hm ltac:(lia) Hkey) as (p' & m' & bs' & fr' & -> & Hm' & Hr' & HL).
    run. eexists. split; [done|]. pose proof (proj1 HL) as Er. split; cbn; [|congruence|by rewrite Ef|by rewrite Er].
    exists m', bs', fr'. split_and!; [done|done|lia|]. eapply survive_trans; [exact Hsv|apply HL].
Qed.

Lemma execs_spec p0 R0 cs : forall n s a a', stands_for p0 R0 n s a -> n + 2 * zlen cs < 2 ^ 31 - 5 ->
  specs (text_of (heap p0)) a cs = Some a' -> exists s', execs s cs = Some s' /\ stands_for p0 R0 (n + 2 * zlen cs) s' a'.
Proof.
  induction cs as [|c cs IH]; intros n s a a' Hst Hn Hsp; cbn [specs execs] in *.
  - injection Hsp as <-. exists s. split; [done|]. by replace (n + 2 * zlen (@nil command)) with n by (unfold zlen; cbn; lia).
  - rewrite zlen_cons in *. pose proof (zlen_nonneg cs). destruct (spec _ a c) as [a1|] eqn:E; [|done]. cbn in Hsp.
    destruct (exec_spec p0 R0 n s a c a1 Hst ltac:(lia) E) as (s1 & -> & Hst1). run.
    destruct (IH (n + 2) s1 a1 a' Hst1 ltac:(lia) Hsp) as (s2 & -> & Hst2). exists s2. split; [done|].
    by replace (n + 2 * (zlen cs + 1)) with (n + 2 + 2 * zlen cs) by lia.
Qed.

(** C37.  A shared map is a finite map.  Whatever a program sets, looks up and erases with
    keys that are texts, the map is the finite map that these commands make, look ups
    give references to the objects it has, [erase] says whether there was one and
    [count] is their number; every other reference of the program shows what it showed,
    the counts of all objects stay exact, and the lock is free after each call. *)
Theorem mapref_refines (p : program) (m : Map.t) (bs : list (list (loc * entry))) (fr : list loc) (M : dict)
    (cs : list command) (a : machine) :
  maps p m bs fr M -> room p bs fr + 2 * zlen cs < 2 ^ 31 - 5 ->
  specs (text_of (heap p)) (Machine M (refs p) []) cs = Some a -> exists p' m' bs' fr',
  execs (Session p (Some m) []) cs = Some (Session p' (Some m') (found a)) /\ maps p' m' bs' fr' (table a) /\
  refs p' = vars a /\ MapRef.count (Some m') = Z.of_nat (base.size (table a)) /\
  (forall i, (i < length (refs p))%nat -> TyperefLaws.value p' i = TyperefLaws.value p i).
Proof.
  intros Hm Hroom Hsp. pose proof Hm as [[_ _ [ls Hs] _ _] _ _].
  destruct (execs_spec p (owned p (concat bs)) cs (room p bs fr) (Session p (Some m) []) (Machine M (refs p) []) a) as
    ([p' r e] & -> & [(m' & bs' & fr' & Em & Hm' & _ & Hsv) Ev Ef [rs Eold]]); [|done|done|].
  { split; [|done..]. exists m, bs, fr. split_and!; [done|done|done|]. intros l Hl. split; [done|]. intros c Hc. by exists c. }
  cbn in *. subst. exists p', m', bs', fr'. pose proof Hm' as [[Hsh _ _ _ _] _ Hb]. split_and!; [done|done|done| |].
  - cbn. by rewrite (sh_count _ _ _ Hsh), (bound_size _ _ _ Hb).
  - intros i Hi. destruct (lookup_lt_is_Some_2 _ _ Hi) as [r Hr].
    assert (refs p' !! i = Some r) as Hr' by (rewrite Eold; by apply lookup_app_l_Some).
    eapply kept_value; [by exists ls|exact Hsv|done|done|]. intros l ->. by eapply ref_owned.
Qed.

End commands.

(** ** A program *)

Lemma concat_empty n : concat (replicate n (@nil (loc * entry))) = [].
Proof. by induction n. Qed.

(** A new map. *)
Lemma maps_make p ls (n : nat) : ok p ls -> (0 < n)%nat ->
  maps p (Map.retain (Map.make (Z.of_nat n))) (replicate n []) [] ∅.
Proof.
  intros [Hs Hsm] Hn. split; [split| |].
  - split; cbn; rewrite ?Nat2Z.id, ?concat_empty; try done.
    + unfold zlen. by rewrite length_replicate.
    + clear. by induction n; constructor.
    + constructor.
  - cbn. lia.
  - exists ls. eapply sound_ext; [exact Hs|]. intros l. rewrite concat_empty. unfold owned. cbn. lia.
  - cbn. done.
  - by split_and!.
  - clear. assert (forall i, keyed (heap p) (Z.of_nat n) i (replicate n [])) as H; [|apply H].
    generalize (Z.of_nat n). intros z. induction n; intros i; cbn; [done|]. by split.
  - rewrite concat_empty. exists []. by rewrite map_to_list_empty.
Qed.

(** Two keys, one of them twice. *)
Definition scene : list command := [Put 0 3; Put 3 0; Get 2; Put 2 2; Del 3; Get 0].

Lemma mapref_refines_witness : exists p' m' bs' fr' a,
  execs 0 (Session TyperefRuns.sample (Some (Map.retain (Map.make 37))) []) scene = Some (Session p' (Some m') [true]) /\
  maps p' m' bs' fr' (table a) /\ refs p' = [Some 1; None; Some 1; Some 2; Some 2; Some 1]%positive /\ MapRef.count (Some m') = 1.
Proof.
  destruct (mapref_refines 0 TyperefRuns.sample (Map.retain (Map.make 37)) (replicate 37 []) [] ∅ scene
    (Machine {[bytes "ab" := Some 1%positive]} [Some 1; None; Some 1; Some 2; Some 2; Some 1]%positive [true]))
    as (p' & m' & bs' & fr' & E & Hm & Er & Ec & _); [apply (maps_make _ [] 37 TyperefRuns.sample_refs_ok); lia|reflexivity|vm_compute; reflexivity|].
  exists p', m', bs', fr', (Machine {[bytes "ab" := Some 1%positive]} [Some 1; None; Some 1; Some 2; Some 2; Some 1]%positive [true]).
  split; [exact E|]. split; [exact Hm|]. split; [exact Er|]. exact Ec.
Defined.
