(* ===== verification/MaprefSteps.v ===== *)
(** * Going through a shared map

    An [Instance] goes through the chains of a map one after the other. *)

From stdpp Require Import gmap list strings.
From S2P Require Import Prelude CLib StringObj Typeref TyperefLaws TyperefRuns Linked LinkedLaws Mapref MaprefLaws MaprefRuns.
Import TypeRef Map Instance.
Local Open Scope Z_scope.

Section map.
Context (m : Map.t) (bs : list (list (loc * entry))) (fr : list loc) (Hm : shape m bs fr).

Definition chains (ls : list (option loc)) (cs : list (list (loc * entry))) : Prop :=
  Forall2 (fun root b => lst (pool m) root (items b)) ls cs.

(** The objects that are still to come. *)
Inductive ahead (it : t) : list (loc * entry) -> Prop :=
  | ahead_end : attached it = true -> index it = None -> path it = size m -> ahead it []
  | ahead_at x e b L1 r L2 cs : attached it = true -> index it = Some x -> lists m = L1 ++ r :: L2 -> path it = zlen L1 ->
      lst (pool m) (Some x) (items ((x, e) :: b)) -> chains L2 cs -> ahead it (((x, e) :: b) ++ concat cs).

Lemma next_loop_spec cs : forall L1 L2 fuel, lists m = L1 ++ L2 -> chains L2 cs -> (length L2 < fuel)%nat ->
  exists it, next_loop fuel m (zlen L1 - 1) = Some (it, negb (bool_decide (concat cs = []))) /\ ahead it (concat cs).
Proof.
  pose proof (sh_size _ _ _ Hm) as Hz. induction cs as [|b cs IH]; intros L1 L2 [|fuel] EL Hc Hf; try lia; inversion Hc as [|r ? L3 ? Hr Hc']; subst.
  - cbn [next_loop]. rewrite app_nil_r in EL. rewrite EL in Hz. replace (zlen L1 - 1 + 1) with (size m) by lia.
    rewrite Z.ltb_irrefl. eexists. split; [done|]. by constructor.
  - cbn [next_loop]. replace (zlen L1 - 1 + 1) with (zlen L1) by lia. rewrite EL, zlen_app, zlen_cons in Hz. pose proof (zlen_nonneg L3).
    rewrite (proj2 (Z.ltb_lt _ _)) by lia. rewrite EL, rd_mid by done. run. destruct b as [|[x e] b].
    + cbn in Hr. subst r. cbn [length] in Hf. destruct (IH (L1 ++ [None]) L3 fuel) as (it & E & Ha);
        [by rewrite <- app_assoc|done|lia|]. rewrite zlen_app in E. replace (zlen L1 + zlen [None] - 1) with (zlen L1) in E by (unfold zlen; cbn; lia). by exists it.
    + pose proof Hr as [-> _]. eexists. split; [done|]. cbn [concat]. by eapply ahead_at.
Qed.

Lemma next_spec it xe es : ahead it (xe :: es) -> exists it', next m it = Some (it', negb (bool_decide (es = []))) /\ ahead it' es.
Proof.
  intros Ha. inversion Ha as [|x e b L1 r L2 cs Hat Hi EL Ep Hl Hc E]; subst. unfold next. rewrite Hat, Hi.
  destruct Hl as (_ & n & Hn & Hl). cbn [fst] in Hn. unfold get_node. rewrite Hn. run. destruct b as [|[y f] b].
  - cbn in Hl. rewrite Hl, Ep. pose proof (sh_size _ _ _ Hm) as Hz. cbn [app].
    destruct (next_loop_spec cs (L1 ++ [r]) L2 (S (Z.to_nat (size m)))) as (it' & E & Ha'); [by rewrite <- app_assoc|done| |].
    { rewrite <- Hz, EL. unfold zlen. rewrite length_app. cbn. lia. }
    replace (zlen (L1 ++ [r]) - 1) with (zlen L1) in E by (unfold zlen; rewrite length_app; cbn; lia). by exists it'.
  - pose proof Hl as [E _]. cbn [fst] in E. rewrite E in Hl |- *. eexists. split; [done|]. rewrite Ep. by eapply (ahead_at _ y f b L1 r L2 cs).
Qed.

Lemma rewind_spec it : attached it = true -> 0 < size m -> exists it', rewind m it = Some it' /\ ahead it' (concat bs).
Proof.
  intros Hat Hz. unfold rewind. rewrite Hat. pose proof (sh_size _ _ _ Hm) as Hs. pose proof (sh_chains _ _ _ Hm) as Hc.
  destruct (lists m) as [|r L] eqn:EL; [unfold zlen in Hs; cbn in Hs; lia|]. cbn [rd]. rewrite rd_cons_0. run.
  assert (exists b cs, bs = b :: cs /\ lst (pool m) r (items b) /\ chains L cs) as (b & cs & Ebs & Hr & Hc').
  { inversion Hc; subst. by do 2 eexists. }
  rewrite Ebs. destruct b as [|[x e] b].
  - cbn in Hr. subst r. unfold next. cbn [attached index path]. run.
    destruct (next_loop_spec cs [None] L (S (Z.to_nat (size m)))) as (it' & E & Ha); [done|done| |].
    { rewrite <- Hs. unfold zlen. cbn. lia. }
    change (zlen [None] - 1) with 0 in E. rewrite E. run. by exists it'.
  - pose proof Hr as [-> _]. eexists. split; [done|]. by eapply (ahead_at _ x e b [] (Some x) L cs).
Qed.

(** The keys and values that a loop over the map sees, and where it ends. *)
Fixpoint visit (fuel : nat) (it : t) : option (list entry * t) :=
  match fuel with
  | O => None
  | S f =>
      match index it with
      | None => Some ([], it)
      | Some _ =>
          k ← key m it; v ← value m it;
          '(it, _) ← next m it;
          '(l, it) ← visit f it; Some ((k, v) :: l, it)
      end
  end.

Lemma visit_spec es : forall it fuel, ahead it es -> Forall (fun xe => entries m !! fst xe = Some (snd xe)) es ->
  (length es < fuel)%nat -> exists it', visit fuel it = Some (map snd es, it') /\ eol m it' = true.
Proof.
  induction es as [|[x e] es IH]; intros it [|fuel] Ha He Hf; cbn [length] in Hf; try lia.
  - exists it. inversion Ha as [Hat Hi Hp|]; subst. cbn [visit]. rewrite Hi. split; [done|].
    unfold eol. rewrite Hat, Hp. cbn. apply Z.leb_refl.
  - cbn [visit]. inversion He as [|? ? Hx He']; subst. cbn in Hx. destruct (next_spec it _ _ Ha) as (it1 & E & Ha1).
    destruct (IH it1 fuel Ha1 He') as (it2 & E2 & Heol); [lia|]. exists it2.
    assert (index it = Some x) as Hi by (inversion Ha; congruence). rewrite Hi. unfold key, value. rewrite Hi, Hx. run. rewrite E. run. rewrite E2. run.
    split; [|done]. by destruct e.
Qed.

End map.

(** C38.  Going through a map from its beginning sees every key with its value exactly
    once, and ends. *)
Theorem mapref_visits (p : program) (m : Map.t) (bs : list (list (loc * entry))) (fr : list loc) (M : dict) :
  maps p m bs fr M -> exists it l it', rewind m (Instance.Mk true None 0) = Some it /\
  visit m (S (Z.to_nat (count m))) it = Some (l, it') /\ eol m it' = true /\
  exists tvs, tvs ≡ₚ map_to_list M /\
    Forall2 (fun e tv => exists k, e = (Some k, snd tv) /\ text_of (heap p) k = Some (fst tv)) l tvs.
Proof.
  intros [[Hs Hz _ _ _] _ (tvs & H2 & Hp)]. destruct (rewind_spec m bs fr Hs (Instance.Mk true None 0) eq_refl Hz) as (it & E & Ha).
  destruct (visit_spec m bs fr Hs (concat bs) it (S (Z.to_nat (count m))) Ha (sh_entries _ _ _ Hs)) as (it' & Ev & Heol).
  { rewrite (sh_count _ _ _ Hs). unfold zlen. lia. }
  exists it, (map snd (concat bs)), it'. split_and!; [done|done|done|]. exists tvs. split; [done|]. clear - H2.
  induction H2 as [|xe tv es tvs (l & Ex & Et) H2 IH]; constructor; [|done]. exists l. by rewrite Ex.
Qed.

(** A map of two chains that gets one object. *)
Definition small : session := Session TyperefRuns.sample (Some (Map.retain (Map.make 2))) [].

Lemma mapref_visits_witness : exists p m it l it' tvs, execs 0 small [Put 0 3] = Some (Session p (Some m) []) /\
  rewind m (Instance.Mk true None 0) = Some it /\ visit m (S (Z.to_nat (count m))) it = Some (l, it') /\ eol m it' = true /\
  tvs ≡ₚ map_to_list ({[bytes "ab" := Some 2%positive]} : dict) /\
  Forall2 (fun e tv => exists k, e = (Some k, snd tv) /\ text_of (heap p) k = Some (fst tv)) l tvs.
Proof.
  pose proof (maps_make _ [] 2 TyperefRuns.sample_refs_ok ltac:(lia)) as H0.
  destruct (execs_spec 0 TyperefRuns.sample (owned TyperefRuns.sample (concat (replicate 2 []))) [Put 0 3] 4 small
    (Machine ∅ (refs TyperefRuns.sample) []) (Machine {[bytes "ab" := Some 2%positive]} (refs TyperefRuns.sample) []))
    as ([p r e] & E & [(m & bs & fr & Em & Hm & _ & _) _ Ef _]); [|done|vm_compute; reflexivity|].
  { split; [|done..]. exists (Map.retain (Map.make 2)), (replicate 2 []), []. split_and!; [done|exact H0|done|].
    intros l Hl. split; [done|]. intros c Hc. by exists c. }
  cbn [map_of erased found] in Em, Ef. subst r e.
  destruct (mapref_visits p m bs fr _ Hm) as (it & l & it' & E1 & E2 & E3 & tvs & E4 & E5).
  exists p, m, it, l, it', tvs. split_and!; [exact E|exact E1|exact E2|exact E3|exact E4|exact E5].
Defined.

(** ** What calls come to otherwise *)

(** An offset behind the end of a list dereferences a null pointer. *)
Example list_behind : listref.at_ 0 TyperefRuns.sample listref.make_ref 0 = None /\
  listref.take 0 TyperefRuns.sample listref.make_ref 0 = None.
Proof. done. Qed.

(** A list in the order in which it was filled, and without the second member. *)
Example list_filled : exists p r r2, (x ← listref.append 0 TyperefRuns.sample listref.make_ref 0; listref.append 0 (fst x) (snd x) 3) = Some (p, r) /\
  (x ← listref.at_ 0 p r 1; Some (refs (fst x))) = Some [Some 1; None; Some 1; Some 2; Some 2]%positive /\
  (listref.erase 0 p r 3 = Some (fst (default (p, r, true) (listref.erase 0 p r 3)), true)) /\
  listref.take 0 p r 0 = Some r2 /\ MapRef.count (snd r2) = 1.
Proof.
  eexists _, _, _. split; [vm_compute; reflexivity|]. split; [vm_compute; reflexivity|]. split; [vm_compute; reflexivity|].
  split; [vm_compute; reflexivity|]. reflexivity.
Qed.

(** A place that is assigned to itself is lost. *)
Example place_lost : exists m it, Instance.make 0 (Map.retain (Map.make 1)) = Some (m, it) /\ attached it = true /\
  exists m', assign_self 0 TyperefRuns.sample m it = Some (TyperefRuns.sample, m', none).
Proof. eexists _, _. split; [reflexivity|]. split; [done|]. eexists. reflexivity. Qed.
