(* ===== verification/Timers.v ===== *)
(** * Timers and timer queues (corelib/timer.cpp, inc/ucommon/timers.h)

    A [Timer] is a time of the clock and the mark [updated].  The clock counts seconds
    and a fraction of [1000 * ms] units, microseconds with [gettimeofday] and nanoseconds
    with the POSIX clock.  The calls read the clock in the order of the readings; the
    functions [modify] and [update] of a queue and [expired] of an event are the
    program's. *)

From stdpp Require Import gmap list.
From S2P Require Import Prelude Linked.

(** [ms] is the number of units of a millisecond. *)
Definition second (ms : Z) : Z := 1000 * ms.

Record time := Time { tv_sec : Z; tv_frac : Z }.

Module Timer.
Section clock.
Context (ms : Z).
Abbreviation second := (second ms).

Record t := Mk { timer : time; updated : bool }.

Definition inf : Z := 2 ^ 64 - 1.

(** [adj] *)
Definition adj (ts : time) : time :=
  let s := if second <=? tv_frac ts then tv_sec ts + Z.quot (tv_frac ts) second else tv_sec ts in
  let f := Z.rem (tv_frac ts) second in
  Time s (if f <? 0 then - f else f).

(** [set ()], [clear] and [update] *)
Definition set (now : time) : t := Mk now true.
Definition clear : t := Mk (Time 0 0) false.
Definition update (s : t) : t * bool := (Mk (timer s) false, updated s).

Definition is_active (s : t) : bool := negb ((tv_sec (timer s) =? 0) && (tv_frac (timer s) =? 0)).

(** The time left in milliseconds. *)
Definition get (now : time) (s : t) : Z :=
  let current := adj now in
  if tv_sec (timer s) <? tv_sec current then 0
  else if (tv_sec current =? tv_sec (timer s)) && (tv_frac (timer s) <? tv_frac current) then 0
  else
    let diff := u64 ((tv_sec (timer s) - tv_sec current) * 1000) in
    u64 (diff + Z.quot (tv_frac (timer s) - tv_frac current) ms).

(** [operator bool] and [operator!] *)
Definition expired (now : time) (s : t) : bool := get now s =? 0.

(** [operator+=] and [operator-=] of a number of milliseconds; a timer that is not
    active is set to [now] first. *)
Definition armed (now : time) (s : t) : t := if is_active s then s else set now.

Definition add (now : time) (s : t) (to : Z) : t :=
  let s := armed now s in
  Mk (adj (Time (tv_sec (timer s) + to / 1000) (tv_frac (timer s) + to mod 1000 * ms))) true.

Definition sub (now : time) (s : t) (to : Z) : t :=
  let s := armed now s in
  Mk (adj (Time (tv_sec (timer s) - to / 1000) (tv_frac (timer s) - to mod 1000 * ms))) (updated s).

(** [set], [operator=] and the constructor: the clock is read, and once more when it
    reads zero. *)
Definition set_timeout (now now2 : time) (to : Z) : t := add now2 (set now) to.
Definition assign (now now2 : time) (s : t) (to : Z) : t := add now2 (Mk now (updated s)) to.

(** The same for a point in calendar time, of which [wall] is the present. *)
Definition set_time (now : time) (wall at_ : Z) : t := Mk (Time (tv_sec now + (at_ - wall)) (tv_frac now)) true.
Definition add_time (now : time) (wall : Z) (s : t) (abs : Z) : t :=
  let s := armed now s in Mk (Time (tv_sec (timer s) + (abs - wall)) (tv_frac (timer s))) true.
Definition sub_time (now : time) (wall : Z) (s : t) (abs : Z) : t :=
  let s := armed now s in Mk (Time (tv_sec (timer s) - (abs - wall)) (tv_frac (timer s))) (updated s).
Definition assign_time (now : time) (wall : Z) (s : t) (abs : Z) : t :=
  if abs =? 0 then Mk now (updated s) else Mk (Time (tv_sec now + (abs - wall)) (tv_frac now)) true.

(** [operator-], and the comparisons, of timers: each reads the clock for both. *)
Definition minus (now1 now2 : time) (s source : t) : Z :=
  let tv := get now1 s in
  let dv := get now2 source in
  if tv =? 0 then 0 else if tv =? inf then inf else if dv =? inf then tv else if tv <? dv then 0 else u64 (tv - dv).

Definition eq (now1 now2 : time) (s source : t) : bool := get now1 s =? get now2 source.
Definition lt (now1 now2 : time) (s source : t) : bool := get now1 s <? get now2 source.
Definition le (now1 now2 : time) (s source : t) : bool := get now1 s <=? get now2 source.

(** [ticks]: tenths of a microsecond since 1582, from a time of day. *)
Definition ticks (sec usec : Z) : Z :=
  u64 (u64 (sec * 10000000) + usec * 10 + Z.shiftl 0x01B21DD2 32 + 0x13814000).

End clock.
End Timer.

(** ** Queues *)

Module TimerQueue.

(** What a queue is told. *)
Inductive call := Modify (q : loc) | Update (q : loc).

(** The links of events and queues, the timers of the events, how often the clock has
    been read, and the calls of [modify] and [update]. *)
Record state := State { links : Linked.mem; timers : gmap loc Timer.t; readings : nat; calls : list call }.

Definition with_links (s : state) (m : Linked.mem) : state := State m (timers s) (readings s) (calls s).
Definition with_timer (s : state) (e : loc) (t : Timer.t) : state := State (links s) (<[e := t]> (timers s)) (readings s) (calls s).
Definition tell (s : state) (c : call) : state := State (links s) (timers s) (readings s) (calls s ++ [c]).

Section events.
Context (ms : Z) (clock : nat -> time).

Definition read_clock (s : state) : state * time := (State (links s) (timers s) (S (readings s)) (calls s), clock (readings s)).

(** [list] *)
Definition list_of (s : state) (e : loc) : option (option loc) := n ← Linked.get_node (links s) e; Some (Root n).

(** [set (timeout)] and [get] of the timer of an event. *)
Definition set_timer (s : state) (e : loc) (to : Z) : state :=
  let '(s, now) := read_clock s in
  if Timer.is_active (Timer.set now) then with_timer s e (Timer.set_timeout ms now now to)
  else let '(s, now2) := read_clock s in with_timer s e (Timer.set_timeout ms now now2 to).

Definition get (s : state) (e : loc) : option (state * Z) :=
  t ← timers s !! e; let '(s, now) := read_clock s in Some (s, Timer.get ms now t).

(** [Timer::update] *)
Definition update_timer (s : state) (e : loc) : option (state * bool) :=
  t ← timers s !! e; let '(t, b) := Timer.update t in Some (with_timer s e t, b).

Definition detach (s : state) (e : loc) : option state :=
  tq ← list_of s e;
  match tq with
  | None => Some s
  | Some q =>
      let s := with_timer (tell s (Modify q)) e Timer.clear in
      m ← DLinkedObject.delist (links s) e;
      Some (tell (with_links s m) (Update q))
  end.

Definition attach (s : state) (e : loc) (tq : option loc) : option state :=
  r ← list_of s e;
  if decide (tq = r) then Some s
  else
    s ← detach s e;
    match tq with
    | None => Some s
    | Some q =>
        let s := tell s (Modify q) in
        m ← DLinkedObject.enlist (links s) e q;
        '(s, _) ← update_timer (with_links s m) e;
        Some (tell s (Update q))
    end.

Definition told (s : state) (tq : option loc) (c : loc -> call) : state := match tq with Some q => tell s (c q) | None => s end.

Definition arm (s : state) (e : loc) (to : Z) : option state :=
  tq ← list_of s e; Some (told (set_timer (told s tq Modify) e to) tq Update).

Definition disarm (s : state) (e : loc) : option state :=
  tq ← list_of s e;
  t ← timers s !! e;
  if Timer.is_active t then Some (told (with_timer (told s tq Modify) e Timer.clear) tq Update)
  else Some (with_timer s e Timer.clear).

(** [update] of an event: a queue is told when its timer has been set. *)
Definition update (s : state) (e : loc) : option state :=
  tq ← list_of s e;
  '(s, b) ← update_timer s e;
  match tq with Some q => Some (if (b : bool) then tell (tell s (Modify q)) (Update q) else s) | None => Some s end.

(** The constructors, and the destructor. *)
Definition make (s : state) (e : loc) (to : Z) : state := set_timer (with_links s (DLinkedObject.make (links s) e)) e to.
Definition make_in (s : state) (e : loc) (tq : option loc) (to : Z) : option state :=
  '(s, _) ← update_timer (make s e to) e; attach s e tq.
Definition destroy (s : state) (e : loc) : option state := detach s e.

(** [operator+=] and [operator-=] of a queue *)
Definition add (s : state) (q e : loc) : option state := attach s e (Some q).
Definition remove (s : state) (q e : loc) : option state := r ← list_of s e; if decide (r = Some q) then detach s e else Some s.

Section expired.
Context (expired : state -> loc -> option state).

(** [timeout]: what is due is disarmed before the program is called. *)
Definition timeout (s : state) (e : loc) : option (state * Z) :=
  '(s, rest) ← get s e;
  t ← timers s !! e;
  if Timer.is_active t && (rest =? 0) then
    s ← disarm s e;
    s ← expired s e;
    '(s, rest) ← get s e;
    '(s, _) ← update_timer s e;
    Some (s, rest)
  else Some (s, rest).

(** [expire]: the next event is read before the program is called. *)
Fixpoint expire_loop (fuel : nat) (s : state) (timer : option loc) (first : Z) : option (state * Z) :=
  match fuel with
  | O => None
  | S f =>
      match timer with
      | None => Some (s, first)
      | Some tp =>
          n ← Linked.get_node (links s) tp;
          '(s, next) ← timeout s tp;
          expire_loop f s (Next n) (if negb (next =? 0) && (next <? first) then next else first)
      end
  end.

Definition expire (s : state) (q : loc) : option (state * Z) :=
  i ← indexes (links s) !! q; expire_loop (chain_fuel (links s)) s (head i) Timer.inf.

End expired.

End events.

End TimerQueue.
