(* ===== verification/TimerLaws.v ===== *)
(** * Laws of timers and timer queues

    The times of a timer are whole numbers of units; what [get] gives is the time left
    to within a millisecond.  A queue tells the time to the next deadline. *)

From stdpp Require Import gmap list.
From S2P Require Import Prelude Linked LinkedLaws Timers.
Local Open Scope Z_scope.

Section clock.
Context (ms : Z) (Hms : 0 < ms).
Import Timer.

(** The time as a number of units. *)
Definition units (t : time) : Z := tv_sec t * second ms + tv_frac t.
Definition normal (t : time) : Prop := 0 <= tv_frac t < second ms.

Lemma second_pos : 0 < second ms.
Proof. unfold Timers.second. lia. Qed.

(** [adj] keeps the time and makes the fraction one. *)
Lemma adj_spec s f : 0 <= f -> units (adj ms (Time s f)) = s * second ms + f /\ normal (adj ms (Time s f)).
Proof.
  intros Hf. pose proof second_pos as Hp. unfold adj, units, normal. cbn [tv_sec tv_frac].
  rewrite Z.rem_mod_nonneg, Z.quot_div_nonneg by lia. pose proof (Z.mod_pos_bound f _ Hp). destruct (Z.ltb_spec (f mod second ms) 0); [lia|].
  split; [|done]. destruct (Z.leb_spec (second ms) f); cbn.
  - pose proof (Z.div_mod f (second ms)). lia.
  - rewrite Z.mod_small; lia.
Qed.

Lemma adj_normal t : normal t -> adj ms t = t.
Proof.
  intros Hn. unfold normal, adj in *. destruct (Z.leb_spec (second ms) (tv_frac t)); [lia|].
  rewrite Z.rem_small by lia. destruct (Z.ltb_spec (tv_frac t) 0); [lia|]. by destruct t.
Qed.

(** The order of times is that of their units. *)
Lemma units_sec a b : normal a -> normal b -> tv_sec a < tv_sec b -> units a < units b.
Proof. unfold normal, units. intros. pose proof second_pos. nia. Qed.

Lemma quot_bounds d : - (1000 * ms) < d < 1000 * ms -> Z.abs (d - ms * Z.quot d ms) < ms /\ -1000 < Z.quot d ms < 1000.
Proof.
  intros Hd. assert (forall n, 0 <= n < 1000 * ms -> Z.abs (n - ms * Z.quot n ms) < ms /\ 0 <= Z.quot n ms < 1000) as H.
  { intros n Hn. rewrite Z.quot_div_nonneg by lia. pose proof (Z.div_mod n ms). pose proof (Z.mod_pos_bound n ms Hms).
    split; [lia|]. split; [apply Z.div_pos; lia|]. apply Z.div_lt_upper_bound; lia. }
  destruct (Z.le_gt_cases 0 d) as [Hp|Hp]; [destruct (H d); lia|].
  destruct (H (- d)) as [H1 H2]; [lia|]. rewrite Z.quot_opp_l in H1, H2 by lia. lia.
Qed.

(** What is left, between zero and a deadline that is not too far. *)
Lemma timer_get_spec now s : normal now -> normal (timer s) -> units (timer s) - units now < 2 ^ 63 * ms ->
  if units (timer s) <? units now then get ms now s = 0
  else get ms now s = (tv_sec (timer s) - tv_sec now) * 1000 + Z.quot (tv_frac (timer s) - tv_frac now) ms /\
    Z.abs (units (timer s) - units now - get ms now s * ms) < ms /\ 0 <= get ms now s.
Proof.
  intros Hn Ht Hfar. unfold get. rewrite adj_normal by done. set (D := timer s) in *.
  destruct (Z.ltb_spec (tv_sec D) (tv_sec now)) as [Hs|Hs].
  { pose proof (units_sec D now Ht Hn Hs). destruct (Z.ltb_spec (units D) (units now)); [done|lia]. }
  destruct (Z.eqb_spec (tv_sec now) (tv_sec D)) as [Es|Es]; cbn [andb].
  - destruct (Z.ltb_spec (tv_frac D) (tv_frac now)) as [Hf|Hf]; unfold units in *; rewrite Es.
    { destruct (Z.ltb_spec (tv_sec D * second ms + tv_frac D) (tv_sec D * second ms + tv_frac now)); [done|lia]. }
    destruct (Z.ltb_spec (tv_sec D * second ms + tv_frac D) (tv_sec D * second ms + tv_frac now)); [lia|].
    rewrite Z.sub_diag. cbn [Z.mul]. rewrite !Z.quot_div_nonneg by lia. change (u64 0) with 0. rewrite Z.add_0_l.
    pose proof (Z.div_mod (tv_frac D - tv_frac now) ms). pose proof (Z.mod_pos_bound (tv_frac D - tv_frac now) ms Hms).
    assert (0 <= (tv_frac D - tv_frac now) / ms) by (apply Z.div_pos; lia).
    assert ((tv_frac D - tv_frac now) / ms < 2 ^ 64) by nia. rewrite u64_id by lia. split; [done|]. split; [|done]. nia.
  - pose proof (units_sec now D Hn Ht ltac:(lia)). destruct (Z.ltb_spec (units D) (units now)); [lia|].
    set (q := Z.quot (tv_frac D - tv_frac now) ms).
    assert (Z.abs (tv_frac D - tv_frac now - ms * q) < ms /\ -1000 < q < 1000) as [Hq Hqb].
    { apply quot_bounds; unfold normal, Timers.second in *; lia. }
    assert (units D - units now = (tv_sec D - tv_sec now) * (1000 * ms) + (tv_frac D - tv_frac now)) as Eu by (unfold units, Timers.second; lia).
    rewrite Eu in *. assert (0 <= (tv_sec D - tv_sec now) * 1000 + q < 2 ^ 64 /\ (tv_sec D - tv_sec now) * 1000 < 2 ^ 64) as [Hb Hb2] by nia.
    rewrite (u64_id ((tv_sec D - tv_sec now) * 1000)) by lia. rewrite u64_id by lia. split; [done|]. nia.
Qed.

Lemma add_timer now s to : normal (timer s) -> 0 <= to -> is_active s = true ->
  units (timer (add ms now s to)) = units (timer s) + to * ms /\ normal (timer (add ms now s to)).
Proof.
  intros Ht Hto Ha. unfold add, armed. rewrite Ha. cbn [timer].
  destruct (adj_spec (tv_sec (timer s) + to / 1000) (tv_frac (timer s) + to mod 1000 * ms)) as [E H].
  { unfold normal in Ht. pose proof (Z.mod_pos_bound to 1000). nia. }
  split; [|done]. rewrite E. unfold units, Timers.second. pose proof (Z.div_mod to 1000). nia.
Qed.

(** A clock that does not read zero. *)
Definition running (now : time) : Prop := normal now /\ 0 < units now.

Lemma running_active s : running (timer s) -> is_active s = true.
Proof.
  intros [Hn Hu]. unfold is_active, units in *. destruct (Z.eqb_spec (tv_sec (timer s)) 0) as [E|]; [|done].
  destruct (Z.eqb_spec (tv_frac (timer s)) 0) as [E2|]; [|done]. rewrite E, E2 in Hu. lia.
Qed.

Lemma units_ltb_false a b : units b <= units a -> (units a <? units b) = false.
Proof. intros. destruct (Z.ltb_spec (units a) (units b)); [lia|done]. Qed.

(** The whole number of milliseconds that is less than one off. *)
Lemma nearest a b : Z.abs (a * ms - b * ms) < ms -> b = a.
Proof. nia. Qed.

(** C39.  A timer that is set to a number of milliseconds has that many left, and when it
    is prolonged the more; at any later time it has the time to its deadline left, to
    within a millisecond, and nothing when the deadline has passed. *)
Theorem timer_deadline (now now2 later : time) (to more : Z) :
  running now -> normal later -> 0 <= to < 2 ^ 62 -> 0 <= more < 2 ^ 62 -> units now <= units later ->
  let s := set_timeout ms now now2 to in
  let d := units now + to * ms in
  get ms now s = to /\ get ms now (add ms now2 s more) = to + more /\
  (d < units later -> get ms later s = 0 /\ expired ms later s = true) /\
  (units later <= d -> Z.abs (d - units later - get ms later s * ms) < ms /\ 0 <= get ms later s <= to).
Proof.
  intros Hr Hl Hto Hmore Hlate s d. pose proof Hr as [Hn Hpos].
  destruct (add_timer now2 (set now) to Hn) as [Eu Hs]; [lia|by apply running_active|]. cbn [timer set] in Eu.
  fold (set_timeout ms now now2 to) in Eu, Hs. fold s in Eu, Hs. fold d in Eu.
  assert (running (timer s)) as Hrs by (split; [done|]; rewrite Eu; unfold d; nia).
  destruct (add_timer now2 s more Hs) as [Em Hm]; [lia|by apply running_active|].
  split_and!.
  - pose proof (timer_get_spec now s Hn Hs) as H. rewrite units_ltb_false in H by (rewrite Eu; unfold d; nia).
    destruct H as (_ & H & _); [rewrite Eu; unfold d; nia|]. apply nearest. replace (to * ms) with (units (timer s) - units now) by (unfold d in Eu; lia). done.
  - pose proof (timer_get_spec now _ Hn Hm) as H. rewrite units_ltb_false in H by (rewrite Em, Eu; unfold d; nia).
    destruct H as (_ & H & _); [rewrite Em, Eu; unfold d; nia|]. apply nearest.
    replace ((to + more) * ms) with (units (timer (add ms now2 s more)) - units now) by (rewrite Em, Eu; unfold d; lia). done.
  - intros Hd. pose proof (timer_get_spec later s Hl Hs) as H. rewrite Eu, (proj2 (Z.ltb_lt _ _) Hd) in H.
    assert (get ms later s = 0) as E by (apply H; nia). split; [done|]. unfold expired. by rewrite E.
  - intros Hd. pose proof (timer_get_spec later s Hl Hs) as H. rewrite units_ltb_false in H by lia.
    destruct H as (_ & H & H0); [rewrite Eu; unfold d; nia|]. rewrite Eu in H. split; [done|]. split; [done|].
    assert (d - units later <= to * ms) by (unfold d; lia). nia.
Qed.

(** ** Queues *)

(** An event that is due at a time: it is armed and has nothing left. *)
Definition due (now : time) (t : Timer.t) : bool := Timer.is_active t && (Timer.get ms now t =? 0).

(** What is due stays due. *)
Lemma due_later now later t : normal now -> normal later -> normal (timer t) -> units now <= units later ->
  units (timer t) - units now < 2 ^ 63 * ms -> due now t = true -> due later t = true.
Proof.
  intros Hn Hl Ht Hle Hfar [Ha E%Z.eqb_eq]%andb_true_iff. apply andb_true_iff. split; [done|]. apply Z.eqb_eq.
  pose proof (timer_get_spec now t Hn Ht Hfar) as H1. pose proof (timer_get_spec later t Hl Ht ltac:(lia)) as H2.
  destruct (Z.ltb_spec (units (timer t)) (units later)) as [|Hge]; [done|]. rewrite units_ltb_false in H1 by lia.
  destruct H1 as (H1 & _), H2 as (-> & _). rewrite E in H1.
  assert (forall a, normal a -> 0 <= tv_frac a < 1000 * ms) as Hfr by (intros a Ha'; exact Ha').
  pose proof (Hfr _ Hn) as Fn. pose proof (Hfr _ Hl) as Fl. pose proof (Hfr _ Ht) as Ft.
  destruct (quot_bounds (tv_frac (timer t) - tv_frac now)) as [Q1 Q2]; [lia|].
  assert (tv_sec (timer t) = tv_sec now) as Es by lia. rewrite Es in *.
  assert (tv_sec later = tv_sec now) as El.
  { destruct (Z.lt_trichotomy (tv_sec later) (tv_sec now)) as [Hs|[Hs|Hs]]; [|done|].
    - pose proof (units_sec later now Hl Hn Hs). lia.
    - pose proof (units_sec (timer t) later Ht Hl ltac:(lia)). lia. }
  unfold units in *. rewrite Es, El in *. rewrite Z.sub_diag. cbn [Z.mul].
  apply Z.quot_small. split; [lia|]. assert (Z.quot (tv_frac (timer t) - tv_frac now) ms = 0) as E0 by lia.
  rewrite E0 in Q1. lia.
Qed.

Section queue.
Import TimerQueue.
Context (clock : nat -> time) (q : loc).

Definition timer_of (s : state) (e : loc) : Timer.t := default Timer.clear (timers s !! e).

(** [expired] of the events, the program's.  It is called when the event, which is in its
    queue, has been disarmed.  It leaves the event in the queue or takes it out
    ([stays]), may arm it for whatever time, reads the clock and tells queues what it
    wants; the event is still there afterwards.  The timers of the other events it leaves
    alone, and their places in the queue. *)
Context (expired : state -> loc -> option state) (stays : loc -> bool).
Context (expired_runs : forall s k1 e k2, dlist (links s) q (k1 ++ e :: k2) ->
  (forall x, x ∈ k1 ++ e :: k2 -> is_Some (timers s !! x)) -> timers s !! e = Some Timer.clear ->
  exists s' t told, expired s e = Some s' /\
    dlist (links s') q (k1 ++ (if stays e then [e] else []) ++ k2) /\
    timers s' !! e = Some t /\ (forall x, x <> e -> timers s' !! x = timers s !! x) /\
    calls s' = calls s ++ told /\ (readings s <= readings s')%nat).

(** The visit to an event: the reading of the clock it has been looked at with, its timer
    afterwards, the time it has left then, and what queues were told. *)
Record visit := Visit { event : loc; at_ : nat; final : Timer.t; rest : Z; notice : list call }.

(** An event that is due is disarmed, of which the queue is told, before the program is
    called; what it has left is read when the program has returned.  Another one is left
    alone. *)
Definition visited (s : state) (v : visit) : Prop :=
  let t := timer_of s (event v) in
  if due (clock (at_ v)) t then
    exists s1 s2 t2 told, timers s1 !! event v = Some Timer.clear /\ (at_ v < readings s1)%nat /\
      expired s1 (event v) = Some s2 /\ calls s2 = calls s1 ++ told /\ timers s2 !! event v = Some t2 /\
      notice v = Modify q :: Update q :: told /\
      final v = fst (Timer.update t2) /\ rest v = Timer.get ms (clock (readings s2)) t2
  else final v = t /\ rest v = Timer.get ms (clock (at_ v)) t /\ notice v = [].

(** The events that stay in the queue. *)
Definition stayers (s : state) (vs : list visit) : list loc :=
  map event (List.filter (fun v => negb (due (clock (at_ v)) (timer_of s (event v))) || stays (event v)) vs).

(** Readings of the clock, one behind the other, from [n] on. *)
Fixpoint behind (n : nat) (vs : list visit) : Prop :=
  match vs with [] => True | v :: vs => (n <= at_ v)%nat /\ behind (S (at_ v)) vs end.

Lemma behind_weak vs : forall n m, (n <= m)%nat -> behind m vs -> behind n vs.
Proof. destruct vs as [|v vs]; intros n m Hn; [done|]. intros [H1 H2]. split; [lia|done]. Qed.

Lemma behind_first vs : forall n v, behind n vs -> v ∈ vs -> (n <= at_ v)%nat.
Proof.
  induction vs as [|w vs IH]; intros n v Hb Hv; [by apply elem_of_nil in Hv|]. destruct Hb as [H1 H2].
  apply elem_of_cons in Hv as [->|Hv]; [done|]. specialize (IH _ v H2 Hv). lia.
Qed.

(** One event. *)
Lemma timeout_spec s k1 e k2 : dlist (links s) q (k1 ++ e :: k2) -> (forall x, x ∈ k1 ++ e :: k2 -> is_Some (timers s !! x)) ->
  exists s' v, timeout ms clock expired s e = Some (s', rest v) /\ event v = e /\ at_ v = readings s /\ visited s v /\
    dlist (links s') q (k1 ++ stayers s [v] ++ k2) /\ timers s' !! e = Some (final v) /\
    (forall x, x <> e -> timers s' !! x = timers s !! x) /\ calls s' = calls s ++ notice v /\ (S (readings s) <= readings s')%nat.
Proof.
  intros Hl Ht. destruct (Ht e) as [t He]; [apply elem_of_app; right; left|].
  assert (timer_of s e = t) as Eto by (unfold timer_of; by rewrite He).
  unfold timeout, get. rewrite He. run. cbn [read_clock]. run. cbn [timers]. rewrite He. run.
  fold (due (clock (readings s)) t). destruct (due (clock (readings s)) t) eqn:Ed.
  2: { eexists _, (Visit e (readings s) t (Timer.get ms (clock (readings s)) t) []). split; [done|].
       unfold visited, stayers. cbn [event at_ final rest notice links timers calls readings List.filter map]. rewrite Eto, Ed.
       cbn [negb orb map event app]. rewrite app_nil_r. by split_and!. }
  assert (Timer.is_active t = true) as Ea by (by apply andb_true_iff in Ed as [? _]).
  pose proof Hl as (_ & Hs & _). apply dseg_app in Hs as [_ [(n & Hn & Hr & _) _]].
  unfold disarm, list_of. cbn [links timers]. unfold Linked.get_node. rewrite Hn. run. rewrite He. run. rewrite Ea, Hr. run.
  cbn [told]. set (s1 := tell (with_timer (tell _ (Modify q)) e Timer.clear) (Update q)).
  destruct (expired_runs s1 k1 e k2) as (s2 & t2 & tl & E2 & Hl2 & Ht2 & Ho2 & Hc2 & Hr2); [done| |by apply lookup_insert_eq|].
  { intros x Hx. unfold s1. cbn [timers tell with_timer]. destruct (decide (x = e)) as [->|Hne]; [rewrite lookup_insert_eq; by eexists|].
    rewrite lookup_insert_ne by done. by apply Ht. }
  rewrite E2. run. rewrite Ht2. run. unfold update_timer. cbn [timers]. rewrite Ht2. run.
  change (readings s1) with (S (readings s)) in Hr2.
  eexists _, (Visit e (readings s) (fst (Timer.update t2)) (Timer.get ms (clock (readings s2)) t2) (Modify q :: Update q :: tl)).
  split; [done|]. unfold visited, stayers. cbn [event at_ final rest notice List.filter map]. rewrite Eto, Ed. cbn [negb orb].
  split; [done|]. split; [done|]. split.
  { exists s1, s2, t2, tl. split; [by apply lookup_insert_eq|]. split; [cbn; lia|]. by split_and!. }
  cbn [with_timer links timers calls readings]. split; [by destruct (stays e)|].
  split; [by rewrite lookup_insert_eq|]. split; [|split; [|lia]].
  - intros x Hx. rewrite lookup_insert_ne by done. rewrite Ho2 by done. unfold s1. cbn. by rewrite lookup_insert_ne.
  - rewrite Hc2. unfold s1. cbn. by rewrite <- !app_assoc.
Qed.

(** The first deadline that is to come. *)
Definition soonest (first next : Z) : Z := if negb (next =? 0) && (next <? first) then next else first.

Lemma soonest_spec l : forall first, fold_left soonest l first <= first /\
  (forall r, r ∈ l -> r <> 0 -> fold_left soonest l first <= r) /\
  (fold_left soonest l first = first \/ exists r, r ∈ l /\ r <> 0 /\ fold_left soonest l first = r).
Proof.
  induction l as [|r l IH]; intros first; [split; [apply Z.le_refl|split; [by intros e ?%elem_of_nil|by left]]|].
  cbn [fold_left]. destruct (IH (soonest first r)) as (H1 & H2 & H3).
  assert (soonest first r <= first /\ (r <> 0 -> soonest first r <= r) /\ (soonest first r = first \/ r <> 0 /\ soonest first r = r)) as (Ha & Hb & Hc).
  { unfold soonest. destruct (Z.eqb_spec r 0), (Z.ltb_spec r first); cbn; lia. }
  split; [lia|]. split.
  - intros e [->|He]%elem_of_cons Hr; [specialize (Hb Hr); lia|by apply H2].
  - destruct H3 as [E|(e & He & Hr & E)]; [|right; exists e; split; [by right|done]].
    destruct Hc as [Ec|[Hr Ec]]; [left; congruence|right; exists r; split; [by left|]; split; [done|congruence]].
Qed.

(** A visit looks at nothing of the state but the timer of its event. *)
Lemma visited_same s s' v : timers s !! event v = timers s' !! event v -> visited s v -> visited s' v.
Proof. unfold visited, timer_of. by intros ->. Qed.

Lemma stayers_same s s' vs : (forall v, v ∈ vs -> timers s !! event v = timers s' !! event v) -> stayers s vs = stayers s' vs.
Proof.
  intros Hv. unfold stayers. f_equal. apply filter_ext_in. intros v Hin%list_elem_of_In. unfold timer_of. by rewrite Hv.
Qed.

Lemma stayers_cons s v vs : stayers s (v :: vs) = stayers s [v] ++ stayers s vs.
Proof. unfold stayers. cbn. by case_match. Qed.

Lemma expire_loop_spec k2 : forall fuel s k1 first, dlist (links s) q (k1 ++ k2) -> (length k2 < fuel)%nat ->
  (forall e, e ∈ k1 ++ k2 -> is_Some (timers s !! e)) -> exists s' vs,
  expire_loop ms clock expired fuel s (first_of k2 None) first = Some (s', fold_left soonest (map rest vs) first) /\
  map event vs = k2 /\ Forall (visited s) vs /\ behind (readings s) vs /\ dlist (links s') q (k1 ++ stayers s vs) /\
  (forall v, v ∈ vs -> timers s' !! event v = Some (final v)) /\
  (forall e, e ∉ k2 -> timers s' !! e = timers s !! e) /\ calls s' = calls s ++ concat (map notice vs).
Proof.
  induction k2 as [|x k2 IH]; intros [|fuel] s k1 first Hl Hf Ht; cbn [length] in Hf; try lia.
  - exists s, []. split; [done|]. split; [done|]. split; [constructor|]. split; [done|]. split; [done|].
    split; [by intros v ?%elem_of_nil|]. split; [done|]. by rewrite app_nil_r.
  - destruct (timeout_spec s k1 x k2 Hl Ht) as (s1 & v & E1 & Ev & Ea & Hv & Hl1 & Hx1 & Ho1 & Hc1 & Hr1).
    pose proof Hl as (_ & Hs & Hd). apply dseg_app in Hs as [_ [(n & Hn & _ & _ & Hnx) _]].
    apply list.NoDup_app in Hd as (_ & Hd1 & Hd). apply list.NoDup_cons in Hd as [Hxk Hd].
    cbn [first_of expire_loop]. unfold Linked.get_node. rewrite Hn. run. rewrite E1. run. rewrite Hnx.
    assert (forall e, e ∈ k2 -> timers s1 !! e = timers s !! e) as Hsame by (intros e He; apply Ho1; by intros ->).
    destruct (IH fuel s1 (k1 ++ stayers s [v]) (soonest first (rest v))) as (s2 & vs & E2 & Em & Hvs & Hb & Hl2 & Ht2 & Ho2 & Hc2).
    { by rewrite <- app_assoc. } { lia. }
    { intros e He. destruct (decide (e = x)) as [->|Hne]; [rewrite Hx1; by eexists|]. rewrite Ho1 by done. apply Ht.
      apply elem_of_app in He as [[He|He]%elem_of_app|He]; apply elem_of_app; [by left| |right; by right].
      unfold stayers in He. cbn in He. case_match; [|by apply elem_of_nil in He].
      apply list_elem_of_singleton in He. congruence. }
    assert (forall w, w ∈ vs -> event w ∈ k2) as Hin by (intros w Hw; rewrite <- Em; by apply list_elem_of_fmap_2).
    assert (forall w, w ∈ vs -> timers s1 !! event w = timers s !! event w) as Hsv by (intros w Hw; by apply Hsame, Hin).
    exists s2, (v :: vs). fold (soonest first (rest v)). split; [exact E2|]. split; [cbn; by rewrite Ev, Em|].
    split; [|split; [|split; [|split; [|split]]]].
    + constructor; [done|]. apply Forall_forall. intros w Hw%list_elem_of_In. rewrite Forall_forall in Hvs.
      apply (visited_same s1); [by apply Hsv|]. by apply Hvs, list_elem_of_In.
    + cbn [behind]. rewrite Ea. split; [lia|]. by apply (behind_weak vs _ (readings s1)).
    + rewrite stayers_cons, app_assoc. by rewrite <- (stayers_same s1 s vs).
    + intros w [->|Hw]%elem_of_cons; [|by apply Ht2]. rewrite Ho2 by (by rewrite Ev). by rewrite Ev.
    + intros e He. rewrite not_elem_of_cons in He. destruct He as [H1 H2]. rewrite Ho2 by done. by apply Ho1.
    + rewrite Hc2, Hc1. cbn [map concat]. by rewrite app_assoc.
Qed.

(** C40.  [expire] visits all events of the queue once and in order, each with a reading of
    the clock of its own.  One that is due then is disarmed, of which the queue is told,
    before [expired] is called, which may arm it again, leave it or take it out of the
    queue; one that is not due is left alone.  What [expire] returns is the least time
    that was left to an event behind its visit, and [inf] when there is none.  With a
    clock that does not go back every event that is due at the first reading is due at
    its visit.  The theorem is about functions [expired] of the program as
    [expired_runs] describes them: one that deletes its event, changes the timers of
    other events, takes out events that come later or puts new ones behind them is not
    covered. *)
Theorem timer_expire (s : state) (l : list loc) : dlist (links s) q l -> (forall e, e ∈ l -> is_Some (timers s !! e)) ->
  exists s' first vs, expire ms clock expired s q = Some (s', first) /\
  map event vs = l /\ Forall (visited s) vs /\ behind (readings s) vs /\
  (forall v, v ∈ vs -> timers s' !! event v = Some (final v)) /\ (forall e, e ∉ l -> timers s' !! e = timers s !! e) /\
  dlist (links s') q (stayers s vs) /\ calls s' = calls s ++ concat (map notice vs) /\
  (forall v, v ∈ vs -> rest v <> 0 -> first <= rest v) /\
  (first = Timer.inf \/ exists v, v ∈ vs /\ rest v <> 0 /\ first = rest v) /\
  ((forall i, normal (clock i)) -> (forall i j, (i <= j)%nat -> units (clock i) <= units (clock j)) ->
   forall v, v ∈ vs -> let t := timer_of s (event v) in
     normal (timer t) -> units (timer t) - units (clock (readings s)) < 2 ^ 63 * ms ->
     due (clock (readings s)) t = true -> due (clock (at_ v)) t = true).
Proof.
  intros Hl Ht. pose proof Hl as (Hi & Hs & _). unfold expire. rewrite Hi. run. cbn [head].
  destruct (expire_loop_spec l (chain_fuel (links s)) s [] Timer.inf Hl) as (s' & vs & E & Em & Hvs & Hb & Hl' & Ht' & Ho & Hc); [|done|].
  { eapply lst_fuel. by eapply dseg_lst. }
  destruct (soonest_spec (map rest vs) Timer.inf) as (_ & H4 & H5).
  exists s', (fold_left soonest (map rest vs) Timer.inf), vs. split_and!; try done.
  - intros v Hv. apply H4. by apply list_elem_of_fmap_2.
  - destruct H5 as [->|(r & Hr & Hr0 & ->)]; [by left|]. right. apply list_elem_of_fmap in Hr as (v & -> & Hv). by exists v.
  - intros Hn Hm v Hv Htn Hfar Hd. eapply due_later; [apply Hn|apply Hn|done| |exact Hfar|exact Hd].
    by apply Hm, (behind_first vs).
Qed.

End queue.

(** *** Programs that arm, or take out, their events *)

Section program.
Import TimerQueue.
Context (clock : nat -> time) (q : loc).

Inductive deed := Rest | Again (to : Z) | Leave.

Definition program (deeds : loc -> deed) (s : state) (e : loc) : option state :=
  match deeds e with Rest => Some s | Again to => arm ms clock s e to | Leave => detach s e end.

Definition remains (deeds : loc -> deed) (e : loc) : bool := match deeds e with Leave => false | _ => true end.

Lemma set_timer_spec s e to : exists t, timers (set_timer ms clock s e to) = <[e := t]> (timers s) /\
  links (set_timer ms clock s e to) = links s /\ calls (set_timer ms clock s e to) = calls s /\
  (readings s <= readings (set_timer ms clock s e to))%nat.
Proof.
  unfold set_timer, read_clock. destruct (Timer.is_active _); eexists; cbn; (split; [done|]); (split; [done|]); (split; [done|lia]).
Qed.

Lemma program_runs deeds s k1 e k2 : dlist (links s) q (k1 ++ e :: k2) ->
  (forall x, x ∈ k1 ++ e :: k2 -> is_Some (timers s !! x)) -> timers s !! e = Some Timer.clear ->
  exists s' t told, program deeds s e = Some s' /\
    dlist (links s') q (k1 ++ (if remains deeds e then [e] else []) ++ k2) /\
    timers s' !! e = Some t /\ (forall x, x <> e -> timers s' !! x = timers s !! x) /\
    calls s' = calls s ++ told /\ (readings s <= readings s')%nat.
Proof.
  intros Hl Ht He. pose proof Hl as (_ & Hs & _). apply dseg_app in Hs as [_ [(n & Hn & Hr & _) _]].
  assert (list_of s e = Some (Some q)) as Er by (unfold list_of, Linked.get_node; rewrite Hn; run; by rewrite Hr).
  unfold program, remains. destruct (deeds e) as [|to|].
  - exists s, Timer.clear, []. by rewrite app_nil_r.
  - unfold arm. rewrite Er. run. cbn [told]. destruct (set_timer_spec (tell s (Modify q)) e to) as (t & E1 & E2 & E3 & E4).
    eexists _, t, [Modify q; Update q]. split; [done|]. cbn [tell links timers calls readings]. rewrite E1, E2, E3.
    split; [done|]. split; [by rewrite lookup_insert_eq|]. split; [intros x Hx; by rewrite lookup_insert_ne|].
    split; [cbn; by rewrite <- app_assoc|exact E4].
  - destruct (ddelist_spec _ q k1 e k2 Hl) as (m0 & n0 & E0 & Hk0 & _).
    unfold detach. rewrite Er. run. cbn [links with_timer tell]. rewrite E0. run.
    eexists _, Timer.clear, [Modify q; Update q]. split; [done|]. cbn [tell with_links with_timer links timers calls readings].
    split; [done|]. split; [by rewrite lookup_insert_eq|]. split; [intros x Hx; by rewrite lookup_insert_ne|].
    split; [by rewrite <- app_assoc|done].
Qed.

End program.

End clock.

(** ** Queues and events *)

Section moves.
Import TimerQueue.

(** An event goes from one queue to the end of another, or out of its queue; its timer
    is cleared, and both queues are told. *)
Lemma timer_moves (s : state) (q q' e : loc) (l k1 k2 : list loc) (t : Timer.t) :
  dlist (links s) q' l -> dlist (links s) q (k1 ++ e :: k2) -> q <> q' -> (forall x, x ∈ l -> x ∉ k1 ++ e :: k2) ->
  timers s !! e = Some t ->
  (exists s', attach s e (Some q') = Some s' /\ dlist (links s') q' (l ++ [e]) /\ dlist (links s') q (k1 ++ k2) /\
    timers s' = <[e := Timer.clear]> (timers s) /\ calls s' = calls s ++ [Modify q; Update q; Modify q'; Update q']) /\
  (exists s', detach s e = Some s' /\ dlist (links s') q (k1 ++ k2) /\ dlist (links s') q' l /\
    timers s' = <[e := Timer.clear]> (timers s) /\ calls s' = calls s ++ [Modify q; Update q]).
Proof.
  intros Hl Hk Hq Hdis Ht. destruct (ddelist_spec _ q k1 e k2 Hk) as (m0 & n0 & E0 & Hk0 & Hn0 & (Hr0 & _) & Fn & Fi).
  assert (list_of s e = Some (Some q)) as Er.
  { destruct Hk as (_ & Hs & _). apply dseg_app in Hs as [_ [(n & Hn & Hr & _) _]]. unfold list_of, Linked.get_node. rewrite Hn. run. by rewrite Hr. }
  assert (dlist m0 q' l) as Hl0 by (eapply dlist_frame; [exact Hl|by apply Fi|]; intros x Hx; by apply Fn, Hdis).
  assert (e ∉ l) as Hout by (intros H; eapply Hdis; [exact H|]; apply elem_of_app; right; left).
  assert (detach s e = Some (tell (with_links (with_timer (tell s (Modify q)) e Timer.clear) m0) (Update q))) as Ed.
  { unfold detach. rewrite Er. run. cbn [links with_timer tell]. by rewrite E0. }
  assert (NoDup (k1 ++ e :: k2)) as Hd by apply Hk. apply list.NoDup_app in Hd as (_ & Hk1 & Hd). apply list.NoDup_cons in Hd as [Hk2 _].
  split.
  - destruct (attach_tail m0 m0 e q' l n0 (ddelist_none _ _ _ Hn0 Hr0) Hn0 Hl0 Hout) as (m1 & E1 & Hl1 & Fn1 & Fi1).
    unfold attach. rewrite Er. run. rewrite decide_False by congruence. rewrite Ed. run. cbn [links with_links tell with_timer].
    change DLinkedObject.enlist with DLinkedObject.enlistTail. rewrite E1. run. unfold update_timer. cbn [timers with_links tell with_timer].
    rewrite lookup_insert_eq. run. eexists. split; [done|]. cbn [links timers calls tell with_timer with_links]. split; [done|]. split; [|split].
    + eapply dlist_frame; [exact Hk0|by apply Fi1|]. intros x Hx. apply Fn1. intros [Hx2|?%list_elem_of_singleton]%elem_of_app; [|subst x].
      * apply (Hdis _ Hx2). apply elem_of_app in Hx as [?|?]; apply elem_of_app; [by left|right; by right].
      * apply elem_of_app in Hx as [H|H]; [by apply (Hk1 e H); left|done].
    + by rewrite insert_insert_eq.
    + by rewrite <- !app_assoc.
  - rewrite Ed. eexists. split; [done|]. cbn [links timers calls tell with_timer with_links]. split; [done|]. split; [done|]. split; [done|]. by rewrite <- !app_assoc.
Qed.

End moves.

(** ** Samples *)

Lemma timer_deadline_witness :
  let s := Timer.set_timeout 1000 (Time 10 200000) (Time 10 200000) 2500 in
  Timer.get 1000 (Time 10 200000) s = 2500 /\ Timer.get 1000 (Time 10 200000) (Timer.add 1000 (Time 10 200000) s 100) = 2600 /\
  Timer.get 1000 (Time 12 700001) s = 0.
Proof.
  assert (running 1000 (Time 10 200000)) as Hr by (split; [split; [discriminate|reflexivity]|reflexivity]).
  destruct (timer_deadline 1000 eq_refl (Time 10 200000) (Time 10 200000) (Time 12 700001) 2500 100 Hr) as (H1 & H2 & H3 & _);
    [split; [discriminate|reflexivity]..|discriminate|].
  split; [exact H1|]. split; [exact H2|]. apply H3. reflexivity.
Defined.

(** Two events in the queue 8, of which the first is due. *)
Definition tsample : TimerQueue.state :=
  TimerQueue.State dsample (<[1%positive := Timer.Mk (Time 10 0) true]> (<[2%positive := Timer.Mk (Time 12 0) false]> ∅)) 0 [].

(** Each reading is a millisecond later. *)
Definition ticking (i : nat) : time := Time 11 (1000 * Z.of_nat i).

(** The program arms the first event again, for 500 milliseconds; the second would leave. *)
Definition again (e : loc) : deed := if decide (e = 1%positive) then Again 500 else Leave.

Lemma timer_expire_witness : exists s' first,
  TimerQueue.expire 1000 ticking (program 1000 ticking again) tsample 8%positive = Some (s', first) /\
  first <= 499 /\ TimerQueue.timers s' !! 1%positive = Some (Timer.Mk (Time 11 501000) false) /\
  TimerQueue.timers s' !! 2%positive = Some (Timer.Mk (Time 12 0) false) /\
  dlist (TimerQueue.links s') 8%positive [1%positive; 2%positive].
Proof.
  destruct (timer_expire 1000 eq_refl ticking 8%positive (program 1000 ticking again) (remains again)
    (program_runs 1000 ticking 8%positive again) tsample [1%positive; 2%positive] (proj1 dsample_dlist))
    as (s' & first & vs & E & Em & Hvs & Hb & Ht & Ho & Hl & Hc & Hle & Hf & Hm).
  - intros e H. repeat (apply elem_of_cons in H as [->|H]; [eexists; reflexivity|]). by apply elem_of_nil in H.
  - exists s', first. split; [exact E|]. vm_compute in E. injection E as <- <-. split; [discriminate|].
    split; [reflexivity|]. split; [reflexivity|].
    apply dsample_dlist.
Defined.

(** Taking half a second from a timer whose fraction is less moves the deadline later,
    since [adj] drops the sign of the fraction and takes no second for it. *)
Example sub_later : Timer.timer (Timer.sub 1000 (Time 1 0) (Timer.Mk (Time 10 200000) false) 500) = Time 10 300000.
Proof. reflexivity. Qed.

(** With less than a millisecond left a timer has expired. *)
Example expired_early : Timer.expired 1000 (Time 10 0) (Timer.Mk (Time 10 999) false) = true.
Proof. reflexivity. Qed.

(** An event that is armed and then attached to a queue is no more armed, and without a
    queue it still is. *)
Example attach_clears : (fun s => TimerQueue.timers s !! 1%positive) <$> TimerQueue.attach tsample 1%positive (Some 9%positive) = Some (Some Timer.clear).
Proof. reflexivity. Qed.
